(* ===== verification/_CoqProject ===== *)
-Q . S2P
Prelude.v
Types.v
MemPool.v
LFQueue.v
QueueThreads.v
CircList.v
EngineSink.v
BookSpec.v
BookSweep.v
MEOrderBook.v
BookRep.v
BookPtr.v
BookLevels.v
BookFrame.v
BookRemove.v
BookAdd.v
BookMatch.v
BookRefine.v
BookTheorems.v
BookCancel.v
BookInv.v
BookReplay.v
BookGuarantees.v
MatchingEngine.v
ClientView.v
ClientRequests.v
Wire.v
Socket.v
TcpServer.v
SocketUtils.v
BookTypes.v
RecvFrames.v
OrderServer.v
OrderGateway.v
MarketStream.v
SnapshotSynthesizer.v
MarketDataPublisher.v
MarketDataConsumer.v
MarketOrderBook.v
MarketBookSim.v
MarketBookSpec.v
MarketBookTheorems.v
MarketMirror.v
TradingMirror.v
Double.v
PositionKeeper.v
RiskManager.v
OrderManager.v
FeatureEngine.v
Algorithms.v
TradeEngine.v
OrderSafety.v
TradingSafety.v
TradingLoop.v
OrderTraffic.v
OrderProtocol.v
ClientLink.v
ClosedLoop.v
ClosedMarket.v
MarketPipeline.v
OrderPath.v
System.v
LateJoin.v
MainPrograms.v
UnorderedBook.v
UnorderedSim.v
UnorderedTheorems.v
BookPrint.v
BookPrintSpec.v
StrategyPrint.v
Logger.v
LoggerSpec.v
LatencyRecorder.v
Examples.v
ExamplesSession.v
ExamplesMarket.v
ExamplesTrading.v
ExamplesMirror.v
ExamplesLoop.v
ExamplesPrint.v
