(* ===== verification/Prelude.v ===== *)
(** * A low-latency exchange and its trading clients: the verified model

    The program is a stock exchange and the participants that trade on it.  Paths are relative to
    src/.

    ** The parts and how they interact

    On the exchange's side the order server (exchange/order_server) receives the clients' requests
    over TCP, sequences them and queues them for the matching engine (exchange/matcher), which keeps
    a limit order book per ticker; its responses return through the order server, and its updates
    go to the market data publisher (exchange/market_data), which multicasts them and feeds the
    snapshot synthesizer.  On a participant's side the market data consumer (trading/market_data)
    restores the stream, the trade engine (trading/strategy) keeps a book per ticker and runs an
    algorithm under position and risk limits, and the order gateway (trading/order_gw) is the other
    end of the TCP session.  The components of a side are threads that share nothing but
    single-producer single-consumer queues (common/lf_queue.h).

    ** What models what

    A method of the program is a function of the same name, with a prefix where two classes share the
    name (mb_ for the trading book, um_ for the unordered book, mdp_, mdc_, ss_, os_, og_, te_, pk_,
    fe_, om_, mm_, lt_).  State is passed explicitly in the monad [M] below, and everything that ends
    or corrupts the process is a value of [fault].  Integers are [Z] and wrap where the code's types do.

    - Foundations: this file; Types.v (common/types.h, common/macros.h and the messages of
      exchange/order_server and exchange/market_data); MemPool.v (common/mem_pool.h,
      common/opt_mem_pool.h); LFQueue.v (common/lf_queue.h, the
      operations one at a time), QueueThreads.v (the same file, the steps of its two threads
      interleaved); CircList.v (lemmas on circular lists).
    - The matching engine's book: EngineSink.v is the interface between a book and the engine;
      MEOrderBook.v is the code of me_order.h, me_order_book.h and me_order_book.cpp, with pointers
      as indices into memory pools; BookSpec.v the abstract book, lists of price levels without
      pointers.  BookRep.v to BookCancel.v prove that the pointer code implements the abstract
      book; BookSweep.v and BookInv.v to BookReplay.v reason on the abstract book alone;
      BookGuarantees.v carries the results to the code.  MatchingEngine.v is matching_engine.h and
      matching_engine.cpp, with the two queues as an implementation of the interface.
    - The same book on unordered maps: UnorderedBook.v (unordered_map_me_order_book.h and .cpp),
      UnorderedSim.v and UnorderedTheorems.v.
    - The TCP path: Wire.v (the bytes of the messages), Socket.v (common/tcp_socket.h and .cpp,
      common/mcast_socket.h and .cpp), TcpServer.v (common/tcp_server.h and .cpp), SocketUtils.v
      (common/socket_utils.h, common/thread_utils.h: the system calls they make), RecvFrames.v (the
      receive loop that both ends share), BookTypes.v (what the engine writes fits the wire),
      OrderServer.v (order_server.h and .cpp, fifo_sequencer.h),
      OrderGateway.v (order_gateway.h and .cpp) and the session between the two ends.
    - The market data path: MarketStream.v (what the streams mean), MarketDataPublisher.v,
      SnapshotSynthesizer.v, MarketDataConsumer.v (with its use of std::map).
    - The trading side's book: MarketOrderBook.v (market_order.h, market_order_book.h and .cpp),
      MarketBookSim.v, which reads it as a matching engine's book so that the proofs above serve it
      too, MarketBookSpec.v and MarketBookTheorems.v; MarketMirror.v and TradingMirror.v, which compare
      this book with the exchange's.
    - The strategy: Double.v (binary64, and when it does not round), PositionKeeper.v, RiskManager.v, OrderManager.v (om_order.h,
      order_manager.h and .cpp), FeatureEngine.v, Algorithms.v (market_maker.h and .cpp,
      liquidity_taker.h and .cpp), TradeEngine.v; OrderSafety.v, TradingSafety.v and TradingLoop.v are its proofs.
    - A client and its exchange: ClientView.v (what a participant sees of the matching),
      ClientRequests.v (what a request does to the orders of a client, requests and answers of one
      order), OrderTraffic.v (what the order manager sends), OrderProtocol.v (the states
      that one order, its messages on their way and the book can be in together), ClientLink.v (all
      orders of a client), ClosedLoop.v (the steps of the two and of everybody else, with any market
      data that fits) and ClosedMarket.v (the same with the market data of the exchange).
    - The threads composed: MarketPipeline.v (engine, publisher, consumer and trade engine, a round of
      each), OrderPath.v (gateway, TCP, order server, sequencer, engine and back), System.v (all threads of
      the exchange and a participant; a round of them is a sequence of steps of ClosedMarket.v), LateJoin.v
      (a participant that joins an exchange that has been running, through a snapshot).
    - Printing of the books: BookPrint.v is the method toString of the three books, over a class of
      readers that each book instantiates, and of their orders and levels (me_order.h, me_order.cpp,
      market_order.h, market_order.cpp); BookPrintSpec.v is the text of an abstract book; StrategyPrint.v
      is the printing of positions, risk records and configurations (position_keeper.h, risk_manager.h,
      common/types.h).
    - The main programs (exchange/exchange_main.cpp, trading/trading_main.cpp): MainPrograms.v constructs,
      starts and stops the components as they do, and has the signal handler, the loop over the
      arguments and the random trader; the system of System.v is what the two programs start.
    - Measurement: Logger.v and LoggerSpec.v (common/logging.h, common/opt_logging.h),
      LatencyRecorder.v (common/latency_recorder.h, common/tsc_clock.h, common/time_utils.h, the round-trip time of an
      order that order_gateway.cpp measures, and the time from a market update to the first request that
      trade_engine.cpp measures).
    - Examples.v, ExamplesSession.v, ExamplesMarket.v, ExamplesTrading.v, ExamplesLoop.v,
      ExamplesMirror.v and ExamplesPrint.v instantiate the theorems on small configurations, and show the
      faults on concrete inputs.

    ** What the theorems show

    - Refinement: add, cancel and the engine's loop send exactly the messages of the abstract book
      and end in books that implement it, without a fault; so does the book on unordered maps; the
      trading book follows the market data, its best bid and offer included, and fed by a run of the engine
      it is the image of the engine's book.
    - Guarantees of the abstract book and of the code: price-time priority, conservation of quantity,
      well-formed and uncrossed books, and published updates from which the live orders can be
      rebuilt.
    - Sessions: what one end of a TCP connection sends the other receives, once, in order and in whole
      messages, however the kernel cuts the bytes; sequencing keeps the requests.
    - Composition: after a round of the threads on the market data path every book of the trade engine is
      the image of the exchange's; what a gateway sends is executed by the engine and answered to it, in
      order, through bytes that the kernel cuts as it likes.  The two programs, started by their main
      functions, run round after round of all threads, admissible requests of other clients in between, without a
      fault: the engine's books are those of the specification, the snapshot synthesizer shows exactly their orders, the
      participant's books are their images, its limits are kept, and its own requests are admissible
      without an assumption but that the exchange's tables have room.  A participant that starts later
      and has missed updates recovers through a snapshot, in whatever way the messages of the two streams
      are interleaved before the end of the snapshot, if no update that it shows comes after its end, and is in
      step as if it had seen all: since a book's queues are in the order of the
      order ids (BookInv.v), a snapshot by ascending ids restores time priority too.
    - Market data: the publisher forwards all; the snapshot is the state of the stream; a consumer that
      is not recovering has the exchange's state, whatever was lost, as long as it has not mixed the messages of two
      snapshot cycles, and recovery completes.
    - Trading: positions are the sums of the executions; the pre-trade check is exact; whatever the
      order of prices, answers and executions, no position leaves its limit; a round of the engine's
      thread handles everything queued; the random trader sends well-formed requests.
    - The closed loop: between a trade engine and the abstract exchange, to which others send any requests that
      its books admit, the answers are the ones that the order manager waits for and the market data fits, so that
      the limits hold without an assumption on either, a client has at most four requests per ticker on
      their way, and its books are images of the exchange's books.
    - Printing: each book prints the text of the abstract book that it implements, and ends.
    - The environment: a socket is created by the calls that its configuration asks for, in order, or
      the process ends (a failed F_GETFL apart, which is taken for success); measuring changes nothing of what a gateway or a trade engine does, and takes one
      sample per order or per update that caused a request.
    - Foundations: pools and queues within their capacity; the two threads of a queue do not race and lose
      nothing in any interleaving; messages keep their types; logged lines are their format strings.
    - Faults: where the code does not do what it means to, a theorem shows the input.

    ** Bounds and fuel

    The sizes of common/types.h are the class [Limits]; theorems hold for every value that satisfies
    their stated bounds, the examples use small ones.  Loops over pointers take the size of the pool
    as fuel, loops over queues the number of elements: a list in a pool cannot be longer than the
    pool, and a queue is drained by as many reads as it has elements; the theorems say that these
    loops end.  The loops that wait for other threads are modelled one round at a time.

    ** What is assumed

    Hypotheses speak of the environment: what the kernel returns (no more bytes than asked for, in
    order), that std::sort sorts, that a client of the exchange or of a queue keeps within capacities,
    that market data fits the book it is applied to (MarketBookSpec.v), and, in TradingSafety.v, that
    answers of the exchange conform to the orders sent (OrderSafety.v), which ClosedLoop.v proves of
    an exchange that runs the abstract book and is reached through channels that keep the order of
    the messages, while the 64-bit order ids last; ClosedMarket.v proves the same of the market data,
    while prices stay below 2^30 in absolute value and the exchange's market order ids within the trading side's table.
    In MarketPipeline.v the network loses nothing; in OrderPath.v it cuts the bytes arbitrarily.  In System.v
    both hold, requests of one read arrive at increasing times, queues, tables and buffers have room for a
    round, and other clients and what they send are the environment, which sends requests that the books admit
    (MatchingEngine.v: a known ticker, BUY or SELL, an order id that is not live, a free price slot, ids within
    the arrays).  In LateJoin.v the network loses nothing from the first update that the participant receives on,
    and no update that the snapshot shows comes after the SNAPSHOT_END.  In MainPrograms.v the memory of the
    exchange's books is zeroed when they are allocated: the production constructor of MEOrderBook does not clear
    cid_oid_to_order_, which cancel reads, and the array, of gigabytes, is in pages that the kernel hands out
    zeroed; Examples.v shows a cancel that faults in other memory.

    ** What is not modelled

    Weak memory: the two threads of a queue are interleaved at every access of an atomic, in sequentially
    consistent order, which is what the default of std::atomic gives; the rest of a component is one
    thread and sequential.  System calls, clocks and random numbers are arguments.  The
    sleeping and the idle loops of the main programs, the observers that
    LLT_TICK_TO_KERNEL_SEND_STAGE_DIAGNOSTIC adds, the examples and the benchmarks themselves are left out.
    How a stream prints a floating-point number is an argument of the loggers.

    ** Plan

    Next: several participants in the system of System.v at once.  A recovery in the middle of a session
    cannot keep the books in step: a CLEAR of a trading book that holds orders leaves its tables
    inconsistent (market_order_book.cpp, the case of CLEAR), so MarketBookSpec.v admits it for a book
    without orders only, which is what a late join needs. *)

(** * Shared prelude: faults, the state-error monad, machine integers *)
From stdpp Require Export base tactics numbers list option gmap.
From stdpp Require Export fin_maps fin_map_dom strings pretty sorting.
From Stdlib Require Export ZArith Lia.

#[global] Set Default Goal Selector "!".

Declare Scope llt_scope.
Delimit Scope llt_scope with llt.
#[global] Open Scope string_scope.
#[global] Open Scope list_scope.
#[global] Open Scope Z_scope.


(** ** Faults

    How a component can stop making progress.  [AssertFailed] and [FatalExit]
    are the process exits of ASSERT and FATAL (common/macros.h); [OutOfRange] is a
    checked [.at()] that throws inside a [noexcept] function, which calls
    std::terminate; [NullDeref] and [WildDeref] are the undefined behaviours of
    dereferencing nullptr and of an access outside an array; [Diverges] is the
    answer of a loop whose fuel is used up. *)
Inductive fault :=
  | AssertFailed
  | FatalExit
  | OutOfRange
  | NullDeref
  | WildDeref
  | SignedOverflow
  | Diverges.

#[export] Instance fault_eq_dec : EqDecision fault.
Proof. solve_decision. Defined.

Inductive result (A : Type) :=
  | Ok (a : A)
  | Err (f : fault).
Arguments Ok {A} a.
Arguments Err {A} f.

#[export] Instance result_ret : MRet result := λ A a, Ok a.
#[export] Instance result_bind : MBind result := λ A B f m,
  match m with Ok a => f a | Err e => Err e end.

(** A fallible computation over a state of type [S]. *)
Definition M (S A : Type) : Type := S → result (A * S).
#[export] Instance M_ret {S} : MRet (M S) := λ A a s, Ok (a, s).
#[export] Instance M_bind {S} : MBind (M S) := λ A B f m s,
  match m s with Ok (a, s') => f a s' | Err e => Err e end.

Section monad_ops.
Context {S : Type}.

Definition gets {A} (f : S → A) : M S A := λ s, Ok (f s, s).
Definition modify (f : S → S) : M S unit := λ s, Ok (tt, f s).
Definition throw {A} (e : fault) : M S A := λ _, Err e.
Definition lift {A} (r : result A) : M S A := λ s,
  match r with Ok a => Ok (a, s) | Err e => Err e end.
(** common/macros.h: ASSERT exits the process when the condition is false, FATAL always. *)
Definition ASSERT (cond : bool) : M S unit :=
  if cond then mret tt else throw AssertFailed.
Definition FATAL {A} : M S A := throw FatalExit.
End monad_ops.

(** Total correctness of a computation from a state: it does not fault, and its
    value and final state satisfy the postcondition. *)
Definition wp {S A} (m : M S A) (s : S) (Q : A → S → Prop) : Prop :=
  match m s with Ok (a, s') => Q a s' | Err _ => False end.

Section wp_rules.
Context {S : Type}.

Lemma wp_ret {A} (a : A) (s : S) (Q : A → S → Prop) :
  Q a s → wp (mret a) s Q.
Proof. done. Qed.

Lemma wp_bind {A B} (m : M S A) (f : A → M S B) (s : S) (Q : B → S → Prop) :
  wp m s (λ a s', wp (f a) s' Q) → wp (m ≫= f) s Q.
Proof.
  unfold wp, mbind, M_bind. destruct (m s) as [[a s']|e]; done.
Qed.

Lemma wp_mono {A} (m : M S A) (s : S) (Q Q' : A → S → Prop) :
  wp m s Q → (∀ a s', Q a s' → Q' a s') → wp m s Q'.
Proof. unfold wp. destruct (m s) as [[a s']|e]; auto. Qed.

Lemma wp_gets {A} (f : S → A) (s : S) (Q : A → S → Prop) :
  Q (f s) s → wp (gets f) s Q.
Proof. done. Qed.

Lemma wp_modify (f : S → S) (s : S) (Q : unit → S → Prop) :
  Q tt (f s) → wp (modify f) s Q.
Proof. done. Qed.

Lemma wp_lift {A} (r : result A) (a : A) (s : S) (Q : A → S → Prop) :
  r = Ok a → Q a s → wp (lift r) s Q.
Proof. intros -> ?. done. Qed.

Lemma wp_ASSERT (c : bool) (s : S) (Q : unit → S → Prop) :
  c = true → Q tt s → wp (ASSERT c) s Q.
Proof. intros -> ?. done. Qed.

Lemma wp_Ok {A} (m : M S A) (s : S) (Q : A → S → Prop) :
  wp m s Q ↔ ∃ a s', m s = Ok (a, s') ∧ Q a s'.
Proof.
  unfold wp. split.
  - destruct (m s) as [[a s']|e]; [eauto | done].
  - intros (a & s' & -> & HQ). done.
Qed.

(** Partial correctness: if the computation does not fault, the postcondition holds. *)
Definition wlp {A} (m : M S A) (s : S) (Q : A → S → Prop) : Prop :=
  match m s with Ok (a, s') => Q a s' | Err _ => True end.

Lemma wlp_ret {A} (a : A) (s : S) (Q : A → S → Prop) : Q a s → wlp (mret a) s Q.
Proof. done. Qed.

Lemma wlp_bind {A B} (m : M S A) (f : A → M S B) (s : S) (Q : B → S → Prop) :
  wlp m s (λ a s', wlp (f a) s' Q) → wlp (m ≫= f) s Q.
Proof. unfold wlp, mbind, M_bind. destruct (m s) as [[a s']|e]; done. Qed.

Lemma wlp_mono {A} (m : M S A) (s : S) (Q Q' : A → S → Prop) :
  wlp m s Q → (∀ a s', Q a s' → Q' a s') → wlp m s Q'.
Proof. unfold wlp. destruct (m s) as [[a s']|e]; auto. Qed.

Lemma wlp_gets {A} (f : S → A) (s : S) (Q : A → S → Prop) : Q (f s) s → wlp (gets f) s Q.
Proof. done. Qed.

Lemma wlp_modify (f : S → S) (s : S) (Q : unit → S → Prop) : Q tt (f s) → wlp (modify f) s Q.
Proof. done. Qed.

Lemma wlp_throw {A} (e : fault) (s : S) (Q : A → S → Prop) : wlp (throw e) s Q.
Proof. done. Qed.

Lemma wlp_lift {A} (r : result A) (s : S) (Q : A → S → Prop) : (∀ a, r = Ok a → Q a s) → wlp (lift r) s Q.
Proof. unfold wlp, lift. destruct r; auto. Qed.

Lemma wlp_Ok {A} (m : M S A) (s s' : S) (a : A) (Q : A → S → Prop) : wlp m s Q → m s = Ok (a, s') → Q a s'.
Proof. unfold wlp. intros Hm E. by rewrite E in Hm. Qed.
End wp_rules.

(** ** Machine integers *)

Definition u8 (z : Z) : Z := z `mod` 2 ^ 8.
Definition u32 (z : Z) : Z := z `mod` 2 ^ 32.
Definition u64 (z : Z) : Z := z `mod` 2 ^ 64.
(** Conversion to a signed w-bit integer (two's complement, C++20). *)
Definition to_signed (w z : Z) : Z := (z + 2 ^ (w - 1)) `mod` 2 ^ w - 2 ^ (w - 1).
Definition i32 (z : Z) : Z := to_signed 32 z.
Definition i64 (z : Z) : Z := to_signed 64 z.
Definition in_i32 (z : Z) : bool := (- 2 ^ 31 <=? z) && (z <? 2 ^ 31).
Definition in_i64 (z : Z) : bool := (- 2 ^ 63 <=? z) && (z <? 2 ^ 63).
Definition is_u32 (z : Z) : Prop := 0 ≤ z < 2 ^ 32.
Definition is_u64 (z : Z) : Prop := 0 ≤ z < 2 ^ 64.

Lemma u32_small z : is_u32 z → u32 z = z.
Proof. apply Z.mod_small. Qed.
Lemma u64_small z : is_u64 z → u64 z = z.
Proof. apply Z.mod_small. Qed.
Lemma u32_range z : is_u32 (u32 z).
Proof. apply Z.mod_pos_bound. lia. Qed.
Lemma u64_range z : is_u64 (u64 z).
Proof. apply Z.mod_pos_bound. lia. Qed.

(** ** Strings *)
Definition endl : string := String (Ascii.ascii_of_nat 10) EmptyString.

Fixpoint cat (ss : list string) : string := match ss with [] => EmptyString | s :: ss => s +:+ cat ss end.

Lemma append_cons c (a b : string) : String c a +:+ b = String c (a +:+ b).
Proof. done. Qed.
Lemma append_assoc (a b c : string) : (a +:+ b) +:+ c = a +:+ b +:+ c.
Proof. induction a as [|x a IH]; [done|]. by rewrite !append_cons, IH. Qed.
Lemma append_nil (a : string) : a +:+ EmptyString = a.
Proof. induction a as [|x a IH]; [done|]. by rewrite append_cons, IH. Qed.
Lemma cat_app l1 l2 : cat (l1 ++ l2) = cat l1 +:+ cat l2.
Proof. induction l1 as [|s l1 IH]; cbn; [done|]. by rewrite IH, append_assoc. Qed.
