(* ===== verification/Types.v ===== *)
(** * Common types, limits and wire messages

    common/types.h, exchange/order_server/client_request.h, client_response.h and
    exchange/market_data/market_update.h.  Every integer typedef is a [Z]; where the
    code does arithmetic on it the wrap-around of its width is written out. *)
From S2P Require Import Prelude.
(** ** Limits (common/types.h): the compile-time capacities, overridable by -D macros. *)
Class Limits := {
  ME_MAX_TICKERS : Z;
  ME_MAX_CLIENT_UPDATES : Z;
  ME_MAX_MARKET_UPDATES : Z;
  ME_MAX_NUM_CLIENTS : Z;
  ME_MAX_ORDER_IDS : Z;
  ME_MAX_PRICE_LEVELS : Z
}.

(** The values used when no macro is given. *)
Definition default_limits : Limits := {|
  ME_MAX_TICKERS := 8;
  ME_MAX_CLIENT_UPDATES := 256 * 1024;
  ME_MAX_MARKET_UPDATES := 256 * 1024;
  ME_MAX_NUM_CLIENTS := 256;
  ME_MAX_ORDER_IDS := 1024 * 1024;
  ME_MAX_PRICE_LEVELS := 256
|}.

Definition OrderId_INVALID : Z := 2 ^ 64 - 1.
Definition TickerId_INVALID : Z := 2 ^ 32 - 1.
Definition ClientId_INVALID : Z := 2 ^ 32 - 1.
Definition Price_INVALID : Z := 2 ^ 63 - 1.
Definition Qty_INVALID : Z := 2 ^ 32 - 1.
Definition Priority_INVALID : Z := 2 ^ 64 - 1.

(** The shape shared by all the [xxxToString] functions: the sentinel prints as INVALID. *)
Definition idToString (invalid id : Z) : string :=
  if id =? invalid then "INVALID" else pretty id.

Definition orderIdToString (order_id : Z) : string := idToString OrderId_INVALID order_id.
Definition tickerIdToString (ticker_id : Z) : string := idToString TickerId_INVALID ticker_id.
Definition clientIdToString (client_id : Z) : string := idToString ClientId_INVALID client_id.
Definition priceToString (price : Z) : string := idToString Price_INVALID price.
Definition qtyToString (qty : Z) : string := idToString Qty_INVALID qty.
Definition priorityToString (priority : Z) : string := idToString Priority_INVALID priority.

Inductive Side := Side_INVALID | Side_BUY | Side_SELL | Side_MAX.

#[export] Instance Side_eq_dec : EqDecision Side.
Proof. solve_decision. Defined.

Definition sideToString (side : Side) : string :=
  match side with
  | Side_BUY => "BUY"
  | Side_SELL => "SELL"
  | Side_INVALID => "INVALID"
  | Side_MAX => "MAX"
  end.

(** The underlying int8_t. *)
Definition sideToValue (side : Side) : Z :=
  match side with
  | Side_INVALID => 0 | Side_BUY => 1 | Side_SELL => -1 | Side_MAX => 2
  end.

(** [static_cast<size_t>(side) + 1]: SELL is -1, so the addition wraps to 0. *)
Definition sideToIndex (side : Side) : Z := u64 (u64 (sideToValue side) + 1).

Inductive AlgoType :=
  AlgoType_INVALID | AlgoType_RANDOM | AlgoType_MAKER | AlgoType_TAKER | AlgoType_MAX.

#[export] Instance AlgoType_eq_dec : EqDecision AlgoType.
Proof. solve_decision. Defined.

Definition algoTypeToString (type : AlgoType) : string :=
  match type with
  | AlgoType_RANDOM => "RANDOM"
  | AlgoType_MAKER => "MAKER"
  | AlgoType_TAKER => "TAKER"
  | AlgoType_INVALID => "INVALID"
  | AlgoType_MAX => "MAX"
  end.

(** The enumerators in the order of their values, which the loop walks through. *)
Definition algo_types : list AlgoType :=
  [AlgoType_INVALID; AlgoType_RANDOM; AlgoType_MAKER; AlgoType_TAKER; AlgoType_MAX].

Fixpoint find_algo (str : string) (types : list AlgoType) : AlgoType :=
  match types with
  | [] => AlgoType_INVALID
  | algo_type :: rest =>
      if decide (algoTypeToString algo_type = str) then algo_type else find_algo str rest
  end.

Definition stringToAlgoType (str : string) : AlgoType := find_algo str algo_types.

(** ** Client requests (client_request.h) *)
Inductive ClientRequestType :=
  ClientRequestType_INVALID | ClientRequestType_NEW | ClientRequestType_CANCEL.

#[export] Instance ClientRequestType_eq_dec : EqDecision ClientRequestType.
Proof. solve_decision. Defined.

Definition clientRequestTypeToString (type : ClientRequestType) : string :=
  match type with
  | ClientRequestType_NEW => "NEW"
  | ClientRequestType_CANCEL => "CANCEL"
  | ClientRequestType_INVALID => "INVALID"
  end.

Record MEClientRequest := mkMEClientRequest {
  req_type_ : ClientRequestType;
  req_client_id_ : Z;
  req_ticker_id_ : Z;
  req_order_id_ : Z;
  req_side_ : Side;
  req_price_ : Z;
  req_qty_ : Z
}.

Definition MEClientRequest_default : MEClientRequest :=
  mkMEClientRequest ClientRequestType_INVALID ClientId_INVALID TickerId_INVALID
    OrderId_INVALID Side_INVALID Price_INVALID Qty_INVALID.

Definition MEClientRequest_toString (r : MEClientRequest) : string :=
  "MEClientRequest" +:+ " ["
  +:+ "type:" +:+ clientRequestTypeToString (req_type_ r)
  +:+ " client:" +:+ clientIdToString (req_client_id_ r)
  +:+ " ticker:" +:+ tickerIdToString (req_ticker_id_ r)
  +:+ " oid:" +:+ orderIdToString (req_order_id_ r)
  +:+ " side:" +:+ sideToString (req_side_ r)
  +:+ " qty:" +:+ qtyToString (req_qty_ r)
  +:+ " price:" +:+ priceToString (req_price_ r)
  +:+ "]".

Record OMClientRequest := mkOMClientRequest {
  omreq_seq_num_ : Z;
  me_client_request_ : MEClientRequest
}.

Definition OMClientRequest_toString (r : OMClientRequest) : string :=
  "OMClientRequest" +:+ " [" +:+ "seq:" +:+ pretty (omreq_seq_num_ r)
  +:+ " " +:+ MEClientRequest_toString (me_client_request_ r) +:+ "]".

(** ** Client responses (client_response.h) *)
Inductive ClientResponseType :=
  | ClientResponseType_INVALID
  | ClientResponseType_ACCEPTED
  | ClientResponseType_CANCELED
  | ClientResponseType_FILLED
  | ClientResponseType_CANCEL_REJECTED.

#[export] Instance ClientResponseType_eq_dec : EqDecision ClientResponseType.
Proof. solve_decision. Defined.

Definition clientResponseTypeToString (type : ClientResponseType) : string :=
  match type with
  | ClientResponseType_ACCEPTED => "ACCEPTED"
  | ClientResponseType_CANCELED => "CANCELED"
  | ClientResponseType_FILLED => "FILLED"
  | ClientResponseType_CANCEL_REJECTED => "CANCEL_REJECTED"
  | ClientResponseType_INVALID => "INVALID"
  end.

Record MEClientResponse := mkMEClientResponse {
  rsp_type_ : ClientResponseType;
  rsp_client_id_ : Z;
  rsp_ticker_id_ : Z;
  rsp_client_order_id_ : Z;
  rsp_market_order_id_ : Z;
  rsp_side_ : Side;
  rsp_price_ : Z;
  rsp_exec_qty_ : Z;
  rsp_leaves_qty_ : Z
}.

Definition MEClientResponse_default : MEClientResponse :=
  mkMEClientResponse ClientResponseType_INVALID ClientId_INVALID TickerId_INVALID
    OrderId_INVALID OrderId_INVALID Side_INVALID Price_INVALID Qty_INVALID Qty_INVALID.

Definition MEClientResponse_toString (r : MEClientResponse) : string :=
  "MEClientResponse" +:+ " ["
  +:+ "type:" +:+ clientResponseTypeToString (rsp_type_ r)
  +:+ " client:" +:+ clientIdToString (rsp_client_id_ r)
  +:+ " ticker:" +:+ tickerIdToString (rsp_ticker_id_ r)
  +:+ " coid:" +:+ orderIdToString (rsp_client_order_id_ r)
  +:+ " moid:" +:+ orderIdToString (rsp_market_order_id_ r)
  +:+ " side:" +:+ sideToString (rsp_side_ r)
  +:+ " exec_qty:" +:+ qtyToString (rsp_exec_qty_ r)
  +:+ " leaves_qty:" +:+ qtyToString (rsp_leaves_qty_ r)
  +:+ " price:" +:+ priceToString (rsp_price_ r)
  +:+ "]".

Record OMClientResponse := mkOMClientResponse {
  omrsp_seq_num_ : Z;
  me_client_response_ : MEClientResponse
}.

Definition OMClientResponse_toString (r : OMClientResponse) : string :=
  "OMClientResponse" +:+ " [" +:+ "seq:" +:+ pretty (omrsp_seq_num_ r)
  +:+ " " +:+ MEClientResponse_toString (me_client_response_ r) +:+ "]".

(** ** Market updates (market_update.h) *)
Inductive MarketUpdateType :=
  | MarketUpdateType_INVALID
  | MarketUpdateType_CLEAR
  | MarketUpdateType_ADD
  | MarketUpdateType_MODIFY
  | MarketUpdateType_CANCEL
  | MarketUpdateType_TRADE
  | MarketUpdateType_SNAPSHOT_START
  | MarketUpdateType_SNAPSHOT_END.

#[export] Instance MarketUpdateType_eq_dec : EqDecision MarketUpdateType.
Proof. solve_decision. Defined.

Definition marketUpdateTypeToString (type : MarketUpdateType) : string :=
  match type with
  | MarketUpdateType_CLEAR => "CLEAR"
  | MarketUpdateType_ADD => "ADD"
  | MarketUpdateType_MODIFY => "MODIFY"
  | MarketUpdateType_CANCEL => "CANCEL"
  | MarketUpdateType_TRADE => "TRADE"
  | MarketUpdateType_SNAPSHOT_START => "SNAPSHOT_START"
  | MarketUpdateType_SNAPSHOT_END => "SNAPSHOT_END"
  | MarketUpdateType_INVALID => "INVALID"
  end.

Record MEMarketUpdate := mkMEMarketUpdate {
  upd_type_ : MarketUpdateType;
  upd_order_id_ : Z;
  upd_ticker_id_ : Z;
  upd_side_ : Side;
  upd_price_ : Z;
  upd_qty_ : Z;
  upd_priority_ : Z
}.

Definition MEMarketUpdate_default : MEMarketUpdate :=
  mkMEMarketUpdate MarketUpdateType_INVALID OrderId_INVALID TickerId_INVALID Side_INVALID
    Price_INVALID Qty_INVALID Priority_INVALID.

Definition MEMarketUpdate_toString (u : MEMarketUpdate) : string :=
  "MEMarketUpdate" +:+ " ["
  +:+ " type:" +:+ marketUpdateTypeToString (upd_type_ u)
  +:+ " ticker:" +:+ tickerIdToString (upd_ticker_id_ u)
  +:+ " oid:" +:+ orderIdToString (upd_order_id_ u)
  +:+ " side:" +:+ sideToString (upd_side_ u)
  +:+ " qty:" +:+ qtyToString (upd_qty_ u)
  +:+ " price:" +:+ priceToString (upd_price_ u)
  +:+ " priority:" +:+ priorityToString (upd_priority_ u)
  +:+ "]".

Record MDPMarketUpdate := mkMDPMarketUpdate {
  mdp_seq_num_ : Z;
  me_market_update_ : MEMarketUpdate
}.

Definition MDPMarketUpdate_default : MDPMarketUpdate :=
  mkMDPMarketUpdate 0 MEMarketUpdate_default.

Definition MDPMarketUpdate_toString (u : MDPMarketUpdate) : string :=
  "MDPMarketUpdate" +:+ " [" +:+ " seq:" +:+ pretty (mdp_seq_num_ u)
  +:+ " " +:+ MEMarketUpdate_toString (me_market_update_ u) +:+ "]".

(** ** Properties *)

(** The index of a side is within [std::array<_, sideToIndex(Side::MAX) + 1>] and distinct
    sides have distinct slots. *)
Lemma sideToIndex_range side : 0 ≤ sideToIndex side < sideToIndex Side_MAX + 1.
Proof. by destruct side; vm_compute. Qed.

Lemma sideToIndex_inj s1 s2 : sideToIndex s1 = sideToIndex s2 → s1 = s2.
Proof. by destruct s1, s2. Qed.

(** Parsing the printed form of an algorithm type gives it back. *)
Theorem stringToAlgoType_algoTypeToString type :
  stringToAlgoType (algoTypeToString type) = type.
Proof. by destruct type. Qed.

Lemma stringToAlgoType_unknown str :
  str ∉ algoTypeToString <$> algo_types → stringToAlgoType str = AlgoType_INVALID.
Proof.
  unfold stringToAlgoType. generalize algo_types as ts.
  induction ts as [|t ts IH]; intros Hstr; [done|].
  cbn. rewrite decide_False by set_solver. apply IH. set_solver.
Qed.
