(* ===== verification/MemPool.v ===== *)
(** * Memory pools

    common/mem_pool.h and common/opt_mem_pool.h.  A [T *] obtained from a pool is the
    index of its block, and nullptr is [None].  [heap] is the abstraction the clients
    reason with: the finite map of the in-use blocks. *)
From S2P Require Import Prelude.
Abbreviation ptr := (option nat).

Record ObjectBlock (T : Type) := mkBlock { object_ : T; is_free_ : bool }.
Arguments mkBlock {T} _ _.
Arguments object_ {T} _.
Arguments is_free_ {T} _.

Record MemPool (T : Type) := mkPool {
  store_ : list (ObjectBlock T);
  next_free_index_ : nat
}.
Arguments mkPool {T} _ _.
Arguments store_ {T} _.
Arguments next_free_index_ {T} _.

(** ** Operations *)
Section MemPool.
Context {T : Type}.

(** The constructor; [T()] is the default object [dflt]. *)
Definition MemPool_new (num_elems : nat) (dflt : T) : MemPool T :=
  mkPool (replicate num_elems (mkBlock dflt true)) 0.

(** The loop of updateNextFreeIndex; it visits each index at most once, so the size
    of the store is enough fuel. *)
Fixpoint find_next_free (fuel initial next : nat) (store : list (ObjectBlock T)) : result nat :=
  match store !! next with
  | None => Err WildDeref
  | Some blk =>
      if is_free_ blk then Ok next
      else match fuel with
           | O => Err Diverges
           | S fuel =>
               let next := S next in
               let next := if (next =? length store)%nat then 0%nat else next in
               if (initial =? next)%nat then Err AssertFailed
               else find_next_free fuel initial next store
           end
  end.

Definition updateNextFreeIndex (p : MemPool T) : result (MemPool T) :=
  n ← find_next_free (length (store_ p)) (next_free_index_ p) (next_free_index_ p) (store_ p);
  mret (mkPool (store_ p) n).

(** [obj] is the object the placement new constructs. *)
Definition allocate (obj : T) (p : MemPool T) : result (nat * MemPool T) :=
  match store_ p !! next_free_index_ p with
  | None => Err WildDeref
  | Some obj_block =>
      if is_free_ obj_block then
        let ret := next_free_index_ p in
        p' ← updateNextFreeIndex (mkPool (<[ret := mkBlock obj false]> (store_ p)) ret);
        mret (ret, p')
      else Err AssertFailed
  end.

Definition deallocate (elem : ptr) (p : MemPool T) : result (MemPool T) :=
  match elem with
  | None => Err AssertFailed
  | Some elem_index =>
      match store_ p !! elem_index with
      | None => Err AssertFailed
      | Some blk =>
          if is_free_ blk then Err AssertFailed
          else Ok (mkPool (<[elem_index := mkBlock (object_ blk) true]> (store_ p))
                     (next_free_index_ p))
      end
  end.

(** Dereferencing a pointer into the pool.  A freed block keeps its last object, which is
    what a dangling pointer reads. *)
Definition deref (x : ptr) (p : MemPool T) : result T :=
  match x with
  | None => Err NullDeref
  | Some i => match store_ p !! i with Some blk => Ok (object_ blk) | None => Err WildDeref end
  end.

(** Assigning through a pointer. *)
Definition update (x : ptr) (f : T → T) (p : MemPool T) : result (MemPool T) :=
  match x with
  | None => Err NullDeref
  | Some i =>
      match store_ p !! i with
      | Some blk => Ok (mkPool (<[i := mkBlock (f (object_ blk)) (is_free_ blk)]> (store_ p))
                          (next_free_index_ p))
      | None => Err WildDeref
      end
  end.

(** *** OptMemPool: the checks are compiled out when NDEBUG is defined. *)
Fixpoint opt_find_next_free (ndebug : bool) (fuel initial next : nat)
    (store : list (ObjectBlock T)) : result nat :=
  match store !! next with
  | None => Err WildDeref
  | Some blk =>
      if is_free_ blk then Ok next
      else match fuel with
           | O => Err Diverges
           | S fuel =>
               let next := S next in
               let next := if (next =? length store)%nat then 0%nat else next in
               if (initial =? next)%nat && negb ndebug then Err AssertFailed
               else opt_find_next_free ndebug fuel initial next store
           end
  end.

Definition opt_allocate (ndebug : bool) (fuel : nat) (obj : T) (p : MemPool T) :
    result (nat * MemPool T) :=
  match store_ p !! next_free_index_ p with
  | None => Err WildDeref
  | Some obj_block =>
      if ndebug || is_free_ obj_block then
        let ret := next_free_index_ p in
        let store := <[ret := mkBlock obj false]> (store_ p) in
        n ← opt_find_next_free ndebug fuel ret ret store;
        mret (ret, mkPool store n)
      else Err AssertFailed
  end.

Definition opt_deallocate (ndebug : bool) (elem : ptr) (p : MemPool T) : result (MemPool T) :=
  match elem with
  | None => if ndebug then Err WildDeref else Err AssertFailed
  | Some elem_index =>
      match store_ p !! elem_index with
      | None => if ndebug then Err WildDeref else Err AssertFailed
      | Some blk =>
          if negb ndebug && is_free_ blk then Err AssertFailed
          else Ok (mkPool (<[elem_index := mkBlock (object_ blk) true]> (store_ p))
                     (next_free_index_ p))
      end
  end.
End MemPool.

(** ** Abstraction and invariant *)
Section heap.
Context {T : Type}.
Implicit Types (p : MemPool T) (l : list (ObjectBlock T)).

Definition in_use (blk : ObjectBlock T) : option T :=
  if is_free_ blk then None else Some (object_ blk).

(** The in-use objects by index. *)
Definition heap p : gmap nat T := omap in_use (map_seq 0 (store_ p)).

(** The next free index designates a free block. *)
Definition pool_wf p : Prop :=
  ∃ blk, store_ p !! next_free_index_ p = Some blk ∧ is_free_ blk = true.

Definition pool_size p : nat := length (store_ p).
End heap.

(** ** The heap view of the operations *)
Section heap_lemmas.
Context {T : Type}.
Implicit Types (p : MemPool T) (l : list (ObjectBlock T)).

Lemma heap_lookup p i : heap p !! i = store_ p !! i ≫= in_use.
Proof. unfold heap. by rewrite lookup_omap, lookup_map_seq_0. Qed.

Lemma heap_lookup_Some p i x :
  heap p !! i = Some x ↔ store_ p !! i = Some (mkBlock x false).
Proof.
  rewrite heap_lookup. unfold in_use.
  destruct (store_ p !! i) as [[y []]|]; cbn; naive_solver.
Qed.

Lemma deref_heap p i x : heap p !! i = Some x → deref (Some i) p = Ok x.
Proof. rewrite heap_lookup_Some. unfold deref. by intros ->. Qed.

Lemma update_heap p i x (f : T → T) :
  heap p !! i = Some x → pool_wf p →
  ∃ p', update (Some i) f p = Ok p' ∧ heap p' = <[i := f x]> (heap p) ∧
        pool_wf p' ∧ pool_size p' = pool_size p.
Proof.
  rewrite heap_lookup_Some. intros Hi (blk & Hn & Hfree). unfold update. rewrite Hi.
  eexists. split; [done|]. split_and!.
  - apply map_eq. intros j. rewrite heap_lookup, lookup_insert. cbn.
    case_decide; subst.
    + by rewrite list_lookup_insert_eq by (by eapply lookup_lt_Some).
    + rewrite list_lookup_insert_ne by done. by rewrite heap_lookup.
  - exists blk. cbn. rewrite list_lookup_insert_ne by (by intros ->; simplify_eq). done.
  - apply length_insert.
Qed.

Lemma deallocate_heap p i x :
  heap p !! i = Some x → pool_wf p →
  ∃ p', deallocate (Some i) p = Ok p' ∧ heap p' = delete i (heap p) ∧
        pool_wf p' ∧ pool_size p' = pool_size p.
Proof.
  rewrite heap_lookup_Some. intros Hi (blk & Hn & Hfree). unfold deallocate. rewrite Hi.
  eexists. split; [done|]. split_and!.
  - apply map_eq. intros j. rewrite heap_lookup, lookup_delete. cbn.
    case_decide; subst.
    + by rewrite list_lookup_insert_eq by (by eapply lookup_lt_Some).
    + rewrite list_lookup_insert_ne by done. by rewrite heap_lookup.
  - exists blk. cbn. rewrite list_lookup_insert_ne by (by intros ->; simplify_eq). done.
  - apply length_insert.
Qed.

(** *** The scan for the next free block *)

(** [cyc n initial k] is the index visited after [k] steps from [initial]. *)
Definition cyc (n initial k : nat) : nat := (initial + k) `mod` n.

Lemma cyc_step n initial k :
  (initial < n)%nat →
  (if S (cyc n initial k) =? n then 0 else S (cyc n initial k))%nat = cyc n initial (S k).
Proof.
  intros Hi. unfold cyc. rewrite Nat.add_succ_r, <- (Nat.add_1_r (initial + k)).
  rewrite <- (Nat.Div0.add_mod_idemp_l (initial + k) 1 n).
  pose proof (Nat.mod_upper_bound (initial + k) n ltac:(lia)) as Hlt.
  destruct (Nat.eqb_spec (S ((initial + k) `mod` n)) n) as [E|E].
  - rewrite Nat.add_1_r, E. by rewrite Nat.Div0.mod_same.
  - rewrite (Nat.mod_small (_ + 1)) by lia. lia.
Qed.

Lemma cyc_lt n initial k : (initial < n)%nat → (cyc n initial k < n)%nat.
Proof. intros ?. apply Nat.mod_upper_bound. lia. Qed.

Lemma cyc_initial n initial k :
  (initial < n)%nat → (0 < k < n)%nat → cyc n initial k ≠ initial.
Proof.
  intros Hi Hk. unfold cyc. destruct (decide (initial + k < n)%nat).
  - rewrite Nat.mod_small by lia. lia.
  - replace (initial + k)%nat with ((initial + k - n) + 1 * n)%nat by lia.
    rewrite Nat.Div0.mod_add, Nat.mod_small by lia. lia.
Qed.

Lemma cyc_full n initial : (initial < n)%nat → cyc n initial n = initial.
Proof.
  intros Hi. unfold cyc. replace (initial + n)%nat with (initial + 1 * n)%nat by lia.
  rewrite Nat.Div0.mod_add. by apply Nat.mod_small.
Qed.

Lemma cyc_onto n initial j :
  (initial < n)%nat → (j < n)%nat → ∃ k, (k < n)%nat ∧ cyc n initial k = j.
Proof.
  intros Hi Hj. unfold cyc. destruct (decide (initial ≤ j)%nat).
  - exists (j - initial)%nat. split; [lia|].
    replace (initial + (j - initial))%nat with j by lia. by apply Nat.mod_small.
  - exists (j + n - initial)%nat. split; [lia|].
    replace (initial + (j + n - initial))%nat with (j + 1 * n)%nat by lia.
    rewrite Nat.Div0.mod_add. by apply Nat.mod_small.
Qed.

Definition free_at l i : Prop := ∃ blk, l !! i = Some blk ∧ is_free_ blk = true.

Lemma find_next_free_found l initial k i fuel :
  (initial < length l)%nat → (k + fuel = length l)%nat →
  (k ≤ i < length l)%nat → free_at l (cyc (length l) initial i) →
  (∀ j, (k ≤ j < i)%nat → ¬ free_at l (cyc (length l) initial j)) →
  find_next_free fuel initial (cyc (length l) initial k) l = Ok (cyc (length l) initial i).
Proof.
  intros Hini. revert k. induction fuel as [|fuel IH]; intros k Hk Hi Hfree Hmin; [lia|].
  cbn [find_next_free].
  destruct (l !! cyc (length l) initial k) as [blk|] eqn:Hblk; cycle 1.
  { apply lookup_ge_None in Hblk. pose proof (cyc_lt (length l) initial k Hini). lia. }
  destruct (is_free_ blk) eqn:Hf.
  - destruct (decide (k = i)) as [->|Hne]; [done|].
    exfalso. apply (Hmin k); [lia|]. by exists blk.
  - assert (k ≠ i) by (intros ->; destruct Hfree as (?&?&?); simplify_eq; congruence).
    cbv zeta. rewrite cyc_step by done.
    rewrite (proj2 (Nat.eqb_neq initial _)).
    + apply IH; [lia..|done|]. intros j Hj. apply Hmin. lia.
    + apply not_eq_sym, cyc_initial; lia.
Qed.

Lemma find_next_free_none l initial k fuel :
  (initial < length l)%nat → (k + fuel = length l)%nat → (0 < fuel)%nat →
  (∀ j, ¬ free_at l j) →
  find_next_free fuel initial (cyc (length l) initial k) l = Err AssertFailed.
Proof.
  intros Hini. revert k. induction fuel as [|fuel IH]; intros k Hk Hpos Hnone; [lia|].
  cbn [find_next_free].
  destruct (l !! cyc (length l) initial k) as [blk|] eqn:Hblk; cycle 1.
  { apply lookup_ge_None in Hblk. pose proof (cyc_lt (length l) initial k Hini). lia. }
  destruct (is_free_ blk) eqn:Hf; [destruct (Hnone (cyc (length l) initial k)); by exists blk|].
  cbv zeta. rewrite cyc_step by done. destruct (decide (fuel = 0%nat)) as [->|].
  - replace (S k) with (length l) by lia. rewrite cyc_full by done. by rewrite Nat.eqb_refl.
  - rewrite (proj2 (Nat.eqb_neq initial _)).
    + apply IH; [lia..|done].
    + apply not_eq_sym, cyc_initial; lia.
Qed.

(** The first index with a decidable property, among those below a bound. *)
Lemma first_below (P : nat → Prop) `{∀ i, Decision (P i)} n k :
  (k < n)%nat → P k → ∃ i, (i < n)%nat ∧ P i ∧ ∀ j, (j < i)%nat → ¬ P j.
Proof.
  induction k as [k IH] using lt_wf_ind. intros Hk HP.
  destruct (decide (Exists P (seq 0 k))) as [He|He].
  - apply Exists_exists in He as (j & Hj%elem_of_seq & HPj). apply (IH j); [lia..|done].
  - exists k. split_and!; [done..|]. intros j Hj HPj. apply He.
    apply Exists_exists. exists j. split; [apply elem_of_seq; lia|done].
Qed.

#[local] Instance free_at_dec l i : Decision (free_at l i).
Proof.
  unfold free_at. destruct (l !! i) as [[o b]|] eqn:E.
  - destruct b; [left | right]; [by eexists | intros (?&?&?); naive_solver].
  - right. intros (?&?&?). naive_solver.
Defined.

(** The scan terminates in a free block, or exits through the out-of-space assertion
    when there is none: it never uses up its fuel. *)
Lemma find_next_free_spec l initial :
  (initial < length l)%nat →
  (∃ n, find_next_free (length l) initial initial l = Ok n ∧ free_at l n) ∨
  (find_next_free (length l) initial initial l = Err AssertFailed ∧ ∀ i, ¬ free_at l i).
Proof.
  intros Hini.
  assert (cyc (length l) initial 0 = initial) as H0.
  { unfold cyc. rewrite Nat.add_0_r. by apply Nat.mod_small. }
  destruct (decide (Exists (free_at l) (seq 0 (length l)))) as [He|He].
  - left. apply Exists_exists in He as (j & Hj%elem_of_seq & Hfree).
    destruct (cyc_onto (length l) initial j) as (k & Hk & Hkj); [lia..|].
    subst j.
    destruct (first_below (λ k, free_at l (cyc (length l) initial k)) (length l) k Hk Hfree)
      as (i & Hi & Hif & Hmin).
    eexists. split; [|exact Hif].
    rewrite <- (find_next_free_found l initial 0 i (length l)); [by rewrite H0|lia..|done|].
    intros j Hj'. apply Hmin. lia.
  - right. assert (∀ i, ¬ free_at l i) as Hnone.
    { intros i (blk & Hblk & Hf). apply He, Exists_exists. exists i.
      split; [|by exists blk]. apply elem_of_seq. apply lookup_lt_Some in Hblk. lia. }
    split; [|done].
    rewrite <- (find_next_free_none l initial 0 (length l)); [by rewrite H0|lia..|done].
Qed.
End heap_lemmas.

(** ** Capacity and allocation *)
Section allocation.
Context {T : Type}.
Implicit Types (p : MemPool T).

Lemma heap_dom_subseteq p : dom (heap p) ⊆ set_seq (C := gset nat) 0 (pool_size p).
Proof.
  intros i [x Hx]%elem_of_dom. apply heap_lookup_Some in Hx.
  apply elem_of_set_seq. apply lookup_lt_Some in Hx. unfold pool_size. lia.
Qed.

Lemma heap_size_full p :
  (∀ i, ¬ free_at (store_ p) i) → size (heap p) = pool_size p.
Proof.
  intros Hnone. rewrite <- size_dom.
  assert (dom (heap p) = set_seq 0 (pool_size p)) as ->; [|apply size_set_seq].
  apply set_eq. intros i. split; [apply heap_dom_subseteq|].
  intros Hi%elem_of_set_seq. apply elem_of_dom.
  destruct (lookup_lt_is_Some_2 (store_ p) i) as [[x b] Hx]; [unfold pool_size in Hi; lia|].
  exists x. apply heap_lookup_Some. destruct b; [|done].
  destruct (Hnone i). by eexists.
Qed.

Lemma heap_size_free p i : free_at (store_ p) i → (size (heap p) < pool_size p)%nat.
Proof.
  intros (blk & Hblk & Hf). rewrite <- size_dom, <- (size_set_seq (C := gset nat) 0 (pool_size p)).
  apply subset_size. split; [apply heap_dom_subseteq|].
  intros Hsub. specialize (Hsub i).
  assert (i ∈ dom (heap p)) as [x Hx]%elem_of_dom.
  { apply Hsub, elem_of_set_seq. apply lookup_lt_Some in Hblk. unfold pool_size. lia. }
  rewrite heap_lookup_Some in Hx. simplify_eq.
Qed.

Lemma heap_next_None p : pool_wf p → heap p !! next_free_index_ p = None.
Proof.
  intros (blk & Hn & Hf). rewrite heap_lookup, Hn. cbn. unfold in_use. by rewrite Hf.
Qed.

Lemma heap_insert_next p obj :
  pool_wf p →
  heap (mkPool (<[next_free_index_ p := mkBlock obj false]> (store_ p)) (next_free_index_ p))
  = <[next_free_index_ p := obj]> (heap p).
Proof.
  intros (blk & Hn & Hf). apply map_eq. intros j. rewrite heap_lookup, lookup_insert. cbn.
  case_decide; subst.
  - by rewrite list_lookup_insert_eq by (by eapply lookup_lt_Some).
  - rewrite list_lookup_insert_ne by done. by rewrite heap_lookup.
Qed.

Lemma pool_wf_lt p : pool_wf p → (next_free_index_ p < length (store_ p))%nat.
Proof. intros (blk & Hn & _). by eapply lookup_lt_Some. Qed.

(** What [allocate] does, from a well-formed pool, in both outcomes. *)
Lemma allocate_cases p obj :
  pool_wf p →
  let i := next_free_index_ p in
  (S (size (heap p)) = pool_size p ∧ allocate obj p = Err AssertFailed) ∨
  ((S (size (heap p)) < pool_size p)%nat ∧ ∃ p', allocate obj p = Ok (i, p') ∧
     heap p !! i = None ∧ heap p' = <[i := obj]> (heap p) ∧
     pool_wf p' ∧ pool_size p' = pool_size p).
Proof.
  intros Hwf i. pose proof (heap_next_None p Hwf) as Hnone.
  pose proof (heap_insert_next p obj Hwf) as Hheap. fold i in Hnone, Hheap.
  pose proof (pool_wf_lt p Hwf) as Hlt. fold i in Hlt.
  set (p1 := mkPool (<[i := mkBlock obj false]> (store_ p)) i) in *.
  assert (size (heap p1) = S (size (heap p))) as Hsize.
  { rewrite Hheap. by apply map_size_insert_None. }
  assert (pool_size p1 = pool_size p) as Hps by apply length_insert.
  assert (allocate obj p = (n ← find_next_free (length (store_ p1)) i i (store_ p1);
                            mret (i, mkPool (store_ p1) n))) as ->.
  { destruct Hwf as (blk & Hblk & Hfree). unfold allocate. rewrite Hblk, Hfree.
    unfold updateNextFreeIndex. cbn. by destruct (find_next_free _ _ _ _). }
  destruct (find_next_free_spec (store_ p1) i) as [(n & -> & Hn)|(-> & Hn)].
  - change (store_ p1) with (<[i := mkBlock obj false]> (store_ p)).
    by rewrite length_insert.
  - right. pose proof (heap_size_free p1 n Hn). split; [lia|].
    eexists. split; [done|]. split_and!; [done|exact Hheap|exact Hn|exact Hps].
  - left. pose proof (heap_size_full p1 Hn). split; [lia|done].
Qed.

(** A fresh pool. *)
Lemma MemPool_new_heap n (dflt : T) : heap (MemPool_new n dflt) = ∅.
Proof.
  apply map_empty. intros i. rewrite heap_lookup. cbn.
  destruct (replicate n _ !! i) as [blk|] eqn:E; [|done].
  apply lookup_replicate in E as [-> _]. done.
Qed.

Lemma MemPool_new_wf n (dflt : T) : (0 < n)%nat → pool_wf (MemPool_new n dflt).
Proof.
  intros Hn. exists (mkBlock dflt true). split; [|done].
  cbn. apply lookup_replicate. done.
Qed.

Lemma MemPool_new_size n (dflt : T) : pool_size (MemPool_new n dflt) = n.
Proof. apply length_replicate. Qed.
End allocation.

(** ** Theorems *)

(** Allocation hands out a block that was not in use, leaves the others untouched and
    keeps the pool well formed, as long as a second block is free. *)
Theorem allocate_spec {T} (p : MemPool T) (obj : T) :
  pool_wf p → (S (size (heap p)) < pool_size p)%nat →
  ∃ p', allocate obj p = Ok (next_free_index_ p, p') ∧
        heap p !! next_free_index_ p = None ∧
        heap p' = <[next_free_index_ p := obj]> (heap p) ∧
        pool_wf p' ∧ pool_size p' = pool_size p.
Proof.
  intros Hwf Hlt. destruct (allocate_cases p obj Hwf) as [[? ?]|[_ H]]; [lia|exact H].
Qed.

(** The last free block can not be allocated: the scan for the following one comes back
    to its start and exits, so a pool of n blocks holds at most n - 1 objects. *)
Theorem allocate_last_block {T} (p : MemPool T) (obj : T) :
  pool_wf p → (allocate obj p = Err AssertFailed ↔ S (size (heap p)) = pool_size p).
Proof.
  intros Hwf. destruct (allocate_cases p obj Hwf) as [[? ->]|[Hlt (p' & -> & _)]].
  - done.
  - split; [done|lia].
Qed.

(** Deallocate makes exactly that block available, and refuses a block that is not in
    use, a pointer outside the pool and nullptr. *)
Theorem deallocate_spec {T} (p : MemPool T) (x : ptr) :
  pool_wf p →
  match x ≫= (λ i, heap p !! i) with
  | Some _ => ∃ i p', x = Some i ∧ deallocate x p = Ok p' ∧ heap p' = delete i (heap p) ∧
                      pool_wf p' ∧ pool_size p' = pool_size p
  | None => deallocate x p = Err AssertFailed
  end.
Proof.
  intros Hwf. destruct x as [i|]; [|done]. cbn.
  destruct (heap p !! i) as [y|] eqn:Hi.
  - destruct (deallocate_heap p i y Hi Hwf) as (p' & ? & ? & ? & ?). eauto 10.
  - rewrite heap_lookup in Hi. cbn. destruct (store_ p !! i) as [blk|]; [|done].
    cbn in Hi. unfold in_use in Hi. by destruct (is_free_ blk).
Qed.

(** With its checks compiled in, OptMemPool behaves as MemPool. *)
Theorem opt_mem_pool_debug {T} (p : MemPool T) (obj : T) (x : ptr) :
  opt_allocate false (length (store_ p)) obj p = allocate obj p ∧
  opt_deallocate false x p = deallocate x p.
Proof.
  assert (∀ fuel initial next (l : list (ObjectBlock T)),
    opt_find_next_free false fuel initial next l = find_next_free fuel initial next l) as Hfind.
  { intros fuel initial. induction fuel as [|fuel IH]; intros next l; cbn; [done|].
    destruct (l !! next) as [blk|]; [|done]. destruct (is_free_ blk); [done|].
    rewrite andb_true_r. destruct (initial =? _)%nat; [done|]. apply IH. }
  split.
  - unfold opt_allocate, allocate, updateNextFreeIndex.
    destruct (store_ p !! next_free_index_ p) as [blk|]; [|done].
    cbn [orb store_ next_free_index_]. destruct (is_free_ blk); [|done].
    rewrite Hfind, length_insert.
    by destruct (find_next_free _ _ _ _).
  - unfold opt_deallocate, deallocate. destruct x as [i|]; [|done].
    destruct (store_ p !! i) as [blk|]; [|done]. by destruct (is_free_ blk).
Qed.

Lemma opt_find_next_free_spins {T} (l : list (ObjectBlock T)) :
  (∀ i blk, l !! i = Some blk → is_free_ blk = false) →
  ∀ fuel initial next, (next < length l)%nat →
    opt_find_next_free true fuel initial next l = Err Diverges.
Proof.
  intros Hused fuel initial. induction fuel as [|fuel IH]; intros next Hlt; cbn [opt_find_next_free];
    destruct (l !! next) as [blk|] eqn:E; try (apply lookup_ge_None in E; lia);
    rewrite (Hused _ _ E); [done|].
  cbv zeta. rewrite andb_false_r. apply IH. destruct (Nat.eqb_spec (S next) (length l)); lia.
Qed.

(** C40: with NDEBUG the check is gone but not the loop: allocating the last free block never
    returns, whatever the number of iterations. *)
Theorem opt_allocate_last_block_spins {T} (p : MemPool T) (obj : T) (fuel : nat) :
  pool_wf p → S (size (heap p)) = pool_size p →
  opt_allocate true fuel obj p = Err Diverges.
Proof.
  intros Hwf Hfull. pose proof (heap_insert_next p obj Hwf) as Hheap.
  pose proof (heap_next_None p Hwf) as Hnone. pose proof (pool_wf_lt p Hwf) as Hlt.
  unfold opt_allocate. destruct Hwf as (blk & -> & Hf). cbn [orb].
  set (store := <[_ := _]> _) in *.
  rewrite opt_find_next_free_spins; [done| |by unfold store; rewrite length_insert].
  intros i b Hb. destruct (is_free_ b) eqn:Hfb; [|done].
  assert (free_at (store_ (mkPool store (next_free_index_ p))) i) as Hfr%heap_size_free
    by (by exists b).
  rewrite Hheap, map_size_insert_None in Hfr by done.
  unfold pool_size in *. cbn in Hfr. unfold store in Hfr. rewrite length_insert in Hfr. lia.
Qed.
