(* ===== verification/LFQueue.v ===== *)
(** * The lock-free ring queue (common/lf_queue.h)

    The queue has no test for being full: [updateWriteIndex] always succeeds.  The client
    of the queue has to keep the number of unread elements below the capacity; the
    theorems say what the queue is then (a FIFO), and what it does when the client does not. *)
From S2P Require Import Prelude.
Record LFQueue (T : Type) := mkLFQueue {
  q_store_ : list T;
  next_write_index_ : nat;
  next_read_index_ : nat;
  num_elements_ : nat
}.
Arguments mkLFQueue {T} _ _ _ _.
Arguments q_store_ {T} _.
Arguments next_write_index_ {T} _.
Arguments next_read_index_ {T} _.
Arguments num_elements_ {T} _.

Section LFQueue.
Context {T : Type}.
Implicit Types (q : LFQueue T) (v : T).

Definition LFQueue_new (num_elems : nat) (dflt : T) : LFQueue T :=
  mkLFQueue (replicate num_elems dflt) 0 0 0.

Definition capacity q : nat := length (q_store_ q).

(** The slot handed to the producer. *)
Definition getNextToWriteTo q : nat := next_write_index_ q.

(** The producer's assignment [*next_write = v] through the slot. *)
Definition write_slot (i : nat) v q : LFQueue T :=
  mkLFQueue (<[i := v]> (q_store_ q)) (next_write_index_ q) (next_read_index_ q)
    (num_elements_ q).

Definition updateWriteIndex q : LFQueue T :=
  mkLFQueue (q_store_ q) ((next_write_index_ q + 1) `mod` capacity q) (next_read_index_ q)
    (num_elements_ q + 1).

Definition q_size q : nat := num_elements_ q.

(** The slot handed to the consumer; nullptr when the queue is empty. *)
Definition getNextToRead q : option nat :=
  if (q_size q =? 0)%nat then None else Some (next_read_index_ q).

(** The consumer's read through the slot. *)
Definition read_slot (i : nat) q : option T := q_store_ q !! i.

Definition updateReadIndex q : result (LFQueue T) :=
  let next := ((next_read_index_ q + 1) `mod` capacity q)%nat in
  if (num_elements_ q =? 0)%nat then Err AssertFailed
  else Ok (mkLFQueue (q_store_ q) (next_write_index_ q) next (num_elements_ q - 1)).

(** The producer's sequence of calls, as every writer of the system makes it:
    getNextToWriteTo, assignment through the slot, updateWriteIndex. *)
Definition push v q : LFQueue T := updateWriteIndex (write_slot (getNextToWriteTo q) v q).

Fixpoint push_all (vs : list T) q : LFQueue T :=
  match vs with [] => q | v :: vs => push_all vs (push v q) end.

(** The consumer's sequence: getNextToRead, use of the element, updateReadIndex. *)
Definition pop q : result (option (T * LFQueue T)) :=
  match getNextToRead q with
  | None => Ok None
  | Some i =>
      match read_slot i q with
      | None => Err WildDeref
      | Some v => q' ← updateReadIndex q; mret (Some (v, q'))
      end
  end.

(** ** The abstract queue *)

(** [q] holds the elements [l], oldest first. *)
Definition holds q (l : list T) : Prop :=
  (0 < capacity q)%nat ∧
  length l = num_elements_ q ∧
  (length l ≤ capacity q)%nat ∧
  (next_read_index_ q < capacity q)%nat ∧
  next_write_index_ q = ((next_read_index_ q + length l) `mod` capacity q)%nat ∧
  ∀ k x, l !! k = Some x → q_store_ q !! ((next_read_index_ q + k) `mod` capacity q)%nat = Some x.
End LFQueue.

(** ** Facts on indices modulo the capacity *)
Lemma ring_inj n r i j :
  (i < n)%nat → (j < n)%nat → ((r + i) `mod` n = (r + j) `mod` n)%nat → i = j.
Proof.
  intros Hi Hj E. apply (f_equal Z.of_nat) in E.
  rewrite !Nat2Z.inj_mod, !Nat2Z.inj_add in E.
  assert ((Z.of_nat i - Z.of_nat j) `mod` Z.of_nat n = 0) as Hmod.
  { replace (Z.of_nat i - Z.of_nat j)
      with ((Z.of_nat r + Z.of_nat i) - (Z.of_nat r + Z.of_nat j)) by lia.
    rewrite Zminus_mod, E, Z.sub_diag. apply Z.mod_0_l. lia. }
  apply Z.mod_divide in Hmod as [q Hq]; [|lia].
  assert (q ≤ -1 ∨ q = 0 ∨ 1 ≤ q) as [?|[?|?]] by lia; nia.
Qed.

Lemma ring_step n r k : (((r + 1) `mod` n + k) `mod` n = (r + S k) `mod` n)%nat.
Proof. rewrite Nat.Div0.add_mod_idemp_l. f_equal. lia. Qed.

Section holds.
Context {T : Type}.
Implicit Types (q : LFQueue T) (l : list T) (v : T).

Lemma holds_new n (dflt : T) : (0 < n)%nat → holds (LFQueue_new n dflt) [].
Proof.
  intros Hn. unfold holds, capacity. cbn. rewrite length_replicate.
  split_and!; [done..|lia|lia| |done]. by rewrite Nat.Div0.mod_0_l.
Qed.

Lemma holds_push q l v :
  holds q l → (length l < capacity q)%nat → holds (push v q) (l ++ [v]).
Proof.
  intros (Hpos & Hlen & Hle & Hr & Hw & Hel) Hlt. unfold holds, push, getNextToWriteTo, capacity in *. cbn.
  rewrite length_insert, length_app. cbn.
  split_and!; [done|lia|lia|done| |].
  - rewrite Hw, Nat.Div0.add_mod_idemp_l. f_equal. lia.
  - intros k x Hk. rewrite Hw. apply lookup_app_Some in Hk as [Hk|[Hge Hk]].
    + rewrite list_lookup_insert_ne; [by apply Hel|].
      intros E%ring_inj; [|lia|apply lookup_lt_Some in Hk; lia].
      apply lookup_lt_Some in Hk. lia.
    + apply list_lookup_singleton_Some in Hk as [Hk <-].
      replace k with (length l) by lia. apply list_lookup_insert_eq.
      apply Nat.mod_upper_bound. lia.
Qed.

Lemma capacity_push q v : capacity (push v q) = capacity q.
Proof. apply length_insert. Qed.

Lemma capacity_push_all vs q : capacity (push_all vs q) = capacity q.
Proof. revert q. induction vs as [|v vs IH]; intros q; [done|]. cbn. by rewrite IH, capacity_push. Qed.

Lemma push_all_app vs1 vs2 q : push_all (vs1 ++ vs2) q = push_all vs2 (push_all vs1 q).
Proof. revert q. induction vs1 as [|v vs1 IH]; intros q; cbn; [done|]. apply IH. Qed.

Lemma holds_push_all q l vs :
  holds q l → (length l + length vs ≤ capacity q)%nat → holds (push_all vs q) (l ++ vs).
Proof.
  revert q l. induction vs as [|v vs IH]; intros q l Hq Hle; cbn in *; [by rewrite app_nil_r|].
  replace (l ++ v :: vs) with ((l ++ [v]) ++ vs) by (by rewrite <- app_assoc).
  apply IH; [apply holds_push; [done|lia]|]. rewrite length_app, capacity_push. cbn. lia.
Qed.

Lemma holds_pop_cons q v l :
  holds q (v :: l) → ∃ q', pop q = Ok (Some (v, q')) ∧ holds q' l ∧ capacity q' = capacity q.
Proof.
  intros (Hpos & Hlen & Hle & Hr & Hw & Hel). cbn in *. unfold pop, getNextToRead, q_size.
  rewrite <- Hlen. cbn. unfold read_slot.
  pose proof (Hel 0%nat v eq_refl) as H0. rewrite Nat.add_0_r, Nat.mod_small in H0 by done.
  rewrite H0. unfold updateReadIndex. rewrite <- Hlen. cbn.
  eexists. split; [done|]. split; [|done]. unfold holds, capacity in *. cbn.
  split_and!; [done|lia|lia| | |].
  - apply Nat.mod_upper_bound. lia.
  - by rewrite Hw, ring_step.
  - intros k x Hk. rewrite ring_step. by apply Hel.
Qed.

Lemma holds_pop_nil q : holds q [] → pop q = Ok None.
Proof.
  intros (_ & Hlen & _). unfold pop, getNextToRead, q_size. by rewrite <- Hlen.
Qed.

Lemma holds_size q l : holds q l → q_size q = length l.
Proof. intros (_ & Hlen & _). done. Qed.

(** The elements, read off the array. *)
Definition contents q : list T :=
  omap (λ k, q_store_ q !! ((next_read_index_ q + k) `mod` capacity q)%nat) (seq 0 (num_elements_ q)).

Lemma holds_contents q l : holds q l → contents q = l.
Proof.
  intros (_ & Hlen & _ & _ & _ & Hel). unfold contents. rewrite <- Hlen. clear Hlen.
  assert (∀ i, (∀ k x, l !! k = Some x → q_store_ q !! ((next_read_index_ q + (i + k)) `mod` capacity q)%nat = Some x) →
    omap (λ k, q_store_ q !! ((next_read_index_ q + k) `mod` capacity q)%nat) (seq i (length l)) = l) as Hgen; [|by apply Hgen].
  clear Hel. induction l as [|x l IH]; intros i Hel; [done|]. cbn [length seq omap list_omap].
  pose proof (Hel 0%nat x eq_refl) as H0. rewrite Nat.add_0_r in H0. rewrite H0. f_equal. apply IH.
  intros k y Hk. rewrite <- (Hel (S k) y Hk). do 2 f_equal. lia.
Qed.
End holds.

(** ** Theorems *)

(** A producer and a consumer that stay within the capacity see a FIFO queue. *)
Theorem lfqueue_fifo {T} (q : LFQueue T) (l vs : list T) :
  holds q l → (length l + length vs ≤ capacity q)%nat →
  holds (push_all vs q) (l ++ vs) ∧
  match l ++ vs with
  | [] => pop (push_all vs q) = Ok None
  | v :: rest => ∃ q', pop (push_all vs q) = Ok (Some (v, q')) ∧ holds q' rest
  end.
Proof.
  intros Hq Hle. pose proof (holds_push_all q l vs Hq Hle) as Hp. split; [done|].
  destruct (l ++ vs) as [|v rest].
  - by apply holds_pop_nil.
  - destruct (holds_pop_cons _ _ _ Hp) as (q' & ? & ? & _). eauto.
Qed.

(** Writing into a full queue loses the oldest element: the next read returns the
    element just written in its place. *)
Theorem lfqueue_overflow {T} (q : LFQueue T) (x v : T) (l : list T) :
  holds q (x :: l) → S (length l) = capacity q →
  ∃ q', pop (push v q) = Ok (Some (v, q')).
Proof.
  intros (Hpos & Hlen & Hle & Hr & Hw & Hel) Hfull. cbn in Hlen, Hw, Hle.
  unfold pop, getNextToRead, q_size, push, getNextToWriteTo, updateReadIndex, read_slot. cbn.
  rewrite Nat.add_1_r. cbn.
  assert (next_write_index_ q = next_read_index_ q) as ->.
  { rewrite Hw, Hfull. replace (next_read_index_ q + capacity q)%nat
      with (next_read_index_ q + 1 * capacity q)%nat by lia.
    rewrite Nat.Div0.mod_add. by apply Nat.mod_small. }
  rewrite list_lookup_insert_eq by done. by eexists.
Qed.

(** Reading past the end exits: the assertion of [updateReadIndex] fails exactly on an
    empty queue. *)
Theorem updateReadIndex_empty {T} (q : LFQueue T) :
  updateReadIndex q = Err AssertFailed ↔ q_size q = 0%nat.
Proof.
  unfold updateReadIndex, q_size. destruct (Nat.eqb_spec (num_elements_ q) 0); naive_solver.
Qed.
