(* ===== verification/QueueThreads.v ===== *)
(** * The two threads of a queue (common/lf_queue.h)

    A producer and a consumer share a queue.  Every load and store of an atomic member is one
    step, the element that the producer assigns and the consumer uses is accessed during an interval,
    and the two threads are interleaved in any way.  The atomics are sequentially consistent, as
    std::atomic is when no order is given. *)
From S2P Require Import Prelude LFQueue.
(** Where the producer is: between two pushes, with the slot in hand, while it assigns the element,
    before updateWriteIndex, with next_write_index_ loaded, and before num_elements_++. *)
Inductive Producer (T : Type) :=
  | P_idle
  | P_slot (v : T) (i : nat)
  | P_writing (v : T) (i : nat)
  | P_written
  | P_index (j : nat)
  | P_count.
Arguments P_idle {T}.
Arguments P_slot {T} _ _.
Arguments P_writing {T} _ _.
Arguments P_written {T}.
Arguments P_index {T} _.
Arguments P_count {T}.

(** Where the consumer is: before getNextToRead, after its test of the size, with the slot in hand,
    while it uses the element, before updateReadIndex, with next_read_index_ loaded, before the
    assertion, and before num_elements_--. *)
Inductive Consumer :=
  | C_idle
  | C_nonempty
  | C_slot (i : nat)
  | C_reading (i : nat)
  | C_used
  | C_index (j : nat)
  | C_assert
  | C_count.

Record Shared (T : Type) := mkShared {
  sh_queue : LFQueue T;
  sh_producer : Producer T;
  sh_consumer : Consumer;
  sh_written : list T;      (** all elements that the producer has assigned *)
  sh_read : list T          (** all elements that the consumer has used *)
}.
Arguments mkShared {T}.
Arguments sh_queue {T} _.
Arguments sh_producer {T} _.
Arguments sh_consumer {T} _.
Arguments sh_written {T} _.
Arguments sh_read {T} _.

Section QueueThreads.
Context {T : Type}.
Implicit Types (S : Shared T) (q : LFQueue T) (v x : T).

Definition store_write_index (i : nat) q : LFQueue T :=
  mkLFQueue (q_store_ q) i (next_read_index_ q) (num_elements_ q).
Definition store_read_index (i : nat) q : LFQueue T :=
  mkLFQueue (q_store_ q) (next_write_index_ q) i (num_elements_ q).
Definition store_num_elements (n : nat) q : LFQueue T :=
  mkLFQueue (q_store_ q) (next_write_index_ q) (next_read_index_ q) n.

(** The next step of the producer; [x] is the element of the next push, or what the slot holds
    while an element is assigned. *)
Definition producer_step x S : Shared T :=
  let q := sh_queue S in
  match sh_producer S with
  | P_idle => mkShared q (P_slot x (getNextToWriteTo q)) (sh_consumer S) (sh_written S) (sh_read S)
  | P_slot v i => mkShared (write_slot i x q) (P_writing v i) (sh_consumer S) (sh_written S) (sh_read S)
  | P_writing v i => mkShared (write_slot i v q) P_written (sh_consumer S) (sh_written S ++ [v]) (sh_read S)
  | P_written => mkShared q (P_index (next_write_index_ q)) (sh_consumer S) (sh_written S) (sh_read S)
  | P_index j =>
      mkShared (store_write_index ((j + 1) `mod` capacity q) q) P_count (sh_consumer S) (sh_written S) (sh_read S)
  | P_count =>
      mkShared (store_num_elements (num_elements_ q + 1) q) P_idle (sh_consumer S) (sh_written S) (sh_read S)
  end.

Definition at_consumer S q (k : Consumer) : Shared T := mkShared q (sh_producer S) k (sh_written S) (sh_read S).

Definition consumer_step S : result (Shared T) :=
  let q := sh_queue S in
  match sh_consumer S with
  | C_idle => mret (at_consumer S q (if (q_size q =? 0)%nat then C_idle else C_nonempty))
  | C_nonempty => mret (at_consumer S q (C_slot (next_read_index_ q)))
  | C_slot i => mret (at_consumer S q (C_reading i))
  | C_reading i =>
      match read_slot i q with
      | None => Err WildDeref
      | Some v => mret (mkShared q (sh_producer S) C_used (sh_written S) (sh_read S ++ [v]))
      end
  | C_used => mret (at_consumer S q (C_index (next_read_index_ q)))
  | C_index j => mret (at_consumer S (store_read_index ((j + 1) `mod` capacity q) q) C_assert)
  | C_assert => if (num_elements_ q =? 0)%nat then Err AssertFailed else mret (at_consumer S q C_count)
  | C_count => mret (at_consumer S (store_num_elements (num_elements_ q - 1) q) C_idle)
  end.

(** The contract of the producer, which the queue does not check: a push begins when there is a slot
    whose element has been used. *)
Definition room S : Prop := (length (sh_written S) < length (sh_read S) + capacity (sh_queue S))%nat.

Inductive thread_step S : Shared T → Prop :=
  | step_producer x : (sh_producer S = P_idle → room S) → thread_step S (producer_step x S)
  | step_consumer S' : consumer_step S = Ok S' → thread_step S S'.

(** One thread assigns the element that the other uses. *)
Definition race S : Prop := ∃ v i, sh_producer S = P_writing v i ∧ sh_consumer S = C_reading i.

Definition threads_start (num_elems : nat) (dflt : T) : Shared T :=
  mkShared (LFQueue_new num_elems dflt) P_idle C_idle [] [].

(** ** Threads that are not interrupted *)

Lemma producer_alone S x : sh_producer S = P_idle →
  Nat.iter 6 (producer_step x) S
  = mkShared (push x (sh_queue S)) P_idle (sh_consumer S) (sh_written S ++ [x]) (sh_read S).
Proof.
  destruct S as [q p c w r]. cbn [sh_producer]. intros ->. cbn. unfold push, updateWriteIndex, write_slot, capacity.
  cbn. by rewrite !list_insert_insert_eq, !length_insert.
Qed.

Fixpoint consumer_steps (k : nat) S : result (Shared T) :=
  match k with O => Ok S | S k => S' ← consumer_step S; consumer_steps k S' end.

Lemma consumer_alone S v q : sh_consumer S = C_idle → pop (sh_queue S) = Ok (Some (v, q)) →
  consumer_steps 8 S = Ok (mkShared q (sh_producer S) C_idle (sh_written S) (sh_read S ++ [v])).
Proof.
  destruct S as [q0 p c w r]. cbn [sh_consumer sh_queue]. intros ->. unfold pop, getNextToRead, q_size.
  destruct (Nat.eqb_spec (num_elements_ q0) 0) as [?|Hn]; [done|]. cbn [read_slot].
  destruct (read_slot _ q0) as [v'|] eqn:Hv; [|done]. unfold updateReadIndex.
  destruct (Nat.eqb_spec (num_elements_ q0) 0) as [?|_]; [done|]. intros E.
  cbn [mbind result_bind mret result_ret] in E. injection E as <- <-.
  assert (Hn' : (num_elements_ q0 =? 0)%nat = false) by by apply Nat.eqb_neq.
  cbn. unfold q_size. rewrite Hn'. cbn. rewrite Hv. cbn. rewrite Hn'. done.
Qed.

(** ** The invariant *)

(** How far the members lag behind the elements assigned and used. *)
Definition write_lag S : nat := match sh_producer S with P_written | P_index _ => 1 | _ => 0 end.
Definition count_lag S : nat := match sh_producer S with P_written | P_index _ | P_count => 1 | _ => 0 end.
Definition read_lag S : nat := match sh_consumer S with C_used | C_index _ => 1 | _ => 0 end.
Definition release_lag S : nat := match sh_consumer S with C_used | C_index _ | C_assert | C_count => 1 | _ => 0 end.

Definition producer_at n (w r : nat) (p : Producer T) : Prop :=
  match p with
  | P_slot _ i | P_writing _ i => i = (w `mod` n)%nat ∧ (w < r + n)%nat
  | P_index j => j = ((w - 1) `mod` n)%nat
  | _ => True
  end.

Definition consumer_at n (num r : nat) (k : Consumer) : Prop :=
  match k with
  | C_nonempty => (0 < num)%nat
  | C_slot i | C_reading i => i = (r `mod` n)%nat ∧ (0 < num)%nat
  | C_index j => j = ((r - 1) `mod` n)%nat
  | _ => True
  end.

Record threads_ok (n : nat) S : Prop := {
  to_capacity : capacity (sh_queue S) = n;
  to_order : sh_read S `prefix_of` sh_written S;
  to_write_index : next_write_index_ (sh_queue S) = ((length (sh_written S) - write_lag S) `mod` n)%nat;
  to_read_index : next_read_index_ (sh_queue S) = ((length (sh_read S) - read_lag S) `mod` n)%nat;
  to_lags : (count_lag S ≤ length (sh_written S))%nat ∧ (release_lag S ≤ length (sh_read S))%nat;
  to_num : (num_elements_ (sh_queue S) + count_lag S + length (sh_read S)
            = length (sh_written S) + release_lag S)%nat;
  to_behind : (length (sh_read S) + count_lag S ≤ length (sh_written S))%nat;
  to_room : (length (sh_written S) ≤ length (sh_read S) + n)%nat;
  to_producer : producer_at n (length (sh_written S)) (length (sh_read S)) (sh_producer S);
  to_consumer : consumer_at n (num_elements_ (sh_queue S)) (length (sh_read S)) (sh_consumer S);
  to_store : ∀ k v, (length (sh_read S) ≤ k)%nat → sh_written S !! k = Some v →
    q_store_ (sh_queue S) !! (k `mod` n)%nat = Some v
}.

Lemma slots_differ n k j : (k < j < k + n)%nat → (k `mod` n ≠ j `mod` n)%nat.
Proof.
  intros Hj E. rewrite <- (Nat.add_0_r k) in E at 1. replace j with (k + (j - k))%nat in E by lia.
  apply ring_inj in E; lia.
Qed.

Lemma next_slot n k : (0 < k)%nat → ((((k - 1) `mod` n) + 1) `mod` n = k `mod` n)%nat.
Proof. intros Hk. rewrite Nat.Div0.add_mod_idemp_l. f_equal. lia. Qed.

(** Establishes the invariant up to the parts that a step touches. *)
Ltac step_ok :=
  constructor; unfold write_lag, count_lag, read_lag, release_lag, capacity; cbn;
  rewrite ?length_app, ?length_insert; cbn; try done; try lia.

Lemma producer_step_ok n x S : (0 < n)%nat → threads_ok n S → (sh_producer S = P_idle → room S) →
  threads_ok n (producer_step x S).
Proof.
  intros Hn [Hc Ho Hw Hr [Hl1 Hl2] Hnum Hb Hrm Hp Hk Hst] Hroom.
  unfold room in Hroom. destruct S as [q p k w r]. destruct q as [st wi ri num].
  unfold write_lag, count_lag, read_lag, release_lag, capacity in *; cbn in *. subst n.
  destruct p as [|v i|v i| |j|]; cbn in *.
  - step_ok. rewrite Hw. unfold getNextToWriteTo. cbn.
    rewrite Nat.sub_0_r. split; [done|]. by apply Hroom.
  - destruct Hp as [-> Hlt]. step_ok.
    intros k' v' Hle Hv. pose proof (lookup_lt_Some _ _ _ Hv).
    rewrite list_lookup_insert_ne; [by apply Hst|]. apply not_eq_sym, slots_differ. lia.
  - destruct Hp as [-> Hlt]. step_ok.
    + by apply prefix_app_r.
    + rewrite Hw. f_equal. lia.
    + intros k' v' Hle Hv. apply lookup_app_Some in Hv as [Hv|[Hge Hv]].
      * pose proof (lookup_lt_Some _ _ _ Hv).
        rewrite list_lookup_insert_ne; [by apply Hst|]. apply not_eq_sym, slots_differ. lia.
      * apply list_lookup_singleton_Some in Hv as [Hk0 <-]. replace k' with (length w) by lia.
        apply list_lookup_insert_eq. apply Nat.mod_upper_bound. lia.
  - step_ok.
  - subst j. step_ok.
    rewrite next_slot by lia. f_equal. lia.
  - step_ok.
    destruct k; cbn in *; try done; lia.
Qed.

Lemma consumer_step_ok n S : (0 < n)%nat → threads_ok n S →
  ∃ S', consumer_step S = Ok S' ∧ threads_ok n S'.
Proof.
  intros Hn [Hc Ho Hw Hr [Hl1 Hl2] Hnum Hb Hrm Hp Hk Hst].
  destruct S as [q p k w r]. destruct q as [st wi ri num].
  unfold write_lag, count_lag, read_lag, release_lag, capacity in *; cbn in *. subst n.
  unfold consumer_step; cbn.
  destruct k as [| |i|i| |j| |]; cbn in *.
  - eexists; split; [done|]. destruct (Nat.eqb_spec num 0); step_ok.
  - eexists; split; [done|]. step_ok. split; [rewrite Hr; f_equal; lia|lia].
  - eexists; split; [done|]. by constructor.
  - destruct Hk as [-> Hnz]. destruct Ho as [pend ->]. destruct pend as [|v pend].
    { rewrite app_nil_r in *. lia. }
    rewrite length_app in *. cbn in *.
    assert (Hv : (r ++ v :: pend) !! length r = Some v) by (by rewrite list_lookup_middle).
    pose proof (Hst _ _ (Nat.le_refl _) Hv) as Hs. unfold read_slot. cbn. rewrite Hs.
    eexists; split; [done|].
    step_ok.
    + exists pend. by rewrite <- app_assoc.
    + rewrite Hr. f_equal. lia.
    + destruct p; cbn in *; try done; rewrite ?length_app in *; cbn in *; split_and?; try done; try lia; naive_solver lia.
    + intros k' v' Hle Hv'. apply Hst; [lia|done].
  - eexists; split; [done|]. by constructor.
  - subst j. eexists; split; [done|]. step_ok.
    rewrite next_slot by lia. f_equal. lia.
  - destruct (Nat.eqb_spec num 0) as [->|?]; [lia|]. eexists; split; [done|]. by constructor.
  - eexists; split; [done|]. step_ok.
Qed.

Lemma threads_ok_start n (dflt : T) : (0 < n)%nat → threads_ok n (threads_start n dflt).
Proof.
  intros Hn. step_ok;
    [by rewrite length_replicate|by rewrite Nat.Div0.mod_0_l..].
Qed.

Lemma threads_ok_reach n S S' : (0 < n)%nat → rtc thread_step S S' → threads_ok n S → threads_ok n S'.
Proof.
  intros Hn. induction 1 as [|S1 S2 S3 Hstep _ IH]; [done|]. intros Hok. apply IH.
  destruct Hstep as [x Hroom|S2 Hs]; [by apply producer_step_ok|].
  destruct (consumer_step_ok n _ Hn Hok) as (S4 & ? & ?). by replace S2 with S4 by congruence.
Qed.

(** ** What the invariant says *)

Lemma no_race n S : threads_ok n S → ¬ race S.
Proof.
  intros Hok (v & i & Hp & Hk). pose proof (to_producer _ _ Hok) as Hpa. pose proof (to_consumer _ _ Hok) as Hka.
  pose proof (to_num _ _ Hok) as Hnum. unfold count_lag, release_lag in Hnum. rewrite Hp in Hpa, Hnum.
  rewrite Hk in Hka, Hnum. cbn in Hpa, Hka. destruct Hpa as [-> ?], Hka as [E ?].
  apply (slots_differ n (length (sh_read S)) (length (sh_written S))); [lia|done].
Qed.

(** Between operations the queue holds the elements assigned and not used yet. *)
Lemma holds_idle n S : (0 < n)%nat → threads_ok n S → sh_producer S = P_idle → sh_consumer S = C_idle →
  holds (sh_queue S) (drop (length (sh_read S)) (sh_written S)).
Proof.
  intros Hn [Hc Ho Hw Hr _ Hnum Hb Hrm _ _ Hst] Hp Hk. unfold write_lag, count_lag, read_lag, release_lag in *.
  rewrite Hp, Hk in *. rewrite Nat.sub_0_r in Hw, Hr. unfold holds. rewrite Hc, length_drop.
  split_and!; [done|lia|lia|rewrite Hr; apply Nat.mod_upper_bound; lia| |].
  - rewrite Hw, Hr, Nat.Div0.add_mod_idemp_l. f_equal. lia.
  - intros k x Hx. rewrite lookup_drop in Hx. rewrite Hr, Nat.Div0.add_mod_idemp_l. apply Hst; [lia|done].
Qed.

(** How many steps the consumer needs at most until it has used everything. *)
Definition consumer_phase (k : Consumer) : nat :=
  match k with
  | C_idle => 4 | C_nonempty => 3 | C_slot _ => 2 | C_reading _ => 1
  | C_used => 8 | C_index _ => 7 | C_assert => 6 | C_count => 5
  end.
Definition steps_left S : nat := 8 * (length (sh_written S) - length (sh_read S)) + consumer_phase (sh_consumer S).

Lemma consumer_progress S S' : consumer_step S = Ok S' →
  (length (sh_read S') ≤ length (sh_written S'))%nat →
  sh_producer S' = sh_producer S ∧ sh_written S' = sh_written S ∧
  ((steps_left S' < steps_left S)%nat ∨ sh_consumer S = C_idle ∧ num_elements_ (sh_queue S) = 0%nat ∧ S' = S).
Proof.
  destruct S as [q p k w r]. unfold consumer_step, steps_left, at_consumer. cbn.
  destruct k as [| |i|i| |j| |]; cbn.
  - intros [= <-] Hl. split_and!; [done|done|]. unfold q_size. destruct (Nat.eqb_spec (num_elements_ q) 0); cbn; [by right|left; lia].
  - intros [= <-] Hl. cbn. split_and!; [done|done|left; lia].
  - intros [= <-] Hl. cbn. split_and!; [done|done|left; lia].
  - destruct (read_slot i q); [|done]. intros [= <-]. cbn. rewrite length_app. cbn. intros Hl.
    split_and!; [done|done|left; lia].
  - intros [= <-] Hl. cbn. split_and!; [done|done|left; lia].
  - intros [= <-] Hl. cbn. split_and!; [done|done|left; lia].
  - destruct (num_elements_ q =? 0)%nat; [done|]. intros [= <-] Hl. cbn. split_and!; [done|done|left; lia].
  - intros [= <-] Hl. cbn. split_and!; [done|done|left; lia].
Qed.

(** A consumer that goes on while the producer is between two pushes uses everything assigned. *)
Lemma consumer_catches_up n S : (0 < n)%nat → threads_ok n S → sh_producer S = P_idle →
  ∃ k S', consumer_steps k S = Ok S' ∧ sh_read S' = sh_written S ∧ sh_written S' = sh_written S.
Proof.
  intros Hn. remember (steps_left S) as m eqn:Hm. revert S Hm.
  induction (lt_wf m) as [m _ IH]. intros S -> Hok Hp.
  destruct (consumer_step_ok n S Hn Hok) as (S' & HS & Hok').
  pose proof (to_behind _ _ Hok') as Hb.
  destruct (consumer_progress S S' HS ltac:(lia)) as (Hp' & Hw' & [Hlt|(Hk & Hz & _)]).
  - rewrite Hp in Hp'. destruct (IH _ Hlt S' eq_refl Hok' Hp') as (k & S'' & Hs & Hr & Hw).
    exists (Datatypes.S k), S''. cbn. rewrite HS. cbn. by rewrite Hs, Hr, Hw, Hw'.
  - exists 0%nat, S. split_and!; [done| |done]. destruct (to_order _ _ Hok) as [pend Hpend].
    pose proof (to_num _ _ Hok) as Hnum. unfold count_lag, release_lag in Hnum. rewrite Hp, Hk, Hz in Hnum.
    rewrite Hpend in Hnum |- *. rewrite length_app in Hnum. destruct pend; [by rewrite app_nil_r|cbn in Hnum; lia].
Qed.

(** C19: the queue between two threads.  In every interleaving of a producer that begins a push only
    when an element of the ring has been used and a consumer that does what it likes, the consumer
    uses the elements in the order and as often as they were assigned, never one that is being assigned; its
    next step does not fault, the assertion of updateReadIndex included; between operations
    the queue holds what was assigned and not used; and from every state in which the producer is
    between two pushes the consumer can go on until it has used everything. *)
Theorem two_threads_fifo n (dflt : T) S : (0 < n)%nat → rtc thread_step (threads_start n dflt) S →
  sh_read S `prefix_of` sh_written S ∧ ¬ race S ∧ (∃ S', consumer_step S = Ok S') ∧
  (length (sh_written S) ≤ length (sh_read S) + n)%nat ∧
  (sh_producer S = P_idle → sh_consumer S = C_idle →
     holds (sh_queue S) (drop (length (sh_read S)) (sh_written S))) ∧
  (sh_producer S = P_idle → ∃ k S', consumer_steps k S = Ok S' ∧ sh_read S' = sh_written S).
Proof.
  intros Hn Hsteps. pose proof (threads_ok_reach n _ _ Hn Hsteps (threads_ok_start n dflt Hn)) as Hok.
  split_and!.
  - apply (to_order _ _ Hok).
  - by eapply no_race.
  - destruct (consumer_step_ok n S Hn Hok) as (S' & ? & _). by exists S'.
  - apply (to_room _ _ Hok).
  - by apply (holds_idle n).
  - intros Hp. destruct (consumer_catches_up n S Hn Hok Hp) as (k & S' & ? & ? & _). by exists k, S'.
Qed.

(** ** Schedules *)

(** A schedule that can be run: who goes next, [Some x] for the producer. *)
Definition room_b S : bool := (length (sh_written S) <? length (sh_read S) + capacity (sh_queue S))%nat.
Fixpoint run_schedule (sched : list (option T)) S : option (Shared T) :=
  match sched with
  | [] => Some S
  | Some x :: sched =>
      match sh_producer S with
      | P_idle => if room_b S then run_schedule sched (producer_step x S) else None
      | _ => run_schedule sched (producer_step x S)
      end
  | None :: sched => match consumer_step S with Ok S' => run_schedule sched S' | Err _ => None end
  end.

Lemma run_schedule_steps sched S S' : run_schedule sched S = Some S' → rtc thread_step S S'.
Proof.
  revert S. induction sched as [|[x|] sched IH]; intros S H; cbn [run_schedule] in H.
  - by injection H as ->.
  - apply rtc_l with (producer_step x S).
    + apply step_producer. intros Hp. rewrite Hp in H. destruct (room_b S) eqn:E; [|done].
      by apply Nat.ltb_lt in E.
    + apply IH. destruct (sh_producer S); [by destruct (room_b S)|done..].
  - destruct (consumer_step S) as [S1|e] eqn:E; [|done]. apply rtc_l with S1; [by apply step_consumer|by apply IH].
Qed.
End QueueThreads.

(** A consumer that still reads the element after it has released the slot, as the market data
    publisher does, can read it while the producer assigns the next one: on a queue of two slots
    the consumer has used slot 0 and released it when the producer, within its contract, writes
    there. *)
Definition late_read_schedule : list (option Z) :=
  replicate 6 (Some 7) ++ replicate 6 (Some 8) ++ replicate 4 None ++ replicate 4 None ++ replicate 2 (Some 9).

Theorem late_read_races :
  ∃ S, rtc thread_step (threads_start 2 0) S ∧ sh_read S = [7] ∧ sh_consumer S = C_idle ∧
    sh_producer S = P_writing 9 0 ∧ read_slot 0 (sh_queue S) = Some 9.
Proof.
  exists (default (threads_start 2 0) (run_schedule late_read_schedule (threads_start 2 0))).
  split; [apply (run_schedule_steps late_read_schedule); by vm_compute|]. by vm_compute.
Qed.
