(* ===== verification/CircList.v ===== *)
(** * Circular doubly linked lists

    The intrusive lists of the two order books (price levels, orders of a level) are
    circular: [nxt] and [prv] are the link fields as functions of the node, and [circ nxt
    prv l] says that following them visits the nodes of [l] in order and comes back. *)
From S2P Require Import Prelude.
Section circ.
Context {N : Type} `{EqDecision N}.
Implicit Types (nxt prv : N → option N) (a b p x y : N) (l : list N).

Definition link nxt prv a b : Prop := nxt a = Some b ∧ prv b = Some a.

(** The chain from [a] through [l] to [b]. *)
Fixpoint seg nxt prv a l b : Prop :=
  match l with
  | [] => link nxt prv a b
  | x :: l' => link nxt prv a x ∧ seg nxt prv x l' b
  end.

Definition circ nxt prv l : Prop :=
  match l with [] => True | a :: l' => seg nxt prv a l' a end.

Lemma seg_app nxt prv a l1 x l2 b :
  seg nxt prv a (l1 ++ x :: l2) b ↔ seg nxt prv a l1 x ∧ seg nxt prv x l2 b.
Proof. revert a. induction l1 as [|y l1 IH]; intros a; cbn; [done|]. rewrite IH. naive_solver. Qed.

(** Where the list starts does not matter. *)
Lemma circ_rot nxt prv l1 l2 : circ nxt prv (l1 ++ l2) ↔ circ nxt prv (l2 ++ l1).
Proof.
  assert (∀ l1 l2, circ nxt prv (l1 ++ l2) → circ nxt prv (l2 ++ l1)) as H.
  { intros [|a m1] [|b m2]; cbn; rewrite ?app_nil_r; try done.
    rewrite !seg_app. naive_solver. }
  split; apply H.
Qed.

Lemma seg_ext nxt prv nxt' prv' a l b :
  (∀ x, x ∈ a :: l → nxt' x = nxt x) →
  (∀ x, x ∈ l ++ [b] → prv' x = prv x) →
  seg nxt prv a l b → seg nxt' prv' a l b.
Proof.
  revert a. induction l as [|y l IH]; intros a Hn Hp; cbn; unfold link.
  - rewrite Hn, Hp by set_solver. done.
  - rewrite Hn, Hp by set_solver. intros [? ?]. split; [done|]. apply IH; set_solver.
Qed.

Lemma circ_ext nxt prv nxt' prv' l :
  (∀ x, x ∈ l → nxt' x = nxt x ∧ prv' x = prv x) → circ nxt prv l → circ nxt' prv' l.
Proof.
  destruct l as [|a l]; cbn; [done|]. intros H. apply seg_ext; intros x Hx; apply H; set_solver.
Qed.

Lemma seg_first nxt prv a l b : seg nxt prv a l b → nxt a = head (l ++ [b]).
Proof. destruct l; cbn; unfold link; naive_solver. Qed.

Lemma seg_last nxt prv a l b : seg nxt prv a l b → prv b = last (a :: l).
Proof.
  revert a. induction l as [|y l IH]; intros a; cbn [seg].
  - by intros [_ ->].
  - intros [_ H%IH]. rewrite H. done.
Qed.

(** The neighbours of a node; [l1 ++ p :: l2] read from [p] on is [p :: l2 ++ l1]. *)
Lemma circ_next nxt prv l1 p l2 :
  circ nxt prv (l1 ++ p :: l2) → nxt p = head (l2 ++ l1 ++ [p]).
Proof. rewrite circ_rot. cbn. intros H%seg_first. by rewrite app_assoc. Qed.

Lemma circ_prev nxt prv l1 p l2 :
  circ nxt prv (l1 ++ p :: l2) → prv p = last (p :: l2 ++ l1).
Proof. rewrite circ_rot. cbn. by intros H%seg_last. Qed.

(** Replacing the end of a chain. *)
Lemma seg_relink nxt prv nxt' prv' a l b c z :
  NoDup (a :: l) → last (a :: l) = Some z →
  (∀ x, x ∈ a :: l → x ≠ z → nxt' x = nxt x) → nxt' z = Some c →
  (∀ x, x ∈ l → prv' x = prv x) → prv' c = Some z →
  seg nxt prv a l b → seg nxt' prv' a l c.
Proof.
  revert a. induction l as [|y l IH]; intros a Hnd Hz Hn Hnz Hp Hpc; cbn [seg].
  - cbn in Hz. simplify_eq. by split.
  - intros [[Hay Hya] Hseg]. apply NoDup_cons in Hnd as [Ha Hnd].
    assert (z ∈ y :: l) as Hzl by (apply last_Some_elem_of; by rewrite <- Hz).
    split; [split|].
    + rewrite Hn; [done|set_solver|]. intros ->. done.
    + rewrite Hp; [done|set_solver].
    + apply IH; try done.
      * intros x Hx. apply Hn. set_solver.
      * intros x Hx. apply Hp. set_solver.
Qed.

(** Unlinking [p]: its neighbours become each other's neighbours. *)
Lemma circ_remove nxt prv nxt' prv' l1 p l2 h t :
  NoDup (l1 ++ p :: l2) →
  head (l2 ++ l1) = Some h → last (l2 ++ l1) = Some t →
  nxt' t = Some h → prv' h = Some t →
  (∀ x, x ∈ l1 ++ l2 → x ≠ t → nxt' x = nxt x) →
  (∀ x, x ∈ l1 ++ l2 → x ≠ h → prv' x = prv x) →
  circ nxt prv (l1 ++ p :: l2) → circ nxt' prv' (l1 ++ l2).
Proof.
  intros Hnd Hh Ht Hth Hht Hn Hp. rewrite circ_rot, (circ_rot _ _ l1 l2). cbn.
  assert (NoDup (l2 ++ l1)) as Hnd'.
  { apply NoDup_app in Hnd as (?&?&[??]%NoDup_cons). apply NoDup_app. set_solver. }
  assert (∀ x, x ∈ l2 ++ l1 ↔ x ∈ l1 ++ l2) as Hmem by set_solver.
  destruct (l2 ++ l1) as [|a l]; [done|]. cbn in Hh. simplify_eq. cbn [seg circ].
  intros [_ Hseg]. eapply (seg_relink nxt prv _ _ _ _ p); try done.
  - intros x Hx. apply Hn. by apply Hmem.
  - intros x Hx. apply Hp; [apply Hmem; set_solver|].
    apply NoDup_cons in Hnd' as [? _]. set_solver.
Qed.

(** Linking a new node [p] between the last and the first node of the list as read from
    some position: it ends up between [l1] and [l2]. *)
Lemma circ_insert nxt prv nxt' prv' l1 p l2 h t :
  NoDup (l1 ++ l2) → p ∉ l1 ++ l2 →
  head (l2 ++ l1) = Some h → last (l2 ++ l1) = Some t →
  nxt' t = Some p → prv' p = Some t → nxt' p = Some h → prv' h = Some p →
  (∀ x, x ∈ l1 ++ l2 → x ≠ t → nxt' x = nxt x) →
  (∀ x, x ∈ l1 ++ l2 → x ≠ h → prv' x = prv x) →
  circ nxt prv (l1 ++ l2) → circ nxt' prv' (l1 ++ p :: l2).
Proof.
  intros Hnd Hnp Hh Ht H1 H2 H3 H4 Hn Hp. rewrite circ_rot, (circ_rot _ _ l1 (p :: l2)).
  assert (NoDup (l2 ++ l1)) as Hnd' by (apply NoDup_app in Hnd; apply NoDup_app; set_solver).
  assert (∀ x, x ∈ l2 ++ l1 ↔ x ∈ l1 ++ l2) as Hmem by set_solver.
  cbn. destruct (l2 ++ l1) as [|a l]; [done|]. cbn in Hh. simplify_eq. cbn [seg circ].
  intros Hseg. split; [done|]. eapply (seg_relink nxt prv _ _ _ _ h); try done.
  - intros x Hx. apply Hn. by apply Hmem.
  - intros x Hx. apply Hp; [apply Hmem; set_solver|].
    apply NoDup_cons in Hnd' as [? _]. set_solver.
Qed.

Lemma circ_singleton nxt prv p : nxt p = Some p → prv p = Some p → circ nxt prv [p].
Proof. done. Qed.

(** A node that is its own successor is alone. *)
Lemma circ_self nxt prv l1 p l2 :
  NoDup (l1 ++ p :: l2) → circ nxt prv (l1 ++ p :: l2) →
  (nxt p = Some p ↔ l1 ++ l2 = []) ∧ (prv p = Some p ↔ l1 ++ l2 = []).
Proof.
  intros Hnd Hc. rewrite (circ_next _ _ _ _ _ Hc), (circ_prev _ _ _ _ _ Hc).
  assert (p ∉ l2 ++ l1) as Hp.
  { apply NoDup_app in Hnd as (?&?&[??]%NoDup_cons). set_solver. }
  rewrite app_assoc. assert (l1 ++ l2 = [] ↔ l2 ++ l1 = []) as ->.
  { destruct l1, l2; naive_solver. }
  destruct (l2 ++ l1) as [|a l] eqn:E; [done|]. cbn [head app]. split; split; try done.
  - intros [= ->]. set_solver.
  - intros Hlast. change (last (a :: l) = Some p) in Hlast.
    apply last_Some_elem_of in Hlast. done.
Qed.
End circ.
