(* ===== verification/EngineSink.v ===== *)
(** * The interface between an order book and the engine that owns it

    An order book calls its engine in two ways only (matching_engine.h: sendClientResponse,
    sendMarketUpdate).  The book is modelled and proved against this interface; MatchingEngine.v
    gives the implementation on the two outgoing queues. *)
From S2P Require Import Prelude Types.
Class EngineSink (E : Type) := {
  sendClientResponse : MEClientResponse → E → E;
  sendMarketUpdate : MEMarketUpdate → E → E
}.

(** What a book sends, in the order of the calls. *)
Inductive event :=
  | Response (r : MEClientResponse)
  | Update (u : MEMarketUpdate).

Section emit.
Context {E : Type} `{EngineSink E}.

Definition send (ev : event) (e : E) : E :=
  match ev with Response r => sendClientResponse r e | Update u => sendMarketUpdate u e end.

Definition emit (evs : list event) (e : E) : E := foldl (λ e ev, send ev e) e evs.

Lemma emit_app evs1 evs2 e : emit (evs1 ++ evs2) e = emit evs2 (emit evs1 e).
Proof. apply foldl_app. Qed.

Lemma emit_cons ev evs e : emit (ev :: evs) e = emit evs (send ev e).
Proof. done. Qed.
End emit.

(** The sink that records what it is sent. *)
#[export] Instance trace_sink : EngineSink (list event) := {|
  sendClientResponse r t := t ++ [Response r];
  sendMarketUpdate u t := t ++ [Update u]
|}.

Lemma emit_trace evs t : emit evs t = t ++ evs.
Proof.
  revert t. induction evs as [|ev evs IH]; intros t; [by rewrite app_nil_r|].
  rewrite emit_cons, IH. destruct ev; cbn; by rewrite <- app_assoc.
Qed.
