(* ===== verification/BookSpec.v ===== *)
(** * The abstract order book: what the matching engine's book promises

    A book is two lists of price levels, most aggressive first; a level is a price with its
    orders, oldest first.  There are no pointers, pools or hash tables here.  The functions are
    the specification of add and cancel; BookTheorems.v and BookCancel.v show that MEOrderBook.v implements them. *)
From S2P Require Import Prelude Types EngineSink.
Record Order := mkOrder {
  s_ticker : Z;
  s_client : Z;
  s_coid : Z;
  s_moid : Z;
  s_side : Side;
  s_price : Z;
  s_qty : Z;
  s_prio : Z
}.

Definition with_qty (q : Z) (o : Order) : Order :=
  mkOrder (s_ticker o) (s_client o) (s_coid o) (s_moid o) (s_side o) (s_price o) q (s_prio o).

Abbreviation Level := (Z * list Order)%type.

(** ** The two sides *)
Definition sel {A} (s : Side) (x : A * A) : A := if decide (s = Side_BUY) then x.1 else x.2.
Definition upd {A} (s : Side) (a : A) (x : A * A) : A * A :=
  if decide (s = Side_BUY) then (a, x.2) else (x.1, a).
Definition opp (s : Side) : Side :=
  match s with Side_BUY => Side_SELL | Side_SELL => Side_BUY | s => s end.
Definition trading_side (s : Side) : Prop := s = Side_BUY ∨ s = Side_SELL.

Record Book := mkBook {
  levels : list Level * list Level;     (** bids, asks *)
  next_id : Z
}.

(** Price [p] is more aggressive than [q]. *)
Definition before (s : Side) (p q : Z) : bool :=
  if decide (s = Side_BUY) then q <? p else p <? q.

(** ** Resting an order *)
Fixpoint insert_order (o : Order) (ls : list Level) : list Level :=
  match ls with
  | [] => [(s_price o, [o])]
  | (p, os) :: rest =>
      if p =? s_price o then (p, os ++ [o]) :: rest
      else if before (s_side o) p (s_price o) then (p, os) :: insert_order o rest
      else (s_price o, [o]) :: (p, os) :: rest
  end.

Fixpoint orders_at (price : Z) (ls : list Level) : list Order :=
  match ls with
  | [] => []
  | (p, os) :: rest => if p =? price then os else orders_at price rest
  end.

Definition next_priority (price : Z) (ls : list Level) : Z :=
  match last (orders_at price ls) with Some o => u64 (s_prio o + 1) | None => 1 end.

(** ** Matching *)
Record Aggressor := mkAggressor {
  a_client : Z; a_coid : Z; a_ticker : Z; a_side : Side; a_price : Z; a_moid : Z
}.

(** A passive price the aggressor does not trade at. *)
Definition beyond (s : Side) (limit p : Z) : bool :=
  if decide (s = Side_BUY) then limit <? p else p <? limit.

(** One execution: the messages, the quantity left of the aggressor and of the passive order. *)
Definition execution (a : Aggressor) (leaves : Z) (o : Order) : list event * Z * Z :=
  let fill := Z.min leaves (s_qty o) in
  let leaves' := leaves - fill in
  let rest := s_qty o - fill in
  ([Response (mkMEClientResponse ClientResponseType_FILLED (a_client a) (a_ticker a) (a_coid a)
               (a_moid a) (a_side a) (s_price o) fill leaves');
    Response (mkMEClientResponse ClientResponseType_FILLED (s_client o) (a_ticker a) (s_coid o)
               (s_moid o) (s_side o) (s_price o) fill rest);
    Update (mkMEMarketUpdate MarketUpdateType_TRADE OrderId_INVALID (a_ticker a) (a_side a)
              (s_price o) fill Priority_INVALID);
    Update (if rest =? 0
            then mkMEMarketUpdate MarketUpdateType_CANCEL (s_moid o) (a_ticker a) (s_side o)
                   (s_price o) (s_qty o) Priority_INVALID
            else mkMEMarketUpdate MarketUpdateType_MODIFY (s_moid o) (a_ticker a) (s_side o)
                   (s_price o) rest (s_prio o))],
   leaves', rest).

(** Consume the orders of one level, oldest first. *)
Fixpoint fill_level (a : Aggressor) (leaves : Z) (os : list Order) :
    list event * Z * list Order :=
  match os with
  | [] => ([], leaves, [])
  | o :: os' =>
      if leaves =? 0 then ([], leaves, os)
      else
        let '(evs, leaves', rest) := execution a leaves o in
        if rest =? 0 then
          let '(evs', leaves'', os'') := fill_level a leaves' os' in (evs ++ evs', leaves'', os'')
        else (evs, leaves', with_qty rest o :: os')
  end.

(** A level without orders is dropped. *)
Definition cons_level (p : Z) (os : list Order) (ls : list Level) : list Level :=
  match os with [] => ls | _ => (p, os) :: ls end.

(** Consume the levels, best first, up to the limit price. *)
Fixpoint sweep (a : Aggressor) (leaves : Z) (ls : list Level) : list event * Z * list Level :=
  match ls with
  | [] => ([], leaves, [])
  | (p, os) :: rest =>
      if (leaves =? 0) || beyond (a_side a) (a_price a) p then ([], leaves, ls)
      else
        let '(evs, leaves', os') := fill_level a leaves os in
        match os' with
        | [] => let '(evs', leaves'', ls') := sweep a leaves' rest in (evs ++ evs', leaves'', ls')
        | _ => (evs, leaves', (p, os') :: rest)
        end
  end.

(** ** The two operations *)
Definition spec_add (client coid ticker : Z) (side : Side) (price qty : Z) (bk : Book) :
    Book * list event :=
  let id := next_id bk in
  let accepted := Response (mkMEClientResponse ClientResponseType_ACCEPTED client ticker coid id
                              side price 0 qty) in
  let a := mkAggressor client coid ticker side price (u32 id) in
  let '(evs, leaves, passive) := sweep a qty (sel (opp side) (levels bk)) in
  let ls := upd (opp side) passive (levels bk) in
  if leaves =? 0 then (mkBook ls (u64 (id + 1)), accepted :: evs)
  else
    let own := sel side ls in
    let prio := next_priority price own in
    let o := mkOrder ticker client coid id side price leaves prio in
    (mkBook (upd side (insert_order o own) ls) (u64 (id + 1)),
     accepted :: evs ++ [Update (mkMEMarketUpdate MarketUpdateType_ADD id ticker side price leaves prio)]).

(** The live orders of a side in the order in which they trade. *)
Definition flat (ls : list Level) : list Order := ls ≫= snd.

Definition book_orders (bk : Book) : list Order := flat (levels bk).1 ++ flat (levels bk).2.

Definition has_key (c o : Z) (x : Order) : Prop := s_client x = c ∧ s_coid x = o.
#[export] Instance has_key_dec c o x : Decision (has_key c o x).
Proof. unfold has_key. apply _. Defined.

Definition find_order (c o : Z) (bk : Book) : option Order :=
  head (filter (has_key c o) (book_orders bk)).

Fixpoint delete_order (c o : Z) (ls : list Level) : list Level :=
  match ls with
  | [] => []
  | (p, os) :: rest => cons_level p (filter (λ x, ¬ has_key c o x) os) (delete_order c o rest)
  end.

Definition spec_cancel (client oid ticker : Z) (bk : Book) : Book * list event :=
  match find_order client oid bk with
  | None =>
      (bk, [Response (mkMEClientResponse ClientResponseType_CANCEL_REJECTED client ticker oid
                        OrderId_INVALID Side_INVALID Price_INVALID Qty_INVALID Qty_INVALID)])
  | Some o =>
      (mkBook (delete_order client oid (levels bk).1, delete_order client oid (levels bk).2)
         (next_id bk),
       [Update (mkMEMarketUpdate MarketUpdateType_CANCEL (s_moid o) ticker (s_side o) (s_price o) 0
                  (s_prio o));
        Response (mkMEClientResponse ClientResponseType_CANCELED client ticker oid (s_moid o)
                    (s_side o) (s_price o) Qty_INVALID (s_qty o))])
  end.

Definition prices (bk : Book) : list Z := (levels bk).1.*1 ++ (levels bk).2.*1.

(** The book has no live order with this client's order id. *)
Definition fresh (client coid : Z) (bk : Book) : Prop :=
  ∀ o, o ∈ book_orders bk → ¬ has_key client coid o.

Lemma find_order_Some c x bk o :
  find_order c x bk = Some o → o ∈ book_orders bk ∧ has_key c x o.
Proof.
  unfold find_order. intros Hh%head_Some_elem_of. by apply list_elem_of_filter in Hh as [? ?].
Qed.

(** ** Sides and prices *)
Lemma before_total s p q : p ≠ q → before s p q = false → before s q p = true.
Proof. unfold before. case_decide; lia. Qed.
Lemma before_asym s p q : before s p q = true → before s q p = false.
Proof. unfold before. case_decide; lia. Qed.
Lemma before_trans s p q r : before s p q = true → before s q r = true → before s p r = true.
Proof. unfold before. case_decide; lia. Qed.
Lemma before_irrefl s p : before s p p = false.
Proof. unfold before. case_decide; lia. Qed.

Lemma sel_upd {A} s (a : A) x : sel s (upd s a x) = a.
Proof. unfold sel, upd. by case_decide. Qed.
Lemma upd_upd {A} s (a a' : A) x : upd s a (upd s a' x) = upd s a x.
Proof. unfold upd. by case_decide. Qed.
Lemma upd_sel {A} s (x : A * A) : upd s (sel s x) x = x.
Proof. unfold sel, upd. destruct x. by case_decide. Qed.

Lemma opp_opp s : trading_side s → opp (opp s) = s.
Proof. by intros [->| ->]. Qed.
Lemma opp_trading s : trading_side s → trading_side (opp s).
Proof. intros [->| ->]; [by right|by left]. Qed.
Lemma sel_upd_opp {A} s (x : A) (y : A * A) : trading_side s → sel s (upd (opp s) x y) = sel s y.
Proof. by intros [->| ->]. Qed.
Lemma sel_opp_upd {A} s (x : A) (y : A * A) : trading_side s → sel (opp s) (upd s x y) = sel (opp s) y.
Proof. by intros [->| ->]. Qed.

Lemma book_orders_side s (o : Order) (bk : Book) :
  trading_side s →
  (o ∈ book_orders bk ↔ o ∈ flat (sel s (levels bk)) ∨ o ∈ flat (sel (opp s) (levels bk))).
Proof. unfold book_orders. rewrite elem_of_app. intros [->| ->]; cbn; tauto. Qed.

Lemma prices_side s (bk : Book) :
  trading_side s → prices bk ≡ₚ (sel s (levels bk)).*1 ++ (sel (opp s) (levels bk)).*1.
Proof. intros [->| ->]; cbn; [done|]. unfold prices. apply Permutation_app_comm. Qed.

Lemma book_orders_length s (bk : Book) :
  trading_side s →
  length (book_orders bk) = (length (flat (sel s (levels bk))) + length (flat (sel (opp s) (levels bk))))%nat.
Proof. unfold book_orders. rewrite length_app. intros [->| ->]; [done|]. apply Nat.add_comm. Qed.

Lemma book_orders_perm s (bk : Book) :
  trading_side s → book_orders bk ≡ₚ flat (sel s (levels bk)) ++ flat (sel (opp s) (levels bk)).
Proof. intros [->| ->]; [done|]. apply Permutation_app_comm. Qed.
