(* ===== verification/BookSweep.v ===== *)
(** * What a sweep leaves of a side

    The levels that remain after matching are a suffix of the levels before, in which at most
    the first order of the first level has a smaller quantity. *)
From S2P Require Import Prelude Types EngineSink BookSpec.
Implicit Types (a : Aggressor) (leaves : Z) (o : Order) (ls : list Level) (os : list Order).

(** The quantity [q] is what may be left of the order [o]: none only if there was none. *)
Definition shrunk (q : Z) o : Prop := 0 ≤ q ≤ s_qty o ∧ (0 < s_qty o → 0 < q).

Inductive remains ls : list Level → Prop :=
  | remains_suffix pre rest : ls = pre ++ rest → remains ls rest
  | remains_part pre p os1 o q os2 rest :
      ls = pre ++ (p, os1 ++ o :: os2) :: rest → shrunk q o →
      remains ls ((p, with_qty q o :: os2) :: rest).

Lemma remains_app pre ls ls' : remains ls ls' → remains (pre ++ ls) ls'.
Proof.
  intros [pre' rest ->|pre' p os1 o q os2 rest -> ?]; rewrite app_assoc.
  - by eapply remains_suffix.
  - by eapply remains_part.
Qed.

Lemma shrunk_refl o : 0 ≤ s_qty o → shrunk (s_qty o) o.
Proof. unfold shrunk. lia. Qed.

(** Quantities are never negative. *)
Definition wf_orders os : Prop := Forall (λ o, 0 ≤ s_qty o) os.

Lemma fill_level_leaves a leaves os :
  0 ≤ leaves → wf_orders os → 0 ≤ (fill_level a leaves os).1.2 ≤ leaves.
Proof.
  revert leaves. induction os as [|o os IH]; intros leaves Hl Hf; cbn; [lia|].
  apply Forall_cons in Hf as [Ho Hf]. destruct (leaves =? 0) eqn:E; cbn; [lia|].
  destruct (s_qty o - Z.min leaves (s_qty o) =? 0) eqn:E2; cbn; [|lia].
  specialize (IH (leaves - Z.min leaves (s_qty o)) ltac:(lia) Hf).
  destruct (fill_level _ _ os) as [[??]?]. cbn in *. lia.
Qed.

(** Either the level is used up, or an order of it is what is left and the aggressor is done. *)
Lemma fill_level_remains a leaves os :
  0 ≤ leaves → wf_orders os →
  let x := fill_level a leaves os in
  x.2 = [] ∨
  x.1.2 = 0 ∧ ∃ os1 o q os2, os = os1 ++ o :: os2 ∧ shrunk q o ∧ x.2 = with_qty q o :: os2.
Proof.
  revert leaves. induction os as [|o os IH]; intros leaves Hl Hf; cbn; [by left|].
  apply Forall_cons in Hf as [Ho Hf]. destruct (leaves =? 0) eqn:E; cbn.
  { right. split; [by apply Z.eqb_eq|]. exists [], o, (s_qty o), os. split_and!; [done|by apply shrunk_refl|].
    by destruct o. }
  destruct (s_qty o - Z.min leaves (s_qty o) =? 0) eqn:E2; cbn.
  - specialize (IH (leaves - Z.min leaves (s_qty o)) ltac:(lia) Hf).
    destruct (fill_level _ _ os) as [[evs l] os'] eqn:E3. cbn in *.
    destruct IH as [->|(-> & os1 & o' & q & os2 & -> & Hq & ->)]; [by left|right].
    split; [done|]. by exists (o :: os1), o', q, os2.
  - right. split; [lia|]. exists [], o, (s_qty o - Z.min leaves (s_qty o)), os.
    split_and!; [done|unfold shrunk; lia|done].
Qed.

Definition wf_levels ls : Prop := Forall (λ l, wf_orders l.2) ls.

Lemma sweep_remains a leaves ls :
  0 ≤ leaves → wf_levels ls →
  let x := sweep a leaves ls in
  0 ≤ x.1.2 ≤ leaves ∧ remains ls x.2 ∧
  (x.1.2 = 0 ∨ match x.2 with [] => True | l :: _ => beyond (a_side a) (a_price a) l.1 = true end).
Proof.
  revert leaves. induction ls as [|[p os] ls IH]; intros leaves Hl Hf; cbn.
  { split_and!; [lia|lia| |by right]. by apply (remains_suffix _ []). }
  apply Forall_cons in Hf as [Ho Hf]. cbn in Ho.
  destruct ((leaves =? 0) || beyond (a_side a) (a_price a) p) eqn:E; cbn.
  { split_and!; [lia|lia|by apply (remains_suffix _ [])|].
    apply orb_true_iff in E as [E%Z.eqb_eq|E]; [by left|by right]. }
  pose proof (fill_level_leaves a leaves os Hl Ho) as Hlv.
  pose proof (fill_level_remains a leaves os Hl Ho) as Hr. cbv zeta in Hr.
  destruct (fill_level a leaves os) as [[evs l] os']. cbn in Hlv, Hr.
  destruct Hr as [->|(-> & os1 & o & q & os2 & -> & Hq & ->)]; cbn.
  - specialize (IH l ltac:(lia) Hf). destruct (sweep a l ls) as [[evs' l'] ls']. cbn in *.
    destruct IH as (? & Hr & Hb). split_and!; [lia|lia|by apply (remains_app [_])|done].
  - split_and!; [lia|lia| |by left]. by apply (remains_part _ [] _ os1).
Qed.

(** ** Consequences *)
Lemma remains_prices ls ls' : remains ls ls' → ∃ pre, ls.*1 = pre ++ ls'.*1.
Proof.
  intros [pre rest ->|pre p os1 o q os2 rest -> _]; exists pre.*1; by rewrite fmap_app.
Qed.

Lemma flat_app ls1 ls2 : flat (ls1 ++ ls2) = flat ls1 ++ flat ls2.
Proof. apply bind_app. Qed.
Lemma flat_cons p os ls : flat ((p, os) :: ls) = os ++ flat ls.
Proof. done. Qed.

Lemma with_qty_id o : with_qty (s_qty o) o = o.
Proof. by destruct o. Qed.

Lemma wf_levels_flat ls : wf_levels ls ↔ wf_orders (flat ls).
Proof.
  unfold wf_levels, wf_orders. induction ls as [|[p os] ls IH]; [by split; constructor|].
  rewrite Forall_cons, flat_cons, Forall_app. by rewrite IH.
Qed.

(** The orders that remain, in order: a suffix, the first of which may be smaller. *)
Lemma remains_flat ls ls' :
  wf_levels ls → remains ls ls' →
  flat ls' = [] ∨
  ∃ pre o q os, flat ls = pre ++ o :: os ∧ shrunk q o ∧ flat ls' = with_qty q o :: os.
Proof.
  intros Hwf [pre rest ->|pre p os1 o q os2 rest -> Hq].
  - destruct (flat rest) as [|o os] eqn:E; [by left|right].
    exists (flat pre), o, (s_qty o), os. rewrite flat_app, E, with_qty_id. split_and!; [done|apply shrunk_refl|done].
    apply wf_levels_flat in Hwf. rewrite flat_app, E in Hwf.
    by apply Forall_app in Hwf as [_ [? _]%Forall_cons].
  - right. exists (flat pre ++ os1), o, q, (os2 ++ flat rest).
    rewrite flat_app, !flat_cons, <- !app_assoc. done.
Qed.

Lemma remains_orders ls ls' o' :
  wf_levels ls → remains ls ls' → o' ∈ flat ls' →
  ∃ o q, o ∈ flat ls ∧ shrunk q o ∧ o' = with_qty q o.
Proof.
  intros Hwf Hr Ho'. pose proof Hwf as Hwf'. apply wf_levels_flat in Hwf'.
  unfold wf_orders in Hwf'. rewrite Forall_forall in Hwf'.
  destruct (remains_flat _ _ Hwf Hr) as [E|(pre & o & q & os & E & Hq & E')]; [rewrite E in Ho'; set_solver|].
  rewrite E' in Ho'. rewrite E in Hwf' |- *. apply elem_of_cons in Ho' as [->|Ho'].
  - exists o, q. set_solver.
  - exists o', (s_qty o'). rewrite with_qty_id. split_and!; [set_solver|apply shrunk_refl, Hwf'; set_solver|done].
Qed.

Lemma remains_length ls ls' :
  wf_levels ls → remains ls ls' →
  (length (flat ls') ≤ length (flat ls) ∧ length ls' ≤ length ls)%nat.
Proof.
  intros Hwf Hr. split.
  - destruct (remains_flat _ _ Hwf Hr) as [->|(pre & o & q & os & -> & _ & ->)]; [cbn; lia|].
    rewrite length_app. cbn. lia.
  - destruct (remains_prices _ _ Hr) as [pre Hp]. apply (f_equal length) in Hp.
    rewrite length_app, !length_fmap in Hp. lia.
Qed.

(** What holds of the messages of every execution holds of all messages of a sweep. *)
Lemma sweep_events (P : event → Prop) (Q : Order → Prop) a leaves ls :
  (∀ l o, Q o → Forall P (execution a l o).1.1) → Forall Q (flat ls) → Forall P (sweep a leaves ls).1.1.
Proof.
  intros Hx.
  assert (∀ os leaves, Forall Q os → Forall P (fill_level a leaves os).1.1) as Hf.
  { intros os. induction os as [|o os IH]; intros l Hos; cbn [fill_level]; [constructor|].
    apply Forall_cons in Hos as [Ho Hos].
    destruct (l =? 0); [constructor|]. pose proof (Hx l o Ho) as Hxo.
    destruct (execution a l o) as [[evs l'] r]. cbn in Hxo. specialize (IH l' Hos).
    destruct (r =? 0); [|done]. destruct (fill_level a l' os) as [[evs' ?] ?]. cbn in *.
    by apply Forall_app. }
  revert leaves. induction ls as [|[p os] ls IH]; intros l Hls; cbn [sweep]; [constructor|].
  rewrite flat_cons in Hls. apply Forall_app in Hls as [Hos Hls].
  destruct (_ || _); [constructor|]. pose proof (Hf os l Hos) as Hfo.
  destruct (fill_level a l os) as [[evs l'] os']. cbn in Hfo. destruct os'; [|done].
  specialize (IH l' Hls). destruct (sweep a l' ls) as [[evs' ?] ?]. cbn in *. by apply Forall_app.
Qed.

(** If the aggressor has something left, no remaining level is at a price it trades at. *)
Lemma beyond_before s limit p q :
  trading_side s → beyond s limit p = true → before (opp s) p q = true → beyond s limit q = true.
Proof. intros [->| ->]; unfold beyond, before; cbn [opp]; repeat case_decide; try done; lia. Qed.

Lemma beyond_irrefl s p : beyond s p p = false.
Proof. unfold beyond. case_decide; lia. Qed.

Lemma sweep_rest_beyond a leaves ls :
  trading_side (a_side a) → 0 ≤ leaves → wf_levels ls →
  StronglySorted (λ p q, before (opp (a_side a)) p q = true) ls.*1 →
  let x := sweep a leaves ls in
  x.1.2 ≠ 0 → Forall (λ p, beyond (a_side a) (a_price a) p = true) x.2.*1.
Proof.
  intros Hs Hl Hwf Hsort x Hx. destruct (sweep_remains a leaves ls Hl Hwf) as (_ & Hr & Hb).
  fold x in Hr, Hb. destruct Hb as [?|Hb]; [done|].
  destruct (remains_prices _ _ Hr) as [pre Hp]. rewrite Hp in Hsort.
  assert (StronglySorted (λ p q, before (opp (a_side a)) p q = true) x.2.*1) as Hs2.
  { clear Hp. induction pre as [|y pre IH]; [done|]. cbn in Hsort. apply StronglySorted_inv in Hsort as [Hsort _]. by apply IH. }
  destruct x.2 as [|[p os] ls']; [constructor|]. cbn in Hb, Hs2 |- *.
  apply StronglySorted_inv in Hs2 as [_ Hf]. constructor; [done|].
  eapply Forall_impl; [exact Hf|]. intros q Hq. by eapply beyond_before.
Qed.
