(* ===== verification/MEOrderBook.v ===== *)
(** * The matching engine's limit order book, as written

    exchange/matcher/me_order.h, me_order_book.h and me_order_book.cpp.  Objects live in two
    memory pools; a pointer is a block index.  The arrays indexed by price and by client and
    order id are finite maps in which an absent key is nullptr.  The parent engine is the
    client of an interface, [EngineSink]: the book only pushes responses and updates into it. *)
From S2P Require Import Prelude Types MemPool EngineSink.
(** ** Data (me_order.h) *)
Record MEOrder := mkMEOrder {
  o_ticker_id_ : Z;
  o_client_id_ : Z;
  o_client_order_id_ : Z;
  o_market_order_id_ : Z;
  o_side_ : Side;
  o_price_ : Z;
  o_qty_ : Z;
  o_priority_ : Z;
  prev_order_ : ptr;
  next_order_ : ptr
}.

Definition MEOrder_default : MEOrder :=
  mkMEOrder TickerId_INVALID ClientId_INVALID OrderId_INVALID OrderId_INVALID Side_INVALID
    Price_INVALID Qty_INVALID Priority_INVALID None None.

Record MEOrdersAtPrice := mkMEOrdersAtPrice {
  l_side_ : Side;
  l_price_ : Z;
  first_me_order_ : ptr;
  prev_entry_ : ptr;
  next_entry_ : ptr
}.

Definition MEOrdersAtPrice_default : MEOrdersAtPrice :=
  mkMEOrdersAtPrice Side_INVALID Price_INVALID None None None.

(** Field assignments. *)
Definition set_prev_order (x : ptr) (o : MEOrder) : MEOrder :=
  mkMEOrder (o_ticker_id_ o) (o_client_id_ o) (o_client_order_id_ o) (o_market_order_id_ o)
    (o_side_ o) (o_price_ o) (o_qty_ o) (o_priority_ o) x (next_order_ o).
Definition set_next_order (x : ptr) (o : MEOrder) : MEOrder :=
  mkMEOrder (o_ticker_id_ o) (o_client_id_ o) (o_client_order_id_ o) (o_market_order_id_ o)
    (o_side_ o) (o_price_ o) (o_qty_ o) (o_priority_ o) (prev_order_ o) x.
Definition set_qty (q : Z) (o : MEOrder) : MEOrder :=
  mkMEOrder (o_ticker_id_ o) (o_client_id_ o) (o_client_order_id_ o) (o_market_order_id_ o)
    (o_side_ o) (o_price_ o) q (o_priority_ o) (prev_order_ o) (next_order_ o).
Definition set_first_me_order (x : ptr) (l : MEOrdersAtPrice) : MEOrdersAtPrice :=
  mkMEOrdersAtPrice (l_side_ l) (l_price_ l) x (prev_entry_ l) (next_entry_ l).
Definition set_prev_entry (x : ptr) (l : MEOrdersAtPrice) : MEOrdersAtPrice :=
  mkMEOrdersAtPrice (l_side_ l) (l_price_ l) (first_me_order_ l) x (next_entry_ l).
Definition set_next_entry (x : ptr) (l : MEOrdersAtPrice) : MEOrdersAtPrice :=
  mkMEOrdersAtPrice (l_side_ l) (l_price_ l) (first_me_order_ l) (prev_entry_ l) x.

(** The members of class MEOrderBook that its methods read.  [client_response_] and
    [market_update_] are assigned before each use and passed on at once; the values the code
    puts in them are the arguments of the sends.  The logger is not modelled. *)
Record MEOrderBook := mkMEOrderBook {
  ticker_id_ : Z;
  cid_oid_to_order_ : gmap (Z * Z) nat;
  orders_at_price_pool_ : MemPool MEOrdersAtPrice;
  bids_by_price_ : ptr;
  asks_by_price_ : ptr;
  price_orders_at_price_ : gmap Z nat;
  order_pool_ : MemPool MEOrder;
  next_market_order_id_ : Z
}.

Definition set_cid_oid_to_order (x : gmap (Z * Z) nat) (b : MEOrderBook) : MEOrderBook :=
  mkMEOrderBook (ticker_id_ b) x (orders_at_price_pool_ b) (bids_by_price_ b) (asks_by_price_ b)
    (price_orders_at_price_ b) (order_pool_ b) (next_market_order_id_ b).
Definition set_orders_at_price_pool (x : MemPool MEOrdersAtPrice) (b : MEOrderBook) : MEOrderBook :=
  mkMEOrderBook (ticker_id_ b) (cid_oid_to_order_ b) x (bids_by_price_ b) (asks_by_price_ b)
    (price_orders_at_price_ b) (order_pool_ b) (next_market_order_id_ b).
Definition set_bids_by_price (x : ptr) (b : MEOrderBook) : MEOrderBook :=
  mkMEOrderBook (ticker_id_ b) (cid_oid_to_order_ b) (orders_at_price_pool_ b) x (asks_by_price_ b)
    (price_orders_at_price_ b) (order_pool_ b) (next_market_order_id_ b).
Definition set_asks_by_price (x : ptr) (b : MEOrderBook) : MEOrderBook :=
  mkMEOrderBook (ticker_id_ b) (cid_oid_to_order_ b) (orders_at_price_pool_ b) (bids_by_price_ b) x
    (price_orders_at_price_ b) (order_pool_ b) (next_market_order_id_ b).
Definition set_price_orders_at_price (x : gmap Z nat) (b : MEOrderBook) : MEOrderBook :=
  mkMEOrderBook (ticker_id_ b) (cid_oid_to_order_ b) (orders_at_price_pool_ b) (bids_by_price_ b)
    (asks_by_price_ b) x (order_pool_ b) (next_market_order_id_ b).
Definition set_order_pool (x : MemPool MEOrder) (b : MEOrderBook) : MEOrderBook :=
  mkMEOrderBook (ticker_id_ b) (cid_oid_to_order_ b) (orders_at_price_pool_ b) (bids_by_price_ b)
    (asks_by_price_ b) (price_orders_at_price_ b) x (next_market_order_id_ b).
Definition set_next_market_order_id (x : Z) (b : MEOrderBook) : MEOrderBook :=
  mkMEOrderBook (ticker_id_ b) (cid_oid_to_order_ b) (orders_at_price_pool_ b) (bids_by_price_ b)
    (asks_by_price_ b) (price_orders_at_price_ b) (order_pool_ b) x.

(** Writing a pointer into an array of pointers. *)
Definition slot_set {K} `{Countable K} (k : K) (x : ptr) (m : gmap K nat) : gmap K nat :=
  match x with Some i => <[k := i]> m | None => delete k m end.

Section MEOrderBook.
Context `{Limits} {E : Type} `{EngineSink E}.

(** A method of the book: it may fault, and it changes the book and the engine. *)
Definition B (A : Type) : Type := M (MEOrderBook * E) A.

(** The constructor.  It fills price_orders_at_price_ with nullptr, but cid_oid_to_order_ only under
    LLT_BENCHMARK_MODE: outside that mode the array holds what the memory of the object held, which
    is [memory], pointers to no particular order of the pool or to none. *)
Definition MEOrderBook_new (memory : gmap (Z * Z) nat) (ticker_id : Z) : MEOrderBook :=
  mkMEOrderBook ticker_id memory
    (MemPool_new (Z.to_nat ME_MAX_PRICE_LEVELS) MEOrdersAtPrice_default) None None ∅
    (MemPool_new (Z.to_nat ME_MAX_ORDER_IDS) MEOrder_default) 1.

Definition book_gets {A} (f : MEOrderBook → A) : B A := gets (f ∘ fst).
Definition book_modify (f : MEOrderBook → MEOrderBook) : B unit :=
  modify (λ s, (f s.1, s.2)).
Definition send_response (r : MEClientResponse) : B unit :=
  modify (λ s, (s.1, sendClientResponse r s.2)).
Definition send_update (u : MEMarketUpdate) : B unit :=
  modify (λ s, (s.1, sendMarketUpdate u s.2)).

(** Reads and writes through pointers to orders and to price levels. *)
Definition rd_order (x : ptr) : B MEOrder :=
  p ← book_gets order_pool_; lift (deref x p).
Definition wr_order (x : ptr) (f : MEOrder → MEOrder) : B unit :=
  p ← book_gets order_pool_; p' ← lift (update x f p); book_modify (set_order_pool p').
Definition rd_level (x : ptr) : B MEOrdersAtPrice :=
  p ← book_gets orders_at_price_pool_; lift (deref x p).
Definition wr_level (x : ptr) (f : MEOrdersAtPrice → MEOrdersAtPrice) : B unit :=
  p ← book_gets orders_at_price_pool_; p' ← lift (update x f p);
  book_modify (set_orders_at_price_pool p').

Definition alloc_order (o : MEOrder) : B ptr :=
  p ← book_gets order_pool_; r ← lift (allocate o p);
  book_modify (set_order_pool r.2);; mret (Some r.1).
Definition free_order (x : ptr) : B unit :=
  p ← book_gets order_pool_; p' ← lift (deallocate x p); book_modify (set_order_pool p').
Definition alloc_level (l : MEOrdersAtPrice) : B ptr :=
  p ← book_gets orders_at_price_pool_; r ← lift (allocate l p);
  book_modify (set_orders_at_price_pool r.2);; mret (Some r.1).
Definition free_level (x : ptr) : B unit :=
  p ← book_gets orders_at_price_pool_; p' ← lift (deallocate x p);
  book_modify (set_orders_at_price_pool p').

(** [(side == Side::BUY ? bids_by_price_ : asks_by_price_)], read and assigned. *)
Definition by_price (side : Side) (b : MEOrderBook) : ptr :=
  if decide (side = Side_BUY) then bids_by_price_ b else asks_by_price_ b.
Definition set_by_price (side : Side) (x : ptr) (b : MEOrderBook) : MEOrderBook :=
  if decide (side = Side_BUY) then set_bids_by_price x b else set_asks_by_price x b.

Definition generateNewMarketOrderId : B Z :=
  id ← book_gets next_market_order_id_;
  book_modify (set_next_market_order_id (u64 (id + 1)));;
  mret id.

(** [price % ME_MAX_PRICE_LEVELS]: the price is converted to the unsigned size_t. *)
Definition priceToIndex (price : Z) : Z := u64 price `mod` ME_MAX_PRICE_LEVELS.

Definition getOrdersAtPrice (price : Z) : B ptr :=
  book_gets (λ b, price_orders_at_price_ b !! priceToIndex price).

Definition set_orders_at_price_slot (price : Z) (x : ptr) : B unit :=
  book_modify (λ b, set_price_orders_at_price
    (slot_set (priceToIndex price) x (price_orders_at_price_ b)) b).

(** The condition [add_after]: [n] is less aggressive than [t]. *)
Definition goes_after (n t : MEOrdersAtPrice) : bool :=
  (bool_decide (l_side_ n = Side_SELL) && (l_price_ t <? l_price_ n)) ||
  (bool_decide (l_side_ n = Side_BUY) && (l_price_ n <? l_price_ t)).

(** The loop [while (add_after && target != best_orders_by_price)]. *)
Fixpoint find_target (fuel : nat) (n : MEOrdersAtPrice) (best target : ptr)
    (add_after : bool) : B (ptr * bool) :=
  if add_after && bool_decide (target ≠ best) then
    match fuel with
    | O => throw Diverges
    | S fuel =>
        t ← rd_level target;
        if goes_after n t then find_target fuel n best (next_entry_ t) true
        else mret (target, false)
    end
  else mret (target, add_after).

(** The position of the new level: [add_after] false means in front of [target]. *)
Definition position (fuel : nat) (n : MEOrdersAtPrice) (best : ptr) : B (ptr * bool) :=
  t ← rd_level best;
  if goes_after n t then
    t' ← rd_level (next_entry_ t);
    find_target fuel n best (next_entry_ t) (goes_after n t')
  else find_target fuel n best best false.

Definition link_after (new target : ptr) : B unit :=
  wr_level new (set_prev_entry target);;
  t ← rd_level target; wr_level (next_entry_ t) (set_prev_entry new);;
  t ← rd_level target; wr_level new (set_next_entry (next_entry_ t));;
  wr_level target (set_next_entry new).

Definition link_before (new target : ptr) : B unit :=
  t ← rd_level target; wr_level new (set_prev_entry (prev_entry_ t));;
  wr_level new (set_next_entry target);;
  t ← rd_level target; wr_level (prev_entry_ t) (set_next_entry new);;
  wr_level target (set_prev_entry new).

Definition addOrdersAtPrice (new : ptr) : B unit :=
  n ← rd_level new;
  set_orders_at_price_slot (l_price_ n) new;;
  best ← book_gets (by_price (l_side_ n));
  match best with
  | None =>
      book_modify (set_by_price (l_side_ n) new);;
      wr_level new (set_next_entry new);;
      wr_level new (set_prev_entry new)
  | Some _ =>
      fuel ← book_gets (λ b, pool_size (orders_at_price_pool_ b));
      r ← position fuel n best;
      let target := r.1 in
      if (r.2 : bool) then
        b ← rd_level best;
        link_after new (if decide (target = best) then prev_entry_ b else target)
      else
        link_before new target;;
        b ← rd_level best;
        if (bool_decide (l_side_ n = Side_BUY) && (l_price_ b <? l_price_ n)) ||
           (bool_decide (l_side_ n = Side_SELL) && (l_price_ n <? l_price_ b)) then
          t ← rd_level target;
          wr_level target (set_next_entry
            (if decide (next_entry_ t = best) then new else next_entry_ t));;
          book_modify (set_by_price (l_side_ n) new)
        else mret tt
  end.

Definition removeOrdersAtPrice (side : Side) (price : Z) : B unit :=
  best ← book_gets (by_price side);
  x ← getOrdersAtPrice price;
  l ← rd_level x;
  (if decide (next_entry_ l = x) then book_modify (set_by_price side None)
   else
     l ← rd_level x; wr_level (prev_entry_ l) (set_next_entry (next_entry_ l));;
     l ← rd_level x; wr_level (next_entry_ l) (set_prev_entry (prev_entry_ l));;
     (if decide (x = best) then
        l ← rd_level x; book_modify (set_by_price side (next_entry_ l))
      else mret tt);;
     wr_level x (set_next_entry None);;
     wr_level x (set_prev_entry None));;
  set_orders_at_price_slot price None;;
  free_level x.

Definition getNextPriority (price : Z) : B Z :=
  x ← getOrdersAtPrice price;
  match x with
  | None => mret 1
  | Some _ =>
      l ← rd_level x;
      first ← rd_order (first_me_order_ l);
      last ← rd_order (prev_order_ first);
      mret (u64 (o_priority_ last + 1))
  end.

(** [cid_oid_to_order_.at(c).at(o) = x]: both accesses are checked. *)
Definition set_cid_oid (c o : Z) (x : ptr) : B unit :=
  if (c <? ME_MAX_NUM_CLIENTS) && (o <? ME_MAX_ORDER_IDS) then
    book_modify (λ b, set_cid_oid_to_order (slot_set (c, o) x (cid_oid_to_order_ b)) b)
  else throw OutOfRange.

Definition removeOrder (order : ptr) : B unit :=
  o ← rd_order order;
  orders_at_price ← getOrdersAtPrice (o_price_ o);
  (if decide (prev_order_ o = order) then removeOrdersAtPrice (o_side_ o) (o_price_ o)
   else
     let order_before := prev_order_ o in
     let order_after := next_order_ o in
     wr_order order_before (set_next_order order_after);;
     wr_order order_after (set_prev_order order_before);;
     l ← rd_level orders_at_price;
     (if decide (first_me_order_ l = order) then
        wr_level orders_at_price (set_first_me_order order_after)
      else mret tt);;
     wr_order order (set_next_order None);;
     wr_order order (set_prev_order None));;
  set_cid_oid (o_client_id_ o) (o_client_order_id_ o) None;;
  free_order order.

Definition addOrder (order : ptr) : B unit :=
  o ← rd_order order;
  orders_at_price ← getOrdersAtPrice (o_price_ o);
  match orders_at_price with
  | None =>
      wr_order order (set_prev_order order);;
      wr_order order (set_next_order order);;
      new ← alloc_level (mkMEOrdersAtPrice (o_side_ o) (o_price_ o) order None None);
      addOrdersAtPrice new
  | Some _ =>
      l ← rd_level orders_at_price;
      let first := first_me_order_ l in
      f ← rd_order first; wr_order (prev_order_ f) (set_next_order order);;
      f ← rd_order first; wr_order order (set_prev_order (prev_order_ f));;
      wr_order order (set_next_order first);;
      wr_order first (set_prev_order order)
  end;;
  set_cid_oid (o_client_id_ o) (o_client_order_id_ o) order.

(** me_order_book.cpp: one execution of the aggressive order against [itr]; the result is the
    new value of [*leaves_qty]. *)
Definition match_order (ticker_id client_id : Z) (side : Side) (client_order_id new_market_order_id : Z)
    (itr : ptr) (leaves_qty : Z) : B Z :=
  o ← rd_order itr;
  let order_qty := o_qty_ o in
  let fill_qty := Z.min leaves_qty order_qty in
  let leaves_qty := u32 (leaves_qty - fill_qty) in
  wr_order itr (set_qty (u32 (order_qty - fill_qty)));;
  o ← rd_order itr;
  send_response (mkMEClientResponse ClientResponseType_FILLED client_id ticker_id client_order_id
                   new_market_order_id side (o_price_ o) fill_qty leaves_qty);;
  send_response (mkMEClientResponse ClientResponseType_FILLED (o_client_id_ o) ticker_id
                   (o_client_order_id_ o) (o_market_order_id_ o) (o_side_ o) (o_price_ o)
                   fill_qty (o_qty_ o));;
  send_update (mkMEMarketUpdate MarketUpdateType_TRADE OrderId_INVALID ticker_id side (o_price_ o)
                 fill_qty Priority_INVALID);;
  (if o_qty_ o =? 0 then
     send_update (mkMEMarketUpdate MarketUpdateType_CANCEL (o_market_order_id_ o) ticker_id
                    (o_side_ o) (o_price_ o) order_qty Priority_INVALID);;
     removeOrder itr
   else
     send_update (mkMEMarketUpdate MarketUpdateType_MODIFY (o_market_order_id_ o) ticker_id
                    (o_side_ o) (o_price_ o) (o_qty_ o) (o_priority_ o)));;
  mret leaves_qty.

(** The two loops of checkForMatch, which differ in the side they walk and in the comparison
    that stops them ([price < ask] and [price > bid]). *)
Definition beyond_limit (side : Side) (price passive_price : Z) : bool :=
  if decide (side = Side_BUY) then price <? passive_price else passive_price <? price.

Fixpoint match_loop (fuel : nat) (client_id client_order_id ticker_id : Z) (side : Side)
    (price leaves_qty new_market_order_id : Z) : B Z :=
  best ← book_gets (if decide (side = Side_BUY) then asks_by_price_ else bids_by_price_);
  if negb (leaves_qty =? 0) && bool_decide (best ≠ None) then
    match fuel with
    | O => throw Diverges
    | S fuel =>
        l ← rd_level best;
        let itr := first_me_order_ l in
        o ← rd_order itr;
        if beyond_limit side price (o_price_ o) then mret leaves_qty
        else
          leaves_qty ← match_order ticker_id client_id side client_order_id
                         new_market_order_id itr leaves_qty;
          match_loop fuel client_id client_order_id ticker_id side price leaves_qty
            new_market_order_id
    end
  else mret leaves_qty.

(** The parameter [new_market_order_id] has type Qty: the 64-bit order id is narrowed to
    32 bits at the call. *)
Definition checkForMatch (client_id client_order_id ticker_id : Z) (side : Side)
    (price qty new_market_order_id : Z) : B Z :=
  let new_market_order_id := u32 new_market_order_id in
  fuel ← book_gets (λ b, pool_size (order_pool_ b));
  match side with
  | Side_BUY | Side_SELL =>
      match_loop fuel client_id client_order_id ticker_id side price qty new_market_order_id
  | _ => mret qty
  end.

Definition add (client_id client_order_id ticker_id : Z) (side : Side) (price qty : Z) : B unit :=
  new_market_order_id ← generateNewMarketOrderId;
  send_response (mkMEClientResponse ClientResponseType_ACCEPTED client_id ticker_id client_order_id
                   new_market_order_id side price 0 qty);;
  leaves_qty ← checkForMatch client_id client_order_id ticker_id side price qty new_market_order_id;
  if negb (leaves_qty =? 0) then
    priority ← getNextPriority price;
    order ← alloc_order (mkMEOrder ticker_id client_id client_order_id new_market_order_id side
                           price leaves_qty priority None None);
    addOrder order;;
    send_update (mkMEMarketUpdate MarketUpdateType_ADD new_market_order_id ticker_id side price
                   leaves_qty priority)
  else mret tt.

Definition cancel (client_id order_id ticker_id : Z) : B unit :=
  exchange_order ←
    (if client_id <? ME_MAX_NUM_CLIENTS then
       if order_id <? ME_MAX_ORDER_IDS then
         book_gets (λ b, cid_oid_to_order_ b !! (client_id, order_id))
       else throw OutOfRange
     else mret None);
  match exchange_order with
  | None =>
      send_response (mkMEClientResponse ClientResponseType_CANCEL_REJECTED client_id ticker_id
                       order_id OrderId_INVALID Side_INVALID Price_INVALID Qty_INVALID Qty_INVALID)
  | Some _ =>
      o ← rd_order exchange_order;
      removeOrder exchange_order;;
      send_update (mkMEMarketUpdate MarketUpdateType_CANCEL (o_market_order_id_ o) ticker_id
                     (o_side_ o) (o_price_ o) 0 (o_priority_ o));;
      send_response (mkMEClientResponse ClientResponseType_CANCELED client_id ticker_id order_id
                       (o_market_order_id_ o) (o_side_ o) (o_price_ o) Qty_INVALID (o_qty_ o))
  end.
End MEOrderBook.
