(* ===== verification/BookRep.v ===== *)
(** * The representation invariant of the order book

    [view] reads an MEOrderBook as finite maps (its in-use orders and levels) and gives one
    rule per primitive of the pointer code.  [rep] says that those maps represent a ghost
    structure: the abstract levels of BookSpec.v with the address of each level and order. *)
From S2P Require Import Prelude Types MemPool CircList EngineSink BookSpec MEOrderBook.
(** An order without its links. *)
Definition order_of (x : MEOrder) : Order :=
  mkOrder (o_ticker_id_ x) (o_client_id_ x) (o_client_order_id_ x) (o_market_order_id_ x)
    (o_side_ x) (o_price_ x) (o_qty_ x) (o_priority_ x).

(** A level without its links. *)
Definition level_data (l : MEOrdersAtPrice) : Side * Z * ptr :=
  (l_side_ l, l_price_ l, first_me_order_ l).

Abbreviation GLevel := (nat * (Z * list (nat * Order)))%type.
Implicit Types (om : gmap nat MEOrder) (lm : gmap nat MEOrdersAtPrice) (g : GLevel)
  (gs al : list GLevel) (gos : list (nat * Order)).

Definition onxt om (i : nat) : ptr := om !! i ≫= next_order_.
Definition oprv om (i : nat) : ptr := om !! i ≫= prev_order_.
Definition lnxt lm (i : nat) : ptr := lm !! i ≫= next_entry_.
Definition lprv lm (i : nat) : ptr := lm !! i ≫= prev_entry_.

(** Forgetting the addresses. *)
Definition abs_level (g : GLevel) : Level := (g.2.1, g.2.2.*2).
Definition abs_levels (gs : list GLevel) : list Level := abs_level <$> gs.
Definition gorders (gs : list GLevel) : list (nat * Order) := gs ≫= (λ g, g.2.2).

Section rep.
Context `{Limits}.

Definition order_rep om (s : Side) (p : Z) (io : nat * Order) : Prop :=
  order_of <$> om !! io.1 = Some io.2 ∧
  s_side io.2 = s ∧ s_price io.2 = p ∧ is_u32 (s_qty io.2).

Definition level_rep om lm (s : Side) (g : GLevel) : Prop :=
  g.2.2 ≠ [] ∧
  level_data <$> lm !! g.1 = Some (s, g.2.1, head g.2.2.*1) ∧
  Forall (order_rep om s g.2.1) g.2.2 ∧
  circ (onxt om) (oprv om) g.2.2.*1.

Definition sorted_levels (s : Side) gs : Prop :=
  StronglySorted (λ g1 g2, before s g1.2.1 g2.2.1 = true) gs.

Definition side_rep om lm (s : Side) (best : ptr) gs : Prop :=
  best = head gs.*1 ∧
  circ (lnxt lm) (lprv lm) gs.*1 ∧
  Forall (level_rep om lm s) gs ∧
  sorted_levels s gs.

(** The part of the invariant that speaks of all the levels of the book. *)
Definition global_rep om lm (pm : gmap Z nat) (cm : gmap (Z * Z) nat) al : Prop :=
  NoDup al.*1 ∧ NoDup (gorders al).*1 ∧
  (∀ i, is_Some (lm !! i) ↔ i ∈ al.*1) ∧
  (∀ i, is_Some (om !! i) ↔ i ∈ (gorders al).*1) ∧
  (∀ k i, pm !! k = Some i ↔ ∃ pg, (i, pg) ∈ al ∧ k = priceToIndex pg.1) ∧
  (∀ k i, cm !! k = Some i ↔ ∃ o, (i, o) ∈ gorders al ∧ k = (s_client o, s_coid o)) ∧
  (∀ i o, (i, o) ∈ gorders al → s_client o < ME_MAX_NUM_CLIENTS ∧ s_coid o < ME_MAX_ORDER_IDS).

Definition rep om lm (bst : ptr * ptr) (pm : gmap Z nat) (cm : gmap (Z * Z) nat)
    (G : list GLevel * list GLevel) : Prop :=
  side_rep om lm Side_BUY bst.1 G.1 ∧ side_rep om lm Side_SELL bst.2 G.2 ∧
  global_rep om lm pm cm (G.1 ++ G.2).

(** ** The view of a book *)
Definition view (b : MEOrderBook) om lm (bst : ptr * ptr) (pm : gmap Z nat)
    (cm : gmap (Z * Z) nat) (nid : Z) : Prop :=
  heap (order_pool_ b) = om ∧ pool_wf (order_pool_ b) ∧
  pool_size (order_pool_ b) = Z.to_nat ME_MAX_ORDER_IDS ∧
  heap (orders_at_price_pool_ b) = lm ∧ pool_wf (orders_at_price_pool_ b) ∧
  pool_size (orders_at_price_pool_ b) = Z.to_nat ME_MAX_PRICE_LEVELS ∧
  (bids_by_price_ b, asks_by_price_ b) = bst ∧
  price_orders_at_price_ b = pm ∧ cid_oid_to_order_ b = cm ∧ next_market_order_id_ b = nid.

(** The book represents the ghost levels. *)
Definition book_rep (b : MEOrderBook) (G : list GLevel * list GLevel) (nid : Z) : Prop :=
  ∃ om lm bst pm cm, view b om lm bst pm cm nid ∧ rep om lm bst pm cm G.

(** The book implements an abstract book. *)
Definition implements (b : MEOrderBook) (bk : Book) : Prop :=
  ∃ G, book_rep b G (next_id bk) ∧ levels bk = (abs_levels G.1, abs_levels G.2).

(** The empty book. *)
Lemma rep_empty : rep ∅ ∅ (None, None) ∅ ∅ ([], []).
Proof.
  split_and!; [split_and!; by try constructor..|].
  unfold global_rep. cbn. split_and!.
  all: try (by constructor).
  all: try (intros i; rewrite lookup_empty; split; [by intros []|set_solver]).
  all: try (intros k i; rewrite lookup_empty; split; [done|set_solver]).
  set_solver.
Qed.
End rep.

(** ** One rule per primitive *)
Section view_rules.
Context `{Limits} {E : Type} `{EngineSink E}.
Implicit Types (b : MEOrderBook) (e : E) (bst : ptr * ptr) (nid : Z)
  (pm : gmap Z nat) (cm : gmap (Z * Z) nat).

Lemma wp_rd_order b om lm bst pm cm nid e i x Q :
  view b om lm bst pm cm nid → om !! i = Some x →
  Q x (b, e) → wp (rd_order (E := E) (Some i)) (b, e) Q.
Proof.
  intros (<- & _) Hi HQ. unfold rd_order. apply wp_bind, wp_gets.
  eapply wp_lift; [by apply deref_heap|done].
Qed.

Lemma wp_rd_level b om lm bst pm cm nid e i x Q :
  view b om lm bst pm cm nid → lm !! i = Some x →
  Q x (b, e) → wp (rd_level (E := E) (Some i)) (b, e) Q.
Proof.
  intros (_ & _ & _ & <- & _) Hi HQ. unfold rd_level. apply wp_bind, wp_gets.
  eapply wp_lift; [by apply deref_heap|done].
Qed.

Lemma wp_wr_order b om lm bst pm cm nid e i x f Q :
  view b om lm bst pm cm nid → om !! i = Some x →
  (∀ b', view b' (<[i := f x]> om) lm bst pm cm nid → Q tt (b', e)) →
  wp (wr_order (E := E) (Some i) f) (b, e) Q.
Proof.
  intros (<- & Hwf & Hsz & ?) Hi HQ. unfold wr_order. apply wp_bind, wp_gets, wp_bind.
  destruct (update_heap (order_pool_ b) i x f Hi Hwf) as (p' & Hu & Hh & Hwf' & Hsz').
  eapply wp_lift; [exact Hu|]. apply wp_modify, HQ. unfold view. cbn. by rewrite Hsz'.
Qed.

Lemma wp_wr_level b om lm bst pm cm nid e i x f Q :
  view b om lm bst pm cm nid → lm !! i = Some x →
  (∀ b', view b' om (<[i := f x]> lm) bst pm cm nid → Q tt (b', e)) →
  wp (wr_level (E := E) (Some i) f) (b, e) Q.
Proof.
  intros (? & ? & ? & <- & Hwf & Hsz & ?) Hi HQ. unfold wr_level.
  apply wp_bind, wp_gets, wp_bind.
  destruct (update_heap (orders_at_price_pool_ b) i x f Hi Hwf) as (p' & Hu & Hh & Hwf' & Hsz').
  eapply wp_lift; [exact Hu|]. apply wp_modify, HQ. unfold view. cbn. by rewrite Hsz'.
Qed.

Lemma wp_alloc_order b om lm bst pm cm nid e x Q :
  view b om lm bst pm cm nid → (S (size om) < Z.to_nat ME_MAX_ORDER_IDS)%nat →
  (∀ b' i, om !! i = None → view b' (<[i := x]> om) lm bst pm cm nid → Q (Some i) (b', e)) →
  wp (alloc_order (E := E) x) (b, e) Q.
Proof.
  intros (<- & Hwf & Hsz & ?) Hlt HQ. unfold alloc_order. apply wp_bind, wp_gets, wp_bind.
  destruct (allocate_cases (order_pool_ b) x Hwf) as [[? _]|(_ & p' & Ha & Hn & Hh & Hwf' & Hsz')];
    [lia|].
  eapply wp_lift; [exact Ha|]. apply wp_bind, wp_modify, wp_ret, HQ; [done|].
  unfold view. cbn. by rewrite Hsz'.
Qed.

Lemma wp_alloc_level b om lm bst pm cm nid e x Q :
  view b om lm bst pm cm nid → (S (size lm) < Z.to_nat ME_MAX_PRICE_LEVELS)%nat →
  (∀ b' i, lm !! i = None → view b' om (<[i := x]> lm) bst pm cm nid → Q (Some i) (b', e)) →
  wp (alloc_level (E := E) x) (b, e) Q.
Proof.
  intros (? & ? & ? & <- & Hwf & Hsz & ?) Hlt HQ. unfold alloc_level.
  apply wp_bind, wp_gets, wp_bind.
  destruct (allocate_cases (orders_at_price_pool_ b) x Hwf)
    as [[? _]|(_ & p' & Ha & Hn & Hh & Hwf' & Hsz')]; [lia|].
  eapply wp_lift; [exact Ha|]. apply wp_bind, wp_modify, wp_ret, HQ; [done|].
  unfold view. cbn. by rewrite Hsz'.
Qed.

Lemma wp_free_order b om lm bst pm cm nid e i x Q :
  view b om lm bst pm cm nid → om !! i = Some x →
  (∀ b', view b' (delete i om) lm bst pm cm nid → Q tt (b', e)) →
  wp (free_order (E := E) (Some i)) (b, e) Q.
Proof.
  intros (<- & Hwf & Hsz & ?) Hi HQ. unfold free_order. apply wp_bind, wp_gets, wp_bind.
  destruct (deallocate_heap (order_pool_ b) i x Hi Hwf) as (p' & Hu & Hh & Hwf' & Hsz').
  eapply wp_lift; [exact Hu|]. apply wp_modify, HQ. unfold view. cbn. by rewrite Hsz'.
Qed.

Lemma wp_free_level b om lm bst pm cm nid e i x Q :
  view b om lm bst pm cm nid → lm !! i = Some x →
  (∀ b', view b' om (delete i lm) bst pm cm nid → Q tt (b', e)) →
  wp (free_level (E := E) (Some i)) (b, e) Q.
Proof.
  intros (? & ? & ? & <- & Hwf & Hsz & ?) Hi HQ. unfold free_level.
  apply wp_bind, wp_gets, wp_bind.
  destruct (deallocate_heap (orders_at_price_pool_ b) i x Hi Hwf)
    as (p' & Hu & Hh & Hwf' & Hsz').
  eapply wp_lift; [exact Hu|]. apply wp_modify, HQ. unfold view. cbn. by rewrite Hsz'.
Qed.

Lemma wp_by_price b om lm bst pm cm nid e s Q :
  view b om lm bst pm cm nid → Q (sel s bst) (b, e) →
  wp (book_gets (E := E) (by_price s)) (b, e) Q.
Proof.
  intros (_ & _ & _ & _ & _ & _ & <- & _) HQ. apply wp_gets.
  unfold sel, by_price in *. cbn in *. by case_decide.
Qed.

Lemma wp_set_by_price b om lm bst pm cm nid e s x Q :
  view b om lm bst pm cm nid →
  (∀ b', view b' om lm (upd s x bst) pm cm nid → Q tt (b', e)) →
  wp (book_modify (E := E) (set_by_price s x)) (b, e) Q.
Proof.
  intros Hv HQ. apply wp_modify, HQ. unfold view in *. destruct_and! Hv. subst.
  unfold upd, set_by_price. by case_decide.
Qed.

Lemma wp_getOrdersAtPrice b om lm bst pm cm nid e p Q :
  view b om lm bst pm cm nid → Q (pm !! priceToIndex p) (b, e) →
  wp (getOrdersAtPrice (E := E) p) (b, e) Q.
Proof. intros Hv HQ. unfold view in Hv. destruct_and! Hv. subst. done. Qed.

Lemma wp_set_slot b om lm bst pm cm nid e p x Q :
  view b om lm bst pm cm nid →
  (∀ b', view b' om lm bst (slot_set (priceToIndex p) x pm) cm nid → Q tt (b', e)) →
  wp (set_orders_at_price_slot (E := E) p x) (b, e) Q.
Proof.
  intros Hv HQ. apply wp_modify, HQ. unfold view in *. destruct_and! Hv. by subst.
Qed.

Lemma wp_set_cid_oid b om lm bst pm cm nid e c o x Q :
  view b om lm bst pm cm nid → c < ME_MAX_NUM_CLIENTS → o < ME_MAX_ORDER_IDS →
  (∀ b', view b' om lm bst pm (slot_set (c, o) x cm) nid → Q tt (b', e)) →
  wp (set_cid_oid (E := E) c o x) (b, e) Q.
Proof.
  intros Hv Hc Ho HQ. unfold set_cid_oid.
  rewrite (proj2 (Z.ltb_lt _ _) Hc), (proj2 (Z.ltb_lt _ _) Ho).
  apply wp_modify, HQ. unfold view in *. destruct_and! Hv. by subst.
Qed.

Lemma wp_new_id b om lm bst pm cm nid e Q :
  view b om lm bst pm cm nid →
  (∀ b', view b' om lm bst pm cm (u64 (nid + 1)) → Q nid (b', e)) →
  wp (generateNewMarketOrderId (E := E)) (b, e) Q.
Proof.
  intros Hv HQ. unfold generateNewMarketOrderId.
  assert (nid = next_market_order_id_ b) as -> by (unfold view in Hv; by destruct_and! Hv).
  apply wp_bind, wp_gets, wp_bind, wp_modify, wp_ret, HQ.
  unfold view in *. destruct_and! Hv. by subst.
Qed.

Lemma wp_send_response b e r Q :
  Q tt (b, sendClientResponse r e) → wp (send_response (E := E) r) (b, e) Q.
Proof. done. Qed.

Lemma wp_send_update b e u Q :
  Q tt (b, sendMarketUpdate u e) → wp (send_update (E := E) u) (b, e) Q.
Proof. done. Qed.
End view_rules.
