(* ===== verification/BookPtr.v ===== *)
(** * The pointer surgery of the order book

    Each lemma executes one of the list manipulations of me_order_book.h on the view of a
    book, and says what the links and the data of the nodes are afterwards. *)
From S2P Require Import Prelude Types MemPool CircList EngineSink BookSpec MEOrderBook BookRep.
(** Case analysis on the lookups of updated maps. *)
Ltac lookups :=
  unfold lnxt, lprv, onxt, oprv in *; cbn in *;
  rewrite ?lookup_delete, ?lookup_insert in *;
  repeat case_decide; simplify_map_eq; try done; try congruence.

(** The neighbours of a node of a circular list are nodes of the list. *)
Lemma neighbours {N} (l1 l2 : list N) :
  l1 ++ l2 ≠ [] →
  ∃ h t, head (l2 ++ l1) = Some h ∧ last (l2 ++ l1) = Some t ∧ h ∈ l1 ++ l2 ∧ t ∈ l1 ++ l2.
Proof.
  intros Hne. destruct (l2 ++ l1) as [|h l] eqn:E.
  { destruct l1, l2; naive_solver. }
  destruct (last (h :: l)) as [t|] eqn:Ht; [|by apply last_None in Ht].
  exists h, t. split_and!; [done..| |].
  - assert (h ∈ l2 ++ l1) by (rewrite E; set_solver). set_solver.
  - apply last_Some_elem_of in Ht. rewrite <- E in Ht. set_solver.
Qed.

Lemma head_rot {N} (l1 l2 : list N) (p h : N) :
  head (l2 ++ l1) = Some h → head (l2 ++ l1 ++ [p]) = Some h.
Proof. rewrite (app_assoc l2). by destruct (l2 ++ l1). Qed.

Lemma last_rot {N} (l : list N) (p t : N) : last l = Some t → last (p :: l) = Some t.
Proof. by destruct l. Qed.

Section surgery.
Context `{Limits} {E : Type} `{EngineSink E}.
Implicit Types (b : MEOrderBook) (e : E) (bst : ptr * ptr) (nid : Z)
  (pm : gmap Z nat) (cm : gmap (Z * Z) nat) (ps : list nat)
  (om : gmap nat MEOrder) (lm : gmap nat MEOrdersAtPrice) (gs : list GLevel).

(** Unlinking and freeing the level [lp] of a side whose levels are at [ps1 ++ lp :: ps2]. *)
Lemma wp_removeOrdersAtPrice b om lm bst pm cm nid e s price ps1 lp ps2 Q :
  view b om lm bst pm cm nid →
  sel s bst = head (ps1 ++ lp :: ps2) →
  NoDup (ps1 ++ lp :: ps2) →
  circ (lnxt lm) (lprv lm) (ps1 ++ lp :: ps2) →
  (∀ j, j ∈ ps1 ++ lp :: ps2 → is_Some (lm !! j)) →
  pm !! priceToIndex price = Some lp →
  (∀ b' lm', view b' om lm' (upd s (head (ps1 ++ ps2)) bst) (delete (priceToIndex price) pm) cm nid →
     lm' !! lp = None →
     (∀ j, j ≠ lp → level_data <$> lm' !! j = level_data <$> lm !! j) →
     (∀ j, j ∉ ps1 ++ lp :: ps2 → lm' !! j = lm !! j) →
     circ (lnxt lm') (lprv lm') (ps1 ++ ps2) → Q tt (b', e)) →
  wp (removeOrdersAtPrice (E := E) s price) (b, e) Q.
Proof.
  intros Hv Hbest Hnd Hc Hdom Hpm HQ. unfold removeOrdersAtPrice.
  destruct (Hdom lp) as [l Hl]; [set_solver|].
  apply wp_bind. eapply wp_by_price; [exact Hv|]. rewrite Hbest.
  apply wp_bind. eapply wp_getOrdersAtPrice; [exact Hv|]. rewrite Hpm.
  apply wp_bind. eapply wp_rd_level; [exact Hv|exact Hl|].
  pose proof (circ_next _ _ _ _ _ Hc) as Hnx. pose proof (circ_prev _ _ _ _ _ Hc) as Hpv.
  destruct (circ_self _ _ _ _ _ Hnd Hc) as [Hself _].
  unfold lnxt in Hnx, Hself. unfold lprv in Hpv. rewrite Hl in Hnx, Hpv, Hself. cbn in Hnx, Hpv, Hself.
  destruct (decide (next_entry_ l = Some lp)) as [Hn|Hn].
  - apply Hself in Hn as Hnil. rewrite Hnil in *.
    apply wp_bind. eapply wp_set_by_price; [exact Hv|]. intros b1 Hv1.
    apply wp_bind. eapply wp_set_slot; [exact Hv1|]. intros b2 Hv2.
    eapply wp_free_level; [exact Hv2|exact Hl|]. intros b3 Hv3.
    apply (HQ b3 _ Hv3); [by lookups|intros; by lookups| |done].
    intros j Hj. rewrite lookup_delete_ne; [done|set_solver].
  - destruct (neighbours ps1 ps2) as (h & t & Hh & Ht & Hhin & Htin); [naive_solver|].
    rewrite (head_rot _ _ _ _ Hh) in Hnx. rewrite (last_rot _ _ _ Ht) in Hpv.
    assert (h ≠ lp ∧ t ≠ lp) as [Hhlp Htlp].
    { apply NoDup_app in Hnd as (?&?&[??]%NoDup_cons). set_solver. }
    destruct (Hdom h) as [xh Hxh]; [set_solver|]. destruct (Hdom t) as [xt Hxt]; [set_solver|].
    apply wp_bind. apply wp_bind. eapply wp_rd_level; [exact Hv|exact Hl|]. rewrite Hpv, Hnx.
    apply wp_bind. eapply wp_wr_level; [exact Hv|exact Hxt|]. intros b1 Hv1.
    apply wp_bind. eapply wp_rd_level; [exact Hv1|by lookups|]. rewrite Hpv, Hnx.
    assert (is_Some (<[t := set_next_entry (Some h) xt]> lm !! h)) as [xh' Hxh']
      by (lookups; by eexists).
    apply wp_bind. eapply wp_wr_level; [exact Hv1|exact Hxh'|]. intros b2 Hv2.
    apply wp_bind.
    match goal with |- wp ?m (b2, e) ?R =>
      assert (∀ b3, view b3 om (<[h := set_prev_entry (Some t) xh']>
                (<[t := set_next_entry (Some h) xt]> lm))
                (upd s (head (ps1 ++ ps2)) bst) pm cm nid → R tt (b3, e)) as Hk end.
    { intros b3 Hv3.
      apply wp_bind. eapply wp_wr_level; [exact Hv3|by lookups|]. intros b4 Hv4.
      eapply wp_wr_level; [exact Hv4|by lookups|]. intros b5 Hv5.
      apply wp_bind. eapply wp_set_slot; [exact Hv5|]. intros b6 Hv6.
      eapply wp_free_level; [exact Hv6|by lookups|]. intros b7 Hv7.
      apply (HQ b7 _ Hv7).
      - by lookups.
      - intros j Hj. by lookups.
      - intros j Hj. lookups; set_solver.
      - eapply (circ_remove (lnxt lm) (lprv lm) _ _ ps1 lp ps2 h t); try done; try by lookups.
        + intros j Hj Hjt. apply NoDup_app in Hnd as (?&?&[??]%NoDup_cons).
          lookups; set_solver.
        + intros j Hj Hjt. apply NoDup_app in Hnd as (?&?&[??]%NoDup_cons).
          lookups; set_solver. }
    destruct (decide (Some lp = head (ps1 ++ lp :: ps2))) as [Hb|Hb].
    + apply wp_bind. eapply wp_rd_level; [exact Hv2|by lookups|]. rewrite Hnx.
      eapply wp_set_by_price; [exact Hv2|]. intros b3 Hv3. apply Hk.
      destruct ps1 as [|p1 ps1]; cbn in *.
      * rewrite app_nil_r in Hh. by rewrite Hh.
      * simplify_eq. apply NoDup_cons in Hnd as [? _]. set_solver.
    + apply wp_ret. apply Hk.
      replace (upd s (head (ps1 ++ ps2)) bst) with bst; [done|].
      destruct ps1 as [|p1 ps1]; [done|]. cbn in *. rewrite <- Hbest.
      unfold upd, sel. destruct bst. by case_decide.
Qed.

(** Linking a new level [np] between [ps1] and [ps2], from either neighbour. *)
Definition linked lm lm' ps1 np ps2 : Prop :=
  (∀ j, level_data <$> lm' !! j = level_data <$> lm !! j) ∧
  (∀ j, j ∉ ps1 ++ np :: ps2 → lm' !! j = lm !! j) ∧
  circ (lnxt lm') (lprv lm') (ps1 ++ np :: ps2).

Lemma wp_link_before b om lm bst pm cm nid e ps1 np ps2 h Q :
  view b om lm bst pm cm nid →
  NoDup (ps1 ++ ps2) → np ∉ ps1 ++ ps2 →
  circ (lnxt lm) (lprv lm) (ps1 ++ ps2) →
  (∀ j, j ∈ np :: ps1 ++ ps2 → is_Some (lm !! j)) →
  head (ps2 ++ ps1) = Some h → ps2 ≠ [] →
  (∀ b' lm', view b' om lm' bst pm cm nid → linked lm lm' ps1 np ps2 → Q tt (b', e)) →
  wp (link_before (E := E) (Some np) (Some h)) (b, e) Q.
Proof.
  intros Hv Hnd Hnp Hc Hdom Hh Hps2 HQ. destruct ps2 as [|h' ps2]; [done|].
  cbn in Hh. injection Hh as ->.
  pose proof (circ_prev _ _ _ _ _ Hc) as Hpv.
  destruct (last (h :: ps2 ++ ps1)) as [t|] eqn:Ht; [|by apply last_None in Ht].
  assert (t ∈ ps1 ++ h :: ps2) as Htin by (apply last_Some_elem_of in Ht; set_solver).
  assert (h ≠ np ∧ t ≠ np) as [Hhn Htn] by set_solver.
  destruct (Hdom np) as [n Hn]; [set_solver|].
  destruct (Hdom h) as [xh Hxh]; [set_solver|]. destruct (Hdom t) as [xt Hxt]; [set_solver|].
  assert (prev_entry_ xh = Some t) as Hxpv by (unfold lprv in Hpv; by rewrite Hxh in Hpv).
  unfold link_before. apply wp_bind. eapply wp_rd_level; [exact Hv|exact Hxh|]. rewrite Hxpv.
  apply wp_bind. eapply wp_wr_level; [exact Hv|exact Hn|]. intros b1 Hv1.
  apply wp_bind. eapply wp_wr_level; [exact Hv1|by lookups|]. intros b2 Hv2.
  apply wp_bind. eapply wp_rd_level; [exact Hv2|by lookups|]. rewrite Hxpv.
  apply wp_bind. eapply wp_wr_level; [exact Hv2|by lookups|]. intros b3 Hv3.
  assert (∃ y, <[t:=set_next_entry (Some np) xt]> lm !! h = Some y ∧
               level_data y = level_data xh) as (y & Hy & Hyd).
  { rewrite lookup_insert. case_decide; simplify_eq; eauto. }
  eapply (wp_wr_level _ _ _ _ _ _ _ _ _ y); [exact Hv3| |].
  { rewrite lookup_insert. rewrite lookup_insert in Hy. case_decide; [done|]. by lookups. }
  intros b4 Hv4. apply (HQ b4 _ Hv4). split_and!.
  - intros j. by lookups.
  - intros j Hj. lookups; set_solver.
  - eapply (circ_insert (lnxt lm) (lprv lm) _ _ ps1 np (h :: ps2) h t); try done.
    + by lookups.
    + by lookups.
    + by lookups.
    + by lookups.
    + intros j Hj Hjt. lookups; set_solver.
    + intros j Hj Hjt. lookups; set_solver.
Qed.

Lemma wp_link_after b om lm bst pm cm nid e ps np t Q :
  view b om lm bst pm cm nid →
  NoDup ps → np ∉ ps →
  circ (lnxt lm) (lprv lm) ps →
  (∀ j, j ∈ np :: ps → is_Some (lm !! j)) →
  last ps = Some t →
  (∀ b' lm', view b' om lm' bst pm cm nid → linked lm lm' ps np [] → Q tt (b', e)) →
  wp (link_after (E := E) (Some np) (Some t)) (b, e) Q.
Proof.
  intros Hv Hnd Hnp Hc Hdom Ht HQ.
  destruct (last_Some ps t) as [[ps' Hps] _]; [done|]. subst ps.
  pose proof (circ_next _ _ _ _ _ Hc) as Hnx. cbn in Hnx.
  destruct (head (ps' ++ [t])) as [h|] eqn:Hh; [|by destruct ps'].
  assert (h ∈ ps' ++ [t]) as Hhin by (apply head_Some_elem_of in Hh; set_solver).
  assert (h ≠ np ∧ t ≠ np) as [Hhn Htn] by set_solver.
  destruct (Hdom np) as [n Hn]; [set_solver|].
  destruct (Hdom h) as [xh Hxh]; [set_solver|]. destruct (Hdom t) as [xt Hxt]; [set_solver|].
  assert (next_entry_ xt = Some h) as Hxnx by (unfold lnxt in Hnx; by rewrite Hxt in Hnx).
  unfold link_after. apply wp_bind. eapply wp_wr_level; [exact Hv|exact Hn|]. intros b1 Hv1.
  apply wp_bind. eapply wp_rd_level; [exact Hv1|by lookups|]. rewrite Hxnx.
  apply wp_bind. eapply wp_wr_level; [exact Hv1|by lookups|]. intros b2 Hv2.
  assert (∃ y, <[h:=set_prev_entry (Some np) xh]> lm !! t = Some y ∧
               level_data y = level_data xt ∧ next_entry_ y = Some h) as (y & Hy & Hyd & Hyn).
  { rewrite lookup_insert. case_decide; simplify_eq; eauto. }
  assert (<[h:=set_prev_entry (Some np) xh]> (<[np:=set_prev_entry (Some t) n]> lm) !! t = Some y)
    as Hy'.
  { rewrite lookup_insert. rewrite lookup_insert in Hy. case_decide; [done|]. by lookups. }
  apply wp_bind. eapply wp_rd_level; [exact Hv2|exact Hy'|]. rewrite Hyn.
  apply wp_bind. eapply wp_wr_level; [exact Hv2|by lookups|]. intros b3 Hv3.
  eapply (wp_wr_level _ _ _ _ _ _ _ _ _ y); [exact Hv3|by rewrite lookup_insert_ne|].
  intros b4 Hv4. apply (HQ b4 _ Hv4). split_and!.
  - intros j. by lookups.
  - intros j Hj. lookups; set_solver.
  - eapply (circ_insert (lnxt lm) (lprv lm) _ _ (ps' ++ [t]) np [] h t);
      rewrite ?app_nil_r; try done.
    + by lookups.
    + by lookups.
    + by lookups.
    + by lookups.
    + intros j Hj Hjt. lookups; set_solver.
    + intros j Hj Hjt. lookups; set_solver.
Qed.
End surgery.
