(* ===== verification/BookLevels.v ===== *)
(** * Where a new price level goes

    The search of addOrdersAtPrice, from the best level outwards, stops at the first level that
    is not more aggressive than the new one; the level is linked there. *)
From S2P Require Import Prelude Types MemPool CircList EngineSink BookSpec MEOrderBook BookRep.
From S2P Require Import BookPtr.
(** The levels of a side, as the heap holds them. *)
Definition levels_at (lm : gmap nat MEOrdersAtPrice) (s : Side) (gs : list GLevel) : Prop :=
  Forall (λ g, ∃ f, level_data <$> lm !! g.1 = Some (s, g.2.1, f)) gs.

Lemma goes_after_before s n t :
  trading_side s → l_side_ n = s → goes_after n t = before s (l_price_ t) (l_price_ n).
Proof.
  intros [->| ->] Hn; unfold goes_after, before; rewrite Hn; cbn.
  - done.
  - by rewrite orb_false_r.
Qed.

Lemma levels_at_lookup lm s gs g :
  levels_at lm s gs → g ∈ gs → ∃ l, lm !! g.1 = Some l ∧ l_side_ l = s ∧ l_price_ l = g.2.1.
Proof.
  unfold levels_at. rewrite Forall_forall. intros Hl Hg. destruct (Hl g Hg) as [f Hf].
  destruct (lm !! g.1) as [l|]; [|done]. cbn in Hf. unfold level_data in Hf. simplify_eq. eauto.
Qed.

Section position.
Context `{Limits} {E : Type} `{EngineSink E}.
Implicit Types (b : MEOrderBook) (e : E) (bst : ptr * ptr) (nid : Z)
  (pm : gmap Z nat) (cm : gmap (Z * Z) nat) (ps : list nat)
  (om : gmap nat MEOrder) (lm : gmap nat MEOrdersAtPrice) (gs : list GLevel).

(** The new level belongs between [gs1] and [gs2]. *)
Definition splits (s : Side) (p : Z) gs1 gs2 : Prop :=
  Forall (λ g, before s g.2.1 p = true) gs1 ∧
  match gs2 with [] => True | g :: _ => before s g.2.1 p = false end.

Definition is_nil {A} (l : list A) : bool := match l with [] => true | _ => false end.

Lemma wp_find_target b om lm bst pm cm nid e s n ps post1 gs2 fuel Q :
  view b om lm bst pm cm nid → trading_side s → l_side_ n = s →
  splits s (l_price_ n) post1 gs2 →
  levels_at lm s (post1 ++ gs2) →
  (length (post1 ++ gs2) ≤ fuel)%nat →
  (∀ pre, ps = pre ++ (post1 ++ gs2).*1 → pre ≠ [] → NoDup ps → circ (lnxt lm) (lprv lm) ps →
     Q (head (gs2.*1 ++ ps), is_nil gs2) (b, e) →
     wp (find_target (E := E) fuel n (head ps) (head ((post1 ++ gs2).*1 ++ ps)) true) (b, e) Q).
Proof.
  intros Hv Hs Hn [Hb1 Hb2] Hl Hfuel.
  revert fuel Hfuel. induction post1 as [|[q [pq gos]] post1 IH];
    intros fuel Hfuel pre Hps Hpre Hnd Hc HQ.
  - cbn [app]. destruct gs2 as [|[q [pq gos]] gs2].
    + cbn in *. destruct fuel; cbn [find_target]; rewrite bool_decide_eq_false_2 by naive_solver;
        apply wp_ret; done.
    + cbn in Hps |- *. destruct fuel as [|fuel]; [cbn in Hfuel; lia|].
      assert (head ps ≠ Some q) as Hq.
      { subst ps. destruct pre as [|a pre]; [done|]. cbn in *. intros [= ->].
        apply NoDup_cons in Hnd as [Hnin _]. set_solver. }
      cbn [find_target]. rewrite bool_decide_eq_true_2 by congruence. cbn [andb].
      destruct (levels_at_lookup _ _ _ (q, (pq, gos)) Hl) as (l & Hlq & Hls & Hlp);
        [set_solver|].
      apply wp_bind. eapply wp_rd_level; [exact Hv|exact Hlq|].
      rewrite (goes_after_before s) by done. rewrite Hlp. cbn in Hb2 |- *. rewrite Hb2.
      by apply wp_ret.
  - cbn in Hps |- *. destruct fuel as [|fuel]; [cbn in Hfuel; lia|].
    assert (head ps ≠ Some q) as Hq.
    { subst ps. destruct pre as [|a pre]; [done|]. cbn in *. intros [= ->].
      apply NoDup_cons in Hnd as [Hnin _]. set_solver. }
    cbn [find_target]. rewrite bool_decide_eq_true_2 by congruence. cbn [andb].
    destruct (levels_at_lookup _ _ _ (q, (pq, gos)) Hl) as (l & Hlq & Hls & Hlp); [set_solver|].
    apply wp_bind. eapply wp_rd_level; [exact Hv|exact Hlq|].
    apply Forall_cons in Hb1 as [Hbq Hb1].
    rewrite (goes_after_before s) by done. rewrite Hlp. cbn in Hbq |- *. rewrite Hbq.
    assert (next_entry_ l = head ((post1 ++ gs2).*1 ++ ps)) as ->.
    { subst ps. pose proof (circ_next _ _ _ _ _ Hc) as Hnx. unfold lnxt in Hnx.
      cbn in Hlq. rewrite Hlq in Hnx. cbn in Hnx. rewrite Hnx.
      destruct ((post1 ++ gs2).*1) as [|x xs]; [|done]. destruct pre; [done|]. done. }
    apply (IH Hb1) with (pre := pre ++ [q]); try done.
    + by apply Forall_cons in Hl as [_ Hl].
    + cbn in Hfuel. lia.
    + subst ps. by rewrite <- app_assoc.
    + by destruct pre.
Qed.

Lemma wp_position b om lm bst pm cm nid e s n gs gs1 gs2 fuel Q :
  view b om lm bst pm cm nid → trading_side s → l_side_ n = s →
  gs = gs1 ++ gs2 → gs ≠ [] → splits s (l_price_ n) gs1 gs2 → levels_at lm s gs →
  NoDup gs.*1 → circ (lnxt lm) (lprv lm) gs.*1 → (length gs ≤ fuel)%nat →
  Q (head (gs2.*1 ++ gs.*1), is_nil gs2) (b, e) →
  wp (position (E := E) fuel n (head gs.*1)) (b, e) Q.
Proof.
  intros Hv Hs Hn Hgs Hne [Hb1 Hb2] Hl Hnd Hc Hfuel HQ.
  destruct gs1 as [|[q [pq gos]] gs1].
  - cbn in Hgs. subst gs2. destruct gs as [|[q [pq gos]] gs]; [done|]. cbn in Hb2.
    destruct (levels_at_lookup _ _ _ (q, (pq, gos)) Hl) as (l & Hlq & Hls & Hlp); [set_solver|].
    unfold position. apply wp_bind. eapply wp_rd_level; [exact Hv|exact Hlq|].
    rewrite (goes_after_before s) by done. rewrite Hlp. cbn [fst snd]. rewrite Hb2.
    destruct fuel; by apply wp_ret.
  - cbn in Hgs. subst gs. apply Forall_cons in Hb1 as [Hbq Hb1].
    destruct (levels_at_lookup _ _ _ (q, (pq, gos)) Hl) as (l & Hlq & Hls & Hlp); [set_solver|].
    unfold position. apply wp_bind. eapply wp_rd_level; [exact Hv|exact Hlq|].
    rewrite (goes_after_before s) by done. rewrite Hlp. cbn in Hbq |- *. rewrite Hbq.
    assert (next_entry_ l = head ((gs1 ++ gs2).*1 ++ q :: (gs1 ++ gs2).*1)) as ->.
    { cbn in Hc. pose proof (circ_next _ _ [] _ _ Hc) as Hnx. unfold lnxt in Hnx.
      cbn in Hlq. rewrite Hlq in Hnx. cbn in Hnx. rewrite Hnx.
      by destruct ((gs1 ++ gs2).*1). }
    set (ps := q :: (gs1 ++ gs2).*1) in *.
    destruct (head ((gs1 ++ gs2).*1 ++ ps)) as [x|] eqn:Hx;
      [|exfalso; revert Hx; unfold ps; by destruct ((gs1 ++ gs2).*1)].
    assert (∃ y, lm !! x = Some y ∧ goes_after n y =
             match gs1 ++ gs2 with [] => true | g :: _ => before s g.2.1 (l_price_ n) end)
      as (y & Hy & Haft).
    { destruct (gs1 ++ gs2) as [|[r [pr gosr]] gs'] eqn:Hgs'; cbn in Hx.
      - injection Hx as <-. exists l. split; [done|].
        rewrite (goes_after_before s) by done. by rewrite Hlp.
      - injection Hx as <-.
        destruct (levels_at_lookup _ _ _ (r, (pr, gosr)) Hl) as (l' & Hlr & Hlrs & Hlrp);
          [set_solver|].
        exists l'. split; [done|]. rewrite (goes_after_before s) by done. by rewrite Hlrp. }
    apply wp_bind. eapply wp_rd_level; [exact Hv|exact Hy|]. rewrite Haft.
    destruct gs1 as [|[r [pr gosr]] gs1]; [destruct gs2 as [|[r [pr gosr]] gs2]|]; cbn [app].
    + cbn in Hx. subst ps. cbn in Hx. injection Hx as <-.
      cbn in HQ. destruct fuel; cbn [find_target];
        rewrite bool_decide_eq_false_2 by naive_solver; by apply wp_ret.
    + cbn in Hb2 |- *. rewrite Hb2. cbn in Hx. injection Hx as <-.
      destruct fuel; by apply wp_ret.
    + apply Forall_cons in Hb1 as [Hbr Hb1']. cbn in Hbr |- *. rewrite Hbr.
      cbn in Hx. rewrite <- Hx. change (Some q) with (head ps).
      apply (wp_find_target b om lm bst pm cm nid e s n ps ((r, (pr, gosr)) :: gs1) gs2 fuel Q)
        with (pre := [q]); try done.
      * split; [by apply Forall_cons|done].
      * by apply Forall_cons in Hl as [_ Hl].
      * cbn in Hfuel |- *. lia.
Qed.
End position.

Section add_level.
Context `{Limits} {E : Type} `{EngineSink E}.
Implicit Types (b : MEOrderBook) (e : E) (bst : ptr * ptr) (nid : Z)
  (pm : gmap Z nat) (cm : gmap (Z * Z) nat) (ps : list nat)
  (om : gmap nat MEOrder) (lm : gmap nat MEOrdersAtPrice) (gs : list GLevel).

Lemma wp_pool_fuel b om lm bst pm cm nid e (Q : nat → MEOrderBook * E → Prop) :
  view b om lm bst pm cm nid →
  Q (Z.to_nat ME_MAX_PRICE_LEVELS) (b, e) →
  wp (book_gets (E := E) (λ b, pool_size (orders_at_price_pool_ b))) (b, e) Q.
Proof. intros Hv HQ. apply wp_gets. unfold view in Hv. destruct_and! Hv. cbn. congruence. Qed.

(** The comparison that decides whether the new level becomes the best one. *)
Lemma becomes_best s p q :
  trading_side s →
  ((bool_decide (s = Side_BUY) && (q <? p)) || (bool_decide (s = Side_SELL) && (p <? q)))
  = before s p q.
Proof.
  intros [->| ->]; unfold before; cbn; [by rewrite orb_false_r|done].
Qed.

Lemma wp_addOrdersAtPrice b om lm bst pm cm nid e s n np gs gs1 gs2 Q :
  view b om lm bst pm cm nid → trading_side s → lm !! np = Some n → l_side_ n = s →
  gs = gs1 ++ gs2 → splits s (l_price_ n) gs1 gs2 →
  Forall (λ g, g.2.1 ≠ l_price_ n) gs → levels_at lm s gs →
  NoDup (np :: gs.*1) → circ (lnxt lm) (lprv lm) gs.*1 → sel s bst = head gs.*1 →
  (length gs ≤ Z.to_nat ME_MAX_PRICE_LEVELS)%nat →
  (∀ b' lm', view b' om lm' (upd s (head (gs1.*1 ++ np :: gs2.*1)) bst)
               (<[priceToIndex (l_price_ n) := np]> pm) cm nid →
     linked lm lm' gs1.*1 np gs2.*1 → Q tt (b', e)) →
  wp (addOrdersAtPrice (E := E) (Some np)) (b, e) Q.
Proof.
  intros Hv Hs Hn Hns Hgs Hsp Hne Hl Hnd Hc Hbest Hlen HQ.
  apply NoDup_cons in Hnd as [Hnp Hnd].
  unfold addOrdersAtPrice. apply wp_bind. eapply wp_rd_level; [exact Hv|exact Hn|].
  apply wp_bind. eapply wp_set_slot; [exact Hv|]. intros b1 Hv1. cbn [slot_set] in Hv1.
  apply wp_bind. eapply wp_by_price; [exact Hv1|]. rewrite Hns, Hbest.
  destruct (head gs.*1) as [h|] eqn:Hh.
  - apply wp_bind. eapply wp_pool_fuel; [exact Hv1|].
    apply wp_bind. rewrite <- Hh.
    eapply wp_position; [exact Hv1|done|done|exact Hgs| |done|done|done|done|done|].
    { intros ->. done. }
    cbn [fst snd].
    assert (∀ j, j ∈ np :: gs1.*1 ++ gs2.*1 → is_Some (lm !! j)) as Hdom.
    { intros j [->|Hj]%elem_of_cons; [by eexists|].
      rewrite <- fmap_app, <- Hgs in Hj. apply list_elem_of_fmap in Hj as (g & -> & Hg).
      destruct (levels_at_lookup _ _ _ _ Hl Hg) as (l & -> & _). by eexists. }
    assert (is_Some (lm !! h)) as [lh Hlh].
    { apply Hdom. apply head_Some_elem_of in Hh. rewrite Hgs, fmap_app in Hh. set_solver. }
    rewrite Hgs, fmap_app in *.
    destruct gs2 as [|[q [pq gosq]] gs2]; cbn [is_nil].
    + rewrite app_nil_r in *. cbn [fmap list_fmap app]. rewrite Hh.
      apply wp_bind. eapply wp_rd_level; [exact Hv1|exact Hlh|]. rewrite decide_True by done.
      assert (prev_entry_ lh = last gs1.*1) as ->.
      { destruct gs1.*1 as [|h' ps]; [done|]. cbn in Hh. simplify_eq.
        pose proof (circ_prev _ _ [] _ _ Hc) as Hpv. unfold lprv in Hpv.
        rewrite Hlh, app_nil_r in Hpv. done. }
      destruct (last gs1.*1) as [t|] eqn:Ht; [|apply last_None in Ht; by rewrite Ht in Hh].
      eapply wp_link_after; [exact Hv1|done|done|exact Hc|set_solver|done|].
      intros b2 lm2 Hv2 Hlk. apply (HQ b2 lm2); [|done].
      replace (upd s _ bst) with bst; [done|].
      rewrite head_app, Hh, <- Hbest. by rewrite upd_sel.
    + rewrite Hh. cbn [fmap list_fmap app]. cbn [head].
      apply wp_bind. eapply wp_link_before; [exact Hv1|done|exact Hnp|exact Hc|exact Hdom| | |];
        [done|done|].
      intros b2 lm2 Hv2 Hlk. pose proof Hlk as (Hdata & Hout & Hc2).
      apply wp_bind.
      assert (∃ lh2, lm2 !! h = Some lh2 ∧ l_price_ lh2 = l_price_ lh) as (lh2 & Hlh2 & Hp2).
      { specialize (Hdata h). rewrite Hlh in Hdata. destruct (lm2 !! h) as [x|]; [|done].
        cbn in Hdata. unfold level_data in Hdata. simplify_eq. eauto. }
      eapply wp_rd_level; [exact Hv2|exact Hlh2|]. rewrite (becomes_best s) by done. rewrite Hp2.
      destruct gs1 as [|[h' [ph gosh]] gs1]; cbn in Hh; simplify_eq; destruct Hsp as [Hb1 Hb2].
      * destruct (levels_at_lookup _ _ _ (h, (pq, gosq)) Hl) as (l & Hlq & _ & Hlp);
          [set_solver|].
        cbn in Hlq, Hlp, Hb2. simplify_eq.
        apply Forall_cons in Hne as [Hneq _]. cbn in Hneq.
        rewrite before_total by done. cbn [fmap list_fmap app] in *.
        apply wp_bind. eapply wp_rd_level; [exact Hv2|exact Hlh2|].
        rewrite decide_False; cycle 1.
        { pose proof (circ_next _ _ [np] _ _ Hc2) as Hnx. cbn in Hnx. unfold lnxt in Hnx.
          rewrite Hlh2 in Hnx. cbn in Hnx. rewrite Hnx. apply NoDup_cons in Hnd as [Hh1 _].
          destruct (gs2.*1) as [|x xs]; cbn; intros [= ->]; set_solver. }
        apply wp_bind. eapply wp_wr_level; [exact Hv2|exact Hlh2|]. intros b3 Hv3.
        rewrite insert_id in Hv3 by (by destruct lh2).
        eapply wp_set_by_price; [exact Hv3|]. intros b4 Hv4. by apply (HQ b4 lm2).
      * destruct (levels_at_lookup _ _ _ (h, (ph, gosh)) Hl) as (l & Hlq & _ & Hlp);
          [set_solver|].
        cbn in Hlq, Hlp. simplify_eq. apply Forall_cons in Hb1 as [Hbh _]. cbn in Hbh.
        rewrite before_asym by done.
        apply wp_ret. apply (HQ b2 lm2); [|done]. cbn. rewrite <- Hbest. by rewrite upd_sel.
  - assert (gs = []) as -> by (by destruct gs). destruct gs1, gs2; try done.
    apply wp_bind. eapply wp_set_by_price; [exact Hv1|]. intros b2 Hv2.
    apply wp_bind. eapply wp_wr_level; [exact Hv2|exact Hn|]. intros b3 Hv3.
    eapply wp_wr_level; [exact Hv3|by lookups|]. intros b4 Hv4.
    apply (HQ b4 _ Hv4). split_and!.
    + intros j. by lookups.
    + intros j Hj. cbn in Hj. lookups; set_solver.
    + apply circ_singleton; by lookups.
Qed.
End add_level.
