(* ===== verification/BookFrame.v ===== *)
(** * Framing: what a local change of the heap preserves

    An operation touches one level of one side.  These lemmas carry the rest of the
    representation invariant across it. *)
From S2P Require Import Prelude Types MemPool CircList EngineSink BookSpec MEOrderBook BookRep.
From S2P Require Import BookLevels.
Implicit Types (om : gmap nat MEOrder) (lm : gmap nat MEOrdersAtPrice) (g : GLevel)
  (gs al : list GLevel) (gos : list (nat * Order)) (bst : ptr * ptr)
  (pm : gmap Z nat) (cm : gmap (Z * Z) nat) (G : list GLevel * list GLevel).

Lemma gorders_app gs1 gs2 : gorders (gs1 ++ gs2) = gorders gs1 ++ gorders gs2.
Proof. apply bind_app. Qed.
Lemma gorders_cons g gs : gorders (g :: gs) = g.2.2 ++ gorders gs.
Proof. done. Qed.

Lemma elem_of_gorders io gs : io ∈ gorders gs ↔ ∃ g, g ∈ gs ∧ io ∈ g.2.2.
Proof. unfold gorders. rewrite list_elem_of_bind. naive_solver. Qed.

#[export] Instance gorders_perm : Proper ((≡ₚ) ==> (≡ₚ)) gorders.
Proof. intros gs gs' Hp. unfold gorders. by rewrite Hp. Qed.

(** The level that remains when its orders are [gos]: none without orders. *)
Definition glevel (lp : nat) (p : Z) gos : list GLevel :=
  match gos with [] => [] | _ => [(lp, (p, gos))] end.

Lemma gorders_glevel lp p gos : gorders (glevel lp p gos) = gos.
Proof. destruct gos; [done|]. cbn. by rewrite app_nil_r. Qed.

Section frame.
Context `{Limits}.

#[export] Instance global_rep_perm om lm pm cm : Proper ((≡ₚ) ==> iff) (global_rep om lm pm cm).
Proof.
  assert (∀ al al', al ≡ₚ al' → global_rep om lm pm cm al → global_rep om lm pm cm al') as Hi.
  { intros al al' Hp (H1 & H2 & H3 & H4 & H5 & H6 & H7). unfold global_rep.
    setoid_rewrite <- Hp. done. }
  intros al al' Hp. split; apply Hi; [done|by symmetry].
Qed.

Lemma level_rep_frame om lm om' lm' s g :
  level_data <$> lm' !! g.1 = level_data <$> lm !! g.1 →
  (∀ j, j ∈ g.2.2.*1 → om' !! j = om !! j) →
  level_rep om lm s g → level_rep om' lm' s g.
Proof.
  intros Hl Ho (Hne & Hd & Hf & Hc). split_and!; [done|by rewrite Hl| |].
  - rewrite Forall_forall in Hf |- *. intros io Hio. destruct (Hf io Hio) as (Hi & ?).
    split; [|done]. rewrite Ho; [done|]. apply list_elem_of_fmap. eauto.
  - eapply circ_ext; [|exact Hc]. intros j Hj. unfold onxt, oprv. by rewrite Ho.
Qed.

Lemma levels_rep_frame om lm om' lm' s gs :
  (∀ j, j ∈ gs.*1 → level_data <$> lm' !! j = level_data <$> lm !! j) →
  (∀ j, j ∈ (gorders gs).*1 → om' !! j = om !! j) →
  Forall (level_rep om lm s) gs → Forall (level_rep om' lm' s) gs.
Proof.
  intros Hl Ho. rewrite !Forall_forall. intros Hf g Hg.
  apply (level_rep_frame om lm); [|intros j Hj|by apply Hf].
  - apply Hl, list_elem_of_fmap. eauto.
  - apply Ho. apply list_elem_of_fmap in Hj as (io & -> & Hio).
    apply list_elem_of_fmap. exists io. split; [done|]. apply elem_of_gorders. eauto.
Qed.

Lemma side_rep_frame om lm om' lm' s x gs :
  (∀ j, j ∈ gs.*1 → lm' !! j = lm !! j) →
  (∀ j, j ∈ (gorders gs).*1 → om' !! j = om !! j) →
  side_rep om lm s x gs → side_rep om' lm' s x gs.
Proof.
  intros Hl Ho (Hx & Hc & Hf & Hs). split_and!; [done| | |done].
  - eapply circ_ext; [|exact Hc]. intros j Hj. unfold lnxt, lprv. by rewrite Hl.
  - eapply levels_rep_frame; [|exact Ho|exact Hf]. intros j Hj. by rewrite Hl.
Qed.

Lemma rep_side om lm bst pm cm G s :
  trading_side s → rep om lm bst pm cm G → side_rep om lm s (sel s bst) (sel s G).
Proof. by intros [->| ->] (? & ? & _). Qed.

Lemma all_perm {A} (s : Side) (x : list A * list A) :
  trading_side s → x.1 ++ x.2 ≡ₚ sel s x ++ sel (opp s) x.
Proof. intros [->| ->]; cbn; [done|]. apply Permutation_app_comm. Qed.

Lemma rep_global om lm bst pm cm G s :
  trading_side s → rep om lm bst pm cm G → global_rep om lm pm cm (sel s G ++ sel (opp s) G).
Proof. intros Hs (_ & _ & Hg). by rewrite <- all_perm. Qed.

Lemma rep_update om lm bst pm cm G s om' lm' x' pm' cm' gs' :
  trading_side s → rep om lm bst pm cm G →
  side_rep om' lm' s x' gs' →
  global_rep om' lm' pm' cm' (gs' ++ sel (opp s) G) →
  (∀ j, j ∈ (sel (opp s) G).*1 → lm' !! j = lm !! j) →
  (∀ j, j ∈ (gorders (sel (opp s) G)).*1 → om' !! j = om !! j) →
  rep om' lm' (upd s x' bst) pm' cm' (upd s gs' G).
Proof.
  intros Hs Hr Hside Hg Hl Ho.
  assert (side_rep om' lm' (opp s) (sel (opp s) bst) (sel (opp s) G)) as Hopp.
  { apply (side_rep_frame om lm); [done..|]. apply (rep_side _ _ bst pm cm); [|done].
    by destruct Hs as [->| ->]; [right|left]. }
  destruct Hs as [->| ->]; cbn in *.
  - by split_and!.
  - split_and!; [done..|]. by rewrite Permutation_app_comm.
Qed.

(** *** Uniqueness of keys and price slots *)
Lemma NoDup_fst_inj {A B} (l : list (A * B)) a b1 b2 :
  NoDup l.*1 → (a, b1) ∈ l → (a, b2) ∈ l → b1 = b2.
Proof.
  induction l as [|[a' b'] l IH]; cbn; [set_solver|].
  intros [Hn Hnd]%NoDup_cons H1 H2.
  apply elem_of_cons in H1 as [H1|H1], H2 as [H2|H2]; simplify_eq; try done.
  - destruct Hn. apply list_elem_of_fmap. by exists (a', b2).
  - destruct Hn. apply list_elem_of_fmap. by exists (a', b1).
  - auto.
Qed.

Lemma global_key_unique om lm pm cm al i o j o' :
  global_rep om lm pm cm al → (i, o) ∈ gorders al → (j, o') ∈ gorders al →
  s_client o = s_client o' → s_coid o = s_coid o' → i = j ∧ o = o'.
Proof.
  intros (_ & Hnd & _ & _ & _ & Hcm & _) Hi Hj Hc Ho.
  assert (cm !! (s_client o, s_coid o) = Some i) as H1 by (apply Hcm; eauto).
  assert (cm !! (s_client o, s_coid o) = Some j) as H2
    by (apply Hcm; exists o'; split; [done|congruence]).
  simplify_eq. split; [done|]. by eapply NoDup_fst_inj.
Qed.

Lemma global_slot_unique om lm pm cm al i pg j pg' :
  global_rep om lm pm cm al → (i, pg) ∈ al → (j, pg') ∈ al →
  priceToIndex pg.1 = priceToIndex pg'.1 → i = j ∧ pg = pg'.
Proof.
  intros (Hnd & _ & _ & _ & Hpm & _) Hi Hj Hp.
  assert (pm !! priceToIndex pg.1 = Some i) as H1 by (apply Hpm; eauto).
  assert (pm !! priceToIndex pg.1 = Some j) as H2 by (apply Hpm; eauto).
  simplify_eq. split; [done|]. by eapply NoDup_fst_inj.
Qed.

(** *** Removing one order, and its level when it was the only one *)
Lemma global_remove om lm pm cm om' lm' lp p os1 i o os2 rest :
  let nil := os1 ++ os2 = [] in
  global_rep om lm pm cm ((lp, (p, os1 ++ (i, o) :: os2)) :: rest) →
  (∀ j, is_Some (om' !! j) ↔ is_Some (om !! j) ∧ j ≠ i) →
  (∀ j, is_Some (lm' !! j) ↔ is_Some (lm !! j) ∧ (j = lp → ¬ nil)) →
  global_rep om' lm' (if decide nil then delete (priceToIndex p) pm else pm)
    (delete (s_client o, s_coid o) cm) (glevel lp p (os1 ++ os2) ++ rest).
Proof.
  intros nil Hg Hom Hlm. pose proof Hg as (Hnd1 & Hnd2 & Hl & Ho & Hpm & Hcm & Hb).
  rewrite gorders_cons in Hnd2, Ho, Hcm, Hb. cbn in Hnd1, Hnd2, Hl, Ho, Hcm, Hb.
  apply NoDup_cons in Hnd1 as [Hlp Hnd1].
  set (os := (os1 ++ os2) ++ gorders rest) in *.
  assert ((os1 ++ (i, o) :: os2) ++ gorders rest ≡ₚ (i, o) :: os) as Hperm.
  { unfold os. change ((i, o) :: (os1 ++ os2) ++ gorders rest)
      with (((i, o) :: os1 ++ os2) ++ gorders rest). by rewrite Permutation_middle. }
  setoid_rewrite Hperm in Hnd2. setoid_rewrite Hperm in Ho.
  setoid_rewrite Hperm in Hcm. setoid_rewrite Hperm in Hb.
  cbn in Hnd2. apply NoDup_cons in Hnd2 as [Hi Hnd2].
  assert (gorders (glevel lp p (os1 ++ os2) ++ rest) = os) as Hgo.
  { by rewrite gorders_app, gorders_glevel. }
  assert (∀ pg, (lp, pg) ∉ rest) as Hlprest.
  { intros pg Hpg. apply Hlp, list_elem_of_fmap. by exists (lp, pg). }
  unfold global_rep. rewrite Hgo. split_and!.
  - unfold glevel. destruct (os1 ++ os2); cbn; [done|by apply NoDup_cons].
  - done.
  - intros j. rewrite Hlm, Hl. unfold nil, glevel.
    destruct (os1 ++ os2); cbn; set_solver.
  - intros j. rewrite Hom, Ho. cbn. rewrite elem_of_cons. naive_solver.
  - intros k j. unfold nil. destruct (os1 ++ os2) as [|x xs] eqn:E; cbn.
    + rewrite decide_True by done. rewrite lookup_delete_Some, Hpm. split.
      * intros [Hk (pg & [[= -> ->]|Hpg]%elem_of_cons & Hkp)]; [done|eauto].
      * intros (pg & Hpg & ->). split; [|exists pg; split; [set_solver|done]].
        intros Hk. destruct (global_slot_unique _ _ _ _ _ lp (p, os1 ++ (i, o) :: os2) j pg Hg)
          as [<- _]; [set_solver|set_solver|done|]. by eapply Hlprest.
    + rewrite decide_False by done. rewrite Hpm. split.
      * intros (pg & [[= -> ->]|Hpg]%elem_of_cons & Hkp); [exists (p, x :: xs)|eauto]; set_solver.
      * intros (pg & [[= -> ->]|Hpg]%elem_of_cons & Hkp);
          [exists (p, os1 ++ (i, o) :: os2)|eauto]; set_solver.
  - intros k j. rewrite lookup_delete_Some, Hcm. split.
    + intros [Hk (o' & [[= -> ->]|Ho']%elem_of_cons & Hkp)]; [done|eauto].
    + intros (o' & Ho' & ->). split; [|exists o'; split; [set_solver|done]].
      intros [= Hk1 Hk2]. destruct (global_key_unique _ _ _ _ _ i o j o' Hg) as [<- _]; try done.
      * rewrite gorders_cons. cbn. rewrite Hperm. set_solver.
      * rewrite gorders_cons. cbn. rewrite Hperm. set_solver.
      * apply Hi, list_elem_of_fmap. by exists (i, o').
  - intros j o' Ho'. apply (Hb j). set_solver.
Qed.
End frame.
