(* ===== verification/BookRemove.v ===== *)
(** * The pointer operations that shorten the book of me_order_book.cpp: the helpers, removing an
    order or a level, and reducing a quantity, against lists of levels. *)
From S2P Require Import Prelude Types MemPool CircList EngineSink BookSpec MEOrderBook BookRep BookPtr.
From S2P Require Import BookLevels BookFrame.
(** * The heap after an order has been removed represents the book without it *)

Implicit Types (om : gmap nat MEOrder) (lm : gmap nat MEOrdersAtPrice) (g : GLevel) (gs al : list GLevel) (gos : list (nat * Order)) (bst : ptr * ptr) (pm : gmap Z nat) (cm : gmap (Z * Z) nat) (G : list GLevel * list GLevel) (b : MEOrderBook) (nid : Z).

Lemma is_Some_data {A B} (f : A → B) (x y : option A) :
  f <$> x = f <$> y → (is_Some x ↔ is_Some y).
Proof. destruct x, y; naive_solver. Qed.

Lemma sorted_levels_app s gs1 gs2 :
  sorted_levels s (gs1 ++ gs2) ↔
  sorted_levels s gs1 ∧ sorted_levels s gs2 ∧
  ∀ g1 g2, g1 ∈ gs1 → g2 ∈ gs2 → before s g1.2.1 g2.2.1 = true.
Proof.
  unfold sorted_levels. induction gs1 as [|g gs1 IH]; cbn.
  - split; [intros; split_and!; [constructor|done|set_solver]|by intros (_ & ? & _)].
  - split.
    + intros [Hs Hf]%StronglySorted_inv. apply Forall_app in Hf as [Hf1 Hf2].
      apply IH in Hs as (Hs1 & Hs2 & Hall). split_and!; [by constructor|done|].
      rewrite Forall_forall in Hf2. intros g1 g2 [->|Hg1]%elem_of_cons Hg2; auto.
    + intros ([Hs Hf]%StronglySorted_inv & Hs2 & Hall). constructor.
      * apply IH. split_and!; [done..|]. intros. apply Hall; set_solver.
      * apply Forall_app. split; [done|]. apply Forall_forall. intros. apply Hall; set_solver.
Qed.

Lemma sorted_levels_same_price s gs1 lp p gos gos' gs2 :
  sorted_levels s (gs1 ++ (lp, (p, gos)) :: gs2) →
  sorted_levels s (gs1 ++ glevel lp p gos' ++ gs2).
Proof.
  change (gs1 ++ (lp, (p, gos)) :: gs2) with (gs1 ++ [(lp, (p, gos))] ++ gs2).
  rewrite !sorted_levels_app. intros (H1 & (H2 & H3 & H23) & H123).
  split_and!; [done| |done| |].
  - destruct gos'; repeat constructor.
  - intros g1 g2 Hg1 Hg2. destruct gos'; [set_solver|].
    apply list_elem_of_singleton in Hg1 as ->. apply (H23 (lp, (p, gos))); [set_solver|done].
  - intros g1 g2 Hg1 [Hg2|Hg2]%elem_of_app; [|apply H123; set_solver].
    destruct gos'; [set_solver|]. apply list_elem_of_singleton in Hg2 as ->.
    apply (H123 g1 (lp, (p, gos))); set_solver.
Qed.

Section remove.
Context `{Limits}.

(** The heap after one order has been unlinked and freed. *)
Lemma rep_removed om lm bst pm cm G s gs1 lp p os1 i o os2 gs2 om' lm' :
  let nil := os1 ++ os2 = [] in
  let gs' := gs1 ++ glevel lp p (os1 ++ os2) ++ gs2 in
  trading_side s → rep om lm bst pm cm G →
  sel s G = gs1 ++ (lp, (p, os1 ++ (i, o) :: os2)) :: gs2 →
  om' !! i = None →
  (∀ j, j ≠ i → order_of <$> om' !! j = order_of <$> om !! j) →
  (∀ j, j ∉ (os1 ++ (i, o) :: os2).*1 → om' !! j = om !! j) →
  circ (onxt om') (oprv om') (os1 ++ os2).*1 →
  (∀ j, j ≠ lp → level_data <$> lm' !! j = level_data <$> lm !! j) →
  (∀ j, j ∉ (sel s G).*1 → lm' !! j = lm !! j) →
  level_data <$> lm' !! lp = (if decide nil then None else Some (s, p, head (os1 ++ os2).*1)) →
  circ (lnxt lm') (lprv lm') gs'.*1 →
  rep om' lm' (upd s (head gs'.*1) bst) (if decide nil then delete (priceToIndex p) pm else pm)
    (delete (s_client o, s_coid o) cm) (upd s gs' G).
Proof.
  intros nil gs' Hs Hr HG Hi Hod Hoout Hoc Hld Hlout Hlp Hlc.
  pose proof (rep_side _ _ _ _ _ _ s Hs Hr) as (Hbest & Hc & Hf & Hsort).
  pose proof (rep_global _ _ _ _ _ _ s Hs Hr) as Hg.
  rewrite HG in *.
  set (rest := gs1 ++ gs2 ++ sel (opp s) G).
  assert ((gs1 ++ (lp, (p, os1 ++ (i, o) :: os2)) :: gs2) ++ sel (opp s) G
          ≡ₚ (lp, (p, os1 ++ (i, o) :: os2)) :: rest) as Hperm.
  { unfold rest. rewrite <- Permutation_middle. cbn. by rewrite <- app_assoc. }
  rewrite Hperm in Hg. pose proof Hg as (Hnd1 & Hnd2 & Hl & Ho & _).
  cbn in Hnd1, Hl. rewrite gorders_cons in Hnd2. cbn in Hnd2.
  apply NoDup_cons in Hnd1 as [Hlprest Hnd1].
  rewrite fmap_app in Hnd2. apply NoDup_app in Hnd2 as (Hndo & Hdisj & _).
  assert (∀ j, j ∈ (gorders rest).*1 → om' !! j = om !! j) as Horest.
  { intros j Hj. apply Hoout. intros Hj'. by apply (Hdisj j). }
  assert (is_Some (om !! i)) as Hisome.
  { apply Ho. rewrite gorders_cons. cbn. set_solver. }
  assert (Forall (level_rep om' lm' s) gs') as Hf'.
  { rewrite !Forall_app, Forall_cons in Hf. destruct Hf as (Hf1 & (_ & _ & Hfo & _) & Hf2).
    unfold gs'. rewrite !Forall_app. unfold rest in Horest, Hlprest.
    rewrite !gorders_app, !fmap_app in Horest. rewrite !fmap_app in Hlprest.
    split_and!.
    - apply (levels_rep_frame om lm); [|set_solver|done]. intros j Hj. apply Hld. set_solver.
    - destruct (os1 ++ os2) as [|io os] eqn:E; [constructor|].
      constructor; [|constructor]. split_and!; [done| | |done].
      + cbn [fst snd]. rewrite Hlp. by rewrite decide_False.
      + cbn [fst snd] in *. rewrite <- E. rewrite Forall_forall in Hfo |- *.
        intros jo Hjo. destruct (Hfo jo) as [Hjd ?]; [set_solver|]. split; [|done].
        rewrite Hod; [done|]. intros Hji. rewrite fmap_app in Hndo.
        apply NoDup_app in Hndo as (_ & Hn1 & Hn2). cbn in Hn2.
        apply NoDup_cons in Hn2 as [Hn2 _].
        apply elem_of_app in Hjo as [Hjo|Hjo].
        * apply (Hn1 i); [|set_solver]. apply list_elem_of_fmap. by exists jo.
        * apply Hn2, list_elem_of_fmap. by exists jo.
    - apply (levels_rep_frame om lm); [|set_solver|done]. intros j Hj. apply Hld. set_solver. }
  apply (rep_update om lm bst pm cm G s); [done|done|split_and!|..].
  - done.
  - done.
  - done.
  - by eapply sorted_levels_same_price.
  - replace (gs' ++ sel (opp s) G) with (gs1 ++ glevel lp p (os1 ++ os2) ++ gs2 ++ sel (opp s) G)
      by (unfold gs'; by rewrite <- !app_assoc).
    rewrite Permutation_app_swap_app. apply (global_remove om lm pm cm om' lm' lp p os1 i o os2); [done| |].
    + intros j. destruct (decide (j = i)) as [->|Hj].
      * rewrite Hi. split; [by intros []|by intros []].
      * rewrite (is_Some_data _ _ _ (Hod j Hj)). naive_solver.
    + intros j. fold nil. destruct (decide (j = lp)) as [->|Hj].
      * assert (is_Some (lm !! lp)) by (apply Hl; set_solver).
        destruct (decide nil); destruct (lm' !! lp); naive_solver.
      * rewrite (is_Some_data _ _ _ (Hld j Hj)). naive_solver.
  - intros j Hj. apply Hlout. rewrite fmap_app. cbn.
    unfold rest in Hnd1, Hlprest. rewrite !fmap_app in Hnd1, Hlprest.
    apply NoDup_app in Hnd1 as (_ & Hd1 & [_ [Hd2 _]]%NoDup_app).
    rewrite elem_of_app, elem_of_cons. intros [Hj1|[->|Hj2]].
    + apply (Hd1 j); set_solver.
    + set_solver.
    + by apply (Hd2 j).
  - intros j Hj. apply Horest. unfold rest. rewrite !gorders_app, !fmap_app. set_solver.
Qed.
End remove.

(** * removeOrder preserves the representation *)


Lemma glevel_fst lp p gos gs1 gs2 :
  gos ≠ [] → (gs1 ++ glevel lp p gos ++ gs2).*1 = gs1.*1 ++ lp :: gs2.*1.
Proof. intros Hne. rewrite !fmap_app. by destruct gos. Qed.

Section remove_order.
Context `{Limits} {E : Type} `{EngineSink E}.
Implicit Types (e : E) (Q : unit → MEOrderBook * E → Prop).

(** What the representation says about one order of a side. *)
Lemma rep_order om lm bst pm cm G s gs1 lp p os1 i o os2 gs2 :
  trading_side s → rep om lm bst pm cm G →
  sel s G = gs1 ++ (lp, (p, os1 ++ (i, o) :: os2)) :: gs2 →
  (∃ x, om !! i = Some x ∧ order_of x = o ∧ o_side_ x = s ∧ o_price_ x = p) ∧
  (∃ l, lm !! lp = Some l ∧ level_data l = (s, p, head (os1 ++ (i, o) :: os2).*1)) ∧
  pm !! priceToIndex p = Some lp ∧
  s_client o < ME_MAX_NUM_CLIENTS ∧ s_coid o < ME_MAX_ORDER_IDS ∧
  NoDup (os1 ++ (i, o) :: os2).*1 ∧ NoDup (sel s G).*1 ∧
  (∀ j, j ∈ (sel s G).*1 → is_Some (lm !! j)) ∧
  (∀ j, j ∈ (os1 ++ (i, o) :: os2).*1 → is_Some (om !! j)) ∧
  circ (onxt om) (oprv om) (os1 ++ (i, o) :: os2).*1.
Proof.
  intros Hs Hr HG. pose proof (rep_side _ _ _ _ _ _ s Hs Hr) as (_ & _ & Hf & _).
  pose proof (rep_global _ _ _ _ _ _ s Hs Hr) as (Hnd1 & Hnd2 & Hl & Ho & Hpm & _ & Hb).
  assert ((lp, (p, os1 ++ (i, o) :: os2)) ∈ sel s G) as Hin by (rewrite HG; set_solver).
  rewrite Forall_forall in Hf. destruct (Hf _ Hin) as (_ & Hld & Hfo & Hc). cbn [fst snd] in *.
  assert (∀ jo, jo ∈ os1 ++ (i, o) :: os2 → jo ∈ gorders (sel s G ++ sel (opp s) G)) as Hgo.
  { intros jo Hjo. apply elem_of_gorders. eexists. split; [apply elem_of_app; by left|done]. }
  assert ((i, o) ∈ os1 ++ (i, o) :: os2) as Hio by set_solver.
  destruct (Hb i o (Hgo _ Hio)) as [Hb1 Hb2].
  rewrite Forall_forall in Hfo. destruct (Hfo _ Hio) as (Hx & Hxs & Hxp & _). cbn in Hx, Hxs, Hxp.
  split_and!; [| | |done..| | | | |done].
  - destruct (om !! i) as [x|]; [|done]. cbn in Hx. simplify_eq. by exists x.
  - destruct (lm !! lp) as [l|]; [|done]. cbn in Hld. simplify_eq. by exists l.
  - apply Hpm. exists (p, os1 ++ (i, o) :: os2). split; [set_solver|done].
  - rewrite gorders_app, HG, gorders_app, gorders_cons in Hnd2. cbn in Hnd2.
    rewrite !fmap_app in Hnd2. rewrite fmap_app.
    apply NoDup_app in Hnd2 as (Hnd2 & _ & _). apply NoDup_app in Hnd2 as (_ & _ & Hnd2).
    by apply NoDup_app in Hnd2 as (Hnd2 & _ & _).
  - rewrite fmap_app in Hnd1. by apply NoDup_app in Hnd1 as (? & _).
  - intros j Hj. apply Hl. rewrite fmap_app. set_solver.
  - intros j Hj. apply Ho. apply list_elem_of_fmap in Hj as (jo & -> & Hjo).
    apply list_elem_of_fmap. eauto.
Qed.

(** The end of removeOrder. *)
Lemma wp_release_order b om lm bst pm cm nid e x i Q :
  view b om lm bst pm cm nid → is_Some (om !! i) →
  o_client_id_ x < ME_MAX_NUM_CLIENTS → o_client_order_id_ x < ME_MAX_ORDER_IDS →
  (∀ b', view b' (delete i om) lm bst pm
           (delete (o_client_id_ x, o_client_order_id_ x) cm) nid → Q tt (b', e)) →
  wp (set_cid_oid (E := E) (o_client_id_ x) (o_client_order_id_ x) None;; free_order (Some i))
    (b, e) Q.
Proof.
  intros Hv [y Hy] Hc Ho HQ. apply wp_bind. eapply wp_set_cid_oid; [exact Hv|done|done|].
  intros b1 Hv1. eapply wp_free_order; [exact Hv1|exact Hy|done].
Qed.

Lemma wp_removeOrder b om lm bst pm cm nid e G s gs1 lp p os1 i o os2 gs2 Q :
  view b om lm bst pm cm nid → rep om lm bst pm cm G → trading_side s →
  sel s G = gs1 ++ (lp, (p, os1 ++ (i, o) :: os2)) :: gs2 →
  (∀ b', book_rep b' (upd s (gs1 ++ glevel lp p (os1 ++ os2) ++ gs2) G) nid → Q tt (b', e)) →
  wp (removeOrder (E := E) (Some i)) (b, e) Q.
Proof.
  intros Hv Hr Hs HG HQ.
  destruct (rep_order _ _ _ _ _ _ _ _ _ _ _ _ _ _ _ Hs Hr HG)
    as ((x & Hx & <- & Hxs & Hxp) & (l & Hl & Hld) & Hpm & Hb1 & Hb2 & Hndo & Hndl & Hdl & Hdo & Hco).
  pose proof (rep_side _ _ _ _ _ _ s Hs Hr) as (Hbest & Hcl & _).
  rewrite HG, fmap_app in Hbest, Hcl, Hndl, Hdl. cbn [fmap list_fmap fst snd] in Hbest, Hcl, Hndl, Hdl.
  rewrite fmap_app in Hndo, Hdo, Hco. cbn [fmap list_fmap fst snd] in Hndo, Hdo, Hco.
  unfold removeOrder. apply wp_bind. eapply wp_rd_order; [exact Hv|exact Hx|].
  apply wp_bind. eapply wp_getOrdersAtPrice; [exact Hv|]. rewrite Hxp, Hxs, Hpm.
  destruct (circ_self _ _ _ _ _ Hndo Hco) as [_ Hself].
  cbn in Hself. unfold oprv in Hself. rewrite Hx in Hself. cbn in Hself.
  destruct (decide (prev_order_ x = Some i)) as [Hpv|Hpv].
  - apply Hself in Hpv as Hnil. apply app_eq_nil in Hnil as [?%fmap_nil_inv ?%fmap_nil_inv].
    subst os1 os2. apply wp_bind.
    eapply wp_removeOrdersAtPrice; [exact Hv|exact Hbest|exact Hndl|exact Hcl|exact Hdl|exact Hpm|].
    intros b1 lm1 Hv1 Hlp1 Hld1 Hlout1 Hc1.
    eapply wp_release_order; [exact Hv1|by eexists|done|done|]. intros b2 Hv2.
    apply HQ. do 5 eexists. split; [exact Hv2|].
    rewrite <- fmap_app in Hc1 |- *.
    apply (rep_removed om lm bst pm cm G s gs1 lp p [] i (order_of x) [] gs2); try done.
    + by lookups.
    + intros j Hj. by rewrite lookup_delete_ne.
    + intros j Hj. rewrite lookup_delete_ne; [done|]. set_solver.
    + rewrite HG, fmap_app. exact Hlout1.
    + by rewrite Hlp1.
  - assert (os1.*1 ++ os2.*1 ≠ []) as Hne by naive_solver.
    destruct (neighbours os1.*1 os2.*1 Hne) as (h & t & Hh & Ht & Hhin & Htin).
    pose proof (circ_next _ _ _ _ _ Hco) as Hnx. pose proof (circ_prev _ _ _ _ _ Hco) as Hpx.
    rewrite (head_rot _ _ _ _ Hh) in Hnx. rewrite (last_rot _ _ _ Ht) in Hpx.
    unfold onxt in Hnx. unfold oprv in Hpx. rewrite Hx in Hnx, Hpx. cbn in Hnx, Hpx.
    rewrite Hnx, Hpx.
    assert (h ≠ i ∧ t ≠ i) as [Hhi Hti].
    { apply NoDup_app in Hndo as (?&?&[??]%NoDup_cons). set_solver. }
    destruct (Hdo h) as [xh Hxh]; [set_solver|]. destruct (Hdo t) as [xt Hxt]; [set_solver|].
    apply wp_bind. apply wp_bind. eapply wp_wr_order; [exact Hv|exact Hxt|]. intros b1 Hv1.
    assert (is_Some (<[t := set_next_order (Some h) xt]> om !! h)) as [xh' Hxh']
      by (lookups; by eexists).
    apply wp_bind. eapply wp_wr_order; [exact Hv1|exact Hxh'|]. intros b2 Hv2.
    apply wp_bind. eapply wp_rd_level; [exact Hv2|exact Hl|].
    unfold level_data in Hld. injection Hld as Hls Hlp Hlf. rewrite Hlf.
    apply wp_bind.
    set (om2 := <[h := set_prev_order (Some t) xh']> (<[t := set_next_order (Some h) xt]> om)) in *.
    assert (∀ j, order_of <$> om2 !! j = order_of <$> om !! j) as Hod2 by (intros j; subst om2; lookups).
    assert (∀ j, j ∉ os1.*1 ++ i :: os2.*1 → om2 !! j = om !! j) as Hout2
      by (intros j Hj; subst om2; lookups; set_solver).
    assert (om2 !! i = Some x) as Hx2 by (subst om2; lookups).
    assert (circ (onxt om2) (oprv om2) (os1.*1 ++ os2.*1)) as Hc2.
    { eapply (circ_remove (onxt om) (oprv om) _ _ os1.*1 i os2.*1 h t); try done;
        [by subst om2; lookups|by subst om2; lookups| |];
        intros j Hj Hjt; apply NoDup_app in Hndo as (?&?&[??]%NoDup_cons);
        subst om2; lookups; set_solver. }
    assert (os1 ++ os2 ≠ []) as Hne' by (intros E0; apply Hne; by rewrite <- fmap_app, E0).
    match goal with |- wp ?m (b2, e) ?R =>
      assert (∀ b3 lm1, view b3 om2 lm1 bst pm cm nid →
                (∀ j, j ≠ lp → lm1 !! j = lm !! j) →
                (∀ j, lnxt lm1 j = lnxt lm j ∧ lprv lm1 j = lprv lm j) →
                level_data <$> lm1 !! lp = Some (s, p, head (os1 ++ os2).*1) → R tt (b3, e)) as Hk end.
    { intros b3 lm1 Hv3 Hout1 Hlk1 Hlp1.
      apply wp_bind. eapply wp_wr_order; [exact Hv3|exact Hx2|]. intros b4 Hv4.
      eapply wp_wr_order; [exact Hv4|by apply lookup_insert_eq|]. intros b5 Hv5.
      eapply wp_release_order; [exact Hv5|by rewrite lookup_insert_eq|done|done|]. intros b6 Hv6.
      rewrite insert_insert_eq, delete_insert_eq in Hv6.
      apply HQ. do 5 eexists. split; [exact Hv6|].
      pose proof (rep_removed om lm bst pm cm G s gs1 lp p os1 i (order_of x) os2 gs2
                    (delete i om2) lm1) as Hrr.
      cbv zeta in Hrr. rewrite !(decide_False _ _ Hne') in Hrr.
      rewrite (glevel_fst _ _ _ _ _ Hne'), <- Hbest, upd_sel in Hrr.
      apply Hrr; clear Hrr; try done.
      - apply lookup_delete_eq.
      - intros j Hj. by rewrite lookup_delete_ne.
      - intros j Hj. rewrite fmap_app in Hj. cbn in Hj.
        rewrite lookup_delete_ne by set_solver. by apply Hout2.
      - rewrite fmap_app. eapply circ_ext; [|exact Hc2]. intros j Hj.
        unfold onxt, oprv. rewrite lookup_delete_ne; [done|].
        apply NoDup_app in Hndo as (?&?&[??]%NoDup_cons). set_solver.
      - intros j Hj. by rewrite Hout1.
      - rewrite HG, fmap_app. cbn. intros j Hj. apply Hout1. set_solver.
      - eapply circ_ext; [|exact Hcl]. intros j _. apply Hlk1. }
    destruct (decide (head (os1 ++ (i, order_of x) :: os2).*1 = Some i)) as [Hf|Hf].
    + eapply wp_wr_level; [exact Hv2|exact Hl|]. intros b3 Hv3.
      apply (Hk b3 _ Hv3); [intros j Hj; by lookups|intros j; split; by lookups|].
      rewrite lookup_insert_eq. cbn. unfold level_data. cbn. rewrite Hls, Hlp, <- Hh. f_equal.
      f_equal. destruct os1 as [|[j jo] os1]; cbn in Hf |- *; [by rewrite app_nil_r|].
      simplify_eq. cbn in Hndo. apply NoDup_cons in Hndo as [? _]. set_solver.
    + apply wp_ret. apply (Hk b2 lm Hv2); [done..|].
      rewrite Hl. cbn. unfold level_data. rewrite Hls, Hlp, Hlf.
      by destruct os1 as [|[j jo] os1].
Qed.
End remove_order.

(** * Changing the quantity of a resting order preserves the representation *)


Section qty.
Context `{Limits} {E : Type} `{EngineSink E}.

Lemma global_set_qty om lm pm cm om' lp p os1 i o q os2 rest :
  global_rep om lm pm cm ((lp, (p, os1 ++ (i, o) :: os2)) :: rest) →
  (∀ j, is_Some (om' !! j) ↔ is_Some (om !! j)) →
  global_rep om' lm pm cm ((lp, (p, os1 ++ (i, with_qty q o) :: os2)) :: rest).
Proof.
  intros (Hnd1 & Hnd2 & Hl & Ho & Hpm & Hcm & Hb) Hom.
  rewrite gorders_cons in Hnd2, Ho, Hcm, Hb. cbn in Hnd1, Hnd2, Hl, Ho, Hcm, Hb.
  set (os := (os1 ++ os2) ++ gorders rest) in *.
  assert (∀ x, (os1 ++ (i, x) :: os2) ++ gorders rest ≡ₚ (i, x) :: os) as Hperm.
  { intros x. unfold os. change ((i, x) :: (os1 ++ os2) ++ gorders rest)
      with (((i, x) :: os1 ++ os2) ++ gorders rest). by rewrite Permutation_middle. }
  unfold global_rep. rewrite gorders_cons. cbn [fst snd].
  setoid_rewrite Hperm. setoid_rewrite Hperm in Hnd2. setoid_rewrite Hperm in Ho.
  setoid_rewrite Hperm in Hcm. setoid_rewrite Hperm in Hb.
  split_and!; [done|done|done| | | |].
  - intros j. by rewrite Hom, Ho.
  - intros k j. rewrite Hpm. split;
      (intros (pg & [[= -> ->]|Hpg]%elem_of_cons & Hk);
       [eexists; split; [by left|done]|exists pg; split; [by right|done]]).
  - intros k j. rewrite Hcm. split;
      (intros (x & [[= -> ->]|Hpg]%elem_of_cons & Hk);
       [eexists; split; [by left|done]|exists x; split; [by right|done]]).
  - intros j x [[= -> ->]|Hx]%elem_of_cons; [apply (Hb i o); by left|apply (Hb j x); by right].
Qed.

Lemma rep_set_qty om lm bst pm cm G s gs1 lp p os1 i x q os2 gs2 :
  let gs' := gs1 ++ (lp, (p, os1 ++ (i, with_qty q (order_of x)) :: os2)) :: gs2 in
  trading_side s → rep om lm bst pm cm G → is_u32 q → om !! i = Some x →
  sel s G = gs1 ++ (lp, (p, os1 ++ (i, order_of x) :: os2)) :: gs2 →
  rep (<[i := set_qty q x]> om) lm bst pm cm (upd s gs' G).
Proof.
  intros gs' Hs Hr Hq Hx HG. set (om' := <[i := set_qty q x]> om).
  pose proof (rep_side _ _ _ _ _ _ s Hs Hr) as (Hbest & Hc & Hf & Hsort).
  pose proof (rep_global _ _ _ _ _ _ s Hs Hr) as Hg. pose proof Hg as (_ & Hnd & _).
  assert (gs'.*1 = (sel s G).*1) as Hfst by (by rewrite HG; unfold gs'; rewrite !fmap_app).
  rewrite HG in Hf, Hg, Hnd, Hsort.
  assert (∀ j, onxt om' j = onxt om j ∧ oprv om' j = oprv om j) as Hlk.
  { intros j. subst om'. split; by lookups. }
  assert (∀ j, j ≠ i → om' !! j = om !! j) as Hout by (intros j Hj; by apply lookup_insert_ne).
  rewrite <- app_assoc in Hg, Hnd. cbn in Hg, Hnd. 
  setoid_rewrite <- Permutation_middle in Hnd. rewrite gorders_cons in Hnd. cbn in Hnd.
  rewrite <- app_assoc in Hnd. cbn in Hnd. rewrite fmap_app in Hnd. cbn in Hnd.
  setoid_rewrite <- Permutation_middle in Hnd. apply NoDup_cons in Hnd as [Hni Hnd].
  rewrite !fmap_app, !gorders_app, !fmap_app in Hni.
  replace bst with (upd s (sel s bst) bst) by apply upd_sel.
  apply (rep_update om lm bst pm cm G s); [done|done| | |done|].
  - split_and!; [by rewrite Hfst|by rewrite Hfst| |].
    + apply Forall_app in Hf as [Hf1 [(Hne & Hd & Hfo & Hco) Hf2]%Forall_cons].
      cbn [fst snd] in *. unfold gs'. rewrite Forall_app, Forall_cons. split_and!.
      * eapply levels_rep_frame; [done| |done]. intros j Hj. apply Hout. set_solver.
      * split_and!; cbn [fst snd].
        -- by destruct os1.
        -- rewrite Hd, !fmap_app. done.
        -- rewrite Forall_app, Forall_cons in Hfo |- *. destruct Hfo as (Hfo1 & (Hi & His & Hip & _) & Hfo2).
           split; [|split].
           ++ rewrite Forall_forall in Hfo1 |- *. intros jo Hjo. destruct (Hfo1 jo Hjo) as [??].
              split; [|done]. rewrite Hout; [done|]. intros Hj. apply Hni. rewrite <- Hj. set_solver.
           ++ split_and!; [|done..]. cbn. subst om'. by rewrite lookup_insert_eq.
           ++ rewrite Forall_forall in Hfo2 |- *. intros jo Hjo. destruct (Hfo2 jo Hjo) as [??].
              split; [|done]. rewrite Hout; [done|]. intros Hj. apply Hni. rewrite <- Hj. set_solver.
        -- rewrite fmap_app in Hco |- *. eapply circ_ext; [|exact Hco]. intros j _. apply Hlk.
      * eapply levels_rep_frame; [done| |done]. intros j Hj. apply Hout. set_solver.
    + apply (sorted_levels_same_price _ _ _ _ _ (os1 ++ (i, with_qty q (order_of x)) :: os2)) in Hsort.
      by destruct os1.
  - unfold gs'. rewrite <- app_assoc. cbn. rewrite <- Permutation_middle.
    rewrite <- Permutation_middle in Hg. eapply global_set_qty; [exact Hg|].
    intros j. subst om'. rewrite lookup_insert_is_Some. destruct (decide (i = j)) as [->|]; naive_solver.
  - intros j Hj. apply Hout. set_solver.
Qed.
End qty.
