(* ===== verification/BookAdd.v ===== *)
(** * The pointer operations that extend the book of me_order_book.cpp: linking a level and an order, and
    addOrder, against lists of levels. *)
From S2P Require Import Prelude Types MemPool CircList EngineSink BookSpec MEOrderBook BookRep BookPtr.
From S2P Require Import BookLevels BookFrame BookRemove.
(** * addOrder preserves the representation *)

Implicit Types (om : gmap nat MEOrder) (lm : gmap nat MEOrdersAtPrice) (g : GLevel) (gs al : list GLevel) (gos : list (nat * Order)) (bst : ptr * ptr) (pm : gmap Z nat) (cm : gmap (Z * Z) nat) (G : list GLevel * list GLevel) (b : MEOrderBook) (nid : Z).

Section add.
Context `{Limits}.

Lemma global_add om lm pm cm om' lm' lp p gos i o rest :
  global_rep om lm pm cm (glevel lp p gos ++ rest) →
  om !! i = None → (gos = [] → lm !! lp = None ∧ pm !! priceToIndex p = None) →
  cm !! (s_client o, s_coid o) = None →
  s_client o < ME_MAX_NUM_CLIENTS → s_coid o < ME_MAX_ORDER_IDS →
  (∀ j, is_Some (om' !! j) ↔ is_Some (om !! j) ∨ j = i) →
  (∀ j, is_Some (lm' !! j) ↔ is_Some (lm !! j) ∨ j = lp) →
  global_rep om' lm' (<[priceToIndex p := lp]> pm) (<[(s_client o, s_coid o) := i]> cm)
    ((lp, (p, gos ++ [(i, o)])) :: rest).
Proof.
  intros (Hnd1 & Hnd2 & Hl & Ho & Hpm & Hcm & Hb) Hi Hnew Hkey Hc1 Hc2 Hom Hlm.
  rewrite gorders_app, gorders_glevel in Hnd2, Ho, Hcm, Hb.
  assert (gorders ((lp, (p, gos ++ [(i, o)])) :: rest) ≡ₚ (i, o) :: gos ++ gorders rest) as Hperm.
  { rewrite gorders_cons. cbn. rewrite <- app_assoc. cbn. by rewrite <- Permutation_middle. }
  assert (i ∉ (gos ++ gorders rest).*1) as Hifresh.
  { rewrite <- Ho, Hi. by intros []. }
  assert (NoDup (lp :: rest.*1) ∧ ∀ j, j ∈ lp :: rest.*1 ↔ j ∈ (glevel lp p gos ++ rest).*1 ∨ j = lp)
    as [Hndl Hmem].
  { destruct gos; cbn in *; [|split; [done|set_solver]]. split; [|set_solver].
    constructor; [|done]. rewrite <- Hl. destruct (Hnew eq_refl) as [-> _]. by intros []. }
  assert (∀ pg, (lp, pg) ∉ rest) as Hlprest.
  { intros pg Hpg. apply NoDup_cons in Hndl as [Hn _]. apply Hn, list_elem_of_fmap.
    by exists (lp, pg). }
  unfold global_rep. split_and!.
  - done.
  - rewrite Hperm. cbn. by constructor.
  - intros j. rewrite Hlm, Hl. cbn [fmap list_fmap fst]. by rewrite Hmem.
  - intros j. rewrite Hom, Ho, Hperm. cbn. rewrite elem_of_cons. naive_solver.
  - intros k j. rewrite lookup_insert_Some, Hpm. split.
    + intros [[<- <-]|[Hk (pg & Hpg & ->)]]; [eexists; split; [by left|done]|].
      exists pg. split; [|done]. destruct gos; cbn in Hpg; [by right|].
      apply elem_of_cons in Hpg as [[= -> ->]|Hpg]; [done|by right].
    + intros (pg & [[= -> ->]|Hpg]%elem_of_cons & ->); [by left|].
      destruct (decide (priceToIndex p = priceToIndex pg.1)) as [E|E].
      * assert (pm !! priceToIndex pg.1 = Some j) as Hj by (apply Hpm; set_solver).
        left. split; [done|]. destruct gos as [|io gos].
        -- destruct (Hnew eq_refl). congruence.
        -- assert (pm !! priceToIndex p = Some lp); [|congruence].
           apply Hpm. eexists. split; [by left|done].
      * right. split; [done|]. exists pg. set_solver.
  - intros k j. rewrite lookup_insert_Some, Hcm. setoid_rewrite Hperm. split.
    + intros [[<- <-]|[Hk (o' & Ho' & ->)]]; [eexists; split; [by left|done]|].
      exists o'. split; [by right|done].
    + intros (o' & [[= -> ->]|Ho']%elem_of_cons & ->); [by left|].
      right. split; [|eauto]. intros [= Hk1 Hk2].
      assert (cm !! (s_client o, s_coid o) = Some j); [|congruence].
      apply Hcm. exists o'. split; [done|congruence].
  - intros j o'. rewrite Hperm. intros [[= -> ->]|Ho']%elem_of_cons; [done|by apply (Hb j)].
Qed.

(** The heap after order [i] has been linked at the end of the level [lp]. *)
Lemma rep_added om lm bst pm cm G s gs1 lp p gos i o gs2 om' lm' :
  let gs' := gs1 ++ (lp, (p, gos ++ [(i, o)])) :: gs2 in
  trading_side s → rep om lm bst pm cm G →
  sel s G = gs1 ++ glevel lp p gos ++ gs2 → sorted_levels s gs' →
  om !! i = None → (gos = [] → lm !! lp = None ∧ pm !! priceToIndex p = None) →
  cm !! (s_client o, s_coid o) = None →
  s_client o < ME_MAX_NUM_CLIENTS → s_coid o < ME_MAX_ORDER_IDS →
  s_side o = s → s_price o = p → is_u32 (s_qty o) →
  order_of <$> om' !! i = Some o →
  (∀ j, j ≠ i → order_of <$> om' !! j = order_of <$> om !! j) →
  (∀ j, j ∉ i :: gos.*1 → om' !! j = om !! j) →
  circ (onxt om') (oprv om') (gos.*1 ++ [i]) →
  (∀ j, j ≠ lp → level_data <$> lm' !! j = level_data <$> lm !! j) →
  (∀ j, j ∉ lp :: (sel s G).*1 → lm' !! j = lm !! j) →
  level_data <$> lm' !! lp = Some (s, p, head (gos.*1 ++ [i])) →
  circ (lnxt lm') (lprv lm') (gs1.*1 ++ lp :: gs2.*1) →
  rep om' lm' (upd s (head gs'.*1) bst) (<[priceToIndex p := lp]> pm)
    (<[(s_client o, s_coid o) := i]> cm) (upd s gs' G).
Proof.
  intros gs' Hs Hr HG Hsort Hi Hnew Hkey Hc1 Hc2 Hos Hop Hoq Hio Hod Hoout Hoc Hld Hlout Hlp Hlc.
  pose proof (rep_side _ _ _ _ _ _ s Hs Hr) as (_ & _ & Hf & _).
  pose proof (rep_global _ _ _ _ _ _ s Hs Hr) as Hg.
  rewrite HG in *. set (rest := gs1 ++ gs2 ++ sel (opp s) G).
  assert ((gs1 ++ glevel lp p gos ++ gs2) ++ sel (opp s) G ≡ₚ glevel lp p gos ++ rest) as Hperm.
  { unfold rest. rewrite <- !app_assoc. apply Permutation_app_swap_app. }
  rewrite Hperm in Hg. pose proof Hg as (Hnd1 & Hnd2 & Hl & Ho & _).
  rewrite gorders_app, gorders_glevel, fmap_app in Hnd2, Ho.
  apply NoDup_app in Hnd2 as (Hndo & Hdisj & _).
  assert (∀ j, j ∈ (gorders rest).*1 → om' !! j = om !! j) as Horest.
  { intros j Hj. apply Hoout. rewrite elem_of_cons. intros [->|Hj']; [|by apply (Hdisj j)].
    assert (is_Some (om !! i)) as [? ?] by (apply Ho; set_solver). congruence. }
  assert (lp ∉ rest.*1) as Hlprest.
  { destruct gos as [|io gos]; cbn in Hnd1.
    - intros Hin. assert (is_Some (lm !! lp)) as [? ?] by (apply Hl; set_solver).
      destruct (Hnew eq_refl). congruence.
    - by apply NoDup_cons in Hnd1 as [? _]. }
  assert (∀ j, j ∈ rest.*1 → j ≠ lp) as Hnelp by (intros j Hj ->; done).
  unfold rest in Hnelp, Horest. rewrite !gorders_app, !fmap_app in Horest.
  rewrite !fmap_app in Hnelp.
  assert (Forall (level_rep om' lm' s) gs') as Hf'.
  { rewrite !Forall_app in Hf. destruct Hf as (Hf1 & Hfl & Hf2).
    unfold gs'. rewrite Forall_app, Forall_cons. split_and!.
    - apply (levels_rep_frame om lm); [|set_solver|done]. intros j Hj. apply Hld. set_solver.
    - split_and!; cbn [fst snd]; [by destruct gos|by rewrite Hlp, fmap_app| |by rewrite fmap_app].
      apply Forall_app. split; [|constructor; [by split_and!|constructor]].
      apply Forall_forall. intros jo Hjo.
      assert (order_rep om s p jo) as [Hjd ?].
      { destruct gos; [set_solver|]. cbn in Hfl. apply Forall_cons in Hfl as [(_ & _ & Hfo & _) _].
        rewrite Forall_forall in Hfo. by apply Hfo. }
      split; [|done]. rewrite Hod; [done|]. intros Hji. rewrite Hji, Hi in Hjd. done.
    - apply (levels_rep_frame om lm); [|set_solver|done]. intros j Hj. apply Hld. set_solver. }
  apply (rep_update om lm bst pm cm G s); [done|done|split_and!| | |].
  - done.
  - unfold gs'. rewrite fmap_app. done.
  - done.
  - done.
  - unfold gs'. rewrite <- app_assoc. cbn. rewrite <- Permutation_middle. fold rest.
    apply (global_add om lm); try done.
    + intros j. destruct (decide (j = i)) as [->|Hj].
      * split; [by right|intros _]. destruct (om' !! i); [by eexists|done].
      * rewrite (is_Some_data _ _ _ (Hod j Hj)). naive_solver.
    + intros j. destruct (decide (j = lp)) as [->|Hj].
      * split; [by right|intros _]. destruct (lm' !! lp); [by eexists|done].
      * rewrite (is_Some_data _ _ _ (Hld j Hj)). naive_solver.
  - intros j Hj. apply Hlout. rewrite elem_of_cons, !fmap_app, !elem_of_app.
    rewrite fmap_app in Hnd1. apply NoDup_app in Hnd1 as (_ & Hd0 & Hnd1).
    unfold rest in Hnd1, Hd0. rewrite !fmap_app in Hnd1, Hd0.
    apply NoDup_app in Hnd1 as (_ & Hd1 & [_ [Hd2 _]]%NoDup_app).
    intros [->|[Hj'|[Hj'|Hj']]].
    + set_solver.
    + apply (Hd1 j); set_solver.
    + apply (Hd0 j); set_solver.
    + by apply (Hd2 j).
  - intros j Hj. apply Horest. set_solver.
Qed.
End add.

(** * addOrder, executed: the order joins the end of its level, or opens a new one *)


Lemma size_dom_list {A} (m : gmap nat A) (l : list nat) :
  NoDup l → (∀ i, is_Some (m !! i) ↔ i ∈ l) → size m = length l.
Proof.
  intros Hnd Hm. rewrite <- size_dom.
  assert (dom m = list_to_set (C := gset nat) l) as ->.
  { apply set_eq. intros i. by rewrite elem_of_dom, elem_of_list_to_set. }
  by apply size_list_to_set.
Qed.

Section add_order.
Context `{Limits} {E : Type} `{EngineSink E}.
Implicit Types (e : E) (Q : unit → MEOrderBook * E → Prop).

Lemma rep_sizes om lm pm cm al :
  global_rep om lm pm cm al → size lm = length al ∧ size om = length (gorders al).
Proof.
  intros (Hnd1 & Hnd2 & Hl & Ho & _).
  rewrite (size_dom_list _ _ Hnd1 Hl), (size_dom_list _ _ Hnd2 Ho). by rewrite !length_fmap.
Qed.

(** What [addOrder] needs of the order it rests. *)
Definition fits cm (o : Order) : Prop :=
  trading_side (s_side o) ∧ is_u32 (s_qty o) ∧ cm !! (s_client o, s_coid o) = None ∧
  s_client o < ME_MAX_NUM_CLIENTS ∧ s_coid o < ME_MAX_ORDER_IDS.

Lemma levels_at_frame om lm lm' s gs :
  Forall (level_rep om lm s) gs →
  (∀ j, j ∈ gs.*1 → lm' !! j = lm !! j) → levels_at lm' s gs.
Proof.
  unfold levels_at. rewrite !Forall_forall. intros Hf Hl g Hg. destruct (Hf g Hg) as (_ & Hd & _).
  rewrite Hl; [eauto|]. apply list_elem_of_fmap. eauto.
Qed.

Lemma wp_addOrder_new b om lm bst pm cm nid e G i x gs1 gs2 Q :
  let o := order_of x in
  view b (<[i := x]> om) lm bst pm cm nid → rep om lm bst pm cm G → om !! i = None →
  fits cm o → sel (s_side o) G = gs1 ++ gs2 →
  splits (s_side o) (s_price o) gs1 gs2 →
  (∀ lp, sorted_levels (s_side o) (gs1 ++ (lp, (s_price o, [(i, o)])) :: gs2)) →
  pm !! priceToIndex (s_price o) = None →
  (S (size lm) < Z.to_nat ME_MAX_PRICE_LEVELS)%nat →
  (∀ b' lp, book_rep b' (upd (s_side o) (gs1 ++ (lp, (s_price o, [(i, o)])) :: gs2) G) nid →
     Q tt (b', e)) →
  wp (addOrder (E := E) (Some i)) (b, e) Q.
Proof.
  intros o Hv Hr Hi (Hs & Hq & Hkey & Hc1 & Hc2) HG Hsp Hsort Hpm Hroom HQ.
  pose proof (rep_side _ _ _ _ _ _ _ Hs Hr) as (Hbest & Hcl & Hf & _).
  pose proof (rep_global _ _ _ _ _ _ _ Hs Hr) as Hg.
  destruct (rep_sizes _ _ _ _ _ Hg) as [Hsz _]. rewrite length_app in Hsz.
  pose proof Hg as (Hnd1 & _ & Hl & _ & Hpmw & _).
  rewrite fmap_app in Hnd1. apply NoDup_app in Hnd1 as (Hnd1 & _ & _).
  change (o_side_ x) with (s_side o) in *. 
  unfold addOrder. apply wp_bind. eapply wp_rd_order; [exact Hv|by apply lookup_insert_eq|].
  apply wp_bind. eapply wp_getOrdersAtPrice; [exact Hv|].
  change (o_price_ x) with (s_price o). rewrite Hpm.
  apply wp_bind. apply wp_bind. eapply wp_wr_order; [exact Hv|by apply lookup_insert_eq|].
  intros b1 Hv1. rewrite insert_insert_eq in Hv1.
  apply wp_bind. eapply wp_wr_order; [exact Hv1|by apply lookup_insert_eq|].
  intros b2 Hv2. rewrite insert_insert_eq in Hv2.
  set (x' := set_next_order _ _) in Hv2.
  apply wp_bind. eapply wp_alloc_level; [exact Hv2|done|]. intros b3 lp Hlp Hv3.
  set (n := mkMEOrdersAtPrice _ _ _ _ _) in Hv3.
  assert (lp ∉ (sel (s_side o) G).*1) as Hlpn.
  { intros Hin. assert (is_Some (lm !! lp)) as [??]; [|congruence].
    apply Hl. rewrite fmap_app. set_solver. }
  assert (∀ j, j ∈ (sel (s_side o) G).*1 → <[lp := n]> lm !! j = lm !! j) as Hlmf.
  { intros j Hj. rewrite lookup_insert_ne; [done|]. by intros ->. }
  eapply (wp_addOrdersAtPrice _ _ _ _ _ _ _ _ (s_side o) n lp (sel (s_side o) G) gs1 gs2);
    [exact Hv3|done|by apply lookup_insert_eq|done|done|exact Hsp| | | | |exact Hbest|lia|].
  { apply Forall_forall. intros g Hgin Hgp. change (l_price_ n) with (s_price o) in Hgp.
    assert (pm !! priceToIndex g.2.1 = Some g.1) as Hx; [|by rewrite Hgp, Hpm in Hx].
    apply Hpmw. exists g.2. split; [|done]. destruct g. set_solver. }
  { by apply (levels_at_frame om lm). }
  { by constructor. }
  { eapply circ_ext; [|exact Hcl]. intros j Hj. unfold lnxt, lprv. by rewrite Hlmf. }
  intros b4 lm4 Hv4 (Hd4 & Hout4 & Hc4).
  eapply wp_set_cid_oid; [exact Hv4|exact Hc1|exact Hc2|]. intros b5 Hv5.
  apply (HQ b5 lp). do 5 eexists. split; [exact Hv5|].
  replace (gs1.*1 ++ lp :: gs2.*1)
    with ((gs1 ++ (lp, (s_price o, [] ++ [(i, o)])) :: gs2).*1) by (by rewrite fmap_app).
  apply (rep_added om lm bst pm cm G (s_side o) gs1 lp (s_price o) [] i o gs2); try done.
  - by rewrite lookup_insert_eq.
  - intros j Hj. by rewrite lookup_insert_ne.
  - intros j Hj. rewrite lookup_insert_ne; [done|]. set_solver.
  - apply circ_singleton; by lookups.
  - intros j Hj. rewrite Hd4. by rewrite lookup_insert_ne.
  - intros j Hj. rewrite Hout4; [|rewrite HG, fmap_app in Hj; set_solver].
    rewrite lookup_insert_ne; [done|]. set_solver.
  - by rewrite Hd4, lookup_insert_eq.
Qed.

Lemma last_app_cons {N} (l : list N) (h t : N) : last (h :: l) = Some t → t ∈ h :: l.
Proof. apply last_Some_elem_of. Qed.

(** Linking order [i] between the last and the first order of its level. *)
Lemma wp_link_order b om lm bst pm cm nid e i x h l Q :
  view b (<[i := x]> om) lm bst pm cm nid →
  NoDup (h :: l) → i ∉ h :: l → circ (onxt om) (oprv om) (h :: l) →
  (∀ j, j ∈ h :: l → is_Some (om !! j)) →
  (∀ b' om', view b' om' lm bst pm cm nid →
     order_of <$> om' !! i = Some (order_of x) →
     (∀ j, j ≠ i → order_of <$> om' !! j = order_of <$> om !! j) →
     (∀ j, j ∉ i :: h :: l → om' !! j = om !! j) →
     circ (onxt om') (oprv om') ((h :: l) ++ [i]) → Q tt (b', e)) →
  wp (f ← rd_order (E := E) (Some h); wr_order (prev_order_ f) (set_next_order (Some i));;
      f ← rd_order (Some h); wr_order (Some i) (set_prev_order (prev_order_ f));;
      wr_order (Some i) (set_next_order (Some h));;
      wr_order (Some h) (set_prev_order (Some i))) (b, e) Q.
Proof.
  intros Hv Hnd Hi Hc Hdom HQ.
  destruct (last (h :: l)) as [t|] eqn:Ht; [|by apply last_None in Ht].
  pose proof (last_app_cons _ _ _ Ht) as Htin.
  pose proof (circ_prev _ _ [] h l Hc) as Hpv. rewrite app_nil_r, Ht in Hpv.
  destruct (Hdom h) as [xh Hxh]; [set_solver|]. destruct (Hdom t) as [xt Hxt]; [done|].
  assert (h ≠ i ∧ t ≠ i) as [Hhi Hti] by (split; intros ->; set_solver).
  unfold oprv in Hpv. rewrite Hxh in Hpv. cbn in Hpv.
  apply wp_bind. eapply wp_rd_order; [exact Hv|by rewrite lookup_insert_ne|]. rewrite Hpv.
  apply wp_bind. eapply wp_wr_order; [exact Hv|by rewrite lookup_insert_ne|]. intros b1 Hv1.
  assert (∃ y, <[t := set_next_order (Some i) xt]> om !! h = Some y ∧
               order_of y = order_of xh ∧ prev_order_ y = Some t) as (y & Hy & Hyd & Hyp).
  { rewrite lookup_insert. case_decide; simplify_eq; eauto. }
  assert (<[t := set_next_order (Some i) xt]> (<[i := x]> om) !! h = Some y) as Hy'.
  { rewrite lookup_insert. rewrite lookup_insert in Hy. case_decide; [done|]. by lookups. }
  apply wp_bind. eapply wp_rd_order; [exact Hv1|exact Hy'|]. rewrite Hyp.
  apply wp_bind. eapply wp_wr_order; [exact Hv1|by lookups|]. intros b2 Hv2.
  apply wp_bind. eapply wp_wr_order; [exact Hv2|by lookups|]. intros b3 Hv3.
  eapply (wp_wr_order _ _ _ _ _ _ _ _ _ y); [exact Hv3|by rewrite !(lookup_insert_ne _ i)|].
  intros b4 Hv4. apply (HQ b4 _ Hv4).
  - by lookups.
  - intros j Hj. lookups.
  - intros j Hj. lookups; set_solver.
  - eapply (circ_insert (onxt om) (oprv om) _ _ (h :: l) i [] h t);
      rewrite ?app_nil_r; try done.
    + by lookups.
    + by lookups.
    + by lookups.
    + by lookups.
    + intros j Hj Hjt. lookups; set_solver.
    + intros j Hj Hjt. lookups; set_solver.
Qed.

Lemma wp_addOrder_existing b om lm bst pm cm nid e G i x gs1 lp gos gs2 Q :
  let o := order_of x in
  view b (<[i := x]> om) lm bst pm cm nid → rep om lm bst pm cm G → om !! i = None →
  fits cm o → sel (s_side o) G = gs1 ++ (lp, (s_price o, gos)) :: gs2 →
  (∀ b', book_rep b' (upd (s_side o) (gs1 ++ (lp, (s_price o, gos ++ [(i, o)])) :: gs2) G) nid →
     Q tt (b', e)) →
  wp (addOrder (E := E) (Some i)) (b, e) Q.
Proof.
  intros o Hv Hr Hi (Hs & Hq & Hkey & Hc1 & Hc2) HG HQ.
  pose proof (rep_side _ _ _ _ _ _ _ Hs Hr) as (Hbest & Hcl & Hf & Hsort).
  rewrite HG in Hf. apply Forall_app in Hf as [_ [(Hne & Hd & _) _]%Forall_cons].
  cbn [fst snd] in Hne, Hd. destruct gos as [|[h oh] gos]; [done|].
  destruct (rep_order _ _ _ _ _ _ _ _ _ _ [] h oh gos _ Hs Hr HG)
    as (_ & (l & Hl & Hld) & Hpm & _ & _ & Hndo & _ & _ & Hdo & Hco).
  cbn [app fmap list_fmap fst snd] in Hndo, Hdo, Hco, Hld.
  unfold addOrder. apply wp_bind. eapply wp_rd_order; [exact Hv|by apply lookup_insert_eq|].
  apply wp_bind. eapply wp_getOrdersAtPrice; [exact Hv|].
  change (o_price_ x) with (s_price o). rewrite Hpm.
  apply wp_bind, wp_bind. eapply wp_rd_level; [exact Hv|exact Hl|].
  assert (first_me_order_ l = Some h) as -> by (unfold level_data in Hld; by simplify_eq).
  eapply wp_link_order; [exact Hv|exact Hndo| |exact Hco|exact Hdo|].
  { intros Hin. destruct (Hdo i Hin) as [??]. congruence. }
  intros b1 om1 Hv1 Hio Hod Hout Hc1'.
  eapply wp_set_cid_oid; [exact Hv1|exact Hc1|exact Hc2|]. intros b2 Hv2.
  apply (HQ b2). do 5 eexists. split; [exact Hv2|].
  replace pm with (<[priceToIndex (s_price o) := lp]> pm) by (by apply insert_id).
  replace bst with (upd (s_side o) (head (gs1 ++ (lp, (s_price o, (h, oh) :: gos ++ [(i, o)])) :: gs2).*1) bst);
    cycle 1.
  { rewrite <- (upd_sel (s_side o) bst) at 2. f_equal. rewrite Hbest, HG, !fmap_app. done. }
  apply (rep_added om lm bst pm cm G (s_side o) gs1 lp (s_price o) ((h, oh) :: gos) i o gs2); try done.
  - rewrite HG in Hsort. by eapply (sorted_levels_same_price _ _ _ _ _ (((h, oh) :: gos) ++ [(i, o)])).
  - rewrite HG, fmap_app in Hcl. done.
Qed.
End add_order.
