(* ===== verification/BookMatch.v ===== *)
(** * checkForMatch refines the sweep *)
From S2P Require Import Prelude Types MemPool CircList EngineSink BookSpec MEOrderBook.
From S2P Require Import BookRep BookPtr BookLevels BookFrame BookRemove.
Implicit Types (om : gmap nat MEOrder) (lm : gmap nat MEOrdersAtPrice) (g : GLevel)
  (gs al : list GLevel) (gos : list (nat * Order)) (bst : ptr * ptr)
  (pm : gmap Z nat) (cm : gmap (Z * Z) nat) (G : list GLevel * list GLevel)
  (b : MEOrderBook) (nid : Z) (a : Aggressor) (leaves : Z) (o : Order).

(** ** The sweep, one execution at a time *)
Lemma sweep_zero a ls : sweep a 0 ls = ([], 0, ls).
Proof. by destruct ls as [|[p os] ls]. Qed.

Definition after_execution (r : Z) (o : Order) (os : list Order) : list Order :=
  if r =? 0 then os else with_qty r o :: os.

Lemma execution_partial a leaves o :
  let '(_, leaves', r) := execution a leaves o in r = 0 ∨ leaves' = 0.
Proof. cbn. lia. Qed.

Lemma sweep_step a leaves p o os rest :
  leaves ≠ 0 → beyond (a_side a) (a_price a) p = false →
  sweep a leaves ((p, o :: os) :: rest) =
    let '(evs, leaves', r) := execution a leaves o in
    let '(evs', leaves'', ls') := sweep a leaves' (cons_level p (after_execution r o os) rest) in
    (evs ++ evs', leaves'', ls').
Proof.
  intros Hne Hb. pose proof (execution_partial a leaves o) as Hp.
  cbn [sweep fill_level]. apply Z.eqb_neq in Hne. rewrite Hne, Hb. cbn [orb].
  destruct (execution a leaves o) as [[evs leaves'] r]. unfold after_execution.
  destruct (r =? 0) eqn:Hr; [|]; cycle 1.
  { apply Z.eqb_neq in Hr. destruct Hp as [->| ->]; [done|].
    cbn [cons_level]. by rewrite sweep_zero, app_nil_r. }
  destruct os as [|o' os]; cbn [cons_level].
  { cbn [fill_level]. rewrite app_nil_r. by destruct (sweep a leaves' rest) as [[??]?]. }
  destruct (leaves' =? 0) eqn:Hl.
  { apply Z.eqb_eq in Hl as ->. rewrite sweep_zero. cbn. by rewrite app_nil_r. }
  cbn [sweep]. rewrite Hl, Hb. cbn [orb].
  destruct (fill_level a leaves' (o' :: os)) as [[evs1 leaves1] os1].
  destruct os1; [|done].
  destruct (sweep a leaves1 rest) as [[??]?]. by rewrite app_assoc.
Qed.

Section match_loop.
Context `{Limits} {E : Type} `{EngineSink E}.
Implicit Types (e : E).

Lemma wp_match_order b nid e G s i o lp p os gs client coid ticker moid price leaves
    (Q : Z → MEOrderBook * E → Prop) :
  let a := mkAggressor client coid ticker s price moid in
  let x := execution a leaves o in
  book_rep b G nid → trading_side s → is_u32 leaves →
  sel (opp s) G = (lp, (p, (i, o) :: os)) :: gs →
  (∀ b', book_rep b' (upd (opp s)
           (glevel lp p (if x.2 =? 0 then os else (i, with_qty x.2 o) :: os) ++ gs) G) nid →
     Q x.1.2 (b', emit x.1.1 e)) →
  wp (match_order (E := E) ticker client s coid moid (Some i) leaves) (b, e) Q.
Proof.
  intros a x (om & lm & bst & pm & cm & Hv & Hr) Hs Hlv HG HQ.
  pose proof (opp_trading s Hs) as Hos.
  destruct (rep_order _ _ _ _ _ _ _ [] _ _ [] i o os gs Hos Hr HG) as ((y & Hy & <- & _) & _).
  pose proof (rep_side _ _ _ _ _ _ _ Hos Hr) as (_ & _ & Hf & _).
  assert (is_u32 (o_qty_ y)) as Hqy.
  { rewrite HG in Hf. apply Forall_cons in Hf as [(_ & _ & Hfo & _) _].
    apply Forall_cons in Hfo as [(_ & _ & _ & ?) _]. done. }
  unfold is_u32 in *.
  unfold match_order. apply wp_bind. eapply wp_rd_order; [exact Hv|exact Hy|].
  rewrite !u32_small by (unfold is_u32; lia).
  apply wp_bind. eapply wp_wr_order; [exact Hv|exact Hy|]. intros b1 Hv1.
  apply wp_bind. eapply wp_rd_order; [exact Hv1|by apply lookup_insert_eq|].
  apply wp_bind, wp_send_response, wp_bind, wp_send_response, wp_bind, wp_send_update.
  cbn [o_qty_ set_qty o_price_ o_client_id_ o_client_order_id_ o_market_order_id_ o_side_ o_priority_].
  apply (rep_set_qty om lm bst pm cm G (opp s) [] lp p [] i y
           (o_qty_ y - Z.min leaves (o_qty_ y)) os gs) in Hr; [|done|unfold is_u32; lia|done|done].
  cbn [app] in Hr. apply wp_bind.
  subst x a. cbn [execution fst snd a_client a_coid a_ticker a_side a_moid emit] in *.
  destruct (o_qty_ y - Z.min leaves (o_qty_ y) =? 0) eqn:Hz.
  - apply wp_bind, wp_send_update.
    eapply (wp_removeOrder _ _ _ _ _ _ _ _ _ (opp s) [] lp p [] i); [exact Hv1|exact Hr|done|by rewrite sel_upd|].
    intros b2 Hb2. apply wp_ret. rewrite upd_upd in Hb2. cbn in HQ. rewrite Hz in HQ. by apply HQ.
  - apply wp_send_update, wp_ret. cbn in HQ. rewrite Hz in HQ. apply HQ.
    do 5 eexists. by split.
Qed.

Lemma abs_levels_glevel lp p gos gs :
  abs_levels (glevel lp p gos ++ gs) = cons_level p gos.*2 (abs_levels gs).
Proof. by destruct gos. Qed.

Lemma wp_passive_best b nid e G s (Q : ptr → MEOrderBook * E → Prop) :
  trading_side s → book_rep b G nid → Q (head (sel (opp s) G).*1) (b, e) →
  wp (book_gets (E := E) (if decide (s = Side_BUY) then asks_by_price_ else bids_by_price_))
    (b, e) Q.
Proof.
  intros Hs (om & lm & bst & pm & cm & Hv & Hr) HQ. apply wp_gets. unfold view in Hv.
  destruct_and! Hv. destruct Hr as ((Hb1 & _) & (Hb2 & _) & _). subst bst.
  destruct Hs as [->| ->]; unfold sel in HQ; cbn in Hb1, Hb2;
    repeat case_decide; try done; cbn; congruence.
Qed.

Lemma beyond_limit_beyond s price p : beyond_limit s price p = beyond s price p.
Proof. done. Qed.

Lemma wp_match_loop fuel b nid e G s client coid ticker moid price leaves
    (Q : Z → MEOrderBook * E → Prop) :
  let x := sweep (mkAggressor client coid ticker s price moid) leaves (abs_levels (sel (opp s) G)) in
  book_rep b G nid → trading_side s → is_u32 leaves →
  leaves = 0 ∨ (length (gorders (sel (opp s) G)) ≤ fuel)%nat →
  (∀ b' gs', book_rep b' (upd (opp s) gs' G) nid → abs_levels gs' = x.2 →
     Q x.1.2 (b', emit x.1.1 e)) →
  wp (match_loop (E := E) fuel client coid ticker s price leaves moid) (b, e) Q.
Proof.
  revert b e G leaves Q. induction fuel as [|fuel IH]; intros b e G leaves Q x Hr Hs Hlv Hfuel HQ.
  all: assert (x.1.2 = leaves → x.2 = abs_levels (sel (opp s) G) → x.1.1 = [] → Q leaves (b, e))
    as Hstop by
    (intros H1 H2 H3; rewrite <- H1 at 1; change e with (emit [] e); rewrite <- H3;
     apply (HQ b (sel (opp s) G)); [by rewrite upd_sel|done]).
  all: cbn [match_loop]; apply wp_bind; eapply wp_passive_best; [done|exact Hr|].
  all: destruct (decide (leaves = 0)) as [->|Hne];
    [apply wp_ret, Hstop; subst x; by rewrite sweep_zero|];
    rewrite (proj2 (Z.eqb_neq _ _) Hne); cbn [negb andb].
  all: destruct (sel (opp s) G) as [|[lp [p gos]] gs] eqn:HG; cbn [fmap list_fmap head fst];
    [by apply wp_ret, Hstop|rewrite bool_decide_true by done].
  all: pose proof Hr as (om & lm & bst & pm & cm & Hv & Hrep).
  all: pose proof (opp_trading s Hs) as Hos.
  all: pose proof (rep_side _ _ _ _ _ _ _ Hos Hrep) as (_ & _ & Hf & _); rewrite HG in Hf;
    apply Forall_cons in Hf as [(Hgos & _) _]; cbn in Hgos;
    destruct gos as [|[i o] os]; [done|]; destruct Hfuel as [?|Hfuel]; [done|];
    rewrite gorders_cons, length_app in Hfuel; cbn in Hfuel; try lia.
  destruct (rep_order _ _ _ _ _ _ _ [] _ _ [] i o os gs Hos Hrep HG)
    as ((y & Hy & Hyo & _ & Hyp) & (l & Hl & Hld) & _).
  apply wp_bind. eapply wp_rd_level; [exact Hv|exact Hl|].
  unfold level_data in Hld. injection Hld as _ _ ->. cbn [app fmap list_fmap head fst].
  apply wp_bind. eapply wp_rd_order; [exact Hv|exact Hy|]. rewrite Hyp.
  change (beyond_limit s price p) with (beyond s price p).
  set (a := mkAggressor client coid ticker s price moid) in *.
  destruct (beyond s price p) eqn:Hb.
  { apply wp_ret, Hstop; subst x; cbn [abs_levels fmap list_fmap abs_level sweep fst snd a_side a_price a];
      by rewrite Hb, orb_true_r. }
  apply wp_bind. eapply wp_match_order with (price := price); [exact Hr|done|done|exact HG|]. intros b1 Hr1.
  fold a in Hr1 |- *.
  set (ex := execution a leaves o) in *.
  assert (x = (ex.1.1 ++ (sweep a ex.1.2 (cons_level p (after_execution ex.2 o os.*2) (abs_levels gs))).1.1,
               (sweep a ex.1.2 (cons_level p (after_execution ex.2 o os.*2) (abs_levels gs))).1.2,
               (sweep a ex.1.2 (cons_level p (after_execution ex.2 o os.*2) (abs_levels gs))).2)) as Hx.
  { subst x.
    change (abs_levels ((lp, (p, (i, o) :: os)) :: gs)) with ((p, o :: os.*2) :: abs_levels gs).
    rewrite sweep_step by done. fold ex. destruct ex as [[evs lv] r]. cbn [fst snd].
    by destruct (sweep a lv _) as [[??]?]. }
  set (gos' := if ex.2 =? 0 then os else (i, with_qty ex.2 o) :: os) in *.
  assert (gos'.*2 = after_execution ex.2 o os.*2) as Hgos'.
  { subst gos'. unfold after_execution. by destruct (ex.2 =? 0). }
  rewrite <- Hgos', <- abs_levels_glevel with (lp := lp) in Hx.
  assert (is_u32 ex.1.2) as Hlv'.
  { subst ex. unfold is_u32 in *. cbn.
    pose proof (rep_side _ _ _ _ _ _ _ Hos Hrep) as (_ & _ & Hf & _); rewrite HG in Hf.
    apply Forall_cons in Hf as [(_ & _ & Hfo & _) _].
    apply Forall_cons in Hfo as [(_ & _ & _ & Hqo) _]. unfold is_u32 in Hqo. cbn in Hqo. lia. }
  rewrite Hx in HQ. cbn [fst snd] in HQ.
  assert (sel (opp s) (upd (opp s) (glevel lp p gos' ++ gs) G) = glevel lp p gos' ++ gs) as HG'
    by apply sel_upd.
  eapply IH; [exact Hr1|done|done| |].
  - rewrite HG', gorders_app, gorders_glevel, length_app.
    pose proof (execution_partial a leaves o) as Hpart. fold ex in Hpart.
    destruct ex as [[evs lv] r]. cbn [fst snd] in *. subst gos'.
    destruct Hpart as [->|Hlz]; [right; cbn; lia|by left].
  - intros b2 gs' Hr2 Hgs'. rewrite <- emit_app. rewrite upd_upd in Hr2. fold a in Hgs' |- *.
    rewrite HG' in Hgs' |- *. by apply (HQ b2 gs').
Qed.
End match_loop.
