(* ===== verification/BookRefine.v ===== *)
(** * The order book implements its specification

    The methods of the book, run on a state that represents an abstract book, do not fault,
    send the messages of the specification, and end in a state that represents the book that
    the specification gives. *)
From S2P Require Import Prelude Types MemPool CircList EngineSink BookSpec BookSweep MEOrderBook.
From S2P Require Import BookRep BookPtr BookLevels BookFrame BookRemove.
From S2P Require Import BookAdd BookMatch.
Implicit Types (om : gmap nat MEOrder) (lm : gmap nat MEOrdersAtPrice) (g : GLevel)
  (gs al : list GLevel) (gos : list (nat * Order)) (bst : ptr * ptr)
  (pm : gmap Z nat) (cm : gmap (Z * Z) nat) (G : list GLevel * list GLevel)
  (b : MEOrderBook) (nid : Z) (bk : Book) (o : Order) (s : Side).

Lemma abs_levels_app gs1 gs2 : abs_levels (gs1 ++ gs2) = abs_levels gs1 ++ abs_levels gs2.
Proof. apply fmap_app. Qed.

Lemma abs_levels_prices gs : (abs_levels gs).*1 = (λ g, g.2.1) <$> gs.
Proof. unfold abs_levels. rewrite <- list_fmap_compose. done. Qed.

Lemma abs_levels_flat gs : flat (abs_levels gs) = (gorders gs).*2.
Proof.
  unfold flat, gorders, abs_levels. induction gs as [|g gs IH]; [done|]. cbn.
  rewrite fmap_app. unfold mbind, list_bind, fmap, list_fmap in *. by rewrite IH.
Qed.

(** ** Where a price goes among sorted levels *)
Lemma sorted_levels_split s p gs :
  sorted_levels s gs → (∀ g, g ∈ gs → g.2.1 ≠ p) →
  ∃ gs1 gs2, gs = gs1 ++ gs2 ∧ splits s p gs1 gs2 ∧
    (∀ lp gos, sorted_levels s (gs1 ++ (lp, (p, gos)) :: gs2)) ∧
    (∀ o, s_side o = s → s_price o = p →
       insert_order o (abs_levels gs) = abs_levels gs1 ++ (p, [o]) :: abs_levels gs2).
Proof.
  unfold sorted_levels. induction gs as [|[q [pq gosq]] gs IH]; intros Hs Hne.
  { exists [], []. split_and!; [done|by split|by repeat constructor|].
    by intros o <- <-. }
  apply StronglySorted_inv in Hs as [Hs Hf].
  assert (pq ≠ p) as Hpq by (apply (Hne (q, (pq, gosq))); set_solver).
  destruct (before s pq p) eqn:Hb.
  - destruct IH as (gs1 & gs2 & -> & [Hsp1 Hsp2] & Hso & Hins); [done|set_solver|].
    exists ((q, (pq, gosq)) :: gs1), gs2. split_and!; [done|by split; [constructor|]| |].
    + intros lp gos. cbn. constructor; [apply Hso|].
      rewrite Forall_app in Hf |- *. rewrite Forall_cons. by destruct Hf.
    + intros o Hos Hop. cbn [abs_levels fmap list_fmap abs_level fst snd insert_order].
      rewrite Hop, Hos, (proj2 (Z.eqb_neq _ _) Hpq), Hb. cbn [app]. f_equal. by apply Hins.
  - exists [], ((q, (pq, gosq)) :: gs). split_and!; [done|by split| |].
    + intros lp gos. cbn. pose proof (before_total s pq p Hpq Hb) as Hb'.
      constructor; [by constructor|]. constructor; [done|].
      eapply Forall_impl; [exact Hf|]. intros g Hg. cbn in Hg |- *. by eapply before_trans.
    + intros o Hos Hop. cbn [abs_levels fmap list_fmap abs_level fst snd insert_order].
      rewrite Hop, Hos, (proj2 (Z.eqb_neq _ _) Hpq), Hb. done.
Qed.

Lemma sorted_levels_price_first s gs1 lp p gos gs2 :
  sorted_levels s (gs1 ++ (lp, (p, gos)) :: gs2) →
  Forall (λ g, before s g.2.1 p = true) gs1.
Proof.
  intros (_ & _ & Hb)%sorted_levels_app. apply Forall_forall. intros g Hg.
  apply (Hb g (lp, (p, gos))); set_solver.
Qed.

Lemma before_neq s p q : before s p q = true → p ≠ q.
Proof. intros Hb ->. by rewrite before_irrefl in Hb. Qed.

Lemma insert_order_existing s gs1 lp p gos gs2 i o :
  sorted_levels s (gs1 ++ (lp, (p, gos)) :: gs2) → s_side o = s → s_price o = p →
  insert_order o (abs_levels (gs1 ++ (lp, (p, gos)) :: gs2)) =
    abs_levels (gs1 ++ (lp, (p, gos ++ [(i, o)])) :: gs2).
Proof.
  intros Hb%sorted_levels_price_first Hs Hp.
  induction gs1 as [|[q [pq gosq]] gs1 IH]; cbn.
  - rewrite Hp, Z.eqb_refl. unfold abs_level. cbn. by rewrite fmap_app.
  - apply Forall_cons in Hb as [Hq Hb]. cbn in Hq.
    rewrite Hp, (proj2 (Z.eqb_neq _ _) (before_neq _ _ _ Hq)), Hs, Hq. f_equal. by apply IH.
Qed.

Lemma orders_at_existing s gs1 lp p gos gs2 :
  sorted_levels s (gs1 ++ (lp, (p, gos)) :: gs2) →
  orders_at p (abs_levels (gs1 ++ (lp, (p, gos)) :: gs2)) = gos.*2.
Proof.
  intros Hb%sorted_levels_price_first. induction gs1 as [|[q [pq gosq]] gs1 IH]; cbn.
  - by rewrite Z.eqb_refl.
  - apply Forall_cons in Hb as [Hq Hb]. cbn in Hq.
    rewrite (proj2 (Z.eqb_neq _ _) (before_neq _ _ _ Hq)). by apply IH.
Qed.

Lemma orders_at_none p gs : (∀ g, g ∈ gs → g.2.1 ≠ p) → orders_at p (abs_levels gs) = [].
Proof.
  induction gs as [|[q [pq gosq]] gs IH]; intros Hne; [done|]. cbn.
  rewrite (proj2 (Z.eqb_neq pq p)); [apply IH; set_solver|].
  apply (Hne (q, (pq, gosq))). set_solver.
Qed.

(** ** Preconditions on abstract books *)
Section conditions.
Context `{Limits}.

(** No other live price shares the slot of [price] in the array of levels. *)
Definition slot_free (price : Z) bk : Prop :=
  ∀ q, q ∈ prices bk → priceToIndex q = priceToIndex price → q = price.

Definition room bk : Prop :=
  (S (length (book_orders bk)) < Z.to_nat ME_MAX_ORDER_IDS)%nat ∧
  (S (length (prices bk)) < Z.to_nat ME_MAX_PRICE_LEVELS)%nat.

Definition can_rest (client coid price : Z) bk : Prop :=
  fresh client coid bk ∧ slot_free price bk ∧ room bk ∧
  client < ME_MAX_NUM_CLIENTS ∧ coid < ME_MAX_ORDER_IDS.
End conditions.

Section refine.
Context `{Limits} {E : Type} `{EngineSink E}.
Implicit Types (e : E).

Lemma wp_getNextPriority b nid e G s price (Q : Z → MEOrderBook * E → Prop) :
  book_rep b G nid → trading_side s →
  (∀ g, g ∈ sel s G ++ sel (opp s) G → priceToIndex g.2.1 = priceToIndex price →
     g ∈ sel s G ∧ g.2.1 = price) →
  Q (next_priority price (abs_levels (sel s G))) (b, e) →
  wp (getNextPriority (E := E) price) (b, e) Q.
Proof.
  intros (om & lm & bst & pm & cm & Hv & Hr) Hs Hslot HQ.
  pose proof (rep_global _ _ _ _ _ _ s Hs Hr) as (_ & _ & _ & _ & Hpm & _).
  pose proof (rep_side _ _ _ _ _ _ s Hs Hr) as (_ & _ & Hf & Hsort).
  unfold getNextPriority. apply wp_bind. eapply wp_getOrdersAtPrice; [exact Hv|].
  destruct (pm !! priceToIndex price) as [lp|] eqn:Hlp; cycle 1.
  { apply wp_ret. unfold next_priority in HQ. rewrite orders_at_none in HQ; [done|].
    intros g Hg Hgp. assert (pm !! priceToIndex price = Some g.1) as Hx; [|by rewrite Hlp in Hx].
    apply Hpm. exists g.2. split; [destruct g; set_solver|by rewrite Hgp]. }
  apply Hpm in Hlp as ([p gos] & Hin & Hidx). cbn in Hidx.
  destruct (Hslot (lp, (p, gos)) Hin) as [Hin' Hp]; [done|]. cbn in Hp. subst p.
  apply list_elem_of_split in Hin' as (gs1 & gs2 & HG).
  unfold next_priority in HQ. rewrite HG, (orders_at_existing s) in HQ by (by rewrite <- HG).
  rewrite HG in Hf. apply Forall_app in Hf as [_ [(Hne & _) _]%Forall_cons]. cbn in Hne.
  destruct gos as [|[h oh] gos]; [done|].
  destruct (rep_order _ _ _ _ _ _ _ _ _ _ [] h oh gos _ Hs Hr HG)
    as ((xh & Hxh & _) & (l & Hl & Hld) & _ & _ & _ & _ & _ & _ & _ & Hco).
  pose proof (circ_prev _ _ [] h gos.*1 Hco) as Hpv. rewrite app_nil_r in Hpv.
  change (h :: gos.*1) with ((h, oh) :: gos).*1 in Hpv. rewrite fmap_last in Hpv.
  rewrite fmap_last in HQ.
  destruct (last ((h, oh) :: gos)) as [[t ot]|] eqn:Ht; [|by apply last_None in Ht].
  assert ((t, ot) ∈ (h, oh) :: gos) as (os1 & os2 & Hsplit)%list_elem_of_split
    by (apply last_Some_elem_of; by rewrite Ht).
  rewrite Hsplit in HG.
  destruct (rep_order _ _ _ _ _ _ _ _ _ _ os1 t ot os2 _ Hs Hr HG) as ((xt & Hxt & Hxo & _) & _).
  apply wp_bind. eapply wp_rd_level; [exact Hv|exact Hl|].
  unfold level_data in Hld. injection Hld as _ _ ->. cbn [app fmap list_fmap head fst].
  apply wp_bind. eapply wp_rd_order; [exact Hv|exact Hxh|].
  unfold oprv in Hpv. rewrite Hxh in Hpv. cbn in Hpv. rewrite Hpv.
  apply wp_bind. eapply wp_rd_order; [exact Hv|exact Hxt|]. apply wp_ret.
  cbn in HQ. by rewrite <- Hxo in HQ.
Qed.

(** Allocating and resting the order. *)
Lemma wp_rest_order b nid e G x (Q : MEOrderBook * E → Prop) :
  let o := order_of x in let s := s_side o in
  book_rep b G nid → trading_side s → is_u32 (s_qty o) →
  (∀ g, g ∈ sel s G ++ sel (opp s) G → priceToIndex g.2.1 = priceToIndex (s_price o) →
     g ∈ sel s G ∧ g.2.1 = s_price o) →
  (∀ i o', (i, o') ∈ gorders (sel s G ++ sel (opp s) G) → ¬ has_key (s_client o) (s_coid o) o') →
  s_client o < ME_MAX_NUM_CLIENTS → s_coid o < ME_MAX_ORDER_IDS →
  (S (length (gorders (sel s G ++ sel (opp s) G))) < Z.to_nat ME_MAX_ORDER_IDS)%nat →
  (S (length (sel s G ++ sel (opp s) G)) < Z.to_nat ME_MAX_PRICE_LEVELS)%nat →
  (∀ b' gs', book_rep b' (upd s gs' G) nid →
     abs_levels gs' = insert_order o (abs_levels (sel s G)) → Q (b', e)) →
  wp (order ← alloc_order (E := E) x; addOrder order) (b, e) (λ _, Q).
Proof.
  intros o s (om & lm & bst & pm & cm & Hv & Hr) Hs Hq Hslot Hkey Hc1 Hc2 Hro Hrl HQ.
  pose proof (rep_global _ _ _ _ _ _ s Hs Hr) as Hg.
  pose proof Hg as (_ & _ & _ & _ & Hpm & Hcm & _).
  destruct (rep_sizes _ _ _ _ _ Hg) as [Hszl Hszo].
  pose proof (rep_side _ _ _ _ _ _ s Hs Hr) as (_ & _ & _ & Hsort).
  assert (fits cm o) as Hfits.
  { split_and!; [done..| |done|done]. apply eq_None_ne_Some. intros i Hi.
    apply Hcm in Hi as (o' & Hin & [= Hk1 Hk2]). by eapply Hkey. }
  apply wp_bind. eapply wp_alloc_order; [exact Hv|lia|]. intros b1 i Hi Hv1.
  destruct (pm !! priceToIndex (s_price o)) as [lp|] eqn:Hlp.
  - apply Hpm in Hlp as ([p gos] & Hin & Hidx). cbn in Hidx.
    destruct (Hslot (lp, (p, gos)) Hin) as [Hin' Hp]; [done|]. cbn in Hp. subst p.
    apply list_elem_of_split in Hin' as (gs1 & gs2 & HG).
    eapply wp_addOrder_existing; [exact Hv1|exact Hr|done|done|exact HG|].
    intros b2 Hb2. eapply HQ; [exact Hb2|]. rewrite HG. symmetry.
    rewrite HG in Hsort. by apply (insert_order_existing s).
  - destruct (sorted_levels_split s (s_price o) (sel s G) Hsort)
      as (gs1 & gs2 & HG & Hsp & Hso & Hins).
    { intros g Hgin Hgp. assert (pm !! priceToIndex (s_price o) = Some g.1) as Hx; [|congruence].
      apply Hpm. exists g.2. split; [destruct g; set_solver|by rewrite Hgp]. }
    eapply (wp_addOrder_new _ _ _ _ _ _ _ _ G i x gs1 gs2); try done; [lia|].
    intros b2 lp Hb2. eapply HQ; [exact Hb2|].
    rewrite Hins by done. by rewrite abs_levels_app.
Qed.
End refine.
