(* ===== verification/BookTheorems.v ===== *)
(** * add and cancel refine their specifications *)
From S2P Require Import Prelude Types MemPool CircList EngineSink BookSpec BookSweep MEOrderBook.
From S2P Require Import BookRep BookPtr BookLevels BookFrame BookRemove.
From S2P Require Import BookAdd BookMatch BookRefine.
Implicit Types (om : gmap nat MEOrder) (lm : gmap nat MEOrdersAtPrice) (g : GLevel)
  (gs al : list GLevel) (gos : list (nat * Order)) (bst : ptr * ptr)
  (pm : gmap Z nat) (cm : gmap (Z * Z) nat) (G : list GLevel * list GLevel)
  (b : MEOrderBook) (nid : Z) (bk : Book) (o : Order) (s : Side).

Lemma sorted_prices s gs :
  sorted_levels s gs → StronglySorted (λ p q, before s p q = true) (abs_levels gs).*1.
Proof.
  unfold sorted_levels. induction gs as [|g gs IH]; [constructor|].
  intros [Hs Hf]%StronglySorted_inv. cbn. constructor; [by apply IH|].
  rewrite abs_levels_prices, Forall_fmap. exact Hf.
Qed.

Lemma flat_gorders o gs : o ∈ flat (abs_levels gs) ↔ ∃ i, (i, o) ∈ gorders gs.
Proof.
  rewrite abs_levels_flat, list_elem_of_fmap. split.
  - intros ([i o'] & -> & Hin). by exists i.
  - intros [i Hin]. by exists (i, o).
Qed.

Lemma sel_abs s G : sel s (abs_levels G.1, abs_levels G.2) = abs_levels (sel s G).
Proof. unfold sel. by case_decide. Qed.
Lemma upd_abs s gs G :
  upd s (abs_levels gs) (abs_levels G.1, abs_levels G.2)
  = (abs_levels (upd s gs G).1, abs_levels (upd s gs G).2).
Proof. unfold upd. by case_decide. Qed.

Section theorems.
Context `{Limits} {E : Type} `{EngineSink E}.
Implicit Types (e : E).

Lemma wp_bind_assoc {S A B C} (m : M S A) (k : A → M S B) (c : M S C) st Q :
  wp (x ← m; k x) st (λ _ st', wp c st' Q) → wp (x ← m; k x;; c) st Q.
Proof. unfold wp, mbind, M_bind. destruct (m st) as [[x st']|]; [|done]. by destruct (k x st') as [[??]|]. Qed.

Lemma rep_wf b nid G s :
  trading_side s → book_rep b G nid →
  wf_levels (abs_levels (sel s G)) ∧ sorted_levels s (sel s G) ∧
  (length (gorders (sel s G)) ≤ pool_size (order_pool_ b))%nat.
Proof.
  intros Hs (om & lm & bst & pm & cm & Hv & Hr).
  pose proof (rep_side _ _ _ _ _ _ s Hs Hr) as (_ & _ & Hf & Hsort). split_and!; [|done|].
  - unfold wf_levels, wf_orders, abs_levels. rewrite Forall_fmap.
    eapply Forall_impl; [exact Hf|]. intros g (_ & _ & Hfo & _). cbn. rewrite Forall_fmap.
    eapply Forall_impl; [exact Hfo|]. intros io (_ & _ & _ & Hq). unfold is_u32 in Hq. cbn. lia.
  - destruct Hv as (Hom & Hwf & Hsz & _).
    destruct (rep_sizes _ _ _ _ _ (rep_global _ _ _ _ _ _ s Hs Hr)) as [_ Ho].
    rewrite gorders_app, length_app in Ho. rewrite <- Hom in Ho.
    destruct Hwf as (blk & Hb & Hfree).
    pose proof (heap_size_free (order_pool_ b) _ (ex_intro _ blk (conj Hb Hfree))). lia.
Qed.

Lemma wp_checkForMatch b nid e G s client coid ticker moid price qty
    (Q : Z → MEOrderBook * E → Prop) :
  let x := sweep (mkAggressor client coid ticker s price (u32 moid)) qty
             (abs_levels (sel (opp s) G)) in
  book_rep b G nid → trading_side s → is_u32 qty →
  (∀ b' gs', book_rep b' (upd (opp s) gs' G) nid → abs_levels gs' = x.2 →
     Q x.1.2 (b', emit x.1.1 e)) →
  wp (checkForMatch (E := E) client coid ticker s price qty moid) (b, e) Q.
Proof.
  intros x Hr Hs Hq HQ. destruct (rep_wf _ _ _ (opp s) (opp_trading _ Hs) Hr) as (_ & _ & Hfuel).
  unfold checkForMatch. apply wp_bind, wp_gets. cbn [fst].
  destruct Hs as [->| ->]; (eapply wp_match_loop; [exact Hr| |done|by right|exact HQ]);
    [by left|by right].
Qed.

(** What is left of the aggressor after matching. *)
Definition add_leaves (client coid ticker : Z) (s : Side) (price qty : Z) (bk : Book) : Z :=
  (sweep (mkAggressor client coid ticker s price (u32 (next_id bk))) qty
     (sel (opp s) (levels bk))).1.2.

(** After the sweep the order can rest. *)
Lemma can_rest_after_sweep b nid G bk s client coid ticker price qty gs' :
  let x := sweep (mkAggressor client coid ticker s price (u32 (next_id bk))) qty
             (sel (opp s) (levels bk)) in
  levels bk = (abs_levels G.1, abs_levels G.2) → book_rep b G nid →
  trading_side s → 0 ≤ qty → x.1.2 ≠ 0 → can_rest client coid price bk →
  abs_levels gs' = x.2 →
  let G' := upd (opp s) gs' G in
  (∀ g, g ∈ sel s G' ++ sel (opp s) G' → priceToIndex g.2.1 = priceToIndex price →
     g ∈ sel s G' ∧ g.2.1 = price) ∧
  (∀ i o', (i, o') ∈ gorders (sel s G' ++ sel (opp s) G') → ¬ has_key client coid o') ∧
  (S (length (gorders (sel s G' ++ sel (opp s) G'))) < Z.to_nat ME_MAX_ORDER_IDS)%nat ∧
  (S (length (sel s G' ++ sel (opp s) G')) < Z.to_nat ME_MAX_PRICE_LEVELS)%nat.
Proof.
  intros x Hlv Hr Hs Hq Hx (Hfresh & Hslot & (Hro & Hrl) & _) Hgs' G'.
  pose proof (opp_trading s Hs) as Hos.
  destruct (rep_wf _ _ _ _ Hos Hr) as (Hwf & Hsort & _).
  subst x. unfold G'. rewrite sel_upd_opp, sel_upd by done.
  unfold slot_free in Hslot. setoid_rewrite (prices_side s bk Hs) in Hslot. rewrite (Permutation_length (prices_side s bk Hs)) in Hrl.
  unfold fresh in Hfresh. setoid_rewrite (book_orders_side s) in Hfresh; [|done].
  rewrite (book_orders_length s) in Hro by done.
  rewrite Hlv, !sel_abs in *.
  set (a := mkAggressor _ _ _ _ _ _) in *. set (x := sweep a qty (abs_levels (sel (opp s) G))) in *.
  destruct (sweep_remains a qty _ Hq Hwf) as (_ & Hrem & _). fold x in Hrem.
  pose proof (sweep_rest_beyond a qty _ Hs Hq Hwf (sorted_prices _ _ Hsort) Hx) as Hbey.
  fold x in Hbey. destruct (remains_length _ _ Hwf Hrem) as [Hlen1 Hlen2].
  destruct (remains_prices _ _ Hrem) as [pre Hpre]. rewrite <- Hgs' in *.
  split_and!.
  - intros g [Hg|Hg]%elem_of_app Hidx.
    + split; [done|]. apply Hslot; [|done]. apply elem_of_app. left.
      rewrite abs_levels_prices. apply list_elem_of_fmap. eauto.
    + assert (g.2.1 ∈ (abs_levels gs').*1) as Hgp by (rewrite abs_levels_prices; apply list_elem_of_fmap; eauto).
      assert (g.2.1 = price) as Hgeq 
        by (apply Hslot; [rewrite Hpre, !elem_of_app; by right; right|done]).
      rewrite Forall_forall in Hbey. specialize (Hbey _ Hgp). cbn in Hbey.
      by rewrite Hgeq, beyond_irrefl in Hbey.
  - intros i o'. rewrite gorders_app, elem_of_app. intros [Ho'|Ho'].
    + apply Hfresh. left. apply flat_gorders. eauto.
    + assert (o' ∈ flat (abs_levels gs')) as Hf by (apply flat_gorders; eauto).
      destruct (remains_orders _ _ _ Hwf Hrem Hf) as (o & q & Ho & _ & ->).
      apply (Hfresh o). by right.
  - rewrite gorders_app, length_app. rewrite !abs_levels_flat, !length_fmap in *. lia.
  - rewrite length_app in *. unfold abs_levels in *. rewrite !length_fmap in *. lia.
Qed.

Lemma wp_add b bk e client coid ticker s price qty :
  implements b bk → trading_side s → is_u32 qty →
  (add_leaves client coid ticker s price qty bk ≠ 0 → can_rest client coid price bk) →
  let x := spec_add client coid ticker s price qty bk in
  wp (add (E := E) client coid ticker s price qty) (b, e)
    (λ _ st, implements st.1 x.1 ∧ st.2 = emit x.2 e).
Proof.
  intros (G & Hr & Hlv) Hs Hq Hrest x.
  unfold add. apply wp_bind. pose proof Hr as (om & lm & bst & pm & cm & Hv & Hrep).
  eapply wp_new_id; [exact Hv|]. intros b1 Hv1.
  assert (book_rep b1 G (u64 (next_id bk + 1))) as Hr1 by (do 5 eexists; by split).
  apply wp_bind, wp_send_response, wp_bind.
  eapply wp_checkForMatch; [exact Hr1|done|done|]. intros b2 gs' Hr2 Hgs'.
  unfold add_leaves in Hrest. rewrite Hlv in Hrest.
  subst x. unfold spec_add. rewrite Hlv, !sel_abs in *.
  set (a := mkAggressor _ _ _ _ _ _) in *.
  pose proof (λ H1 H2, can_rest_after_sweep b _ G bk s client coid ticker price qty gs' Hlv Hr Hs
                (proj1 Hq) H1 H2) as Hcr.
  rewrite Hlv, sel_abs in Hcr. fold a in Hcr. 
  destruct (sweep a qty (abs_levels (sel (opp s) G))) as [[evs leaves] ls'] eqn:Hsw.
  cbn [fst snd] in *. subst ls'. rewrite upd_abs.
  destruct (leaves =? 0) eqn:Hz; cbn [negb].
  { apply wp_ret. split; [|done]. by eexists. }
  apply Z.eqb_neq in Hz. specialize (Hrest Hz). pose proof Hrest as (_ & _ & _ & Hc1 & Hc2).
  destruct (Hcr Hz Hrest eq_refl) as (Hslot & Hkey & Hro & Hrl). rewrite sel_abs.
  apply wp_bind. eapply (wp_getNextPriority _ _ _ _ s); [exact Hr2|done|exact Hslot|].
  apply wp_bind_assoc.
  eapply wp_rest_order; [exact Hr2|..].
  all: cbn [order_of s_qty s_side s_price s_client s_coid o_qty_ o_side_ o_price_ o_client_id_
             o_client_order_id_]; try done.
  { destruct (rep_wf _ _ _ _ (opp_trading _ Hs) Hr) as (Hwf & _ & _).
    pose proof (sweep_remains a qty _ (proj1 Hq) Hwf) as (Hle & _). rewrite Hsw in Hle.
    unfold is_u32 in *. cbn in Hle. lia. }
  intros b3 gs3 Hr3 Hgs3. apply wp_send_update.
  unfold order_of in Hgs3. cbn in Hgs3. rewrite <- Hgs3. cbn [fst snd]. split.
  - eexists. split; [exact Hr3|]. cbn [levels]. by rewrite upd_abs.
  - rewrite emit_cons, emit_app. done.
Qed.

(** C13: add on a book that implements an abstract book does not fault; it sends exactly the
    messages of the specification, in their order, and the resulting book implements the
    specification's book.  What the code relies on, and does not check, are the hypotheses: the
    side is BUY or SELL, and, when something is left to rest, the client's order id is not
    live, the ids are within the arrays, the pools have room and no other live price shares
    the slot of the price. *)
Theorem add_refines b bk e client coid ticker s price qty :
  implements b bk → trading_side s → is_u32 qty →
  (add_leaves client coid ticker s price qty bk ≠ 0 → can_rest client coid price bk) →
  let x := spec_add client coid ticker s price qty bk in
  ∃ b', add (E := E) client coid ticker s price qty (b, e) = Ok (tt, (b', emit x.2 e)) ∧
        implements b' x.1.
Proof.
  intros Hb Hs Hq Hrest x. pose proof (wp_add b bk e client coid ticker s price qty Hb Hs Hq Hrest) as Hwp.
  apply wp_Ok in Hwp as ([] & [b' e'] & Hadd & Himp & He). cbn in *. subst e'. by exists b'.
Qed.
End theorems.
