(* ===== verification/BookCancel.v ===== *)
(** * cancel refines its specification *)
From S2P Require Import Prelude Types MemPool CircList EngineSink BookSpec BookSweep MEOrderBook.
From S2P Require Import BookRep BookPtr BookLevels BookFrame BookRemove.
From S2P Require Import BookMatch BookRefine BookTheorems.
Implicit Types (G : list GLevel * list GLevel) (gs : list GLevel) (gos : list (nat * Order))
  (b : MEOrderBook) (nid : Z) (bk : Book) (o : Order) (s : Side) (ls : list Level)
  (os : list Order).

(** Membership in parts of an append. *)
Ltac mem_app H := clear - H; rewrite !elem_of_app in H; rewrite !elem_of_app; tauto.

(** ** Deleting by key *)
Lemma filter_not_key c x os :
  (∀ o, o ∈ os → ¬ has_key c x o) → filter (λ o, ¬ has_key c x o) os = os.
Proof.
  induction os as [|o os IH]; intros Hk; [done|].
  rewrite filter_cons_True by (apply Hk; set_solver). f_equal. apply IH. set_solver.
Qed.

Lemma delete_order_other c x ls :
  Forall (λ l, l.2 ≠ []) ls → (∀ o, o ∈ flat ls → ¬ has_key c x o) → delete_order c x ls = ls.
Proof.
  induction ls as [|[p os] ls IH]; intros Hne Hk; [done|]. cbn.
  apply Forall_cons in Hne as [Hn Hne]. cbn in Hn. rewrite flat_cons in Hk.
  rewrite filter_not_key by set_solver. rewrite IH by set_solver. by destruct os.
Qed.

Lemma delete_order_app c x ls1 ls2 :
  delete_order c x (ls1 ++ ls2) = delete_order c x ls1 ++ delete_order c x ls2.
Proof.
  induction ls1 as [|[p os] ls1 IH]; [done|]. cbn. rewrite IH. by destruct (filter _ os).
Qed.

Lemma delete_order_here c x ls1 p os1 o os2 ls2 :
  Forall (λ l, l.2 ≠ []) (ls1 ++ ls2) → has_key c x o →
  (∀ o', o' ∈ flat ls1 ++ os1 ++ os2 ++ flat ls2 → ¬ has_key c x o') →
  delete_order c x (ls1 ++ (p, os1 ++ o :: os2) :: ls2) = ls1 ++ cons_level p (os1 ++ os2) ls2.
Proof.
  intros [Hne1 Hne2]%Forall_app Ho Hk. rewrite delete_order_app. cbn.
  rewrite !delete_order_other by (done || set_solver).
  rewrite filter_app, filter_cons_False by tauto. by rewrite !filter_not_key by set_solver.
Qed.

Lemma filter_key_unique c x (os1 : list Order) o os2 :
  has_key c x o → (∀ o', o' ∈ os1 → ¬ has_key c x o') →
  head (filter (has_key c x) (os1 ++ o :: os2)) = Some o.
Proof.
  intros Ho Hk. induction os1 as [|o' os1 IH]; cbn [app].
  - by rewrite filter_cons_True.
  - rewrite filter_cons_False by (apply Hk; set_solver). apply IH. set_solver.
Qed.

Section cancel.
Context `{Limits} {E : Type} `{EngineSink E}.
Implicit Types (e : E).

(** The order with a key, located, and alone with it. *)
Lemma rep_find om lm bst pm cm G i c x :
  rep om lm bst pm cm G → cm !! (c, x) = Some i →
  ∃ s gs1 lp p (os1 : list (nat * Order)) o (os2 : list (nat * Order)) gs2,
    trading_side s ∧ sel s G = gs1 ++ (lp, (p, os1 ++ (i, o) :: os2)) :: gs2 ∧
    has_key c x o ∧ s_side o = s ∧ s_price o = p ∧
    (∀ o', o' ∈ flat (abs_levels gs1) ++ os1.*2 ++ os2.*2 ++ flat (abs_levels gs2) ++
           flat (abs_levels (sel (opp s) G)) → ¬ has_key c x o') ∧
    Forall (λ l, l.2 ≠ []) (abs_levels (sel s G) ++ abs_levels (sel (opp s) G)).
Proof.
  intros Hr Hcm. pose proof Hr as (_ & _ & Hg). pose proof Hg as (_ & _ & _ & _ & _ & Hc & _).
  apply Hc in Hcm as (o & Hin & [= -> ->]). rewrite gorders_app in Hin.
  assert (∃ s, trading_side s ∧ (i, o) ∈ gorders (sel s G)) as (s & Hs & Hin').
  { apply elem_of_app in Hin as [?|?]; [exists Side_BUY|exists Side_SELL];
      (split; [by (left + right)|done]). }
  clear Hin. apply elem_of_gorders in Hin' as ([lp [p gos]] & Hgl & Hin). cbn in Hin.
  apply list_elem_of_split in Hgl as (gs1 & gs2 & HG).
  apply list_elem_of_split in Hin as (os1 & os2 & ->).
  destruct (rep_order _ _ _ _ _ _ _ _ _ _ _ _ _ _ _ Hs Hr HG)
    as ((y & _ & Hyo & Hys & Hyp) & _).
  exists s, gs1, lp, p, os1, o, os2, gs2. split_and!; try done.
  - by rewrite <- Hyo.
  - by rewrite <- Hyo.
  - pose proof (rep_global _ _ _ _ _ _ s Hs Hr) as Hg'. rewrite HG in Hg'.
    set (others := gorders gs1 ++ os1 ++ os2 ++ gorders gs2 ++ gorders (sel (opp s) G)).
    assert (gorders ((gs1 ++ (lp, (p, os1 ++ (i, o) :: os2)) :: gs2) ++ sel (opp s) G)
            ≡ₚ (i, o) :: others) as Hperm.
    { rewrite !gorders_app, gorders_cons. cbn [fst snd]. unfold others. rewrite <- !app_assoc. cbn.
      by rewrite <- !Permutation_middle. }
    pose proof Hg' as (_ & Hnd & _). rewrite Hperm in Hnd. apply NoDup_cons in Hnd as [Hni _].
    intros o' Ho' [Hk1 Hk2].
    assert (∃ j, (j, o') ∈ others) as [j Hj].
    { unfold others. rewrite !abs_levels_flat, <- !fmap_app in Ho'.
      apply list_elem_of_fmap in Ho' as ([j o2] & -> & Ho'). by exists j. }
    destruct (global_key_unique _ _ _ _ _ i o j o' Hg') as [<- _];
      [rewrite Hperm; set_solver|rewrite Hperm; set_solver|done|done|].
    apply Hni, list_elem_of_fmap. by exists (i, o').
  - apply Forall_app. unfold abs_levels. rewrite !Forall_fmap.
    pose proof (rep_side _ _ _ _ _ _ s Hs Hr) as (_ & _ & Hf1 & _).
    pose proof (rep_side _ _ _ _ _ _ _ (opp_trading _ Hs) Hr) as (_ & _ & Hf2 & _).
    split; (eapply Forall_impl; [eassumption|]; intros g (Hne & _); cbn; by destruct g.2.2).
Qed.

(** What a successful cancel leaves, on the side of the order and overall. *)
Lemma spec_delete bk G s gs1 lp p (os1 : list (nat * Order)) i o (os2 : list (nat * Order))
    gs2 c x :
  levels bk = (abs_levels G.1, abs_levels G.2) → trading_side s →
  sel s G = gs1 ++ (lp, (p, os1 ++ (i, o) :: os2)) :: gs2 → has_key c x o →
  (∀ o', o' ∈ flat (abs_levels gs1) ++ os1.*2 ++ os2.*2 ++ flat (abs_levels gs2) ++
         flat (abs_levels (sel (opp s) G)) → ¬ has_key c x o') →
  Forall (λ l, l.2 ≠ []) (abs_levels (sel s G) ++ abs_levels (sel (opp s) G)) →
  let G' := upd s (gs1 ++ glevel lp p (os1 ++ os2) ++ gs2) G in
  find_order c x bk = Some o ∧
  (delete_order c x (levels bk).1, delete_order c x (levels bk).2)
    = (abs_levels G'.1, abs_levels G'.2).
Proof.
  intros Hlv Hs HG Hk Hother Hne G'.
  assert (abs_levels (sel s G) = abs_levels gs1 ++ (p, os1.*2 ++ o :: os2.*2) :: abs_levels gs2) as Habs.
  { rewrite HG, abs_levels_app. cbn. unfold abs_level at 1. cbn. by rewrite fmap_app. }
  assert (delete_order c x (abs_levels (sel (opp s) G)) = abs_levels (sel (opp s) G)) as Hd2.
  { apply delete_order_other; [by apply Forall_app in Hne as [_ ?]|].
    intros o' Ho'. apply Hother. rewrite !elem_of_app. tauto. }
  assert (delete_order c x (abs_levels (sel s G)) = abs_levels (sel s G')) as Hd1.
  { apply Forall_app in Hne as [Hne _]. rewrite Habs in Hne |- *.
    apply Forall_app in Hne as [Hne1 [_ Hne2]%Forall_cons].
    rewrite delete_order_here; [|by apply Forall_app|done|].
    - unfold G'. rewrite sel_upd, abs_levels_app, abs_levels_glevel. by rewrite fmap_app.
    - intros o' Ho'. apply Hother. by mem_app Ho'. }
  rewrite Hlv. cbn [fst snd]. split.
  - unfold find_order, book_orders. rewrite Hlv. cbn [fst snd].
    destruct Hs as [->| ->]; cbn in Habs; change (sel Side_BUY G) with G.1 in *;
      change (sel Side_SELL G) with G.2 in *; rewrite Habs, flat_app, flat_cons.
    + rewrite <- !app_assoc. cbn. rewrite app_assoc. apply filter_key_unique; [done|].
      intros o' Ho'. apply Hother. by mem_app Ho'.
    + rewrite <- !app_assoc. cbn. rewrite !app_assoc. apply filter_key_unique; [done|].
      intros o' Ho'. apply Hother. cbn [opp].
      change (sel Side_BUY G) with G.1. by mem_app Ho'.
  - unfold G' in *. destruct Hs as [->| ->];
      apply f_equal2; first [exact Hd1|exact Hd2].
Qed.

Lemma wp_cancel b bk e client oid ticker :
  implements b bk → (client < ME_MAX_NUM_CLIENTS → oid < ME_MAX_ORDER_IDS) →
  let x := spec_cancel client oid ticker bk in
  wp (cancel (E := E) client oid ticker) (b, e)
    (λ _ st, implements st.1 x.1 ∧ st.2 = emit x.2 e).
Proof.
  intros (G & (om & lm & bst & pm & cm & Hv & Hr) & Hlv) Hoid x.
  pose proof Hr as (_ & _ & (_ & _ & _ & _ & _ & Hcm & Hb)).
  unfold cancel. apply wp_bind.
  assert (wp (if client <? ME_MAX_NUM_CLIENTS then
                if oid <? ME_MAX_ORDER_IDS then
                  book_gets (E := E) (λ b, cid_oid_to_order_ b !! (client, oid))
                else throw OutOfRange
              else mret None) (b, e) (λ y st, st = (b, e) ∧ y = cm !! (client, oid))) as Hget.
  { destruct (client <? ME_MAX_NUM_CLIENTS) eqn:Hc.
    - rewrite (proj2 (Z.ltb_lt _ _)) by (apply Hoid; lia). apply wp_gets. split; [done|].
      unfold view in Hv. destruct_and! Hv. cbn. congruence.
    - apply wp_ret. split; [done|]. symmetry. apply eq_None_ne_Some. intros i Hi.
      apply Hcm in Hi as (o & Hin & [= -> _]). destruct (Hb i o Hin). lia. }
  eapply wp_mono; [exact Hget|]. intros y st [-> ->]. subst x. unfold spec_cancel.
  destruct (cm !! (client, oid)) as [i|] eqn:Hi.
  - destruct (rep_find _ _ _ _ _ _ _ _ _ Hr Hi)
      as (s & gs1 & lp & p & os1 & o & os2 & gs2 & Hs & HG & Hk & Hos & Hop & Hother & Hne).
    destruct (spec_delete bk G s gs1 lp p os1 i o os2 gs2 client oid Hlv Hs HG Hk Hother Hne)
      as [-> Hdel].
    destruct (rep_order _ _ _ _ _ _ _ _ _ _ _ _ _ _ _ Hs Hr HG) as ((y & Hy & <- & _) & _).
    apply wp_bind. eapply wp_rd_order; [exact Hv|exact Hy|].
    apply wp_bind. eapply wp_removeOrder; [exact Hv|exact Hr|exact Hs|exact HG|].
    intros b1 Hb1. apply wp_bind, wp_send_update, wp_send_response. cbn [fst snd]. split; [|done].
    eexists. split; [exact Hb1|done].
  - apply wp_send_response. assert (find_order client oid bk = None) as ->.
    { unfold find_order, book_orders. rewrite Hlv. cbn [fst snd].
      destruct (filter (has_key client oid) _) as [|o os] eqn:E1; [done|].
      assert (o ∈ filter (has_key client oid) (flat (abs_levels G.1) ++ flat (abs_levels G.2)))
        as Hin by (rewrite E1; set_solver).
      apply list_elem_of_filter in Hin as [[Hk1 Hk2] Hin].
      assert (∃ j, (j, o) ∈ gorders (G.1 ++ G.2)) as [j Hj].
      { rewrite gorders_app. apply elem_of_app in Hin as [Hin|Hin]; apply flat_gorders in Hin as [j Hj];
          exists j; set_solver. }
      assert (cm !! (client, oid) = Some j); [|congruence].
      apply Hcm. exists o. split; [done|congruence]. }
    cbn [fst snd]. split; [|done]. exists G. split; [|done]. do 5 eexists. by split.
Qed.

(** C14: cancel on a book that implements an abstract book sends the messages of the
    specification, a rejection when the client has no live order with that id, and the
    resulting book implements the specification's book.  An order id beyond the array is
    excluded: the checked access then throws in a noexcept function. *)
Theorem cancel_refines b bk e client oid ticker :
  implements b bk → (client < ME_MAX_NUM_CLIENTS → oid < ME_MAX_ORDER_IDS) →
  let x := spec_cancel client oid ticker bk in
  ∃ b', cancel (E := E) client oid ticker (b, e) = Ok (tt, (b', emit x.2 e)) ∧
        implements b' x.1.
Proof.
  intros Hb Hoid x. pose proof (wp_cancel b bk e client oid ticker Hb Hoid) as Hwp.
  apply wp_Ok in Hwp as ([] & [b' e'] & Hc & Himp & He). cbn in *. subst e'. by exists b'.
Qed.
End cancel.
