(* ===== verification/BookInv.v ===== *)
(** * The invariant of the abstract book, and that its operations keep it. *)
From S2P Require Import Prelude Types EngineSink BookSpec BookSweep.
(** * The invariant of the abstract book *)

Implicit Types (a : Aggressor) (leaves : Z) (o : Order) (ls : list Level) (os : list Order) (bk : Book) (s : Side).

Definition order_ok s (p : Z) o : Prop := s_side o = s ∧ s_price o = p ∧ 0 < s_qty o < 2 ^ 32.
Definition level_ok s (l : Level) : Prop := l.2 ≠ [] ∧ Forall (order_ok s l.1) l.2.
Definition side_ok s ls : Prop :=
  Forall (level_ok s) ls ∧ StronglySorted (λ p q, before s p q = true) ls.*1.

(** The client's key of an order. *)
Definition key o : Z * Z := (s_client o, s_coid o).

Record wf_book bk : Prop := {
  wf_bids : side_ok Side_BUY (levels bk).1;
  wf_asks : side_ok Side_SELL (levels bk).2;
  wf_uncrossed : ∀ p q, p ∈ (levels bk).1.*1 → q ∈ (levels bk).2.*1 → p < q;
  wf_keys : NoDup (key <$> book_orders bk);
  wf_ids : NoDup (s_moid <$> book_orders bk);
  wf_old : ∀ o, o ∈ book_orders bk → 0 ≤ s_moid o < next_id bk;
  wf_next : 0 ≤ next_id bk
}.

Lemma side_ok_cons s p os ls :
  side_ok s ((p, os) :: ls) ↔
  level_ok s (p, os) ∧ side_ok s ls ∧ Forall (λ q, before s p q = true) ls.*1.
Proof.
  unfold side_ok. rewrite Forall_cons. cbn. split.
  - by intros [[? ?] [? ?]%StronglySorted_inv].
  - intros (? & [? ?] & ?). split_and!; [done..|by constructor].
Qed.

Lemma side_ok_app s ls1 ls2 : side_ok s (ls1 ++ ls2) → side_ok s ls2.
Proof.
  induction ls1 as [|[p os] ls1 IH]; [done|]. cbn. intros (_ & Hs & _)%side_ok_cons. by apply IH.
Qed.

Lemma side_ok_wf_levels s ls : side_ok s ls → wf_levels ls.
Proof.
  intros [Hf _]. eapply Forall_impl; [exact Hf|]. intros l [_ Ho].
  eapply Forall_impl; [exact Ho|]. intros o (_ & _ & ?). lia.
Qed.

(** ** Matching keeps the side in order *)
Lemma level_ok_tail s p os1 o q os2 :
  level_ok s (p, os1 ++ o :: os2) → shrunk q o → level_ok s (p, with_qty q o :: os2).
Proof.
  intros [_ Hf] [Hq1 Hq2]. split; [done|]. cbn in *.
  apply Forall_app in Hf as [_ [(?&?&?) Hf]%Forall_cons]. constructor; [|done].
  split_and!; cbn; [done|done| |]; lia.
Qed.

Lemma remains_side_ok s ls ls' : remains ls ls' → side_ok s ls → side_ok s ls'.
Proof.
  intros [pre rest ->|pre p os1 o q os2 rest -> Hq] Hok%side_ok_app; [done|].
  apply side_ok_cons in Hok as (Hl & Hs & Hf). apply side_ok_cons. split_and!; [|done..].
  by eapply level_ok_tail.
Qed.

Lemma remains_fmap {A} (f : Order → A) ls ls' :
  (∀ q o, f (with_qty q o) = f o) → wf_levels ls → remains ls ls' →
  ∃ pre, f <$> flat ls = pre ++ (f <$> flat ls').
Proof.
  intros Hf Hwf Hr.
  destruct (remains_flat _ _ Hwf Hr) as [->|(pre & o & q & os & -> & _ & ->)].
  - exists (f <$> flat ls). by rewrite app_nil_r.
  - exists (f <$> pre). rewrite fmap_app. cbn. by rewrite Hf.
Qed.

(** ** Resting an order *)
Lemma insert_order_flat o ls : flat (insert_order o ls) ≡ₚ o :: flat ls.
Proof.
  induction ls as [|[p os] ls IH]; [done|]. cbn [insert_order].
  destruct (p =? s_price o); [|destruct (before _ _ _)]; rewrite !flat_cons.
  - rewrite <- app_assoc. cbn. by rewrite <- Permutation_middle.
  - rewrite IH. by rewrite <- Permutation_middle.
  - done.
Qed.

Lemma insert_order_prices o ls q :
  q ∈ (insert_order o ls).*1 ↔ q = s_price o ∨ q ∈ ls.*1.
Proof.
  induction ls as [|[p os] ls IH]; cbn [insert_order]; [cbn; set_solver|].
  destruct (p =? s_price o) eqn:E; [|destruct (before _ _ _)]; cbn in *; set_solver by lia.
Qed.

Lemma insert_order_side_ok s o ls :
  side_ok s ls → order_ok s (s_price o) o → side_ok s (insert_order o ls).
Proof.
  intros Hok Ho. pose proof Ho as (Hs & _). induction ls as [|[p os] ls IH]; cbn [insert_order].
  { apply side_ok_cons. split_and!; [|by split; constructor|constructor].
    split; [done|]. by constructor. }
  pose proof Hok as ([Hne Hf] & Hok' & Hb)%side_ok_cons. cbn in Hne, Hf.
  destruct (p =? s_price o) eqn:Ep; [|destruct (before _ _ _) eqn:Eb].
  - apply Z.eqb_eq in Ep as ->. apply side_ok_cons. split_and!; [|done..].
    split; cbn; [by destruct os|]. apply Forall_app. split; [done|]. by constructor.
  - apply side_ok_cons. split_and!; [done|by apply IH|].
    rewrite Forall_forall in Hb |- *. intros q [->|Hq]%insert_order_prices; [by rewrite <- Hs|auto].
  - apply Z.eqb_neq in Ep. rewrite Hs in Eb. pose proof (before_total _ _ _ Ep Eb) as Hb'.
    apply side_ok_cons. split_and!; [|done|].
    + split; [done|]. by constructor.
    + cbn. constructor; [done|]. eapply Forall_impl; [exact Hb|]. intros q Hq. by eapply before_trans.
Qed.

(** ** Deleting by key *)
Lemma cons_level_flat p os ls : flat (cons_level p os ls) = os ++ flat ls.
Proof. by destruct os. Qed.

Lemma delete_order_flat c x ls : flat (delete_order c x ls) = filter (λ o, ¬ has_key c x o) (flat ls).
Proof.
  induction ls as [|[p os] ls IH]; [done|]. cbn [delete_order].
  by rewrite cons_level_flat, flat_cons, filter_app, IH.
Qed.

Lemma delete_order_prices c x ls q : q ∈ (delete_order c x ls).*1 → q ∈ ls.*1.
Proof.
  induction ls as [|[p os] ls IH]; [done|]. cbn. destruct (filter _ os); cbn; set_solver.
Qed.

Lemma delete_order_side_ok s c x ls : side_ok s ls → side_ok s (delete_order c x ls).
Proof.
  induction ls as [|[p os] ls IH]; [done|]. intros ([Hne Hf] & Hok & Hb)%side_ok_cons. cbn in *.
  destruct (filter _ os) as [|o os'] eqn:E; cbn; [by apply IH|].
  apply side_ok_cons. split_and!; [|by apply IH|].
  - split; [done|]. cbn. rewrite <- E. rewrite Forall_forall in Hf |- *.
    intros o' [_ Ho']%list_elem_of_filter. auto.
  - rewrite Forall_forall in Hb |- *. intros q Hq. by apply Hb, (delete_order_prices c x).
Qed.

(** ** The invariant, side by side *)
Lemma wf_book_side s bk :
  trading_side s →
  (wf_book bk ↔
   side_ok s (sel s (levels bk)) ∧ side_ok (opp s) (sel (opp s) (levels bk)) ∧
   (∀ p q, p ∈ (sel s (levels bk)).*1 → q ∈ (sel (opp s) (levels bk)).*1 → beyond s p q = true) ∧
   NoDup (key <$> flat (sel s (levels bk)) ++ flat (sel (opp s) (levels bk))) ∧
   NoDup (s_moid <$> flat (sel s (levels bk)) ++ flat (sel (opp s) (levels bk))) ∧
   (∀ o, o ∈ flat (sel s (levels bk)) ++ flat (sel (opp s) (levels bk)) → 0 ≤ s_moid o < next_id bk) ∧
   0 ≤ next_id bk).
Proof.
  intros Hs. rewrite <- (book_orders_perm s bk Hs). setoid_rewrite <- (book_orders_perm s bk Hs).
  assert ((∀ p q, p ∈ (sel s (levels bk)).*1 → q ∈ (sel (opp s) (levels bk)).*1 → beyond s p q = true)
          ↔ (∀ p q, p ∈ (levels bk).1.*1 → q ∈ (levels bk).2.*1 → p < q)) as ->.
  { destruct Hs as [->| ->]; unfold sel, beyond; cbn; repeat case_decide; try done;
      cbn; setoid_rewrite Z.ltb_lt; naive_solver. }
  split.
  - intros []. by destruct Hs as [->| ->].
  - intros (H1 & H2 & ?). by destruct Hs as [->| ->]; constructor; destruct_and?.
Qed.

(** * What the two operations guarantee *)

Implicit Types (evs : list event).

(** ** Matching as a walk over the passive orders in price-time order *)
Fixpoint match_flat a leaves os : list event * Z * list Order :=
  match os with
  | [] => ([], leaves, [])
  | o :: os' =>
      if (leaves =? 0) || beyond (a_side a) (a_price a) (s_price o) then ([], leaves, os)
      else
        let '(evs, leaves', r) := execution a leaves o in
        if r =? 0 then
          let '(evs', leaves'', os'') := match_flat a leaves' os' in (evs ++ evs', leaves'', os'')
        else (evs, leaves', with_qty r o :: os')
  end.

Lemma match_flat_zero a os : match_flat a 0 os = ([], 0, os).
Proof. by destruct os. Qed.

Lemma match_flat_level a leaves p os rest :
  beyond (a_side a) (a_price a) p = false → Forall (λ o, s_price o = p) os →
  match_flat a leaves (os ++ rest) =
    let '(evs, leaves', os') := fill_level a leaves os in
    match os' with
    | [] => let '(evs', leaves'', rest') := match_flat a leaves' rest in (evs ++ evs', leaves'', rest')
    | _ => (evs, leaves', os' ++ rest)
    end.
Proof.
  intros Hb. revert leaves. induction os as [|o os IH]; intros leaves Hf.
  { cbn. by destruct (match_flat a leaves rest) as [[??]?]. }
  apply Forall_cons in Hf as [Hp Hf]. cbn [app match_flat fill_level].
  rewrite Hp, Hb, orb_false_r. destruct (leaves =? 0) eqn:Hz; [done|].
  destruct (execution a leaves o) as [[evs l] r]. destruct (r =? 0); [|done].
  rewrite IH by done. destruct (fill_level a l os) as [[evs1 l1] os1].
  destruct os1; [|done]. destruct (match_flat a l1 rest) as [[??]?]. by rewrite app_assoc.
Qed.

(** Sweeping the levels is matching the flat list of passive orders, best price first and
    oldest first within a price: the level structure does not influence who trades. *)
Lemma sweep_flat a leaves s ls :
  side_ok s ls →
  match_flat a leaves (flat ls) =
    let '(evs, leaves', ls') := sweep a leaves ls in (evs, leaves', flat ls').
Proof.
  revert leaves. induction ls as [|[p os] ls IH]; intros leaves Hok; [done|].
  apply side_ok_cons in Hok as ([Hne Hf] & Hok & _). cbn in Hne, Hf.
  cbn [sweep]. rewrite flat_cons. destruct os as [|o os]; [done|].
  destruct (leaves =? 0) eqn:Hz; [apply Z.eqb_eq in Hz as ->; by rewrite match_flat_zero|].
  destruct (beyond (a_side a) (a_price a) p) eqn:Hb; cbn [orb].
  { apply Forall_cons in Hf as [(_ & Hp & _) _]. cbn [app match_flat]. by rewrite Hp, Hz, Hb. }
  rewrite (match_flat_level a leaves p); [|done|].
  - destruct (fill_level a leaves (o :: os)) as [[evs l] os']. destruct os'; [|done].
    rewrite IH by done. by destruct (sweep a l ls) as [[??]?].
  - eapply Forall_impl; [exact Hf|]. by intros ? (_ & ? & _).
Qed.

(** ** Preservation of the invariant *)
Lemma sweep_side_ok a leaves s ls :
  0 ≤ leaves → side_ok s ls → side_ok s (sweep a leaves ls).2.
Proof.
  intros Hl Hok. destruct (sweep_remains a leaves ls Hl (side_ok_wf_levels _ _ Hok)) as (_ & Hr & _).
  by eapply remains_side_ok.
Qed.

Lemma NoDup_fmap_perm {A B} (f : A → B) l l' : l ≡ₚ l' → NoDup (f <$> l) → NoDup (f <$> l').
Proof. by intros ->. Qed.

(** The book that remains after matching. *)
Lemma wf_book_swept bk a s leaves :
  a_side a = s → trading_side s → 0 ≤ leaves → wf_book bk →
  let x := sweep a leaves (sel (opp s) (levels bk)) in
  wf_book (mkBook (upd (opp s) x.2 (levels bk)) (next_id bk)) ∧
  0 ≤ x.1.2 ≤ leaves ∧
  (x.1.2 ≠ 0 → ∀ q, q ∈ x.2.*1 → beyond s (a_price a) q = true) ∧
  (∀ c y, fresh c y bk → fresh c y (mkBook (upd (opp s) x.2 (levels bk)) (next_id bk))).
Proof.
  intros <- Hs Hl Hwf x. apply (wf_book_side _ _ Hs) in Hwf as (Hok1 & Hok2 & Hun & Hk & Hid & Hold & Hnx).
  pose proof (side_ok_wf_levels _ _ Hok2) as Hwl.
  destruct (sweep_remains a leaves _ Hl Hwl) as (Hle & Hr & _). fold x in Hle, Hr.
  destruct (remains_prices _ _ Hr) as [pre Hpre].
  split_and!; [|lia|lia| |].
  - apply (wf_book_side _ _ Hs). cbn [levels next_id]. rewrite sel_upd_opp, sel_upd by done.
    destruct (remains_fmap key _ _ (λ _ _, eq_refl) Hwl Hr) as [prek Hprek].
    destruct (remains_fmap s_moid _ _ (λ _ _, eq_refl) Hwl Hr) as [prei Hprei].
    rewrite !fmap_app, Hprek in Hk. rewrite !fmap_app, Hprei in Hid. rewrite !fmap_app.
    rewrite (Permutation_app_swap_app _ prek) in Hk. apply NoDup_app in Hk as (_ & _ & Hk).
    rewrite (Permutation_app_swap_app _ prei) in Hid. apply NoDup_app in Hid as (_ & _ & Hid).
    split_and!; [done|by eapply remains_side_ok| |done|done| |done].
    + intros p q Hp Hq. apply Hun; [done|]. rewrite Hpre. set_solver.
    + intros o [Ho|Ho]%elem_of_app; [apply Hold, elem_of_app; by left|].
      destruct (remains_orders _ _ _ Hwl Hr Ho) as (o' & q & Ho' & _ & ->).
      apply (Hold o'), elem_of_app. by right.
  - intros Hne q Hq. pose proof (sweep_rest_beyond a leaves _ Hs Hl Hwl (proj2 Hok2) Hne) as Hb.
    rewrite Forall_forall in Hb. by apply Hb.
  - intros c y Hf o. rewrite (book_orders_side (a_side a)) by done. cbn [levels].
    rewrite sel_upd_opp, sel_upd by done. intros [Ho|Ho].
    + apply Hf. apply (book_orders_side (a_side a)); [done|by left].
    + destruct (remains_orders _ _ _ Hwl Hr Ho) as (o' & q & Ho' & _ & ->).
      apply (Hf o'). apply (book_orders_side (a_side a)); [done|by right].
Qed.

(** Resting an order that nothing on the other side trades with. *)
Lemma wf_book_rest bk s o :
  trading_side s → wf_book bk → order_ok s (s_price o) o →
  (∀ q, q ∈ (sel (opp s) (levels bk)).*1 → beyond s (s_price o) q = true) →
  fresh (s_client o) (s_coid o) bk → s_moid o = next_id bk →
  wf_book (mkBook (upd s (insert_order o (sel s (levels bk))) (levels bk)) (next_id bk + 1)).
Proof.
  intros Hs Hwf Ho Hbey Hfresh Hid.
  apply (wf_book_side _ _ Hs) in Hwf as (Hok1 & Hok2 & Hun & Hk & Hids & Hold & Hn).
  assert (∀ x, x ∈ flat (sel s (levels bk)) ++ flat (sel (opp s) (levels bk)) →
            ¬ has_key (s_client o) (s_coid o) x) as Hf.
  { intros x Hx. apply Hfresh. apply (book_orders_side s); [done|]. by apply elem_of_app. }
  apply (wf_book_side _ _ Hs). cbn [levels next_id]. rewrite sel_upd, sel_opp_upd by done.
  setoid_rewrite insert_order_flat. cbn [app fmap list_fmap]. split_and!.
  - by apply insert_order_side_ok.
  - done.
  - intros p q [->|Hp]%insert_order_prices Hq; auto.
  - constructor; [|done]. intros (x & Hx & Hin)%list_elem_of_fmap.
    apply (Hf x Hin). unfold key in Hx. by simplify_eq.
  - constructor; [|done]. intros (x & Hx & Hin)%list_elem_of_fmap.
    specialize (Hold x Hin). lia.
  - intros x [->|Hx]%elem_of_cons; [lia|]. specialize (Hold x Hx). lia.
  - lia.
Qed.

Lemma wf_book_next bk n :
  next_id bk ≤ n → wf_book bk → wf_book (mkBook (levels bk) n).
Proof. intros Hn [????? Hold ?]. constructor; try done; cbn; [|lia].
  intros o Ho. specialize (Hold o Ho). lia. Qed.

(** add preserves the invariant; in particular the book is never left crossed, no level is
    empty and no resting quantity is zero. *)
Lemma wf_spec_add bk client coid ticker s price qty :
  wf_book bk → trading_side s → is_u32 qty → fresh client coid bk →
  next_id bk < 2 ^ 64 - 1 →
  wf_book (spec_add client coid ticker s price qty bk).1.
Proof.
  intros Hwf Hs Hq Hfresh Hn. pose proof (wf_next _ Hwf) as Hn0. unfold spec_add, is_u32 in *.
  set (a := mkAggressor _ _ _ _ _ _).
  destruct (wf_book_swept bk a s qty eq_refl Hs ltac:(lia) Hwf) as (Hwf' & Hle & Hbey & Hf).
  destruct (sweep a qty (sel (opp s) (levels bk))) as [[evs leaves] passive].
  cbn [fst snd] in *. rewrite u64_small by (unfold is_u64; lia).
  destruct (leaves =? 0) eqn:Hz; cbn [fst].
  - apply (wf_book_next _ (next_id bk + 1)) in Hwf'; [done|cbn; lia].
  - apply Z.eqb_neq in Hz.
    apply (wf_book_rest _ s (mkOrder ticker client coid (next_id bk) s price leaves
      (next_priority price (sel s (upd (opp s) passive (levels bk)))))) in Hwf';
      try done; cbn; [split_and!; [done|done|cbn; lia..]| |by apply Hf].
    rewrite sel_upd. by apply Hbey.
Qed.

Lemma NoDup_fmap_filter {A B} (f : A → B) (P : A → Prop) `{∀ x, Decision (P x)} l :
  NoDup (f <$> l) → NoDup (f <$> filter P l).
Proof.
  induction l as [|x l IH]; [done|]. rewrite fmap_cons. intros [Hx Hnd]%NoDup_cons.
  destruct (decide (P x)); [rewrite filter_cons_True by done|rewrite filter_cons_False by done; auto].
  rewrite fmap_cons. constructor; [|auto]. intros (y & Hy & [_ Hin]%list_elem_of_filter)%list_elem_of_fmap.
  apply Hx, list_elem_of_fmap. eauto.
Qed.

Lemma delete_book_orders c x bk :
  flat (delete_order c x (levels bk).1) ++ flat (delete_order c x (levels bk).2)
  = filter (λ o, ¬ has_key c x o) (book_orders bk).
Proof. unfold book_orders. by rewrite !delete_order_flat, filter_app. Qed.

(** cancel preserves the invariant. *)
Lemma wf_spec_cancel bk client oid ticker :
  wf_book bk → wf_book (spec_cancel client oid ticker bk).1.
Proof.
  intros Hwf. unfold spec_cancel. destruct (find_order client oid bk); [|done].
  destruct Hwf. constructor; unfold book_orders in *; cbn [levels next_id fst snd];
    rewrite ?delete_book_orders; unfold book_orders.
  - by apply delete_order_side_ok.
  - by apply delete_order_side_ok.
  - intros p q Hp%delete_order_prices Hq%delete_order_prices. auto.
  - by apply NoDup_fmap_filter.
  - by apply NoDup_fmap_filter.
  - intros y [_ Hy]%list_elem_of_filter. auto.
  - done.
Qed.

(** ** The queue of a level *)

(** The orders of a level stand in the order of their ids. *)
Definition by_id os : Prop := StronglySorted Z.lt (s_moid <$> os).
Definition levels_by_id ls : Prop := Forall (λ l : Level, by_id l.2) ls.
Definition book_by_id bk : Prop := levels_by_id (levels bk).1 ∧ levels_by_id (levels bk).2.

Lemma by_id_suffix os1 os2 : by_id (os1 ++ os2) → by_id os2.
Proof. unfold by_id. rewrite fmap_app. induction (s_moid <$> os1) as [|x l IH]; [done|]. intros [? _]%StronglySorted_inv. auto. Qed.

Lemma by_id_filter (P : Order → Prop) `{∀ o, Decision (P o)} os : by_id os → by_id (filter P os).
Proof.
  unfold by_id. induction os as [|o os IH]; [done|]. rewrite fmap_cons. intros [Hs Hf]%StronglySorted_inv. rewrite filter_cons.
  case_decide; [|by apply IH]. rewrite fmap_cons. constructor; [by apply IH|]. rewrite Forall_forall in Hf |- *.
  intros i (x & -> & [_ Hx]%list_elem_of_filter)%list_elem_of_fmap. apply Hf, list_elem_of_fmap. eauto.
Qed.

Lemma by_id_snoc os o : by_id os → (∀ x, x ∈ os → s_moid x < s_moid o) → by_id (os ++ [o]).
Proof.
  unfold by_id. intros Hs Hlt. rewrite fmap_app. induction os as [|x os IH]; [repeat constructor|].
  rewrite fmap_cons in Hs |- *. apply StronglySorted_inv in Hs as [Hs Hf]. cbn. constructor; [apply IH; [done|set_solver]|].
  apply Forall_app. split; [done|]. repeat constructor. apply Hlt. set_solver.
Qed.

Lemma remains_by_id ls ls' : remains ls ls' → levels_by_id ls → levels_by_id ls'.
Proof.
  intros [pre rest ->|pre p os1 o q os2 rest -> _] [_ H]%Forall_app; [done|]. apply Forall_cons in H as [Ho Hr].
  constructor; [|done]. cbn in Ho |- *. apply by_id_suffix in Ho. exact Ho.
Qed.

Lemma insert_by_id o ls : levels_by_id ls → (∀ x, x ∈ flat ls → s_moid x < s_moid o) → levels_by_id (insert_order o ls).
Proof.
  induction ls as [|[p os] ls IH]; intros Hls Hlt; cbn [insert_order]; [repeat constructor|].
  rewrite flat_cons in Hlt. apply Forall_cons in Hls as [Hos Hls]. cbn in Hos. destruct (p =? s_price o); [|destruct (before _ _ _)].
  - constructor; [|done]. cbn. apply by_id_snoc; [done|]. set_solver.
  - constructor; [done|]. apply IH; [done|]. set_solver.
  - repeat constructor; done.
Qed.

Lemma delete_by_id c x ls : levels_by_id ls → levels_by_id (delete_order c x ls).
Proof.
  induction ls as [|[p os] ls IH]; [done|]. intros [Hos Hls]%Forall_cons. cbn in *.
  destruct (filter _ os) as [|o os'] eqn:E; cbn; [by apply IH|]. constructor; [|by apply IH]. cbn. rewrite <- E. by apply by_id_filter.
Qed.

Lemma book_by_id_side s bk : trading_side s → book_by_id bk ↔ levels_by_id (sel s (levels bk)) ∧ levels_by_id (sel (opp s) (levels bk)).
Proof. unfold book_by_id. intros [->| ->]; cbn; tauto. Qed.

Lemma by_id_spec_add bk client coid ticker s price qty :
  wf_book bk → trading_side s → 0 ≤ qty → book_by_id bk → book_by_id (spec_add client coid ticker s price qty bk).1.
Proof.
  intros Hwf Hs Hq [Ho Hp]%(book_by_id_side s); [|done]. unfold spec_add. set (a := mkAggressor _ _ _ _ _ _).
  pose proof (proj1 (wf_book_side s bk Hs) Hwf) as (_ & Hok & _ & _ & _ & Hold & _).
  destruct (sweep_remains a qty _ Hq (side_ok_wf_levels _ _ Hok)) as (_ & Hr & _). pose proof (remains_by_id _ _ Hr Hp) as Hp'.
  destruct (sweep a qty _) as [[evs leaves] passive]. cbn [fst snd] in *.
  destruct (leaves =? 0); cbn [fst]; apply (book_by_id_side s); try done; cbn [levels].
  - by rewrite sel_upd_opp, sel_upd by done.
  - rewrite !sel_upd, sel_opp_upd, sel_upd_opp, sel_upd by done. split; [|done]. apply insert_by_id; [done|].
    intros x Hx. cbn. apply Hold, elem_of_app. by left.
Qed.

Lemma by_id_spec_cancel bk client oid ticker : book_by_id bk → book_by_id (spec_cancel client oid ticker bk).1.
Proof.
  intros [? ?]. unfold spec_cancel. destruct (find_order client oid bk); [|done]. split; by apply delete_by_id.
Qed.
