(* ===== verification/BookReplay.v ===== *)
(** * Conservation of quantity, and the market data stream as a log of the book

    A client that applies the published updates to the orders it has seen ends with exactly the
    live orders of the book. *)
From S2P Require Import Prelude Types EngineSink BookSpec BookSweep BookInv.
Implicit Types (a : Aggressor) (leaves : Z) (o : Order) (ls : list Level) (os : list Order)
  (bk : Book) (s : Side) (evs : list event).

(** ** Quantities *)
Definition total os : Z := foldr (λ o n, s_qty o + n) 0 os.
Definition event_qty (ev : event) : Z :=
  match ev with
  | Update u => if decide (upd_type_ u = MarketUpdateType_TRADE) then upd_qty_ u else 0
  | Response _ => 0
  end.
Definition traded evs : Z := foldr (λ ev n, event_qty ev + n) 0 evs.

(** The executions reported to clients: FILLED responses. *)
Definition event_fill (ev : event) : Z :=
  match ev with
  | Response r => if decide (rsp_type_ r = ClientResponseType_FILLED) then rsp_exec_qty_ r else 0
  | Update _ => 0
  end.
Definition filled evs : Z := foldr (λ ev n, event_fill ev + n) 0 evs.

Lemma total_app os1 os2 : total (os1 ++ os2) = total os1 + total os2.
Proof. unfold total. induction os1 as [|o os1 IH]; cbn in *; lia. Qed.
Lemma traded_app evs1 evs2 : traded (evs1 ++ evs2) = traded evs1 + traded evs2.
Proof. unfold traded. induction evs1 as [|ev evs1 IH]; cbn in *; lia. Qed.
Lemma filled_app evs1 evs2 : filled (evs1 ++ evs2) = filled evs1 + filled evs2.
Proof. unfold filled. induction evs1 as [|ev evs1 IH]; cbn in *; lia. Qed.

Lemma traded_cons ev evs : traded (ev :: evs) = event_qty ev + traded evs.
Proof. done. Qed.
Lemma filled_cons ev evs : filled (ev :: evs) = event_fill ev + filled evs.
Proof. done. Qed.

#[export] Instance total_perm : Proper ((≡ₚ) ==> (=)) total.
Proof. unfold total. intros l l' Hp. induction Hp; cbn in *; lia. Qed.

Lemma execution_traded a leaves o :
  let x := execution a leaves o in
  traded x.1.1 = Z.min leaves (s_qty o) ∧ filled x.1.1 = 2 * Z.min leaves (s_qty o).
Proof.
  unfold execution. cbn [fst snd].
  destruct (_ =? 0); cbn; repeat (case_decide; try done); lia.
Qed.

Lemma match_flat_conserves a leaves os :
  let x := match_flat a leaves os in
  traded x.1.1 = leaves - x.1.2 ∧ traded x.1.1 = total os - total x.2 ∧
  filled x.1.1 = 2 * traded x.1.1.
Proof.
  revert leaves. induction os as [|o os IH]; intros leaves; cbn [match_flat].
  { cbn. lia. }
  destruct (_ || _); [cbn; lia|].
  destruct (execution_traded a leaves o) as [Ht Hf].
  destruct (execution a leaves o) as [[evs l] r] eqn:Hx. cbn [fst snd] in Ht, Hf.
  assert (l = leaves - Z.min leaves (s_qty o) ∧ r = s_qty o - Z.min leaves (s_qty o)) as [-> ->]
    by (unfold execution in Hx; by simplify_eq).
  destruct (_ =? 0) eqn:Hr; cbn [fst snd].
  - specialize (IH (leaves - Z.min leaves (s_qty o))).
    destruct (match_flat _ _ os) as [[evs' l'] os']. cbn [fst snd] in *.
    rewrite traded_app, filled_app. cbn [total foldr]. fold (total os). lia.
  - cbn [total foldr with_qty s_qty]. fold (total os). lia.
Qed.

Lemma wf_side_ok s bk : trading_side s → wf_book bk → side_ok s (sel s (levels bk)).
Proof. intros Hs Hwf. by apply (wf_book_side s) in Hwf as (? & _). Qed.

(** add conserves quantity: what was in the book and what the client brought is what is left
    in the book, plus two sides of every trade; and the FILLED responses report exactly the two
    sides of the trades. *)
Lemma spec_add_conserves bk client coid ticker s price qty :
  wf_book bk → trading_side s →
  let x := spec_add client coid ticker s price qty bk in
  total (book_orders bk) + qty = total (book_orders x.1) + 2 * traded x.2 ∧
  filled x.2 = 2 * traded x.2.
Proof.
  intros Hwf Hs x. subst x. unfold spec_add. set (a := mkAggressor _ _ _ _ _ _).
  pose proof (sweep_flat a qty _ _ (wf_side_ok _ _ (opp_trading _ Hs) Hwf)) as Hm.
  pose proof (match_flat_conserves a qty (flat (sel (opp s) (levels bk)))) as Hc. rewrite Hm in Hc.
  destruct (sweep a qty (sel (opp s) (levels bk))) as [[evs leaves] passive]. cbn [fst snd] in Hc.
  rewrite (book_orders_perm s bk Hs), total_app.
  destruct (leaves =? 0) eqn:Hz; cbn [fst snd];
    rewrite (book_orders_perm s (mkBook _ _) Hs), total_app; cbn [levels];
    rewrite ?traded_cons, ?filled_cons, ?traded_app, ?filled_app, ?traded_cons, ?filled_cons;
    cbn [event_qty event_fill rsp_type_ upd_type_]; rewrite !decide_False by done.
  - rewrite sel_upd_opp, sel_upd by done. lia.
  - rewrite sel_upd, sel_opp_upd, sel_upd_opp, sel_upd, insert_order_flat by done.
    cbn [total traded filled foldr s_qty]. fold (total (flat (sel s (levels bk)))). lia.
Qed.

(** ** Replaying the updates *)
Record Shown := mkShown { sh_side : Side; sh_price : Z; sh_qty : Z; sh_prio : Z }.
Definition shown o : Shown := mkShown (s_side o) (s_price o) (s_qty o) (s_prio o).

(** What an update means for the orders a client has seen, by market order id. *)
Definition apply_update (u : MEMarketUpdate) (m : gmap Z Shown) : gmap Z Shown :=
  match upd_type_ u with
  | MarketUpdateType_ADD =>
      <[upd_order_id_ u := mkShown (upd_side_ u) (upd_price_ u) (upd_qty_ u) (upd_priority_ u)]> m
  | MarketUpdateType_MODIFY =>
      alter (λ x, mkShown (sh_side x) (upd_price_ u) (upd_qty_ u) (sh_prio x)) (upd_order_id_ u) m
  | MarketUpdateType_CANCEL => delete (upd_order_id_ u) m
  | MarketUpdateType_CLEAR => ∅
  | _ => m
  end.

Definition apply_event (m : gmap Z Shown) (ev : event) : gmap Z Shown :=
  match ev with Update u => apply_update u m | Response _ => m end.
Definition replay evs (m : gmap Z Shown) : gmap Z Shown := foldl apply_event m evs.

Definition shown_map os : gmap Z Shown := list_to_map ((λ o, (s_moid o, shown o)) <$> os).

Lemma replay_app evs1 evs2 m : replay (evs1 ++ evs2) m = replay evs2 (replay evs1 m).
Proof. apply foldl_app. Qed.

Lemma shown_fst os : ((λ o, (s_moid o, shown o)) <$> os).*1 = s_moid <$> os.
Proof. by rewrite <- list_fmap_compose. Qed.

Lemma shown_map_cons o os : shown_map (o :: os) = <[s_moid o := shown o]> (shown_map os).
Proof. done. Qed.

Lemma shown_map_fresh i os : i ∉ (s_moid <$> os) → shown_map os !! i = None.
Proof. intros Hi. apply not_elem_of_list_to_map. by rewrite shown_fst. Qed.

Lemma shown_map_perm os os' : NoDup (s_moid <$> os) → os ≡ₚ os' → shown_map os = shown_map os'.
Proof.
  intros Hnd Hp. apply list_to_map_proper; [by rewrite shown_fst|by rewrite Hp].
Qed.

(** One execution, seen by the client. *)
Lemma replay_execution a leaves o os :
  NoDup (s_moid <$> o :: os) →
  let x := execution a leaves o in
  replay x.1.1 (shown_map (o :: os)) =
    shown_map (if x.2 =? 0 then os else with_qty x.2 o :: os).
Proof.
  rewrite fmap_cons. intros [Hn Hnd]%NoDup_cons. unfold execution. cbn [fst snd].
  pose proof (shown_map_fresh _ _ Hn) as Hf. rewrite shown_map_cons.
  destruct (_ =? 0); unfold replay; cbn [foldl apply_event]; unfold apply_update;
    cbn [upd_type_ upd_order_id_ upd_price_ upd_qty_].
  - by rewrite delete_insert_id.
  - rewrite alter_insert_eq. done.
Qed.

Lemma replay_match_flat a leaves os rest :
  NoDup (s_moid <$> os ++ rest) →
  let x := match_flat a leaves os in
  replay x.1.1 (shown_map (os ++ rest)) = shown_map (x.2 ++ rest).
Proof.
  revert leaves. induction os as [|o os IH]; intros leaves Hnd; cbn [match_flat]; [done|].
  destruct (_ || _); [done|].
  pose proof (replay_execution a leaves o (os ++ rest) Hnd) as Hx. cbv zeta in Hx.
  destruct (execution a leaves o) as [[evs l] r]. cbn [fst snd] in Hx.
  destruct (r =? 0) eqn:Hr; [|exact Hx].
  apply NoDup_cons in Hnd as [_ Hnd].
  specialize (IH l Hnd). destruct (match_flat a l os) as [[evs' l'] os']. cbn [fst snd] in *.
  rewrite replay_app. change ((o :: os) ++ rest) with (o :: os ++ rest). by rewrite Hx.
Qed.

Definition book_map bk : gmap Z Shown := shown_map (book_orders bk).

(** The updates that add publishes turn the orders a client has seen into the orders of the
    new book. *)
Lemma replay_spec_add bk client coid ticker s price qty :
  wf_book bk → trading_side s → is_u32 qty →
  let x := spec_add client coid ticker s price qty bk in
  replay x.2 (book_map bk) = book_map x.1.
Proof.
  intros Hwf Hs Hq x. subst x. unfold spec_add. set (a := mkAggressor _ _ _ _ _ _).
  pose proof (sweep_flat a qty _ _ (wf_side_ok _ _ (opp_trading _ Hs) Hwf)) as Hm.
  destruct (wf_book_swept bk a s qty eq_refl Hs (proj1 Hq) Hwf) as (Hwf' & _ & _ & _).
  apply (wf_book_side _ _ (opp_trading _ Hs)) in Hwf as (_ & _ & _ & _ & Hid & Hold & _).
  rewrite (opp_opp s) in Hid, Hold by done.
  set (own := flat (sel s (levels bk))) in *. set (pas := flat (sel (opp s) (levels bk))) in *.
  pose proof (replay_match_flat a qty pas own Hid) as Hr. rewrite Hm in Hr.
  destruct (sweep a qty (sel (opp s) (levels bk))) as [[evs leaves] passive].
  cbn [fst snd] in Hr, Hwf'.
  assert (∀ bk', wf_book bk' → book_map bk' =
    shown_map (flat (sel (opp s) (levels bk')) ++ flat (sel s (levels bk')))) as Hbm.
  { intros bk' Hw. apply shown_map_perm; [apply Hw|].
    rewrite (book_orders_perm s bk' Hs). apply Permutation_app_comm. }
  assert (book_map bk = shown_map (pas ++ own)) as Hbk.
  { apply shown_map_perm; [|rewrite (book_orders_perm s bk Hs); apply Permutation_app_comm].
    rewrite (book_orders_perm s bk Hs). by rewrite Permutation_app_comm. }
  pose proof (Hbm _ Hwf') as Hb'. cbn [levels] in Hb'. rewrite sel_upd_opp, sel_upd in Hb' by done. fold own in Hb'.
  destruct (leaves =? 0) eqn:Hz; cbn [fst snd].
  - rewrite Hbk. change (replay (?r :: evs) ?m) with (replay evs m). rewrite Hr. by rewrite <- Hb'.
  - rewrite Hbk. change (replay (?r :: ?l) ?m) with (replay l m). rewrite replay_app, Hr.
    set (o := mkOrder ticker client coid (next_id bk) s price leaves _).
    set (bk' := mkBook _ _).
    assert (book_orders bk' ≡ₚ o :: flat passive ++ own) as Hp.
    { rewrite (book_orders_perm s bk' Hs). unfold bk'. cbn [levels].
      rewrite sel_upd, sel_opp_upd, sel_upd_opp, sel_upd by done. fold own.
      change (sel s (levels bk)) with (sel s (levels bk)). rewrite insert_order_flat.
      cbn [app]. by rewrite (Permutation_app_comm (flat (sel s (levels bk)))). }
    assert (NoDup (s_moid <$> o :: flat passive ++ own)) as Hnd.
    { apply (wf_book_side s _ Hs) in Hwf' as (_ & _ & _ & _ & Hi & Ho & _). cbn [levels] in Hi, Ho.
      rewrite sel_upd_opp, sel_upd in Hi, Ho by done. rewrite Permutation_app_comm in Hi.
      rewrite fmap_cons. constructor; [|done].
      intros (y & Hy & Hin)%list_elem_of_fmap. rewrite Permutation_app_comm in Hin.
      specialize (Ho y Hin). cbn in Hy, Ho. lia. }
    unfold book_map. by rewrite <- (shown_map_perm _ _ Hnd (symmetry Hp)).
Qed.

(** So do the updates that cancel publishes. *)
Lemma replay_spec_cancel bk client oid ticker :
  wf_book bk →
  let x := spec_cancel client oid ticker bk in
  replay x.2 (book_map bk) = book_map x.1.
Proof.
  intros Hwf x. subst x. unfold spec_cancel, find_order.
  destruct (filter (has_key client oid) (book_orders bk)) as [|o os] eqn:Hf; [done|].
  cbn [head fst snd]. unfold replay. cbn [foldl apply_event]. unfold apply_update.
  cbn [upd_type_ upd_order_id_].
  assert (o ∈ filter (has_key client oid) (book_orders bk)) as [Hk Ho]%list_elem_of_filter
    by (rewrite Hf; set_solver).
  unfold book_map at 2. unfold book_orders. cbn [levels fst snd]. rewrite delete_book_orders.
  destruct Hwf as [_ _ _ Hkeys Hids _ _].
  apply list_elem_of_split in Ho as (l1 & l2 & Hl). unfold book_map. rewrite Hl in Hkeys, Hids |- *.
  rewrite fmap_app, fmap_cons in Hkeys. rewrite <- Permutation_middle in Hkeys.
  apply NoDup_cons in Hkeys as [Hnk _].
  assert (∀ l : list Order, (∀ y, y ∈ l → y ∈ l1 ++ l2) → filter (λ y, ¬ has_key client oid y) l = l) as Hfl.
  { intros l Hin. induction l as [|y l IH]; [done|].
    rewrite filter_cons_True; [f_equal; apply IH; set_solver|].
    intros [Hk1 Hk2]. destruct Hk as [Hk1' Hk2']. apply Hnk. rewrite <- fmap_app.
    apply list_elem_of_fmap. exists y. split; [unfold key; congruence|set_solver]. }
  rewrite filter_app, filter_cons_False, !Hfl by (tauto || set_solver).
  rewrite (shown_map_perm (l1 ++ o :: l2) (o :: l1 ++ l2)); [|done|by rewrite Permutation_middle].
  rewrite shown_map_cons, delete_insert_id; [done|]. apply shown_map_fresh.
  rewrite fmap_app, fmap_cons in Hids. rewrite <- Permutation_middle in Hids.
  apply NoDup_cons in Hids as [Hni _]. by rewrite fmap_app.
Qed.
