(* ===== verification/BookGuarantees.v ===== *)
(** * What clients of the order book can rely on

    The guarantees of the specification, carried to the code by the refinement, and the inputs
    on which the code does not deliver them. *)
From S2P Require Import Prelude Types MemPool CircList EngineSink BookSpec BookSweep MEOrderBook.
From S2P Require Import BookRep BookFrame BookMatch BookRefine BookTheorems BookCancel.
From S2P Require Import BookInv BookReplay.
Section guarantees.
Context `{Limits} {E : Type} `{EngineSink E}.
Implicit Types (b : MEOrderBook) (bk : Book) (e : E) (s : Side).

(** C15: checkForMatch executes the aggressor against the passive orders one at a time, best
    price first and oldest first within a price, until the quantity is used up or the next
    order is beyond the limit price; what it returns and sends is what walking the flat list
    of passive orders gives, whatever the level structure. *)
Theorem checkForMatch_price_time b bk e client coid ticker s price qty moid :
  implements b bk → wf_book bk → trading_side s → is_u32 qty →
  let a := mkAggressor client coid ticker s price (u32 moid) in
  let x := match_flat a qty (flat (sel (opp s) (levels bk))) in
  ∃ b' passive, checkForMatch (E := E) client coid ticker s price qty moid (b, e)
      = Ok (x.1.2, (b', emit x.1.1 e)) ∧
    implements b' (mkBook (upd (opp s) passive (levels bk)) (next_id bk)) ∧ flat passive = x.2.
Proof.
  intros (G & Hr & Hlv) Hwf Hs Hq a x.
  assert (x = match_flat a qty (flat (abs_levels (sel (opp s) G)))) as Hx
    by (unfold x; by rewrite Hlv, sel_abs).
  pose proof (wf_side_ok _ _ (opp_trading _ Hs) Hwf) as Hok. rewrite Hlv, sel_abs in Hok.
  rewrite (sweep_flat a qty _ _ Hok) in Hx.
  assert (wp (checkForMatch (E := E) client coid ticker s price qty moid) (b, e)
    (λ l st, l = x.1.2 ∧ st.2 = emit x.1.1 e ∧ ∃ passive,
       implements st.1 (mkBook (upd (opp s) passive (levels bk)) (next_id bk)) ∧ flat passive = x.2)) as Hwp.
  { eapply wp_checkForMatch; [exact Hr|done|done|]. intros b' gs' Hr' Hgs'. fold a in Hgs' |- *.
    rewrite Hx. destruct (sweep a qty (abs_levels (sel (opp s) G))) as [[evs l] ls]. cbn in Hgs' |- *.
    split_and!; [done|done|]. exists ls. split; [|done]. eexists. split; [exact Hr'|].
    cbn [levels]. rewrite Hlv, <- Hgs'. apply upd_abs. }
  apply wp_Ok in Hwp as (l & [b' e'] & Hc & -> & He & passive & Himp & Hp). cbn in *. subst e'.
  by exists b', passive.
Qed.

(** C21: add conserves quantity.  The quantity resting in the book before plus the quantity of
    the new order is the quantity resting after plus both sides of every trade, and the
    FILLED responses report exactly both sides of the trades. *)
Theorem add_conserves_quantity b bk client coid ticker s price qty :
  implements b bk → wf_book bk → trading_side s → is_u32 qty → can_rest client coid price bk →
  ∃ b' bk' evs,
    add (E := list event) client coid ticker s price qty (b, []) = Ok (tt, (b', evs)) ∧
    implements b' bk' ∧
    total (book_orders bk) + qty = total (book_orders bk') + 2 * traded evs ∧
    filled evs = 2 * traded evs.
Proof.
  intros Hb Hwf Hs Hq Hc.
  pose proof (wp_add b bk ([] : list event) client coid ticker s price qty Hb Hs Hq (λ _, Hc)) as Hwp.
  apply wp_Ok in Hwp as ([] & [b' evs] & Hadd & Himp & Hev). cbn in Himp, Hev.
  rewrite emit_trace in Hev. cbn in Hev. subst evs.
  pose proof (spec_add_conserves bk client coid ticker s price qty Hwf Hs) as [H1 H2].
  do 3 eexists. split_and!; [exact Hadd|exact Himp|done|done].
Qed.

(** Add never leaves the book crossed: every resting bid is below every resting ask, no
    quantity is zero, and levels are sorted from the most aggressive price outwards. *)
Theorem add_uncrossed b bk e client coid ticker s price qty :
  implements b bk → wf_book bk → trading_side s → is_u32 qty → can_rest client coid price bk →
  next_id bk < 2 ^ 64 - 1 →
  ∃ b' e' bk', add (E := E) client coid ticker s price qty (b, e) = Ok (tt, (b', e')) ∧
    implements b' bk' ∧ wf_book bk'.
Proof.
  intros Hb Hwf Hs Hq Hc Hn.
  pose proof (wp_add b bk e client coid ticker s price qty Hb Hs Hq (λ _, Hc)) as Hwp.
  apply wp_Ok in Hwp as ([] & [b' e'] & Hadd & Himp & Hev). cbn in Himp.
  do 3 eexists. split_and!; [exact Hadd|exact Himp|]. apply wf_spec_add; try done. apply Hc.
Qed.

(** Cancel is rejected exactly when the client has no live order with that id, and a
    rejected cancel changes nothing; an accepted one removes that order and no other. *)
Theorem cancel_removes_one b bk client oid ticker :
  implements b bk → (client < ME_MAX_NUM_CLIENTS → oid < ME_MAX_ORDER_IDS) →
  ∃ b' bk' evs,
    cancel (E := list event) client oid ticker (b, []) = Ok (tt, (b', evs)) ∧
    implements b' bk' ∧
    book_orders bk' = filter (λ o, ¬ has_key client oid o) (book_orders bk) ∧
    (fresh client oid bk ↔
      evs = [Response (mkMEClientResponse ClientResponseType_CANCEL_REJECTED client ticker oid
               OrderId_INVALID Side_INVALID Price_INVALID Qty_INVALID Qty_INVALID)]).
Proof.
  intros Hb Hoid. pose proof (wp_cancel b bk ([] : list event) client oid ticker Hb Hoid) as Hwp.
  apply wp_Ok in Hwp as ([] & [b' evs] & Hc & Himp & Hev). cbn in Himp, Hev.
  rewrite emit_trace in Hev. cbn in Hev. subst evs.
  do 3 eexists. split; [exact Hc|]. split; [exact Himp|]. unfold spec_cancel, find_order.
  destruct (filter (has_key client oid) (book_orders bk)) as [|o os] eqn:Hf; cbn [head fst snd].
  - assert (fresh client oid bk) as Hfr.
    { intros o Ho Hk. assert (o ∈ filter (has_key client oid) (book_orders bk)) as Hin
        by (by apply list_elem_of_filter). rewrite Hf in Hin. set_solver. }
    split; [|done]. symmetry. by apply filter_not_key.
  - split.
    + unfold book_orders at 1. cbn [levels]. apply delete_book_orders.
    + split; [|done]. intros Hfr. exfalso.
      assert (o ∈ filter (has_key client oid) (book_orders bk)) as [Hk Ho]%list_elem_of_filter
        by (rewrite Hf; set_solver). by apply (Hfr o).
Qed.

(** ** Inputs that the code does not handle *)

(** The aggressor is told a different market order id in its FILLED responses than in its
    ACCEPTED response once ids exceed 32 bits: checkForMatch takes the id as a Qty. *)
Theorem checkForMatch_narrows_id b e client coid ticker s price qty moid :
  checkForMatch (E := E) client coid ticker s price qty moid (b, e) =
  checkForMatch (E := E) client coid ticker s price qty (moid `mod` 2 ^ 32) (b, e).
Proof. unfold checkForMatch, u32. by rewrite Z.mod_mod. Qed.
End guarantees.
