(* ===== verification/MatchingEngine.v ===== *)
(** * The matching engine (exchange/matcher/matching_engine.h and .cpp)

    The engine owns one book per ticker.  Its thread reads a request from the incoming queue,
    gives it to the book of the ticker and releases the slot; the book sends through the engine
    into the two outgoing queues.  The theorems compose the queues with the refinement of the
    books: what comes out of the queues is what the specification of the books says, in order. *)
From S2P Require Import Prelude Types MemPool LFQueue CircList EngineSink BookSpec BookSweep.
From S2P Require Import MEOrderBook BookRep BookRefine BookTheorems BookCancel BookInv.
From S2P Require Import BookReplay.
(** ** The engine as the books see it *)
Record Outgoing := mkOutgoing {
  outgoing_ogw_responses_ : LFQueue MEClientResponse;
  outgoing_md_updates_ : LFQueue MEMarketUpdate
}.

Definition MatchingEngine_sendClientResponse (client_response : MEClientResponse) (o : Outgoing) :
    Outgoing :=
  mkOutgoing (push client_response (outgoing_ogw_responses_ o)) (outgoing_md_updates_ o).

Definition MatchingEngine_sendMarketUpdate (market_update : MEMarketUpdate) (o : Outgoing) :
    Outgoing :=
  mkOutgoing (outgoing_ogw_responses_ o) (push market_update (outgoing_md_updates_ o)).

#[export] Instance engine_queues : EngineSink Outgoing := {|
  sendClientResponse := MatchingEngine_sendClientResponse;
  sendMarketUpdate := MatchingEngine_sendMarketUpdate
|}.

Record MatchingEngine := mkMatchingEngine {
  ticker_order_book_ : list MEOrderBook;
  incoming_requests_ : LFQueue MEClientRequest;
  outgoing_ : Outgoing;
  run_ : bool
}.

(** The queues are shared: the engine with a queue as the other end has left it. *)
Definition me_set_requests (q : LFQueue MEClientRequest) (m : MatchingEngine) : MatchingEngine :=
  mkMatchingEngine (ticker_order_book_ m) q (outgoing_ m) (run_ m).
Definition me_set_responses (q : LFQueue MEClientResponse) (m : MatchingEngine) : MatchingEngine :=
  mkMatchingEngine (ticker_order_book_ m) (incoming_requests_ m) (mkOutgoing q (outgoing_md_updates_ (outgoing_ m))) (run_ m).
Definition me_set_updates (q : LFQueue MEMarketUpdate) (m : MatchingEngine) : MatchingEngine :=
  mkMatchingEngine (ticker_order_book_ m) (incoming_requests_ m) (mkOutgoing (outgoing_ogw_responses_ (outgoing_ m)) q) (run_ m).

Section MatchingEngine.
Context `{Limits}.

(** The constructor: a book per ticker, the i-th in memory that holds [memory i]. *)
Definition MatchingEngine_new (memory : nat → gmap (Z * Z) nat) (client_requests : LFQueue MEClientRequest)
    (client_responses : LFQueue MEClientResponse) (market_updates : LFQueue MEMarketUpdate) :
    MatchingEngine :=
  mkMatchingEngine
    ((λ i, MEOrderBook_new (memory i) (Z.of_nat i)) <$> seq 0 (Z.to_nat ME_MAX_TICKERS))
    client_requests (mkOutgoing client_responses market_updates) false.

Definition me_set_run (b : bool) (m : MatchingEngine) : MatchingEngine :=
  mkMatchingEngine (ticker_order_book_ m) (incoming_requests_ m) (outgoing_ m) b.

(** start: [thread_ok] says whether the thread could be created. *)
Definition MatchingEngine_start (thread_ok : bool) (m : MatchingEngine) : result MatchingEngine :=
  if thread_ok then Ok (me_set_run true m) else Err AssertFailed.
Definition MatchingEngine_stop (m : MatchingEngine) : MatchingEngine := me_set_run false m.

(** A call of a method of the book at index [i]. *)
Definition on_book (i : Z) (f : M (MEOrderBook * Outgoing) unit) (m : MatchingEngine) :
    result (unit * MatchingEngine) :=
  match ticker_order_book_ m !! Z.to_nat i with
  | None => Err WildDeref
  | Some b =>
      match f (b, outgoing_ m) with
      | Err e => Err e
      | Ok (_, (b', o')) =>
          Ok (tt, mkMatchingEngine (<[Z.to_nat i := b']> (ticker_order_book_ m))
                    (incoming_requests_ m) o' (run_ m))
      end
  end.

Definition processClientRequest (client_request : MEClientRequest) : M MatchingEngine unit :=
  match req_type_ client_request with
  | ClientRequestType_NEW =>
      on_book (req_ticker_id_ client_request)
        (add (req_client_id_ client_request) (req_order_id_ client_request)
           (req_ticker_id_ client_request) (req_side_ client_request)
           (req_price_ client_request) (req_qty_ client_request))
  | ClientRequestType_CANCEL =>
      on_book (req_ticker_id_ client_request)
        (cancel (req_client_id_ client_request) (req_order_id_ client_request)
           (req_ticker_id_ client_request))
  | _ => on_book (req_ticker_id_ client_request) FATAL
  end.

(** One round of the loop of [run]. *)
Definition run_round : M MatchingEngine unit := λ m,
  match getNextToRead (incoming_requests_ m) with
  | None => Ok (tt, m)
  | Some i =>
      match read_slot i (incoming_requests_ m) with
      | None => Err WildDeref
      | Some me_client_request =>
          match processClientRequest me_client_request m with
          | Err e => Err e
          | Ok (_, m') =>
              match updateReadIndex (incoming_requests_ m') with
              | Err e => Err e
              | Ok q => Ok (tt, mkMatchingEngine (ticker_order_book_ m') q (outgoing_ m') (run_ m'))
              end
          end
      end
  end.

(** [run] observed over [n] tests of the flag. *)
Fixpoint run (n : nat) : M MatchingEngine unit := λ m,
  match n with
  | O => Ok (tt, m)
  | S n =>
      if run_ m then
        match run_round m with Ok (_, m') => run n m' | Err e => Err e end
      else Ok (tt, m)
  end.
End MatchingEngine.

(** ** Specification *)
Definition responses (evs : list event) : list MEClientResponse :=
  omap (λ ev, match ev with Response r => Some r | Update _ => None end) evs.
Definition updates (evs : list event) : list MEMarketUpdate :=
  omap (λ ev, match ev with Update u => Some u | Response _ => None end) evs.

Definition spec_request (r : MEClientRequest) (bk : Book) : Book * list event :=
  match req_type_ r with
  | ClientRequestType_NEW =>
      spec_add (req_client_id_ r) (req_order_id_ r) (req_ticker_id_ r) (req_side_ r)
        (req_price_ r) (req_qty_ r) bk
  | ClientRequestType_CANCEL => spec_cancel (req_client_id_ r) (req_order_id_ r) (req_ticker_id_ r) bk
  | _ => (bk, [])
  end.

Definition spec_step (r : MEClientRequest) (bks : list Book) : list Book * list event :=
  match bks !! Z.to_nat (req_ticker_id_ r) with
  | None => (bks, [])
  | Some bk =>
      let x := spec_request r bk in (<[Z.to_nat (req_ticker_id_ r) := x.1]> bks, x.2)
  end.

Fixpoint spec_steps (rs : list MEClientRequest) (bks : list Book) : list Book * list event :=
  match rs with
  | [] => (bks, [])
  | r :: rs =>
      let x := spec_step r bks in let y := spec_steps rs x.1 in (y.1, x.2 ++ y.2)
  end.

Lemma spec_steps_app reqs1 reqs2 bks :
  spec_steps (reqs1 ++ reqs2) bks
  = ((spec_steps reqs2 (spec_steps reqs1 bks).1).1, (spec_steps reqs1 bks).2 ++ (spec_steps reqs2 (spec_steps reqs1 bks).1).2).
Proof.
  revert bks. induction reqs1 as [|q reqs1 IH]; intros bks; cbn [app spec_steps fst snd]; [by destruct (spec_steps reqs2 bks)|].
  rewrite IH. cbn [fst snd]. by rewrite app_assoc.
Qed.

Lemma length_spec_steps reqs bks : length (spec_steps reqs bks).1 = length bks.
Proof.
  revert bks. induction reqs as [|q reqs IH]; intros bks; cbn [spec_steps fst]; [done|]. rewrite IH.
  unfold spec_step. destruct (bks !! _); [|done]. apply length_insert.
Qed.

Section admissible.
Context `{Limits}.

(** The requests that the code handles as it means to. *)
Definition admissible (r : MEClientRequest) (bk : Book) : Prop :=
  match req_type_ r with
  | ClientRequestType_NEW =>
      trading_side (req_side_ r) ∧ is_u32 (req_qty_ r) ∧ next_id bk < 2 ^ 64 - 1 ∧
      can_rest (req_client_id_ r) (req_order_id_ r) (req_price_ r) bk
  | ClientRequestType_CANCEL =>
      req_client_id_ r < ME_MAX_NUM_CLIENTS → req_order_id_ r < ME_MAX_ORDER_IDS
  | ClientRequestType_INVALID => False
  end.

Definition admissible_step (r : MEClientRequest) (bks : list Book) : Prop :=
  ∃ bk, bks !! Z.to_nat (req_ticker_id_ r) = Some bk ∧ admissible r bk.

Fixpoint admissible_steps (rs : list MEClientRequest) (bks : list Book) : Prop :=
  match rs with
  | [] => True
  | r :: rs => admissible_step r bks ∧ admissible_steps rs (spec_step r bks).1
  end.
End admissible.

(** ** The queues as a sink *)
Lemma responses_app evs1 evs2 : responses (evs1 ++ evs2) = responses evs1 ++ responses evs2.
Proof. apply omap_app. Qed.
Lemma updates_app evs1 evs2 : updates (evs1 ++ evs2) = updates evs1 ++ updates evs2.
Proof. apply omap_app. Qed.

(** The outgoing queues hold [rs] and [us], with room for the messages [evs]. *)
Definition out_ok (o : Outgoing) (rs : list MEClientResponse) (us : list MEMarketUpdate)
    (evs : list event) : Prop :=
  holds (outgoing_ogw_responses_ o) rs ∧ holds (outgoing_md_updates_ o) us ∧
  (length rs + length (responses evs) ≤ capacity (outgoing_ogw_responses_ o))%nat ∧
  (length us + length (updates evs) ≤ capacity (outgoing_md_updates_ o))%nat.

Lemma emit_outgoing evs1 evs2 o rs us :
  out_ok o rs us (evs1 ++ evs2) →
  out_ok (emit evs1 o) (rs ++ responses evs1) (us ++ updates evs1) evs2.
Proof.
  revert o rs us. induction evs1 as [|ev evs1 IH]; intros o rs us (Hr & Hu & Hlr & Hlu).
  { by rewrite !app_nil_r. }
  rewrite emit_cons. cbn [app] in Hlr, Hlu. destruct ev as [r|u].
  - change (responses (Response r :: ?l)) with (r :: responses l) in Hlr. cbn [length] in Hlr.
    replace (rs ++ responses (Response r :: evs1)) with ((rs ++ [r]) ++ responses evs1)
      by (by rewrite <- app_assoc).
    apply IH. split_and!; [apply holds_push; [done|lia]|done| |done].
    change (length (rs ++ [r]) + length (responses (evs1 ++ evs2))
            ≤ capacity (push r (outgoing_ogw_responses_ o)))%nat.
    rewrite capacity_push, length_app. cbn [length]. lia.
  - change (updates (Update u :: ?l)) with (u :: updates l) in Hlu. cbn [length] in Hlu.
    replace (us ++ updates (Update u :: evs1)) with ((us ++ [u]) ++ updates evs1)
      by (by rewrite <- app_assoc).
    apply IH. split_and!; [done|apply holds_push; [done|lia]|done|].
    change (length (us ++ [u]) + length (updates (evs1 ++ evs2))
            ≤ capacity (push u (outgoing_md_updates_ o)))%nat.
    rewrite capacity_push, length_app. cbn [length]. lia.
Qed.

Section theorems.
Context `{Limits}.
Implicit Types (m : MatchingEngine) (bks : list Book) (reqs : list MEClientRequest).

(** The state of the engine: what its books implement and what its queues hold. *)
Definition engine_ok m bks reqs rs us evs : Prop :=
  Forall2 implements (ticker_order_book_ m) bks ∧ holds (incoming_requests_ m) reqs ∧
  out_ok (outgoing_ m) rs us evs.

(** One request on the book of its ticker. *)
Lemma request_refines b bk (o : Outgoing) r :
  implements b bk → admissible r bk →
  ∃ f b', (∀ m, processClientRequest r m = on_book (req_ticker_id_ r) f m) ∧
    f (b, o) = Ok (tt, (b', emit (spec_request r bk).2 o)) ∧
    implements b' (spec_request r bk).1.
Proof.
  intros Hb Ha. unfold admissible, spec_request, processClientRequest in *.
  destruct (req_type_ r); [done| |].
  - destruct Ha as (Hs & Hq & _ & Hc). eexists.
    pose proof (wp_add b bk o _ _ (req_ticker_id_ r) _ _ _ Hb Hs Hq (λ _, Hc)) as Hwp.
    apply wp_Ok in Hwp as ([] & [b' o'] & Hadd & Himp & Ho). cbn in Himp, Ho. subst o'.
    exists b'. split_and!; [done|exact Hadd|done].
  - eexists. pose proof (wp_cancel b bk o _ _ (req_ticker_id_ r) Hb Ha) as Hwp.
    apply wp_Ok in Hwp as ([] & [b' o'] & Hc & Himp & Ho). cbn in Himp, Ho. subst o'.
    exists b'. split_and!; [done|exact Hc|done].
Qed.

Lemma run_round_refines m bks r reqs rs us evs :
  let x := spec_step r bks in
  engine_ok m bks (r :: reqs) rs us (x.2 ++ evs) → admissible_step r bks →
  ∃ m', run_round m = Ok (tt, m') ∧ run_ m' = run_ m ∧
    engine_ok m' x.1 reqs (rs ++ responses x.2) (us ++ updates x.2) evs.
Proof.
  intros x (Hbs & Hin & Hout) (bk & Hbk & Ha).
  destruct (Forall2_lookup_r _ _ _ _ _ Hbs Hbk) as (b & Hb & Himp).
  destruct (request_refines b bk (outgoing_ m) r Himp Ha) as (f & b' & Hp & Hf & Himp').
  unfold x, spec_step in *. rewrite Hbk in *. cbn [fst snd] in *.
  destruct (holds_pop_cons _ _ _ Hin) as (q & Hpop & Hq & _). unfold pop in Hpop.
  unfold run_round. destruct (getNextToRead _) as [i|]; [|done].
  destruct (read_slot i _) as [v|]; [|done].
  destruct (updateReadIndex (incoming_requests_ m)) as [q'|] eqn:Hu; [|done].
  cbn in Hpop. injection Hpop as -> ->. rewrite Hp. unfold on_book. rewrite Hb, Hf. cbn. rewrite Hu.
  eexists. split; [done|]. split; [done|]. split_and!; [|done|by apply emit_outgoing].
  cbn. by apply Forall2_insert.
Qed.

(** The requests at the front of the queue, handled while others wait behind them. *)
Lemma run_front reqs rest m bks rs us evs :
  engine_ok m bks (reqs ++ rest) rs us ((spec_steps reqs bks).2 ++ evs) → run_ m = true → admissible_steps reqs bks →
  ∃ m', run (length reqs) m = Ok (tt, m') ∧ run_ m' = true ∧
    engine_ok m' (spec_steps reqs bks).1 rest (rs ++ responses (spec_steps reqs bks).2)
      (us ++ updates (spec_steps reqs bks).2) evs.
Proof.
  revert m bks rs us. induction reqs as [|r reqs IH]; intros m bks rs us Hok Hrun Ha.
  { exists m. cbn in *. by rewrite !app_nil_r. }
  destruct Ha as [Ha1 Ha2]. cbn [spec_steps fst snd length run app] in *. rewrite Hrun. rewrite <- app_assoc in Hok.
  destruct (run_round_refines _ _ _ _ _ _ _ Hok Ha1) as (m1 & -> & Hrun1 & Hok1).
  destruct (IH m1 _ _ _ Hok1) as (m2 & Hr2 & Hrun2 & Hok2); [congruence|done|].
  exists m2. rewrite responses_app, updates_app, !app_assoc. done.
Qed.

Lemma run_spec reqs m bks rs us :
  engine_ok m bks reqs rs us (spec_steps reqs bks).2 → run_ m = true → admissible_steps reqs bks →
  ∃ m', run (length reqs) m = Ok (tt, m') ∧ run_ m' = true ∧
    engine_ok m' (spec_steps reqs bks).1 [] (rs ++ responses (spec_steps reqs bks).2)
      (us ++ updates (spec_steps reqs bks).2) [].
Proof. intros Hok. apply run_front. by rewrite !app_nil_r. Qed.

(** The loop goes on where it was. *)
Lemma run_add n k m : run (n + k) m = match run n m with Ok (_, m') => run k m' | Err e => Err e end.
Proof.
  revert m. induction n as [|n IH]; intros m; cbn [Nat.add run]; [done|].
  destruct (run_ m) eqn:Hm; [|by destruct k as [|k]; cbn [run]; rewrite ?Hm].
  by destruct (run_round m) as [[[] m']|].
Qed.

(** The slot that the loop reads holds the request at the front of the queue. *)
Lemma run_round_front m r rest :
  holds (incoming_requests_ m) (r :: rest) → ∀ e, processClientRequest r m = Err e → run_round m = Err e.
Proof.
  intros Hin e He. destruct (holds_pop_cons _ _ _ Hin) as (q & Hpop & _). unfold pop in Hpop.
  unfold run_round. destruct (getNextToRead _) as [i|]; [|done]. destruct (read_slot i _) as [v|]; [|done].
  destruct (updateReadIndex (incoming_requests_ m)) as [q'|]; [|done].
  cbn in Hpop. injection Hpop as -> _. by rewrite He.
Qed.

(** C1: the engine, end to end.  With the requests [reqs] in its incoming queue and room in the
    outgoing queues, the loop handles them one by one without a fault, empties the queue, and
    appends to the outgoing queues exactly the responses and the updates of the specification,
    in order; its books implement the books that the specification reaches. *)
Theorem engine_run_refines reqs m bks rs us :
  engine_ok m bks reqs rs us (spec_steps reqs bks).2 → run_ m = true → admissible_steps reqs bks →
  ∃ m', run (length reqs) m = Ok (tt, m') ∧
    Forall2 implements (ticker_order_book_ m') (spec_steps reqs bks).1 ∧
    holds (incoming_requests_ m') [] ∧
    holds (outgoing_ogw_responses_ (outgoing_ m')) (rs ++ responses (spec_steps reqs bks).2) ∧
    holds (outgoing_md_updates_ (outgoing_ m')) (us ++ updates (spec_steps reqs bks).2).
Proof.
  intros Hok Hrun Ha. destruct (run_spec _ _ _ _ _ Hok Hrun Ha) as (m' & Hr & _ & H1 & H2 & H3 & H4 & _).
  by exists m'.
Qed.

(** C39: one cancel can end the exchange, and exactly when the bounds of the array say so.  After any
    admissible requests, let a CANCEL for a known ticker be next, with anything queued behind it.  The
    engine has handled the requests before it as specified; and it stops with the exception of the
    bounds-checked access, in a noexcept method, so that neither the cancel nor anything behind it
    is handled however long the loop runs, if and only if the client id, which cancel checks, is within the array and the order id,
    which it does not check, is not. *)
Theorem cancel_out_of_range pre r rest m bks rs us :
  engine_ok m bks (pre ++ r :: rest) rs us (spec_steps (pre ++ [r]) bks).2 → run_ m = true → admissible_steps pre bks →
  req_type_ r = ClientRequestType_CANCEL → is_Some (bks !! Z.to_nat (req_ticker_id_ r)) →
  (∃ m', run (length pre) m = Ok (tt, m') ∧ Forall2 implements (ticker_order_book_ m') (spec_steps pre bks).1 ∧
    holds (incoming_requests_ m') (r :: rest)) ∧
  ((∀ n, (length pre < n)%nat → run n m = Err OutOfRange) ↔
   req_client_id_ r < ME_MAX_NUM_CLIENTS ∧ ME_MAX_ORDER_IDS ≤ req_order_id_ r).
Proof.
  intros Hok Hrun Ha Hr Ht. rewrite spec_steps_app in Hok. cbn [spec_steps snd] in Hok.
  destruct (run_front pre (r :: rest) m bks rs us _ Hok Hrun Ha) as (m1 & Hr1 & Hrun1 & Hok1).
  pose proof Hok1 as (Hbs & Hin & _). split; [by exists m1|].
  assert (is_Some ((spec_steps pre bks).1 !! Z.to_nat (req_ticker_id_ r))) as [bk Hbk]
    by (apply lookup_lt_is_Some; rewrite length_spec_steps; by apply lookup_lt_is_Some).
  destruct (Forall2_lookup_r _ _ _ _ _ Hbs Hbk) as (b & Hb & _).
  destruct (decide (req_client_id_ r < ME_MAX_NUM_CLIENTS ∧ ME_MAX_ORDER_IDS ≤ req_order_id_ r)) as [[Hc Ho]|Hno].
  - split; [done|]. intros _ n Hn. replace n with (length pre + S (n - length pre - 1))%nat by lia.
    rewrite run_add, Hr1. cbn [run]. rewrite Hrun1. rewrite (run_round_front m1 r rest Hin OutOfRange); [done|].
    unfold processClientRequest, on_book. rewrite Hr, Hb. unfold cancel.
    by rewrite (proj2 (Z.ltb_lt _ _) Hc), (proj2 (Z.ltb_ge _ _) Ho).
  - split; [|done]. intros Hend. exfalso. specialize (Hend (length pre + 1)%nat ltac:(lia)).
    rewrite run_add, Hr1 in Hend. cbn [run] in Hend. rewrite Hrun1 in Hend.
    destruct (run_round_refines m1 _ r rest _ _ [] Hok1) as (m2 & Hm2 & _); [|by rewrite Hm2 in Hend].
    exists bk. split; [done|]. unfold admissible. rewrite Hr. intros Hc. destruct (Z.lt_ge_cases (req_order_id_ r) ME_MAX_ORDER_IDS); [done|].
    by destruct Hno.
Qed.

(** ** The invariant and the market data of a run *)
Lemma wf_spec_request r bk : wf_book bk → admissible r bk → wf_book (spec_request r bk).1.
Proof.
  intros Hwf Ha. unfold admissible, spec_request in *. destruct (req_type_ r); [done| |].
  - destruct Ha as (Hs & Hq & Hn & (Hf & _)). by apply wf_spec_add.
  - by apply wf_spec_cancel.
Qed.

Lemma wf_spec_step r bks :
  Forall wf_book bks → admissible_step r bks → Forall wf_book (spec_step r bks).1.
Proof.
  intros Hwf (bk & Hbk & Ha). unfold spec_step. rewrite Hbk. cbn.
  apply Forall_insert; [done|]. apply wf_spec_request; [|done].
  by eapply Forall_lookup_1.
Qed.

Lemma wf_spec_steps reqs bks :
  Forall wf_book bks → admissible_steps reqs bks → Forall wf_book (spec_steps reqs bks).1.
Proof.
  revert bks. induction reqs as [|r reqs IH]; intros bks Hwf Ha; [done|].
  destruct Ha as [Ha1 Ha2]. cbn. apply IH; [by apply wf_spec_step|done].
Qed.

(** The messages about one ticker. *)
Definition about (t : Z) (ev : event) : Prop :=
  match ev with Update u => upd_ticker_id_ u = t | Response _ => False end.
#[global] Instance about_dec t ev : Decision (about t ev).
Proof. destruct ev; cbn; apply _. Defined.

Definition of_ticker (t : Z) (ev : event) : Prop :=
  match ev with Update u => upd_ticker_id_ u = t | Response _ => True end.

Lemma sweep_ticker a leaves ls : Forall (of_ticker (a_ticker a)) (sweep a leaves ls).1.1.
Proof.
  apply (sweep_events _ (λ _, True)); [|by apply Forall_forall].
  intros l o _. cbn. repeat constructor. cbn. by destruct (_ =? 0).
Qed.

Lemma spec_request_ticker r bk : Forall (of_ticker (req_ticker_id_ r)) (spec_request r bk).2.
Proof.
  unfold spec_request. destruct (req_type_ r); [constructor| |].
  - unfold spec_add. set (a := mkAggressor _ _ _ _ _ _).
    pose proof (sweep_ticker a (req_qty_ r) (sel (opp (req_side_ r)) (levels bk))) as Hs.
    destruct (sweep a _ _) as [[evs l] ls]. cbn [fst] in Hs. destruct (l =? 0); cbn [snd].
    + by constructor.
    + constructor; [done|]. apply Forall_app. split; [done|]. by constructor.
  - unfold spec_cancel. destruct (find_order _ _ _); repeat constructor.
Qed.

Lemma replay_about t evs mp :
  Forall (of_ticker t) evs → replay (filter (about t) evs) mp = replay evs mp.
Proof.
  revert mp. induction evs as [|ev evs IH]; intros mp Hf; [done|].
  apply Forall_cons in Hf as [Hev Hf]. destruct ev as [r|u].
  - rewrite filter_cons_False by tauto. by apply IH.
  - rewrite filter_cons_True by done. by apply (IH (apply_event mp (Update u))).
Qed.

Lemma filter_about_other t t' evs :
  t ≠ t' → Forall (of_ticker t') evs → filter (about t) evs = [].
Proof.
  intros Hne. induction 1 as [|ev evs Hev Hf IH]; [done|].
  rewrite filter_cons_False; [done|]. destruct ev; cbn in *; [tauto|congruence].
Qed.

Lemma replay_spec_request r bk :
  wf_book bk → admissible r bk →
  replay (spec_request r bk).2 (book_map bk) = book_map (spec_request r bk).1.
Proof.
  intros Hwf Ha. unfold admissible, spec_request in *. destruct (req_type_ r); [done| |].
  - destruct Ha as (Hs & Hq & _). by apply replay_spec_add.
  - by apply replay_spec_cancel.
Qed.

Lemma replay_spec_steps reqs bks t bk :
  Forall wf_book bks → admissible_steps reqs bks → Forall (λ r, 0 ≤ req_ticker_id_ r) reqs →
  bks !! t = Some bk →
  let x := spec_steps reqs bks in
  ∃ bk', x.1 !! t = Some bk' ∧
    replay (filter (about (Z.of_nat t)) x.2) (book_map bk) = book_map bk'.
Proof.
  revert bks bk. induction reqs as [|r reqs IH]; intros bks bk Hwf Ha Hpos Hbk; [by exists bk|].
  cbn [spec_steps fst snd]. destruct Ha as [Ha1 Ha2]. apply Forall_cons in Hpos as [Hr Hpos].
  pose proof (wf_spec_step _ _ Hwf Ha1) as Hwf'.
  destruct Ha1 as (bk1 & Hbk1 & Ha1). unfold spec_step in *. rewrite Hbk1 in *. cbn [fst snd] in *.
  pose proof (spec_request_ticker r bk1) as Ht.
  assert (∃ bk2, <[Z.to_nat (req_ticker_id_ r) := (spec_request r bk1).1]> bks !! t = Some bk2 ∧
            replay (filter (about (Z.of_nat t)) (spec_request r bk1).2) (book_map bk) = book_map bk2)
    as (bk2 & Hbk2 & Hrep).
  { destruct (decide (Z.to_nat (req_ticker_id_ r) = t)) as [<-|Hne].
    - exists (spec_request r bk1).1. rewrite Hbk in Hbk1. injection Hbk1 as ->.
      rewrite list_lookup_insert_eq by (by eapply lookup_lt_Some). split; [done|].
      rewrite Z2Nat.id by done. rewrite replay_about by done.
      apply replay_spec_request; [|done]. exact (Forall_lookup_1 _ _ _ _ Hwf Hbk).
    - exists bk. rewrite list_lookup_insert_ne by done. split; [done|].
      rewrite (filter_about_other _ (req_ticker_id_ r)); [done|lia|done]. }
  destruct (IH _ _ Hwf' Ha2 Hpos Hbk2) as (bk3 & Hbk3 & Hrep3).
  exists bk3. split; [done|]. rewrite filter_app, replay_app, Hrep. done.
Qed.

(** C18: every book of the engine stays well formed over any sequence of admissible requests:
    uncrossed, sorted, without empty levels or zero quantities, with unique keys and unique
    market order ids. *)
Theorem engine_run_wf reqs m bks rs us :
  engine_ok m bks reqs rs us (spec_steps reqs bks).2 → run_ m = true →
  admissible_steps reqs bks → Forall wf_book bks →
  ∃ m' bks', run (length reqs) m = Ok (tt, m') ∧
    Forall2 implements (ticker_order_book_ m') bks' ∧ Forall wf_book bks'.
Proof.
  intros Hok Hrun Ha Hwf. destruct (run_spec _ _ _ _ _ Hok Hrun Ha) as (m' & Hr & _ & H1 & _).
  exists m', (spec_steps reqs bks).1. split_and!; [done..|by apply wf_spec_steps].
Qed.

Definition replay_updates (us : list MEMarketUpdate) (mp : gmap Z Shown) : gmap Z Shown :=
  foldl (λ mp u, apply_update u mp) mp us.

Lemma replay_updates_of evs t mp :
  replay_updates (filter (λ u, upd_ticker_id_ u = t) (updates evs)) mp
  = replay (filter (about t) evs) mp.
Proof.
  revert mp. induction evs as [|[r|u] evs IH]; intros mp; [done| |].
  - rewrite filter_cons_False by tauto. apply IH.
  - change (updates (Update u :: evs)) with (u :: updates evs).
    destruct (decide (upd_ticker_id_ u = t)).
    + rewrite !filter_cons_True by done. apply IH.
    + rewrite !filter_cons_False by done. apply IH.
Qed.

(** C2: the market data of a ticker is a complete log of its book.  A consumer that applies the
    updates [us'] that the run added to the outgoing queue, those of the ticker, in order, to
    the orders live before the run, holds exactly the orders that are live after it, with
    their sides, prices, quantities and priorities. *)
Theorem engine_market_data reqs m bks rs us t bk :
  engine_ok m bks reqs rs us (spec_steps reqs bks).2 → run_ m = true →
  admissible_steps reqs bks → Forall wf_book bks → Forall (λ r, 0 ≤ req_ticker_id_ r) reqs →
  bks !! t = Some bk →
  ∃ m' us' b' bk', run (length reqs) m = Ok (tt, m') ∧
    holds (outgoing_md_updates_ (outgoing_ m')) (us ++ us') ∧
    ticker_order_book_ m' !! t = Some b' ∧ implements b' bk' ∧
    replay_updates (filter (λ u, upd_ticker_id_ u = Z.of_nat t) us') (book_map bk) = book_map bk'.
Proof.
  intros Hok Hrun Ha Hwf Hpos Hbk.
  destruct (run_spec _ _ _ _ _ Hok Hrun Ha) as (m' & Hr & _ & Hbs & _ & _ & Hu & _).
  destruct (replay_spec_steps reqs bks t bk Hwf Ha Hpos Hbk) as (bk' & Hbk' & Hrep).
  destruct (Forall2_lookup_r _ _ _ _ _ Hbs Hbk') as (b' & Hb' & Himp).
  do 4 eexists. split_and!; [exact Hr|exact Hu|exact Hb'|exact Himp|].
  by rewrite replay_updates_of.
Qed.

(** ** Faults *)

(** A request whose type is not NEW or CANCEL stops the exchange, and one for a ticker
    without a book reads outside the array of books: neither is checked before. *)
Theorem process_faults m r :
  (req_type_ r = ClientRequestType_INVALID → is_Some (ticker_order_book_ m !! Z.to_nat (req_ticker_id_ r)) →
     processClientRequest r m = Err FatalExit) ∧
  ((length (ticker_order_book_ m) ≤ Z.to_nat (req_ticker_id_ r))%nat →
     processClientRequest r m = Err WildDeref).
Proof.
  split.
  - intros Ht [b Hb]. unfold processClientRequest, on_book. by rewrite Ht, Hb.
  - intros Hlen%lookup_ge_None_2. unfold processClientRequest.
    destruct (req_type_ r); unfold on_book; by rewrite Hlen.
Qed.

(** ** The initial state *)
Definition empty_book : Book := mkBook ([], []) 1.

(** In zeroed memory a new book is empty. *)
Lemma new_implements t :
  0 < ME_MAX_PRICE_LEVELS → 0 < ME_MAX_ORDER_IDS → implements (MEOrderBook_new ∅ t) empty_book.
Proof.
  intros Hl Ho. exists ([], []). split; [|done].
  exists ∅, ∅, (None, None), ∅, ∅. split.
  - unfold view, MEOrderBook_new.
    cbn [order_pool_ orders_at_price_pool_ bids_by_price_ asks_by_price_ price_orders_at_price_
           cid_oid_to_order_ next_market_order_id_].
    rewrite !MemPool_new_heap, !MemPool_new_size.
    split_and!; try done; apply MemPool_new_wf; lia.
  - apply rep_empty.
Qed.

Lemma wf_empty_book : wf_book empty_book.
Proof. constructor; cbn; try (by repeat constructor); set_solver. Qed.
End theorems.
