(* ===== verification/ClientView.v ===== *)
(** * What one client sees of the exchange

    A client sees its own orders in a book and the answers sent to it.  Whatever a request, its own
    or another's, does to the book, the answers are the account of what happened to the orders of
    the client: each execution is reported with what is left of the order. *)
From S2P Require Import Prelude Types EngineSink BookSpec BookSweep BookInv MEOrderBook.
From S2P Require Import BookRep BookRefine BookTheorems BookReplay MatchingEngine.
Implicit Types (a : Aggressor) (o x : Order) (ls : list Level) (os : list Order) (s : Side)
  (evs : list event) (bk : Book) (r : MEClientResponse).

Section ClientView.
Context (c : Z).

(** The orders of the client. *)
Definition mine os : list Order := filter (λ o, s_client o = c) os.

(** The answers to the client about its order on side [s]. *)
Definition answers s evs : list MEClientResponse :=
  filter (λ r, rsp_client_id_ r = c ∧ rsp_side_ r = s) (responses evs).

(** Executions that take an order from the quantity [q] to [q']. *)
Fixpoint fills (q : Z) (rs : list MEClientResponse) (q' : Z) : Prop :=
  match rs with
  | [] => q = q'
  | r :: rs =>
      rsp_type_ r = ClientResponseType_FILLED ∧ 0 < rsp_exec_qty_ r ∧ 0 ≤ rsp_leaves_qty_ r ∧
      rsp_exec_qty_ r + rsp_leaves_qty_ r = q ∧ Z.abs (rsp_price_ r) < 2 ^ 31 ∧
      fills (rsp_leaves_qty_ r) rs q'
  end.

Definition keep (q : Z) x : list Order := if q =? 0 then [] else [with_qty q x].

(** What happens to the orders [before] on side [s], of which at most one is the client's. *)
Definition accounts s (before : list Order) evs (after : list Order) : Prop :=
  (mine before = [] → answers s evs = [] ∧ mine after = []) ∧
  (∀ x, mine before = [x] → ∃ q, 0 ≤ q ≤ s_qty x ∧ fills (s_qty x) (answers s evs) q ∧ mine after = keep q x).

(** Resting orders: on side [s], with something to trade and a price of 32 bits. *)
Definition resting s o : Prop := s_side o = s ∧ 0 < s_qty o ∧ Z.abs (s_price o) < 2 ^ 31.

Lemma fills_app q rs q1 rs' q2 : fills q rs q1 → fills q1 rs' q2 → fills q (rs ++ rs') q2.
Proof.
  revert q. induction rs as [|r rs IH]; intros q; cbn [fills app]; [by intros ->|].
  intros (? & ? & ? & ? & ? & Hf) Hf'. split_and!; [done..|]. by apply IH.
Qed.

Lemma answers_app s evs evs' : answers s (evs ++ evs') = answers s evs ++ answers s evs'.
Proof. unfold answers. by rewrite responses_app, filter_app. Qed.

Lemma mine_app os os' : mine (os ++ os') = mine os ++ mine os'.
Proof. apply filter_app. Qed.

Lemma keep_id x : 0 < s_qty x → keep (s_qty x) x = [x].
Proof.
  intros Hq. unfold keep. rewrite with_qty_id, (proj2 (Z.eqb_neq _ _)) by lia. done.
Qed.

Lemma accounts_refl s os : Forall (resting s) os → accounts s os [] os.
Proof.
  intros Hr. split; [done|]. intros x Hx.
  assert (0 < s_qty x) as Hq.
  { rewrite Forall_forall in Hr. apply Hr.
    assert (x ∈ mine os) as [_ Hin]%list_elem_of_filter by (rewrite Hx; set_solver). done. }
  exists (s_qty x). split_and!; [lia|lia|done|by rewrite keep_id].
Qed.

Lemma accounts_app s os1 evs1 os1' os2 evs2 os2' :
  accounts s os1 evs1 os1' → accounts s os2 evs2 os2' →
  accounts s (os1 ++ os2) (evs1 ++ evs2) (os1' ++ os2').
Proof.
  intros [A1 A2] [B1 B2]. unfold accounts. rewrite !mine_app, answers_app. split.
  - intros [E1 E2]%app_nil. destruct (A1 E1) as [-> ->], (B1 E2) as [-> ->]. done.
  - intros x [[E1 E2]|[E1 E2]]%app_eq_unit.
    + destruct (A1 E1) as [-> ->], (B2 x E2) as (q & Hq & Hf & ->). by exists q.
    + destruct (A2 x E1) as (q & Hq & Hf & ->), (B1 E2) as [-> ->].
      exists q. rewrite !app_nil_r. done.
Qed.

(** ** Matching *)
Implicit Types (leaves : Z).

(** The execution of a passive order is an answer to its owner, and one to the aggressor. *)
Lemma execution_answers a leaves o s :
  trading_side s → s = a_side a → s_side o = opp s →
  let e := execution a leaves o in
  answers (opp s) e.1.1 = (if decide (s_client o = c) then
     [mkMEClientResponse ClientResponseType_FILLED (s_client o) (a_ticker a) (s_coid o) (s_moid o) (s_side o)
        (s_price o) (Z.min leaves (s_qty o)) e.2] else []) ∧
  answers s e.1.1 = (if decide (a_client a = c) then
     [mkMEClientResponse ClientResponseType_FILLED (a_client a) (a_ticker a) (a_coid a) (a_moid a) s
        (s_price o) (Z.min leaves (s_qty o)) e.1.2] else []).
Proof.
  intros Hs Ha Ho e. assert (s ≠ opp s) as Hne by (by destruct Hs as [->| ->]).
  unfold answers, e, execution. cbn [fst snd responses omap list_omap rsp_client_id_ rsp_side_].
  rewrite <- Ha, Ho. split.
  - rewrite filter_cons_False by (cbn; naive_solver). rewrite filter_cons. cbn [rsp_client_id_ rsp_side_].
    repeat case_decide; naive_solver.
  - rewrite filter_cons. cbn [rsp_client_id_ rsp_side_].
    assert (∀ r, rsp_side_ r = opp s → filter (λ r, rsp_client_id_ r = c ∧ rsp_side_ r = s) [r] = []) as Hnil.
    { intros r Hr. rewrite filter_cons_False; [done|]. rewrite Hr. naive_solver. }
    rewrite Hnil by done. repeat case_decide; naive_solver.
Qed.

Lemma execution_accounts a leaves o :
  trading_side (a_side a) → 0 < leaves → resting (opp (a_side a)) o →
  let e := execution a leaves o in
  accounts (opp (a_side a)) [o] e.1.1 (if e.2 =? 0 then [] else [with_qty e.2 o]).
Proof.
  intros Hs Hl (Ho & Hq & Hp) e. destruct (execution_answers a leaves o (a_side a) Hs eq_refl Ho) as [Ha _].
  fold e in Ha. unfold accounts, mine. rewrite Ha, filter_cons. case_decide as Hc.
  - split; [done|]. intros x [= <-]. exists e.2. unfold e in *. cbn [execution fst snd] in *. split; [lia|].
    split; [cbn; split_and!; try lia; done|]. unfold keep. destruct (_ =? 0); [done|].
    by rewrite filter_cons_True.
  - split; [|done]. intros _. split; [done|]. destruct (_ =? 0); [done|]. by rewrite filter_cons_False.
Qed.

Lemma execution_fills a leaves o :
  trading_side (a_side a) → 0 < leaves → resting (opp (a_side a)) o → a_client a = c →
  let e := execution a leaves o in fills leaves (answers (a_side a) e.1.1) e.1.2 ∧ 0 ≤ e.1.2.
Proof.
  intros Hs Hl (Ho & Hq & Hp) Hc e. destruct (execution_answers a leaves o (a_side a) Hs eq_refl Ho) as [_ Ha].
  fold e in Ha. rewrite Ha, decide_True by done. unfold e. cbn [execution fst snd fills rsp_type_ rsp_exec_qty_
    rsp_leaves_qty_ rsp_price_]. split_and!; try lia; done.
Qed.

(** The side of the aggressor is silent for all others. *)
Lemma execution_silent a leaves o :
  trading_side (a_side a) → s_side o = opp (a_side a) → a_client a ≠ c →
  answers (a_side a) (execution a leaves o).1.1 = [].
Proof.
  intros Hs Ho Hc. destruct (execution_answers a leaves o (a_side a) Hs eq_refl Ho) as [_ ->].
  by rewrite decide_False.
Qed.

(** What matching means for the client, on both sides. *)
Definition seen a leaves (before : list Order) evs leaves' (after : list Order) : Prop :=
  accounts (opp (a_side a)) before evs after ∧ 0 ≤ leaves' ≤ leaves ∧
  (a_client a = c → fills leaves (answers (a_side a) evs) leaves') ∧
  (a_client a ≠ c → answers (a_side a) evs = []).

Lemma seen_refl a leaves os : 0 ≤ leaves → Forall (resting (opp (a_side a))) os → seen a leaves os [] leaves os.
Proof. intros Hl Hr. split; [by apply accounts_refl|]. split_and!; [lia|lia|done|done]. Qed.

Lemma seen_app a l os1 evs1 l1 os1' os2 evs2 l2 os2' :
  seen a l os1 evs1 l1 os1' → seen a l1 os2 evs2 l2 os2' → seen a l (os1 ++ os2) (evs1 ++ evs2) l2 (os1' ++ os2').
Proof.
  intros (A1 & A2 & A3 & A4) (B1 & B2 & B3 & B4). split; [by apply accounts_app|].
  rewrite answers_app. split_and!; [lia|lia| |].
  - intros Hc. eapply fills_app; [by apply A3|by apply B3].
  - intros Hc. by rewrite A4, B4.
Qed.

Lemma seen_execution a leaves o :
  trading_side (a_side a) → 0 < leaves → resting (opp (a_side a)) o →
  let e := execution a leaves o in seen a leaves [o] e.1.1 e.1.2 (if e.2 =? 0 then [] else [with_qty e.2 o]).
Proof.
  intros Hs Hl Ho e. split; [by apply execution_accounts|]. split_and!.
  - unfold e. cbn. lia.
  - unfold e. destruct Ho as (_ & ? & _). cbn. lia.
  - intros Hc. by apply execution_fills.
  - intros Hc. apply execution_silent; [done|apply Ho|done].
Qed.

Lemma seen_fill_level a leaves os :
  trading_side (a_side a) → 0 ≤ leaves → Forall (resting (opp (a_side a))) os →
  let x := fill_level a leaves os in seen a leaves os x.1.1 x.1.2 x.2.
Proof.
  intros Hs. revert leaves. induction os as [|o os IH]; intros leaves Hl Hf; cbn [fill_level].
  { by apply seen_refl. }
  destruct (leaves =? 0) eqn:E0; [by apply seen_refl|]. pose proof Hf as [Ho Hf']%Forall_cons.
  pose proof (seen_execution a leaves o Hs ltac:(lia) Ho) as He.
  destruct (execution a leaves o) as [[evs l] q]. cbn [fst snd] in He.
  pose proof He as (_ & Hl' & _). specialize (IH l ltac:(lia) Hf'). destruct (q =? 0).
  - destruct (fill_level a l os) as [[evs' l'] os']. cbn [fst snd] in *.
    exact (seen_app _ _ _ _ _ _ _ _ _ _ He IH).
  - cbn [fst snd]. pose proof (seen_app _ _ _ _ _ _ _ _ _ _ He (seen_refl a l os ltac:(lia) Hf')) as Hx.
    by rewrite app_nil_r in Hx.
Qed.

Lemma seen_sweep a leaves ls :
  trading_side (a_side a) → 0 ≤ leaves → Forall (resting (opp (a_side a))) (flat ls) →
  let x := sweep a leaves ls in seen a leaves (flat ls) x.1.1 x.1.2 (flat x.2).
Proof.
  intros Hs. revert leaves. induction ls as [|[p os] ls IH]; intros leaves Hl Hf; cbn [sweep].
  { by apply seen_refl. }
  destruct (_ || _); [by apply seen_refl|]. rewrite flat_cons in *.
  apply Forall_app in Hf as [Ho Hf]. pose proof (seen_fill_level a leaves os Hs Hl Ho) as He.
  destruct (fill_level a leaves os) as [[evs l] os'] eqn:E. cbn [fst snd] in He.
  pose proof He as (_ & Hl' & _). specialize (IH l ltac:(lia) Hf). destruct os' as [|o' os'].
  - destruct (sweep a l ls) as [[evs' l'] ls']. cbn [fst snd] in *.
    exact (seen_app _ _ _ _ _ _ _ _ _ _ He IH).
  - cbn [fst snd]. rewrite flat_cons. pose proof (seen_app _ _ _ _ _ _ _ _ _ _ He (seen_refl a l (flat ls) ltac:(lia) Hf)) as Hx.
    by rewrite app_nil_r in Hx.
Qed.
End ClientView.
