(* ===== verification/ClientRequests.v ===== *)
(** * What a request does to the orders of one client

    The two requests, the client's own and those of others, as the client sees them: a new order is
    accepted and then executed by what the answers say, a cancel takes out the order or is rejected,
    and all that others do to its orders is to execute them.  What the exchange sends to the client is the
    answers to its orders, ticker by ticker and side by side, and nothing else but rejected cancels. *)
From S2P Require Import Prelude Types EngineSink BookSpec BookSweep BookInv MEOrderBook.
From S2P Require Import BookRep BookRefine BookTheorems BookReplay MatchingEngine ClientView.
Implicit Types (o x : Order) (s : Side) (bk : Book).

(** A well-formed book whose prices fit 32 bits. *)
Definition book_good bk : Prop := wf_book bk ∧ ∀ o, o ∈ book_orders bk → Z.abs (s_price o) < 2 ^ 31.

Lemma good_resting bk s : trading_side s → book_good bk → Forall (resting s) (flat (sel s (levels bk))).
Proof.
  intros Hs [Hwf Hp]. apply Forall_forall. intros o Ho.
  assert (side_ok s (sel s (levels bk))) as [Hok _].
  { destruct Hs as [->| ->]; [apply (wf_bids _ Hwf)|apply (wf_asks _ Hwf)]. }
  assert (o ∈ book_orders bk) as Hin by (apply (book_orders_side s); [done|by left]).
  apply list_elem_of_bind in Ho as ([p os] & Ho & Hl). rewrite Forall_forall in Hok.
  destruct (Hok _ Hl) as [_ Hf]. rewrite Forall_forall in Hf. destruct (Hf _ Ho) as (? & ? & ?).
  split_and!; [done|lia|by apply Hp].
Qed.

(** ** Books stay good *)
Lemma good_add bk client coid t s price qty :
  book_good bk → trading_side s → is_u32 qty → fresh client coid bk → next_id bk < 2 ^ 64 - 1 →
  Z.abs price < 2 ^ 31 → book_good (spec_add client coid t s price qty bk).1.
Proof.
  intros [Hwf Hp] Hs Hq Hf Hn Hpr. split; [by apply wf_spec_add|]. unfold spec_add.
  set (a := mkAggressor _ _ _ _ _ _).
  assert (wf_levels (sel (opp s) (levels bk))) as Hwl.
  { destruct Hs as [->| ->]; [apply (side_ok_wf_levels Side_SELL), (wf_asks _ Hwf)
                             |apply (side_ok_wf_levels Side_BUY), (wf_bids _ Hwf)]. }
  destruct (sweep_remains a qty _ (proj1 Hq) Hwl) as (_ & Hr & _).
  destruct (sweep a qty _) as [[evs leaves] passive]. cbn [fst snd] in Hr.
  assert (∀ n, ∀ o, o ∈ book_orders (mkBook (upd (opp s) passive (levels bk)) n) → Z.abs (s_price o) < 2 ^ 31) as Hsw.
  { intros n o. rewrite (book_orders_side s) by done. cbn [levels]. rewrite sel_upd_opp, sel_upd by done.
    intros [Ho|Ho].
    - apply Hp. apply (book_orders_side s); [done|by left].
    - destruct (remains_orders _ _ _ Hwl Hr Ho) as (o' & q & Ho' & _ & ->). apply (Hp o').
      apply (book_orders_side s); [done|by right]. }
  destruct (leaves =? 0); cbn [fst]; [by apply Hsw|]. intros o.
  rewrite (book_orders_side s) by done. cbn [levels]. rewrite sel_upd, sel_opp_upd by done.
  rewrite insert_order_flat. intros [[->|Ho]%elem_of_cons|Ho]; [done| |].
  - apply (Hsw 0). apply (book_orders_side s); [done|by left].
  - apply (Hsw 0). apply (book_orders_side s); [done|by right].
Qed.

Lemma good_cancel bk client oid t : book_good bk → book_good (spec_cancel client oid t bk).1.
Proof.
  intros [Hwf Hp]. split; [by apply wf_spec_cancel|]. unfold spec_cancel.
  destruct (find_order client oid bk); [|done]. intros x. unfold book_orders at 1.
  cbn [fst snd levels]. rewrite delete_book_orders. intros [_ Hx]%list_elem_of_filter. by apply Hp.
Qed.

Section ClientRequests.
Context (c : Z).

(** The client's orders on side [s] of the book. *)
Definition mine_on s bk : list Order := mine c (flat (sel s (levels bk))).

(** What happens to the orders of side [s]. *)
Definition accounted s bk (y : Book * list event) : Prop :=
  accounts c s (flat (sel s (levels bk))) y.2 (flat (sel s (levels y.1))).

Lemma accounts_silent s os evs os' :
  Forall (resting s) os → answers c s evs = [] → mine c os' = mine c os → accounts c s os evs os'.
Proof. intros Hr Ha Hm. destruct (accounts_refl c s os Hr) as [A1 A2]. unfold accounts. rewrite Ha, Hm. by split. Qed.

Lemma mine_insert o ls :
  (length (mine c (flat ls)) ≤ 1)%nat →
  mine c (flat (insert_order o ls)) = mine c (flat ls) ∧ s_client o ≠ c ∨
  mine c (flat (insert_order o ls)) ≡ₚ o :: mine c (flat ls) ∧ s_client o = c.
Proof.
  intros Hlen. pose proof (insert_order_flat o ls) as Hp.
  apply (filter_Permutation (λ o, s_client o = c)) in Hp. rewrite filter_cons in Hp. fold (mine c) in Hp.
  case_decide as Hc; [by right|left]. split; [|done]. change (filter (λ o, s_client o = c)) with (mine c) in Hp.
  destruct (mine c (flat ls)) as [|x [|]]; [by apply Permutation_nil_r in Hp|by apply Permutation_singleton_r in Hp|].
  cbn in Hlen. lia.
Qed.

(** ** A new order *)
Lemma add_answers client coid t s s' price qty bk :
  trading_side s → trading_side s' →
  let a := mkAggressor client coid t s price (u32 (next_id bk)) in
  answers c s' (spec_add client coid t s price qty bk).2 =
  (if decide (client = c ∧ s = s') then
     [mkMEClientResponse ClientResponseType_ACCEPTED client t coid (next_id bk) s price 0 qty] else [])
  ++ answers c s' (sweep a qty (sel (opp s) (levels bk))).1.1.
Proof.
  intros Hs Hs' a. unfold spec_add. fold a. destruct (sweep a qty _) as [[evs leaves] passive]. cbn [fst snd].
  set (r := mkMEClientResponse ClientResponseType_ACCEPTED _ _ _ _ _ _ _ _).
  assert (answers c s' [Response r] = if decide (client = c ∧ s = s') then [r] else []) as Hr.
  { unfold answers, responses, r. cbn [omap list_omap]. rewrite filter_cons. cbn [rsp_client_id_ rsp_side_].
    repeat case_decide; naive_solver. }
  assert (∀ l, answers c s' (Response r :: l) = answers c s' [Response r] ++ answers c s' l) as Hcons
    by (intros l; apply (answers_app c s' [Response r])).
  destruct (leaves =? 0); cbn [snd]; rewrite Hcons, Hr; [done|].
  rewrite answers_app. cbn. by rewrite app_nil_r.
Qed.

(** The executions of a new order on the other side. *)
Lemma add_opposite client coid t s price qty bk :
  trading_side s → 0 ≤ qty → book_good bk → accounted (opp s) bk (spec_add client coid t s price qty bk).
Proof.
  intros Hs Hq Hb. pose proof (opp_trading s Hs) as Hos. unfold accounted, accounts.
  rewrite (add_answers client coid t s (opp s)) by done. rewrite decide_False by (destruct Hs as [->| ->]; naive_solver).
  set (a := mkAggressor client coid t s price (u32 (next_id bk))).
  destruct (seen_sweep c a qty (sel (opp s) (levels bk)) Hs Hq (good_resting _ _ Hos Hb)) as ([A1 A2] & _).
  assert (sel (opp s) (levels (spec_add client coid t s price qty bk).1)
          = (sweep a qty (sel (opp s) (levels bk))).2) as ->.
  { unfold spec_add. fold a. destruct (sweep a qty _) as [[evs leaves] passive]. cbn [snd].
    destruct (leaves =? 0); cbn [fst levels]; [by rewrite sel_upd|].
    by rewrite sel_opp_upd, sel_upd. }
  by split.
Qed.

(** A new order of another client. *)
Lemma add_other client coid t s price qty bk :
  trading_side s → 0 ≤ qty → book_good bk → client ≠ c → (length (mine_on s bk) ≤ 1)%nat →
  accounted s bk (spec_add client coid t s price qty bk).
Proof.
  intros Hs Hq Hb Hc Hlen. pose proof (opp_trading s Hs) as Hos. apply accounts_silent; [by apply good_resting| |].
  - rewrite (add_answers client coid t s s) by done. rewrite decide_False by naive_solver.
    set (a := mkAggressor client coid t s price (u32 (next_id bk))).
    destruct (seen_sweep c a qty (sel (opp s) (levels bk)) Hs Hq (good_resting _ _ Hos Hb)) as (_ & _ & _ & Hsil).
    by apply Hsil.
  - unfold spec_add. destruct (sweep _ qty _) as [[evs leaves] passive].
    destruct (leaves =? 0); cbn [fst levels]; [by rewrite sel_upd_opp|]. rewrite sel_upd, sel_upd_opp by done.
    by destruct (mine_insert (mkOrder t client coid (next_id bk) s price leaves (next_priority price (sel s (levels bk))))
      (sel s (levels bk)) Hlen) as [[-> _]|[_ ?]].
Qed.

(** The client's own new order: it is accepted, executed, and what is left of it rests. *)
Lemma add_own coid t s price qty bk :
  trading_side s → 0 ≤ qty → book_good bk → mine_on s bk = [] →
  let y := spec_add c coid t s price qty bk in
  ∃ r rs leaves, answers c s y.2 = r :: rs ∧ rsp_type_ r = ClientResponseType_ACCEPTED ∧ 0 ≤ leaves ≤ qty ∧
    fills qty rs leaves ∧
    (leaves = 0 ∧ mine_on s y.1 = [] ∨
     0 < leaves ∧ ∃ x, mine_on s y.1 = [x] ∧ s_client x = c ∧ s_coid x = coid ∧ s_qty x = leaves).
Proof.
  intros Hs Hq Hb Hm y. pose proof (opp_trading s Hs) as Hos. unfold y. rewrite (add_answers c coid t s s) by done.
  rewrite decide_True by done. set (a := mkAggressor c coid t s price (u32 (next_id bk))).
  destruct (seen_sweep c a qty (sel (opp s) (levels bk)) Hs Hq (good_resting _ _ Hos Hb)) as (_ & Hl & Hf & _).
  eexists _, _, _. split; [done|]. split; [done|]. split; [exact Hl|]. split; [by apply Hf|].
  unfold spec_add. fold a. destruct (sweep a qty _) as [[evs leaves] passive]. cbn [fst snd] in Hl |- *.
  unfold mine_on in *. destruct (leaves =? 0) eqn:E; cbn [fst levels].
  - left. split; [lia|]. by rewrite sel_upd_opp.
  - right. split; [lia|]. rewrite sel_upd, sel_upd_opp by done.
    set (o := mkOrder _ _ _ _ _ _ _ _).
    destruct (mine_insert o (sel s (levels bk))) as [[_ ?]|[Hp _]]; [rewrite Hm; cbn; lia|done|].
    rewrite Hm in Hp. apply Permutation_singleton_r in Hp. by exists o.
Qed.

(** ** A cancel *)
Lemma mine_delete client oid ls :
  Forall (λ x, ¬ has_key client oid x) (mine c (flat ls)) → mine c (flat (delete_order client oid ls)) = mine c (flat ls).
Proof.
  intros Hf. rewrite delete_order_flat. unfold mine in *. rewrite list_filter_filter.
  induction (flat ls) as [|x os IH]; [done|]. rewrite !filter_cons in *.
  destruct (decide (s_client x = c)) as [Hc|Hc].
  - apply Forall_cons in Hf as [Hx Hf]. rewrite decide_True by done. f_equal. by apply IH.
  - rewrite decide_False by naive_solver. by apply IH.
Qed.

Lemma cancel_answers client oid t s bk :
  trading_side s →
  answers c s (spec_cancel client oid t bk).2 =
  match find_order client oid bk with
  | Some x => if decide (client = c ∧ s_side x = s) then
      [mkMEClientResponse ClientResponseType_CANCELED client t oid (s_moid x) s (s_price x) Qty_INVALID (s_qty x)]
      else []
  | None => []
  end.
Proof.
  intros Hs. unfold spec_cancel, answers. destruct (find_order client oid bk) as [x|].
  - cbn [snd responses omap list_omap]. rewrite filter_cons. cbn [rsp_client_id_ rsp_side_].
    repeat case_decide; naive_solver.
  - cbn [snd responses omap list_omap]. rewrite filter_cons_False; [done|]. cbn.
    destruct Hs as [->| ->]; naive_solver.
Qed.

Lemma order_side bk x :
  book_good bk → x ∈ book_orders bk → trading_side (s_side x) ∧ x ∈ flat (sel (s_side x) (levels bk)).
Proof.
  intros Hb. pose proof (good_resting bk Side_BUY (or_introl eq_refl) Hb) as Hbuy.
  pose proof (good_resting bk Side_SELL (or_intror eq_refl) Hb) as Hsell. rewrite !Forall_forall in *.
  unfold book_orders. intros [Hx|Hx]%elem_of_app.
  - destruct (Hbuy x Hx) as (-> & _). split; [by left|done].
  - destruct (Hsell x Hx) as (-> & _). split; [by right|done].
Qed.

(** A cancel that concerns no order of the client on side [s]. *)
Lemma cancel_other client oid t s bk :
  trading_side s → book_good bk → Forall (λ x, ¬ has_key client oid x) (mine_on s bk) →
  accounted s bk (spec_cancel client oid t bk).
Proof.
  intros Hs Hb Hf. apply accounts_silent; [by apply good_resting| |].
  - rewrite cancel_answers by done. destruct (find_order client oid bk) as [x|] eqn:E; [|done].
    rewrite decide_False; [done|]. intros [-> Hx]. apply find_order_Some in E as [Hin Hk].
    apply (order_side _ _ Hb) in Hin as [_ Hin]. rewrite Hx in Hin. rewrite Forall_forall in Hf.
    apply (Hf x); [|done]. apply list_elem_of_filter. split; [apply Hk|done].
  - unfold spec_cancel. destruct (find_order client oid bk); [|done]. cbn [fst levels].
    destruct Hs as [->| ->]; by apply mine_delete.
Qed.

(** The client cancels its order of side [s]. *)
Lemma cancel_own t s bk x :
  trading_side s → book_good bk → mine_on s bk = [x] →
  let y := spec_cancel c (s_coid x) t bk in
  ∃ r, answers c s y.2 = [r] ∧ rsp_type_ r = ClientResponseType_CANCELED ∧ mine_on s y.1 = [].
Proof.
  intros Hs Hb Hm y. assert (x ∈ mine_on s bk) as [Hc Hin]%list_elem_of_filter by (rewrite Hm; set_solver).
  pose proof (good_resting bk s Hs Hb) as Hr. rewrite Forall_forall in Hr. destruct (Hr x Hin) as [Hsx _].
  assert (x ∈ book_orders bk) as Hxb by (apply (book_orders_side s); [done|by left]).
  unfold y. rewrite cancel_answers by done. destruct (find_order c (s_coid x) bk) as [z|] eqn:E.
  - apply find_order_Some in E as Hz. destruct Hz as [Hz [Hz1 Hz2]].
    assert (z = x) as ->.
    { pose proof (wf_keys _ (proj1 Hb)) as Hnd. apply list_elem_of_lookup in Hz as [i Hi], Hxb as [j Hj].
      assert (i = j) as <-; [|congruence]. eapply NoDup_lookup; [exact Hnd|by rewrite list_lookup_fmap, Hi|].
      rewrite list_lookup_fmap, Hj. cbn. f_equal. unfold key. congruence. }
    rewrite decide_True by done. eexists. split; [done|]. split; [done|].
    unfold mine_on, spec_cancel. rewrite E. cbn [fst levels].
    assert (∀ ls, mine c (flat ls) = [x] → mine c (flat (delete_order c (s_coid x) ls)) = []) as Hdel.
    { intros ls Hl. rewrite delete_order_flat. unfold mine in *. rewrite list_filter_filter.
      assert (filter (λ o, s_client o = c ∧ ¬ has_key c (s_coid x) o) (flat ls)
              = filter (λ o, ¬ has_key c (s_coid x) o ∧ s_client o = c) (flat ls)) as ->
        by (apply list_filter_iff; tauto).
      rewrite <- list_filter_filter, Hl. rewrite filter_cons_False; [done|]. intros Hn. by apply Hn. }
    destruct Hs as [->| ->]; by apply Hdel.
  - exfalso. unfold find_order in E. assert (x ∈ filter (has_key c (s_coid x)) (book_orders bk)) as Hx
      by (by apply list_elem_of_filter).
    destruct (filter _ _); [by apply not_elem_of_nil in Hx|done].
Qed.
End ClientRequests.

(** * The messages between a client and the exchange, order by order *)
Implicit Types (r : MEClientResponse) (rs : list MEClientResponse) (req : MEClientRequest) (reqs : list MEClientRequest)
  (evs : list event).

(** ** Messages about one order *)
Definition requests_for (t : Z) s reqs : list MEClientRequest :=
  filter (λ req, req_ticker_id_ req = t ∧ req_side_ req = s) reqs.
Definition answers_for (t : Z) s rs : list MEClientResponse :=
  filter (λ r, rsp_ticker_id_ r = t ∧ rsp_side_ r = s) rs.

(** What the exchange sends to the client. *)
Definition sent_to (c : Z) evs : list MEClientResponse := filter (λ r, rsp_client_id_ r = c) (responses evs).

Lemma requests_for_app t s reqs reqs' : requests_for t s (reqs ++ reqs') = requests_for t s reqs ++ requests_for t s reqs'.
Proof. apply filter_app. Qed.
Lemma answers_for_app t s rs rs' : answers_for t s (rs ++ rs') = answers_for t s rs ++ answers_for t s rs'.
Proof. apply filter_app. Qed.

Lemma requests_for_cons t s req reqs :
  requests_for t s (req :: reqs) =
  (if decide (req_ticker_id_ req = t ∧ req_side_ req = s) then [req] else []) ++ requests_for t s reqs.
Proof. unfold requests_for. rewrite filter_cons. by case_decide. Qed.
Lemma answers_for_cons t s r rs :
  answers_for t s (r :: rs) =
  (if decide (rsp_ticker_id_ r = t ∧ rsp_side_ r = s) then [r] else []) ++ answers_for t s rs.
Proof. unfold answers_for. rewrite filter_cons. by case_decide. Qed.

(** An answer is about an order of a ticker, or it rejects a cancel. *)
Definition answer_wf (n : nat) r : Prop :=
  0 ≤ rsp_ticker_id_ r ∧ (Z.to_nat (rsp_ticker_id_ r) < n)%nat ∧
  (trading_side (rsp_side_ r) ∨ rsp_type_ r = ClientResponseType_CANCEL_REJECTED ∧ rsp_side_ r = Side_INVALID).
Definition request_wf (n : nat) req : Prop :=
  0 ≤ req_ticker_id_ req ∧ (Z.to_nat (req_ticker_id_ req) < n)%nat ∧ trading_side (req_side_ req).

(** ** The responses of the exchange *)
Definition response_ok (t : Z) (ev : event) : Prop :=
  match ev with
  | Response r => rsp_ticker_id_ r = t ∧
      (trading_side (rsp_side_ r) ∨ rsp_type_ r = ClientResponseType_CANCEL_REJECTED ∧ rsp_side_ r = Side_INVALID)
  | Update _ => True
  end.

Lemma execution_responses a leaves x :
  trading_side (a_side a) → trading_side (s_side x) → Forall (response_ok (a_ticker a)) (execution a leaves x).1.1.
Proof.
  intros Ha Hx. cbn [execution fst]. rewrite !Forall_cons. cbn [response_ok]. split_and!; try done; first [by left|by constructor].
Qed.

Lemma sweep_responses a leaves ls :
  trading_side (a_side a) → Forall (λ x, trading_side (s_side x)) (flat ls) →
  Forall (response_ok (a_ticker a)) (sweep a leaves ls).1.1.
Proof.
  intros Ha. apply sweep_events. intros l o. by apply execution_responses.
Qed.

Lemma request_responses req bk :
  book_good bk → (req_type_ req = ClientRequestType_NEW → trading_side (req_side_ req)) →
  Forall (response_ok (req_ticker_id_ req)) (spec_request req bk).2.
Proof.
  intros Hb Hs. unfold spec_request. destruct (req_type_ req); [constructor| |].
  - specialize (Hs eq_refl). unfold spec_add. set (a := mkAggressor _ _ _ _ _ _).
    pose proof (sweep_responses a (req_qty_ req) (sel (opp (req_side_ req)) (levels bk)) Hs) as Hsw.
    assert (Forall (λ x, trading_side (s_side x)) (flat (sel (opp (req_side_ req)) (levels bk)))) as Hf.
    { eapply Forall_impl; [apply good_resting; [by apply opp_trading|exact Hb]|].
      intros x (-> & _). by apply opp_trading. }
    specialize (Hsw Hf). destruct (sweep a _ _) as [[evs l] ls]. cbn [fst] in Hsw.
    assert (response_ok (req_ticker_id_ req) (Response (mkMEClientResponse ClientResponseType_ACCEPTED (req_client_id_ req)
      (req_ticker_id_ req) (req_order_id_ req) (next_id bk) (req_side_ req) (req_price_ req) 0 (req_qty_ req)))) as Hacc
      by (split; [done|by left]).
    destruct (l =? 0); cbn [snd]; constructor; try done. apply Forall_app. split; [done|]. by constructor.
  - unfold spec_cancel. destruct (find_order _ _ _) as [x|] eqn:E.
    + apply find_order_Some in E as [Hx _]. apply (order_side _ _ Hb) in Hx as [Hx _].
      cbn [snd]. rewrite !Forall_cons. cbn [response_ok]. split_and!; try done; first [by left|by constructor].
    + cbn [snd]. rewrite !Forall_cons. cbn [response_ok]. split_and!; try done; first [by right|by constructor].
Qed.

(** The answers that the client sees, order by order. *)
Lemma sent_for c t evs s :
  Forall (response_ok t) evs → answers_for t s (sent_to c evs) = answers c s evs.
Proof.
  unfold sent_to, answers_for, answers. rewrite list_filter_filter. induction 1 as [|[r|u] evs Hev Hevs IH]; [done| |exact IH].
  change (responses (Response r :: evs)) with (r :: responses evs). rewrite !filter_cons, IH. destruct Hev as [<- _].
  repeat case_decide; naive_solver.
Qed.

Lemma sent_for_other c t t' evs s : t' ≠ t → Forall (response_ok t) evs → answers_for t' s (sent_to c evs) = [].
Proof.
  intros Hne. unfold sent_to, answers_for. rewrite list_filter_filter.
  induction 1 as [|[r|u] evs Hev Hevs IH]; [done| |exact IH].
  change (responses (Response r :: evs)) with (r :: responses evs). rewrite filter_cons, IH. destruct Hev as [<- _].
  case_decide; naive_solver.
Qed.

Lemma sent_wf c n t evs :
  0 ≤ t → (Z.to_nat t < n)%nat → Forall (response_ok t) evs → Forall (answer_wf n) (sent_to c evs).
Proof.
  intros Ht Hn. unfold sent_to. induction 1 as [|[r|u] evs Hev Hevs IH]; [constructor| |exact IH].
  change (responses (Response r :: evs)) with (r :: responses evs). rewrite filter_cons.
  case_decide; [|done]. constructor; [|done]. destruct Hev as [<- ?]. by split_and!.
Qed.
