(* ===== verification/Wire.v ===== *)
(** * The wire format

    The messages travel as the bytes of packed structs (#pragma pack(push, 1)): the members one
    after the other, little endian, two's complement, on the platforms the code is built for.
    [Wire] is what a message type promises to the socket code: its size, its bytes, and that
    reading the bytes back gives the message.  A byte that names no enumerator is read as
    INVALID: the components treat the two alike. *)
From S2P Require Import Prelude Types.
(** ** Integers *)
Fixpoint le (n : nat) (z : Z) : list Z :=
  match n with O => [] | S n => z `mod` 256 :: le n (z / 256) end.

Fixpoint un_le (bs : list Z) : Z :=
  match bs with [] => 0 | b :: bs => b + 256 * un_le bs end.

Lemma length_le n z : length (le n z) = n.
Proof. revert z. induction n as [|n IH]; intros z; cbn; [done|]. by rewrite IH. Qed.

Lemma un_le_le n z : un_le (le n z) = z `mod` 2 ^ (8 * Z.of_nat n).
Proof.
  revert z. induction n as [|n IH]; intros z; cbn [le un_le]; [by rewrite Z.mod_1_r|].
  rewrite IH. replace (2 ^ (8 * Z.of_nat (S n))) with (256 * 2 ^ (8 * Z.of_nat n)).
  - rewrite Z.rem_mul_r by lia. done.
  - rewrite Nat2Z.inj_succ, Z.mul_succ_r, Z.pow_add_r by lia. change (2 ^ 8) with 256. lia.
Qed.

(** A member of [n] bytes at the front of the bytes, and what follows. *)
Definition get (n : nat) (bs : list Z) : Z * list Z := (un_le (take n bs), drop n bs).

Lemma get_le n z rest : get n (le n z ++ rest) = (z `mod` 2 ^ (8 * Z.of_nat n), rest).
Proof.
  unfold get. rewrite take_app_le, take_ge, drop_app_ge, length_le, Nat.sub_diag by (by rewrite length_le).
  by rewrite un_le_le.
Qed.

(** ** Enumerations *)
Definition side_code (s : Side) : Z := sideToValue s `mod` 256.
Definition side_of (b : Z) : Side :=
  if b =? 1 then Side_BUY else if b =? 255 then Side_SELL else if b =? 2 then Side_MAX else Side_INVALID.

Definition request_code (t : ClientRequestType) : Z :=
  match t with
  | ClientRequestType_INVALID => 0 | ClientRequestType_NEW => 1 | ClientRequestType_CANCEL => 2
  end.
Definition request_of (b : Z) : ClientRequestType :=
  if b =? 1 then ClientRequestType_NEW else if b =? 2 then ClientRequestType_CANCEL
  else ClientRequestType_INVALID.

Definition response_code (t : ClientResponseType) : Z :=
  match t with
  | ClientResponseType_INVALID => 0 | ClientResponseType_ACCEPTED => 1
  | ClientResponseType_CANCELED => 2 | ClientResponseType_FILLED => 3
  | ClientResponseType_CANCEL_REJECTED => 4
  end.
Definition response_of (b : Z) : ClientResponseType :=
  if b =? 1 then ClientResponseType_ACCEPTED else if b =? 2 then ClientResponseType_CANCELED
  else if b =? 3 then ClientResponseType_FILLED
  else if b =? 4 then ClientResponseType_CANCEL_REJECTED else ClientResponseType_INVALID.

Definition update_code (t : MarketUpdateType) : Z :=
  match t with
  | MarketUpdateType_INVALID => 0 | MarketUpdateType_CLEAR => 1 | MarketUpdateType_ADD => 2
  | MarketUpdateType_MODIFY => 3 | MarketUpdateType_CANCEL => 4 | MarketUpdateType_TRADE => 5
  | MarketUpdateType_SNAPSHOT_START => 6 | MarketUpdateType_SNAPSHOT_END => 7
  end.
Definition update_of (b : Z) : MarketUpdateType :=
  if b =? 1 then MarketUpdateType_CLEAR else if b =? 2 then MarketUpdateType_ADD
  else if b =? 3 then MarketUpdateType_MODIFY else if b =? 4 then MarketUpdateType_CANCEL
  else if b =? 5 then MarketUpdateType_TRADE else if b =? 6 then MarketUpdateType_SNAPSHOT_START
  else if b =? 7 then MarketUpdateType_SNAPSHOT_END else MarketUpdateType_INVALID.

(** ** The interface *)
Class Wire (A : Type) := {
  wire_size : nat;
  encode : A → list Z;
  decode : list Z → A;
  in_range : A → Prop
}.

Class WireLaws (A : Type) `{Wire A} : Prop := {
  wire_size_pos : (0 < wire_size)%nat;
  length_encode a : length (encode a) = wire_size;
  decode_encode a rest : in_range a → decode (encode a ++ rest) = a
}.

Definition in_i64P (z : Z) : Prop := - 2 ^ 63 ≤ z < 2 ^ 63.

#[export] Instance wire_request : Wire MEClientRequest := {|
  wire_size := 30;
  encode r := le 1 (request_code (req_type_ r)) ++ le 4 (req_client_id_ r) ++ le 4 (req_ticker_id_ r)
    ++ le 8 (req_order_id_ r) ++ le 1 (side_code (req_side_ r)) ++ le 8 (req_price_ r)
    ++ le 4 (req_qty_ r);
  decode bs :=
    let '(t, bs) := get 1 bs in let '(c, bs) := get 4 bs in let '(k, bs) := get 4 bs in
    let '(o, bs) := get 8 bs in let '(s, bs) := get 1 bs in let '(p, bs) := get 8 bs in
    let '(q, bs) := get 4 bs in
    mkMEClientRequest (request_of t) c k o (side_of s) (i64 p) q;
  in_range r := is_u32 (req_client_id_ r) ∧ is_u32 (req_ticker_id_ r) ∧ is_u64 (req_order_id_ r) ∧
    in_i64P (req_price_ r) ∧ is_u32 (req_qty_ r)
|}.

#[export] Instance wire_response : Wire MEClientResponse := {|
  wire_size := 42;
  encode r := le 1 (response_code (rsp_type_ r)) ++ le 4 (rsp_client_id_ r) ++ le 4 (rsp_ticker_id_ r)
    ++ le 8 (rsp_client_order_id_ r) ++ le 8 (rsp_market_order_id_ r) ++ le 1 (side_code (rsp_side_ r))
    ++ le 8 (rsp_price_ r) ++ le 4 (rsp_exec_qty_ r) ++ le 4 (rsp_leaves_qty_ r);
  decode bs :=
    let '(t, bs) := get 1 bs in let '(c, bs) := get 4 bs in let '(k, bs) := get 4 bs in
    let '(o, bs) := get 8 bs in let '(m, bs) := get 8 bs in let '(s, bs) := get 1 bs in
    let '(p, bs) := get 8 bs in let '(q, bs) := get 4 bs in let '(l, bs) := get 4 bs in
    mkMEClientResponse (response_of t) c k o m (side_of s) (i64 p) q l;
  in_range r := is_u32 (rsp_client_id_ r) ∧ is_u32 (rsp_ticker_id_ r) ∧
    is_u64 (rsp_client_order_id_ r) ∧ is_u64 (rsp_market_order_id_ r) ∧ in_i64P (rsp_price_ r) ∧
    is_u32 (rsp_exec_qty_ r) ∧ is_u32 (rsp_leaves_qty_ r)
|}.

#[export] Instance wire_update : Wire MEMarketUpdate := {|
  wire_size := 34;
  encode u := le 1 (update_code (upd_type_ u)) ++ le 8 (upd_order_id_ u) ++ le 4 (upd_ticker_id_ u)
    ++ le 1 (side_code (upd_side_ u)) ++ le 8 (upd_price_ u) ++ le 4 (upd_qty_ u)
    ++ le 8 (upd_priority_ u);
  decode bs :=
    let '(t, bs) := get 1 bs in let '(o, bs) := get 8 bs in let '(k, bs) := get 4 bs in
    let '(s, bs) := get 1 bs in let '(p, bs) := get 8 bs in let '(q, bs) := get 4 bs in
    let '(r, bs) := get 8 bs in
    mkMEMarketUpdate (update_of t) o k (side_of s) (i64 p) q r;
  in_range u := is_u64 (upd_order_id_ u) ∧ is_u32 (upd_ticker_id_ u) ∧ in_i64P (upd_price_ u) ∧
    is_u32 (upd_qty_ u) ∧ is_u64 (upd_priority_ u)
|}.

(** A sequence number in front of a message: OMClientRequest, OMClientResponse, MDPMarketUpdate. *)
#[export] Instance wire_om_request : Wire OMClientRequest := {|
  wire_size := 38;
  encode r := le 8 (omreq_seq_num_ r) ++ encode (me_client_request_ r);
  decode bs := let '(n, bs) := get 8 bs in mkOMClientRequest n (decode bs);
  in_range r := is_u64 (omreq_seq_num_ r) ∧ in_range (me_client_request_ r)
|}.

#[export] Instance wire_om_response : Wire OMClientResponse := {|
  wire_size := 50;
  encode r := le 8 (omrsp_seq_num_ r) ++ encode (me_client_response_ r);
  decode bs := let '(n, bs) := get 8 bs in mkOMClientResponse n (decode bs);
  in_range r := is_u64 (omrsp_seq_num_ r) ∧ in_range (me_client_response_ r)
|}.

#[export] Instance wire_mdp_update : Wire MDPMarketUpdate := {|
  wire_size := 42;
  encode u := le 8 (mdp_seq_num_ u) ++ encode (me_market_update_ u);
  decode bs := let '(n, bs) := get 8 bs in mkMDPMarketUpdate n (decode bs);
  in_range u := is_u64 (mdp_seq_num_ u) ∧ in_range (me_market_update_ u)
|}.

(** ** The laws *)
Lemma side_of_code s : side_of (side_code s) = s.
Proof. by destruct s. Qed.
Lemma request_of_code t : request_of (request_code t) = t.
Proof. by destruct t. Qed.
Lemma response_of_code t : response_of (response_code t) = t.
Proof. by destruct t. Qed.
Lemma update_of_code t : update_of (update_code t) = t.
Proof. by destruct t. Qed.

Lemma code_byte z : 0 ≤ z < 256 → z `mod` 2 ^ (8 * Z.of_nat 1) = z.
Proof. apply Z.mod_small. Qed.
Lemma side_code_byte s : 0 ≤ side_code s < 256.
Proof. apply Z.mod_pos_bound. lia. Qed.
Lemma request_code_byte t : 0 ≤ request_code t < 256.
Proof. destruct t; cbn; lia. Qed.
Lemma response_code_byte t : 0 ≤ response_code t < 256.
Proof. destruct t; cbn; lia. Qed.
Lemma update_code_byte t : 0 ≤ update_code t < 256.
Proof. destruct t; cbn; lia. Qed.

Lemma u32_field z : is_u32 z → z `mod` 2 ^ (8 * Z.of_nat 4) = z.
Proof. apply Z.mod_small. Qed.
Lemma u64_field z : is_u64 z → z `mod` 2 ^ (8 * Z.of_nat 8) = z.
Proof. apply Z.mod_small. Qed.
Lemma i64_field z : in_i64P z → i64 (z `mod` 2 ^ (8 * Z.of_nat 8)) = z.
Proof.
  unfold in_i64P, i64, to_signed. intros Hz. change (2 ^ (8 * Z.of_nat 8)) with (2 ^ 64).
  change (64 - 1) with 63. rewrite Zplus_mod_idemp_l. rewrite Z.mod_small; lia.
Qed.

Create Rewrite HintDb wire.
#[export] Hint Rewrite get_le : wire.
#[export] Hint Rewrite code_byte side_of_code request_of_code response_of_code update_of_code
  u32_field u64_field i64_field
  using (first [assumption | apply side_code_byte | apply request_code_byte
    | apply response_code_byte | apply update_code_byte]) : wire.

(** Reading back a message: split the bytes member by member, then undo each member's coding. *)
Ltac wire_round :=
  rewrite <- ?app_assoc; repeat rewrite get_le; cbn iota beta; autorewrite with wire.

#[export] Instance wire_request_laws : WireLaws MEClientRequest.
Proof.
  split; [cbn; lia| |]; intros a; cbn [encode decode wire_request].
  - by rewrite !length_app, !length_le.
  - intros rest (? & ? & ? & ? & ?). wire_round. by destruct a.
Qed.

#[export] Instance wire_response_laws : WireLaws MEClientResponse.
Proof.
  split; [cbn; lia| |]; intros a; cbn [encode decode wire_response].
  - by rewrite !length_app, !length_le.
  - intros rest (? & ? & ? & ? & ? & ? & ?). wire_round. by destruct a.
Qed.

#[export] Instance wire_update_laws : WireLaws MEMarketUpdate.
Proof.
  split; [cbn; lia| |]; intros a; cbn [encode decode wire_update].
  - by rewrite !length_app, !length_le.
  - intros rest (? & ? & ? & ? & ?). wire_round. by destruct a.
Qed.

#[export] Instance wire_om_request_laws : WireLaws OMClientRequest.
Proof.
  split; [cbn; lia| |]; intros a; cbn [encode decode wire_om_request].
  - by rewrite length_app, length_le, length_encode.
  - intros rest [? ?]. wire_round. rewrite decode_encode by done. by destruct a.
Qed.

#[export] Instance wire_om_response_laws : WireLaws OMClientResponse.
Proof.
  split; [cbn; lia| |]; intros a; cbn [encode decode wire_om_response].
  - by rewrite length_app, length_le, length_encode.
  - intros rest [? ?]. wire_round. rewrite decode_encode by done. by destruct a.
Qed.

#[export] Instance wire_mdp_update_laws : WireLaws MDPMarketUpdate.
Proof.
  split; [cbn; lia| |]; intros a; cbn [encode decode wire_mdp_update].
  - by rewrite length_app, length_le, length_encode.
  - intros rest [? ?]. wire_round. rewrite decode_encode by done. by destruct a.
Qed.

(** ** Frames in a receive buffer

    The loop of every recvCallback: as long as a whole message is in the buffer, read it; what is
    left is moved to the front of the buffer. *)
Section frames.
Context {A : Type} `{WireLaws A}.

Fixpoint frames_go (fuel : nat) (bs : list Z) : list A * list Z :=
  match fuel with
  | O => ([], bs)
  | S fuel =>
      if (wire_size <=? length bs)%nat then
        let x := frames_go fuel (drop wire_size bs) in (decode bs :: x.1, x.2)
      else ([], bs)
  end.

(** Every message takes at least one byte: the length of the buffer is enough fuel. *)
Definition frames (bs : list Z) : list A * list Z := frames_go (length bs) bs.

Definition stream (ms : list A) : list Z := ms ≫= encode.

Lemma frames_go_stream fuel ms rest :
  Forall in_range ms → (length rest < wire_size)%nat →
  (length (stream ms ++ rest) ≤ fuel)%nat → frames_go fuel (stream ms ++ rest) = (ms, rest).
Proof.
  pose proof wire_size_pos as Hpos. revert fuel. induction ms as [|m ms IH]; intros fuel Hr Hlt Hf.
  - cbn [stream mbind list_bind app] in *. destruct fuel; cbn [frames_go]; [done|].
    by rewrite (proj2 (Nat.leb_gt _ _) Hlt).
  - apply Forall_cons in Hr as [Hm Hr]. change (stream (m :: ms)) with (encode m ++ stream ms) in *.
    rewrite <- app_assoc in *. rewrite length_app, length_encode in Hf.
    destruct fuel as [|fuel]; [lia|]. cbn [frames_go].
    rewrite (proj2 (Nat.leb_le _ _)) by (rewrite length_app, length_encode; lia).
    rewrite decode_encode by done.
    rewrite drop_app_ge, length_encode, Nat.sub_diag by (by rewrite length_encode).
    cbn [drop]. rewrite IH by (done || lia). done.
Qed.

Lemma frames_stream ms rest :
  Forall in_range ms → (length rest < wire_size)%nat → frames (stream ms ++ rest) = (ms, rest).
Proof. intros Hr Hlt. by apply frames_go_stream. Qed.

Lemma stream_app ms1 ms2 : stream (ms1 ++ ms2) = stream ms1 ++ stream ms2.
Proof. apply bind_app. Qed.

Lemma length_stream ms : length (stream ms) = (length ms * wire_size)%nat.
Proof.
  induction ms as [|m ms IH]; [done|]. change (stream (m :: ms)) with (encode m ++ stream ms).
  rewrite length_app, length_encode, IH. done.
Qed.

(** A prefix of a stream is some whole messages and a part of the next. *)
Lemma stream_split ms bs1 bs2 :
  stream ms = bs1 ++ bs2 →
  ∃ ms1 ms2 rest, ms = ms1 ++ ms2 ∧ bs1 = stream ms1 ++ rest ∧ (length rest < wire_size)%nat ∧
    stream ms2 = rest ++ bs2.
Proof.
  pose proof wire_size_pos as Hpos. revert bs1. induction ms as [|m ms IH]; intros bs1 Hs.
  { symmetry in Hs. apply app_eq_nil in Hs as [-> ->]. exists [], [], []. by split_and!. }
  change (stream (m :: ms)) with (encode m ++ stream ms) in Hs.
  destruct (decide (length bs1 < wire_size)%nat) as [Hlt|Hge].
  - exists [], (m :: ms), bs1. split_and!; [done|done|done|exact Hs].
  - assert (bs1 = encode m ++ drop wire_size bs1) as Hbs.
    { rewrite <- (take_drop wire_size bs1) at 1. f_equal.
      apply (f_equal (take wire_size)) in Hs.
      rewrite take_app_le in Hs by (rewrite length_encode; lia).
      rewrite take_app_le in Hs by lia.
      rewrite take_ge in Hs by (rewrite length_encode; lia). done. }
    rewrite Hbs, <- app_assoc in Hs. apply app_inv_head in Hs.
    destruct (IH _ Hs) as (ms1 & ms2 & rest & -> & Hd & Hlt & Hs2).
    exists (m :: ms1), ms2, rest. split_and!; [done| |done|done].
    change (stream (m :: ms1)) with (encode m ++ stream ms1). rewrite <- app_assoc, <- Hd. done.
Qed.
End frames.

(** ** Chunked delivery *)
Section chunks.
Context {A : Type} `{WireLaws A}.

(** A receiver that is given the bytes in chunks, keeping what is left over. *)
Fixpoint receive (left : list Z) (chunks : list (list Z)) : list A * list Z :=
  match chunks with
  | [] => ([], left)
  | c :: cs =>
      let x := frames (left ++ c) in let y := receive x.2 cs in (x.1 ++ y.1, y.2)
  end.

Lemma receive_stream ms left chunks tail :
  Forall in_range ms → (length left < wire_size)%nat →
  left ++ concat chunks = stream ms ++ tail → (length tail < wire_size)%nat →
  receive left chunks = (ms, tail).
Proof.
  revert ms left. induction chunks as [|c cs IH]; intros ms left Hr Hl Hs Ht; cbn [receive concat] in *.
  - rewrite app_nil_r in Hs. subst left. rewrite length_app, length_stream in Hl.
    assert (ms = []) as ->; [|done]. destruct ms; [done|]. cbn in Hl. lia.
  - rewrite app_assoc in Hs.
    assert (∃ ms1 ms2 rest, ms = ms1 ++ ms2 ∧ left ++ c = stream ms1 ++ rest ∧
              (length rest < wire_size)%nat ∧ rest ++ concat cs = stream ms2 ++ tail)
      as (ms1 & ms2 & rest & -> & Hc & Hlt & Hrest).
    { apply app_eq_app in Hs as (k & [[H1 H2]|[H1 H2]]).
      - (* the chunk reaches into the tail *)
        exists ms, [], k. rewrite app_nil_r. split_and!; [done|done| |by rewrite H2].
        rewrite H2, length_app in Ht. lia.
      - destruct (stream_split ms _ _ H1) as (ms1 & ms2 & rest & -> & Hc & Hlt & H3).
        exists ms1, ms2, rest. split_and!; [done..|]. by rewrite H2, H3, app_assoc. }
    apply Forall_app in Hr as [Hr1 Hr2]. rewrite Hc, frames_stream by done. cbn [fst snd].
    rewrite (IH ms2 rest) by done. done.
Qed.
End chunks.

(** The receive loops reassemble the stream.  However the bytes of a sequence of messages are
    cut into chunks, the messages read are the messages sent, in order, and nothing is left
    over. *)
Theorem chunks_reassemble {A} `{WireLaws A} (ms : list A) (chunks : list (list Z)) :
  Forall in_range ms → concat chunks = stream ms → receive [] chunks = (ms, []).
Proof.
  intros Hr Hc. pose proof wire_size_pos. apply receive_stream; [done|cbn; lia| |cbn; lia].
  by rewrite app_nil_r.
Qed.
