(* ===== verification/Socket.v ===== *)
(** * Sockets (common/tcp_socket.h and .cpp, common/mcast_socket.h and .cpp)

    A buffer is the list of its valid bytes.  The kernel is not part of the program: what its
    calls return is an argument, a list with one result per system call; an exhausted list is a
    kernel that has nothing more to say (EAGAIN).  A call moves no more bytes than it is offered
    room for, so a result that names more stands for one that fills the room; a call that moves
    no byte is one that returns 0.  The observers of the benchmark builds are
    not modelled. *)
From S2P Require Import Prelude.
(** The compile-time buffer sizes. *)
Class BufferSizes := { TCPBufferSize : nat; McastBufferSize : nat }.

Definition default_buffers : BufferSizes := {|
  TCPBufferSize := Z.to_nat (64 * 1024 * 1024);
  McastBufferSize := Z.to_nat (64 * 1024 * 1024)
|}.

(** The result of recvmsg or recv, and of send. *)
Inductive recv_result :=
  | RecvData (bs : list Z) (kernel_time : Z)
  | RecvEINTR
  | RecvEAGAIN
  | RecvError.

Inductive send_result :=
  | Sent (n : nat)
  | SendEINTR
  | SendEAGAIN
  | SendError.

(** ** TCP *)
Record TCPSocket := mkTCPSocket {
  socket_fd_ : Z;
  closed_ : bool;
  outbound_data_ : list Z;        (** the bytes up to next_send_valid_index_ *)
  next_send_index_ : nat;
  inbound_data_ : list Z          (** the bytes up to next_rcv_valid_index_ *)
}.

Definition set_inbound (bs : list Z) (s : TCPSocket) : TCPSocket :=
  mkTCPSocket (socket_fd_ s) (closed_ s) (outbound_data_ s) (next_send_index_ s) bs.
Definition set_outbound (bs : list Z) (i : nat) (s : TCPSocket) : TCPSocket :=
  mkTCPSocket (socket_fd_ s) (closed_ s) bs i (inbound_data_ s).

Section TCPSocket.
Context `{BufferSizes} {St : Type}.
Implicit Types (s : TCPSocket) (st : St).

Definition TCPSocket_new : TCPSocket := mkTCPSocket (-1) false [] 0 [].

(** connect: [fd] is what createSocket returns. *)
Definition tcp_connect (fd : Z) s : TCPSocket :=
  mkTCPSocket fd (fd <? 0) (outbound_data_ s) (next_send_index_ s) (inbound_data_ s).

Definition closeSocket s : TCPSocket :=
  mkTCPSocket (if 0 <=? socket_fd_ s then -1 else socket_fd_ s) true (outbound_data_ s)
    (next_send_index_ s) (inbound_data_ s).

Definition tcp_send (data : list Z) s : result TCPSocket :=
  if closed_ s then Ok s
  else
    let full := (TCPBufferSize <? length (outbound_data_ s) + length data)%nat in
    let s := if full && (0 <? next_send_index_ s)%nat
             then set_outbound (drop (next_send_index_ s) (outbound_data_ s)) 0 s else s in
    if (length (outbound_data_ s) + length data <=? TCPBufferSize)%nat
    then Ok (set_outbound (outbound_data_ s ++ data) (next_send_index_ s) s)
    else Err AssertFailed.

(** The callback of the owner: it reads and shortens the inbound buffer. *)
Context (recv_callback_ : TCPSocket → Z → St → result (TCPSocket * St)).

(** The receive loop of sendAndRecv. *)
Fixpoint recv_loop (rs : list recv_result) s st (received : bool) :
    result (TCPSocket * St * bool) :=
  if closed_ s || (length (inbound_data_ s) =? TCPBufferSize)%nat then Ok (s, st, received)
  else
    match rs with
    | [] => Ok (s, st, received)
    | RecvData bs kernel_time :: rs =>
        let bs := take (TCPBufferSize - length (inbound_data_ s)) bs in
        if (0 <? length bs)%nat then
          match recv_callback_ (set_inbound (inbound_data_ s ++ bs) s) kernel_time st with
          | Ok (s, st) => recv_loop rs s st true
          | Err e => Err e
          end
        else Ok (closeSocket s, st, received)
    | RecvEINTR :: rs => recv_loop rs s st received
    | RecvEAGAIN :: _ => Ok (s, st, received)
    | RecvError :: _ => Ok (closeSocket s, st, received)
    end.

(** The send loop of sendAndRecv, with the bytes that the kernel accepts. *)
Fixpoint send_loop (ss : list send_result) s : TCPSocket * list Z :=
  if negb (closed_ s) && (next_send_index_ s <? length (outbound_data_ s))%nat then
    match ss with
    | [] => (s, [])
    | Sent n :: ss =>
        let n := Nat.min n (length (outbound_data_ s) - next_send_index_ s) in
        if (0 <? n)%nat then
          let x := send_loop ss (set_outbound (outbound_data_ s) (next_send_index_ s + n) s) in
          (x.1, take n (drop (next_send_index_ s) (outbound_data_ s)) ++ x.2)
        else (closeSocket s, [])
    | SendEINTR :: ss => send_loop ss s
    | SendEAGAIN :: _ => (s, [])
    | SendError :: _ => (closeSocket s, [])
    end
  else (s, []).

Definition tcp_sendAndRecv (rs : list recv_result) (ss : list send_result) s st :
    result (TCPSocket * St * bool * list Z) :=
  if closed_ s || (socket_fd_ s <? 0) then Ok (s, st, false, [])
  else
    match recv_loop rs s st false with
    | Err e => Err e
    | Ok (s, st, received) =>
        let '(s, sent) := send_loop ss s in
        let s := if (next_send_index_ s =? length (outbound_data_ s))%nat
                 then set_outbound [] 0 s else s in
        Ok (s, st, received, sent)
    end.

(** ** What the outbound buffer guarantees *)

(** The bytes accepted by [tcp_send] that the kernel has not taken yet. *)
Definition pending s : list Z := drop (next_send_index_ s) (outbound_data_ s).

Definition tcp_wf s : Prop := (next_send_index_ s ≤ length (outbound_data_ s) ≤ TCPBufferSize)%nat.

Lemma tcp_send_spec data s :
  tcp_wf s → closed_ s = false →
  if decide (length (pending s) + length data ≤ TCPBufferSize)%nat
  then ∃ s', tcp_send data s = Ok s' ∧ pending s' = pending s ++ data ∧ tcp_wf s' ∧ closed_ s' = false ∧
             inbound_data_ s' = inbound_data_ s ∧ socket_fd_ s' = socket_fd_ s
  else tcp_send data s = Err AssertFailed.
Proof.
  intros [Hwf1 Hwf2] Hcl. unfold tcp_send, pending, tcp_wf. rewrite Hcl, length_drop.
  destruct (TCPBufferSize <? _)%nat eqn:Hfull; cbn [andb];
    [apply Nat.ltb_lt in Hfull|apply Nat.ltb_ge in Hfull].
  - destruct (0 <? next_send_index_ s)%nat eqn:Hi; cbn [set_outbound outbound_data_ next_send_index_].
    + rewrite length_drop. destruct (decide _) as [Hle|Hgt].
      * rewrite (proj2 (Nat.leb_le _ _)) by lia. eexists. split; [done|].
        cbn [set_outbound outbound_data_ next_send_index_ closed_ inbound_data_ socket_fd_].
        split_and!; try done; rewrite ?length_app, ?length_drop; lia.
      * by rewrite (proj2 (Nat.leb_gt _ _)) by lia.
    + apply Nat.ltb_ge in Hi. rewrite (proj2 (Nat.leb_gt _ _)) by lia. by rewrite decide_False by lia.
  - rewrite (proj2 (Nat.leb_le _ _)) by lia. rewrite decide_True by lia.
    eexists. split; [done|]. cbn [set_outbound outbound_data_ next_send_index_ closed_ inbound_data_ socket_fd_].
    rewrite drop_app_le by lia. split_and!; try done; rewrite length_app; lia.
Qed.

Lemma send_loop_spec ss s :
  tcp_wf s →
  let x := send_loop ss s in
  x.2 ++ pending x.1 = pending s ∧ tcp_wf x.1 ∧ (closed_ x.1 = false → closed_ s = false).
Proof.
  revert s. induction ss as [|r ss IH]; intros s Hwf; cbn [send_loop].
  - by destruct (_ && _).
  - destruct (negb (closed_ s) && (next_send_index_ s <? length (outbound_data_ s))%nat) eqn:Hc; [|done].
    apply andb_true_iff in Hc as [_ Hlt%Nat.ltb_lt].
    destruct r as [n| | |]; [|by apply IH|done|done].
    cbv zeta. set (k := Nat.min n _). destruct (0 <? k)%nat; [|done]. set (s1 := set_outbound _ _ s).
    assert (tcp_wf s1) as Hwf1 by (unfold tcp_wf in *; cbn; lia).
    assert (pending s1 = drop k (pending s)) as Hp1 by (unfold pending; cbn; by rewrite drop_drop).
    destruct (IH s1 Hwf1) as (Hx & Hw & Hcl).
    split_and!; [|exact Hw|done]. cbn [fst snd]. rewrite <- app_assoc, Hx, Hp1. unfold pending.
    apply take_drop.
Qed.
End TCPSocket.

Section lossless.
Context `{BufferSizes} {St : Type}.
Implicit Types (f : TCPSocket → Z → St → result (TCPSocket * St)).

(** The callback of the owner leaves the outbound buffer and the connection alone. *)
Definition keeps_outbound f : Prop :=
  ∀ s t st s' st', f s t st = Ok (s', st') →
    outbound_data_ s' = outbound_data_ s ∧ next_send_index_ s' = next_send_index_ s ∧
    closed_ s' = closed_ s.

Lemma recv_loop_keeps f rs s st r s' st' r' :
  keeps_outbound f → recv_loop f rs s st r = Ok (s', st', r') →
  outbound_data_ s' = outbound_data_ s ∧ next_send_index_ s' = next_send_index_ s ∧
  (closed_ s' = false → closed_ s = false).
Proof.
  intros Hf. revert s st r. induction rs as [|x rs IH]; intros s st r; cbn [recv_loop].
  - destruct (_ || _); naive_solver.
  - destruct (_ || _); [naive_solver|].
    destruct x as [bs t| | |]; try (intros Heq; injection Heq as <- <- <-; done).
    + cbv zeta. destruct (0 <? _)%nat; [|intros Heq; injection Heq as <- <- <-; done].
      destruct (f _ t st) as [[s1 st1]|e] eqn:Hfs; [|done]. intros Hrl.
      apply Hf in Hfs as (Ho & Hi & Hc). apply IH in Hrl as (-> & -> & Hc').
      split_and!; [done..|]. intros Hcl. cbn in Hc. rewrite <- Hc. auto.
    + apply IH.
Qed.

(** What the owner of a socket does with it. *)
Inductive tcp_op := OpSend (data : list Z) | OpPoll (rs : list recv_result) (ss : list send_result).

(** A sequence of operations, with the bytes that the kernel took. *)
Fixpoint tcp_run f (ops : list tcp_op) (s : TCPSocket) (st : St) : result (TCPSocket * St * list Z) :=
  match ops with
  | [] => Ok (s, st, [])
  | OpSend data :: ops =>
      match tcp_send data s with Ok s => tcp_run f ops s st | Err e => Err e end
  | OpPoll rs ss :: ops =>
      match tcp_sendAndRecv f rs ss s st with
      | Ok (s, st, _, sent) =>
          match tcp_run f ops s st with
          | Ok (s, st, sent') => Ok (s, st, sent ++ sent')
          | Err e => Err e
          end
      | Err e => Err e
      end
  end.

Definition op_data (op : tcp_op) : list Z := match op with OpSend data => data | OpPoll _ _ => [] end.

Lemma tcp_poll_keeps f rs ss s st s' st' r sent :
  keeps_outbound f → tcp_wf s → tcp_sendAndRecv f rs ss s st = Ok (s', st', r, sent) →
  sent ++ pending s' = pending s ∧ tcp_wf s' ∧ (closed_ s' = false → closed_ s = false).
Proof.
  intros Hf Hwf. unfold tcp_sendAndRecv. destruct (_ || _); [naive_solver|].
  destruct (recv_loop f rs s st false) as [[[s1 st1] r1]|e] eqn:Hrl; [|done].
  destruct (recv_loop_keeps _ _ _ _ _ _ _ _ Hf Hrl) as (Ho & Hi & Hc).
  assert (tcp_wf s1 ∧ pending s1 = pending s) as [Hwf1 Hp1]
    by (unfold tcp_wf, pending in *; by rewrite Ho, Hi).
  destruct (send_loop_spec ss s1 Hwf1) as (Hx & Hw & Hcl).
  destruct (send_loop ss s1) as [s2 sent2]. cbn [fst snd] in *.
  destruct (_ =? _)%nat eqn:He; intros Heq; injection Heq as <- <- <- <-.
  - apply Nat.eqb_eq in He. unfold tcp_wf, pending in *. cbn.
    rewrite <- Hp1, <- Hx, He, drop_all. split_and!; [done|lia|lia|auto].
  - rewrite <- Hp1, <- Hx. split_and!; [done|done|auto].
Qed.

Lemma tcp_run_spec f ops s st s' st' sent :
  keeps_outbound f → tcp_wf s → tcp_run f ops s st = Ok (s', st', sent) →
  (closed_ s' = false → closed_ s = false) ∧
  (closed_ s' = false → sent ++ pending s' = pending s ++ (ops ≫= op_data)).
Proof.
  intros Hf. revert s st sent. induction ops as [|op ops IH]; intros s st sent Hwf Hrun; cbn in Hrun.
  { injection Hrun as <- <- <-. split; [done|]. intros _. cbn. by rewrite app_nil_r. }
  destruct op as [data|rs ss].
  - destruct (tcp_send data s) as [s1|e] eqn:Hs; [|done]. destruct (closed_ s) eqn:Hc.
    + unfold tcp_send in Hs. rewrite Hc in Hs. injection Hs as <-.
      destruct (IH _ _ _ Hwf Hrun) as [H1 _]. split; intros Hcl; specialize (H1 Hcl); congruence.
    + pose proof (tcp_send_spec data s Hwf Hc) as Hsp. destruct (decide _); [|by rewrite Hs in Hsp].
      destruct Hsp as (s2 & Hs2 & Hp & Hwf2 & _). rewrite Hs in Hs2. injection Hs2 as <-.
      destruct (IH _ _ _ Hwf2 Hrun) as [H1 H2]. split; [done|]. intros Hcl.
      rewrite (H2 Hcl), Hp. cbn [mbind list_bind op_data]. by rewrite <- app_assoc.
  - destruct (tcp_sendAndRecv f rs ss s st) as [[[[s1 st1] r1] sent1]|e] eqn:Hs; [|done].
    destruct (tcp_run f ops s1 st1) as [[[s2 st2] sent2]|e] eqn:Hr; [|done].
    injection Hrun as <- <- <-.
    destruct (tcp_poll_keeps _ _ _ _ _ _ _ _ _ Hf Hwf Hs) as (Hp & Hwf1 & Hc1).
    destruct (IH _ _ _ Hwf1 Hr) as [H1 H2]. split; [auto|]. intros Hcl.
    rewrite <- app_assoc, (H2 Hcl), app_assoc, Hp. done.
Qed.
End lossless.

(** C29: a TCP connection that stays open loses, duplicates and reorders nothing.  Whatever the
    kernel accepts at each poll, partial writes and interrupted calls included, the bytes it
    has taken followed by the bytes still pending are the bytes that were pending followed by
    the bytes sent. *)
Theorem tcp_lossless `{BufferSizes} {St} (f : TCPSocket → Z → St → result (TCPSocket * St))
    ops s st s' st' sent :
  keeps_outbound f → tcp_wf s → tcp_run f ops s st = Ok (s', st', sent) → closed_ s' = false →
  sent ++ pending s' = pending s ++ (ops ≫= op_data).
Proof. intros Hf Hwf Hrun. by apply (tcp_run_spec f ops s st s' st' sent). Qed.

(** The outbound buffer is bounded by its size, and reclaims what the kernel has taken: a send
    is refused, by exiting, exactly when the bytes still pending and the new ones exceed the
    buffer. *)
Theorem tcp_send_capacity `{BufferSizes} (data : list Z) (s : TCPSocket) :
  tcp_wf s → closed_ s = false →
  (tcp_send data s = Err AssertFailed ↔ (TCPBufferSize < length (pending s) + length data)%nat).
Proof.
  intros Hwf Hc. pose proof (tcp_send_spec data s Hwf Hc) as Hs. destruct (decide _).
  - destruct Hs as (s' & -> & _). split; [done|lia].
  - split; [lia|done].
Qed.

(** ** Multicast *)
Record McastSocket := mkMcastSocket {
  mc_socket_fd_ : Z;
  mc_outbound_data_ : list Z;
  mc_inbound_data_ : list Z
}.

Section McastSocket.
Context `{BufferSizes} {St : Type}.
Implicit Types (s : McastSocket) (st : St).

Definition McastSocket_new : McastSocket := mkMcastSocket (-1) [] [].

(** init: [fd] is what createSocket returns. *)
Definition mcast_init (fd : Z) s : McastSocket :=
  mkMcastSocket fd (mc_outbound_data_ s) (mc_inbound_data_ s).

Definition mcast_leave s : McastSocket :=
  mkMcastSocket (-1) (mc_outbound_data_ s) (mc_inbound_data_ s).

Definition mcast_send (data : list Z) s : result McastSocket :=
  let out := mc_outbound_data_ s ++ data in
  if (length out <? McastBufferSize)%nat
  then Ok (mkMcastSocket (mc_socket_fd_ s) out (mc_inbound_data_ s)) else Err AssertFailed.

(** sendAndRecv: at most one datagram is read and at most one, the whole buffer, is offered to
    the kernel; the buffer is emptied whatever the kernel answers. *)
Definition mcast_sendAndRecv (recv_callback_ : McastSocket → St → result (McastSocket * St))
    (r : recv_result) s st : result (McastSocket * St * bool * option (list Z)) :=
  let bs := match r with
            | RecvData bs _ => take (McastBufferSize - length (mc_inbound_data_ s)) bs
            | _ => []
            end in
  let received := (0 <? length bs)%nat in
  match (if received
         then recv_callback_ (mkMcastSocket (mc_socket_fd_ s) (mc_outbound_data_ s)
                                (mc_inbound_data_ s ++ bs)) st
         else Ok (s, st)) with
  | Err e => Err e
  | Ok (s, st) =>
      let datagram := match mc_outbound_data_ s with [] => None | out => Some out end in
      Ok (mkMcastSocket (mc_socket_fd_ s) [] (mc_inbound_data_ s), st, received, datagram)
  end.
End McastSocket.
