(* ===== verification/TcpServer.v ===== *)
(** * The TCP server (common/tcp_server.h and .cpp)

    The connections are objects allocated by [poll]: [sockets_] is the store of those objects and
    a pointer to one is its key.  The listener is a member of the server.  What epoll and accept
    return is an argument. *)
From S2P Require Import Prelude Socket.
(** A TCPSocket pointer: [None] is the address of the listener. *)
Abbreviation socket_ptr := (option nat).

(** What epoll_wait reports for one pointer. *)
Record epoll_event := mkEvent {
  ev_socket : socket_ptr;
  ev_in : bool;
  ev_out : bool;
  ev_err : bool                   (** EPOLLERR or EPOLLHUP *)
}.

(** What the kernel says of a new connection: the descriptor, whether setNonBlocking and
    disableNagle succeed, and whether epoll_ctl does.  An exhausted list is accept returning -1. *)
Record accepted := mkAccepted { acc_fd : Z; acc_flags_ok : bool; acc_epoll_ok : bool }.

Record TCPServer := mkTCPServer {
  epoll_fd_ : Z;
  listener_socket_ : TCPSocket;
  sockets_ : gmap nat TCPSocket;
  receive_sockets_ : list socket_ptr;
  send_sockets_ : list socket_ptr
}.

(** The size of the array events_. *)
Definition max_epoll_events : nat := 1024.

Section TCPServer.
Context `{BufferSizes} {St : Type}.
Implicit Types (t : TCPServer) (st : St).

Definition TCPServer_new : TCPServer := mkTCPServer (-1) TCPSocket_new ∅ [] [].

(** listen: the results of epoll_create, createSocket and epoll_ctl. *)
Definition listen (epoll_fd fd : Z) (epoll_ok : bool) t : result TCPServer :=
  let listener := tcp_connect fd (listener_socket_ t) in
  if (0 <=? epoll_fd) && (0 <=? fd) && epoll_ok
  then Ok (mkTCPServer epoll_fd listener (sockets_ t) (receive_sockets_ t) (send_sockets_ t))
  else Err AssertFailed.

(** std::find and push_back. *)
Definition push_unique (p : socket_ptr) (l : list socket_ptr) : list socket_ptr :=
  if decide (p ∈ l) then l else l ++ [p].

Definition set_lists (rs ss : list socket_ptr) t : TCPServer :=
  mkTCPServer (epoll_fd_ t) (listener_socket_ t) (sockets_ t) rs ss.

(** One iteration of the loop over the events.  An EPOLLIN of the listener is a new connection and ends the
    iteration; any other event puts its pointer into the containers, the listener's too. *)
Definition poll_event (ev : epoll_event) (x : TCPServer * bool) : TCPServer * bool :=
  let '(t, have_new_connection) := x in
  let socket := ev_socket ev in
  if ev_in ev && bool_decide (socket = None) then (t, true)
  else
    let rs := if ev_in ev then push_unique socket (receive_sockets_ t) else receive_sockets_ t in
    let ss := if ev_out ev then push_unique socket (send_sockets_ t) else send_sockets_ t in
    let rs := if ev_err ev then push_unique socket rs else rs in
    (set_lists rs ss t, have_new_connection).

Fixpoint poll_events (evs : list epoll_event) (x : TCPServer * bool) : TCPServer * bool :=
  match evs with [] => x | ev :: evs => poll_events evs (poll_event ev x) end.

(** new TCPSocket, and its entry in the container. *)
Definition add_connection (fd : Z) t : TCPServer :=
  let p := fresh (dom (sockets_ t)) in
  mkTCPServer (epoll_fd_ t) (listener_socket_ t)
    (<[p := mkTCPSocket fd false [] 0 []]> (sockets_ t)) (push_unique (Some p) (receive_sockets_ t))
    (send_sockets_ t).

Fixpoint accept_loop (conns : list accepted) t : result TCPServer :=
  match conns with
  | [] => Ok t
  | c :: conns =>
      if acc_fd c =? -1 then Ok t
      else if negb (acc_flags_ok c) || negb (acc_epoll_ok c) then Err AssertFailed
      else accept_loop conns (add_connection (acc_fd c) t)
  end.

(** poll.  epoll_wait reports at most [max_events] events; beyond the array it writes outside. *)
Definition poll (evs : list epoll_event) (conns : list accepted) t : result TCPServer :=
  let max_events := (1 + length (send_sockets_ t) + length (receive_sockets_ t))%nat in
  let evs := take max_events evs in
  if (max_epoll_events <? length evs)%nat then Err WildDeref
  else
    let '(t, have_new_connection) := poll_events evs (t, false) in
    if have_new_connection then accept_loop conns t else Ok t.

(** What the kernel answers to one call of a socket's sendAndRecv. *)
Definition socket_io : Type := list recv_result * list send_result.

(** The callbacks of the owner; the first is told which socket calls. *)
Context (recv_callback_ : nat → TCPSocket → Z → St → result (TCPSocket * St)).
Context (recv_finished_callback_ : St → result St).

(** The object that a pointer leads to, and a new value for it. *)
Definition socket_at (p : socket_ptr) t : option TCPSocket :=
  match p with None => Some (listener_socket_ t) | Some q => sockets_ t !! q end.
Definition set_sockets (socks : gmap nat TCPSocket) t : TCPServer :=
  mkTCPServer (epoll_fd_ t) (listener_socket_ t) socks (receive_sockets_ t) (send_sockets_ t).
Definition store_socket (p : socket_ptr) (s : TCPSocket) t : TCPServer :=
  match p with
  | None => mkTCPServer (epoll_fd_ t) s (sockets_ t) (receive_sockets_ t) (send_sockets_ t)
  | Some q => set_sockets (<[q := s]> (sockets_ t)) t
  end.

(** The callback of a socket: a connection has the server's, the listener has none. *)
Definition callback_of (p : socket_ptr) : TCPSocket → Z → St → result (TCPSocket * St) :=
  match p with None => λ s _ st, Ok (s, st) | Some q => recv_callback_ q end.

(** std::for_each over a container: the server, the owner's state, whether something was
    received, and the bytes that went out. *)
Fixpoint each_socket (ps : list socket_ptr) (io : socket_ptr → socket_io) t st (recv : bool) :
    result (TCPServer * St * bool * list (socket_ptr * list Z)) :=
  match ps with
  | [] => Ok (t, st, recv, [])
  | p :: ps =>
      match socket_at p t with
      | None => Err WildDeref
      | Some s =>
          match tcp_sendAndRecv (callback_of p) (io p).1 (io p).2 s st with
          | Err e => Err e
          | Ok (s, st, r, sent) =>
              match each_socket ps io (store_socket p s t) st (recv || r) with
              | Err e => Err e
              | Ok (t, st, recv, out) => Ok (t, st, recv, (p, sent) :: out)
              end
          end
      end
  end.

Definition server_sendAndRecv (io1 io2 : socket_ptr → socket_io) t st :
    result (TCPServer * St * list (socket_ptr * list Z)) :=
  match each_socket (receive_sockets_ t) io1 t st false with
  | Err e => Err e
  | Ok (t, st, recv, out1) =>
      match (if recv : bool then recv_finished_callback_ st else Ok st) with
      | Err e => Err e
      | Ok st =>
          match each_socket (send_sockets_ t) io2 t st false with
          | Err e => Err e
          | Ok (t, st, _, out2) => Ok (t, st, out1 ++ out2)
          end
      end
  end.
End TCPServer.

(** ** What the containers guarantee *)
Section containers.
Context `{BufferSizes}.
Implicit Types (t : TCPServer).

(** The containers list each pointer at most once, and, besides the listener, exactly the connections of the
    server to receive from, and connections of the server to send to. *)
Record server_wf t : Prop := {
  wf_receive_nodup : NoDup (receive_sockets_ t);
  wf_send_nodup : NoDup (send_sockets_ t);
  wf_receive_all : ∀ p, Some p ∈ receive_sockets_ t ↔ is_Some (sockets_ t !! p);
  wf_send_some : ∀ p, Some p ∈ send_sockets_ t → is_Some (sockets_ t !! p)
}.

(** The events are about the listener or connections of the server. *)
Definition event_ok t (ev : epoll_event) : Prop :=
  ∀ p, ev_socket ev = Some p → is_Some (sockets_ t !! p).

(** The event puts the listener among the sockets to receive from, or to send to. *)
Definition receives_listener (ev : epoll_event) : Prop := ev_socket ev = None ∧ ev_in ev = false ∧ ev_err ev = true.
Definition sends_listener (ev : epoll_event) : Prop := ev_socket ev = None ∧ ev_in ev = false ∧ ev_out ev = true.

Lemma push_unique_nodup p l : NoDup l → NoDup (push_unique p l).
Proof.
  intros Hl. unfold push_unique. destruct (decide _); [done|].
  apply NoDup_app. split_and!; [done| |by apply NoDup_singleton]. set_solver.
Qed.

Lemma elem_of_push_unique p q l : q ∈ push_unique p l ↔ q = p ∨ q ∈ l.
Proof. unfold push_unique. destruct (decide _); set_solver. Qed.

Lemma push_unique_old p l : p ∈ l → push_unique p l = l.
Proof. intros Hp. unfold push_unique. by rewrite decide_True. Qed.

Lemma push_unique_app p l : ∃ ps, push_unique p l = l ++ ps ∧ ∀ q, q ∈ ps → q = p.
Proof. unfold push_unique. destruct (decide _); [exists []; rewrite app_nil_r|exists [p]]; split; [done|by intros ? ?%not_elem_of_nil|done|by intros ? ?%list_elem_of_singleton]. Qed.

Lemma server_wf_new : server_wf TCPServer_new.
Proof.
  constructor; cbn; [constructor|constructor| |set_solver].
  intros p. rewrite lookup_empty. split; [set_solver|by intros []].
Qed.

(** What the events leave of the containers. *)
Record polled (evs : list epoll_event) t t' : Prop := {
  po_wf : server_wf t';
  po_sockets : sockets_ t' = sockets_ t;
  po_receive : ∃ ps, receive_sockets_ t' = receive_sockets_ t ++ ps ∧ ∀ p, p ∈ ps → p = None;
  po_receive_listener : None ∈ receive_sockets_ t' ↔ None ∈ receive_sockets_ t ∨ Exists receives_listener evs;
  po_send_listener : None ∈ send_sockets_ t' ↔ None ∈ send_sockets_ t ∨ Exists sends_listener evs
}.

Lemma poll_event_wf ev t b : server_wf t → event_ok t ev → polled [ev] t (poll_event ev (t, b)).1.
Proof.
  intros Hwf Hev. pose proof Hwf as [Hr Hs Hra Hss]. unfold poll_event.
  destruct (ev_socket ev) as [p|] eqn:Hp.
  - unfold receives_listener, sends_listener.
    rewrite (bool_decide_eq_false_2 (Some p = None)), andb_false_r by done.
    assert (Some p ∈ receive_sockets_ t) as Hin by (by apply Hra, Hev).
    assert ((if ev_in ev then push_unique (Some p) (receive_sockets_ t) else receive_sockets_ t) = receive_sockets_ t) as ->
      by (destruct (ev_in ev); [by apply push_unique_old|done]).
    assert ((if ev_err ev then push_unique (Some p) (receive_sockets_ t) else receive_sockets_ t) = receive_sockets_ t) as ->
      by (destruct (ev_err ev); [by apply push_unique_old|done]).
    constructor; cbn; [constructor; cbn|done|exists []; rewrite app_nil_r; split; [done|by intros ? ?%not_elem_of_nil]| |].
    + done.
    + destruct (ev_out ev); [by apply push_unique_nodup|done].
    + done.
    + intros q. destruct (ev_out ev); [|by apply Hss]. rewrite elem_of_push_unique.
      intros [[= ->]|]; [by apply Hev|by apply Hss].
    + split; [by left|]. intros [?|[(? & _)|Hx]%Exists_cons]; [done|congruence|by apply Exists_nil in Hx].
    + split; [destruct (ev_out ev); [rewrite elem_of_push_unique; intros [?|?]; [done|by left]|by left]|].
      intros [?|[(? & _)|Hx]%Exists_cons]; [|congruence|by apply Exists_nil in Hx].
      destruct (ev_out ev); [|done]. rewrite elem_of_push_unique. by right.
  - rewrite (bool_decide_eq_true_2 (@None nat = None)), andb_true_r by done. unfold receives_listener, sends_listener.
    destruct (ev_in ev) eqn:Hin; cbn.
    + constructor; [done|done|exists []; rewrite app_nil_r; split; [done|by intros ? ?%not_elem_of_nil]| |].
      * split; [by left|]. intros [?|[(_ & ? & _)|Hx]%Exists_cons]; [done|congruence|by apply Exists_nil in Hx].
      * split; [by left|]. intros [?|[(_ & ? & _)|Hx]%Exists_cons]; [done|congruence|by apply Exists_nil in Hx].
    + constructor; cbn; [constructor; cbn|done| | |].
      * destruct (ev_err ev); [by apply push_unique_nodup|done].
      * destruct (ev_out ev); [by apply push_unique_nodup|done].
      * intros q. rewrite <- Hra. destruct (ev_err ev); [|done]. rewrite elem_of_push_unique. naive_solver.
      * intros q. destruct (ev_out ev); [|by apply Hss]. rewrite elem_of_push_unique. intros [?|?]; [done|by apply Hss].
      * destruct (ev_err ev); [|exists []; rewrite app_nil_r; split; [done|by intros ? ?%not_elem_of_nil]]. apply push_unique_app.
      * rewrite Exists_cons, Exists_nil. unfold receives_listener. destruct (ev_err ev); [rewrite elem_of_push_unique|]; intuition congruence.
      * rewrite Exists_cons, Exists_nil. unfold sends_listener. destruct (ev_out ev); [rewrite elem_of_push_unique|]; intuition congruence.
Qed.

Lemma poll_events_wf evs t b :
  server_wf t → Forall (event_ok t) evs → polled evs t (poll_events evs (t, b)).1.
Proof.
  revert t b. induction evs as [|ev evs IH]; intros t b Hwf Hev; cbn [poll_events].
  { constructor; [done|done|exists []; rewrite app_nil_r; split; [done|by intros ? ?%not_elem_of_nil]|rewrite Exists_nil; tauto|rewrite Exists_nil; tauto]. }
  apply Forall_cons in Hev as [Hev Hevs].
  destruct (poll_event_wf ev t b Hwf Hev) as [Hwf1 Hs1 (ps1 & Hr1 & Hn1) Hl1 Hl1'].
  destruct (poll_event ev (t, b)) as [t1 b1]. cbn [fst snd] in *.
  destruct (IH t1 b1 Hwf1) as [Hwf2 Hs2 (ps2 & Hr2 & Hn2) Hl2 Hl2'].
  { eapply Forall_impl; [exact Hevs|]. intros e He p Hp. rewrite Hs1. by apply He. }
  constructor; [done|congruence| | |].
  - exists (ps1 ++ ps2). rewrite Hr2, Hr1, app_assoc. set_solver.
  - rewrite Hl2, Hl1, !Exists_cons, Exists_nil. tauto.
  - rewrite Hl2', Hl1', !Exists_cons, Exists_nil. tauto.
Qed.

Lemma add_connection_wf fd t :
  server_wf t →
  ∃ p, sockets_ t !! p = None ∧ server_wf (add_connection fd t) ∧
    sockets_ (add_connection fd t) = <[p := mkTCPSocket fd false [] 0 []]> (sockets_ t) ∧
    receive_sockets_ (add_connection fd t) = receive_sockets_ t ++ [Some p].
Proof.
  intros [Hr Hs Hra Hss]. exists (fresh (dom (sockets_ t))).
  assert (sockets_ t !! fresh (dom (sockets_ t)) = None) as Hp
    by (apply not_elem_of_dom, is_fresh). set (p := fresh _) in *.
  assert (Some p ∉ receive_sockets_ t) as Hnp by (rewrite Hra, Hp; by intros []).
  assert (push_unique (Some p) (receive_sockets_ t) = receive_sockets_ t ++ [Some p]) as Hpu
    by (unfold push_unique; by rewrite decide_False).
  split_and!; [done| |done|exact Hpu]. constructor; cbn; fold p.
  - by apply push_unique_nodup.
  - done.
  - intros q. rewrite elem_of_push_unique, Hra, lookup_insert_is_Some. destruct (decide (p = q)); naive_solver.
  - intros q Hq. apply lookup_insert_is_Some. destruct (decide (p = q)); [by left|right]. split; [done|]. by apply Hss.
Qed.

(** Accepting adds connections and nothing else. *)
Lemma accept_loop_wf conns t t' :
  server_wf t → accept_loop conns t = Ok t' →
  server_wf t' ∧ sockets_ t ⊆ sockets_ t' ∧ send_sockets_ t' = send_sockets_ t ∧
  (∃ ps, receive_sockets_ t' = receive_sockets_ t ++ (Some <$> ps)) ∧
  ∀ p s, sockets_ t' !! p = Some s → sockets_ t !! p = None →
    closed_ s = false ∧ outbound_data_ s = [] ∧ inbound_data_ s = [] ∧
    ∃ c, c ∈ conns ∧ socket_fd_ s = acc_fd c.
Proof.
  assert (∀ t : TCPServer, ∃ ps, receive_sockets_ t = receive_sockets_ t ++ (Some <$> ps)) as Hrefl
    by (intros x; exists []; by rewrite app_nil_r).
  revert t. induction conns as [|c conns IH]; intros t Hwf; cbn [accept_loop].
  { intros [= <-]. split_and!; [done|done|done|apply Hrefl|naive_solver]. }
  destruct (acc_fd c =? -1); [intros [= <-]; split_and!; [done|done|done|apply Hrefl|naive_solver]|].
  destruct (_ || _); [done|]. intros Hrun.
  destruct (add_connection_wf (acc_fd c) t Hwf) as (p & Hp & Hwf1 & Hs1 & Hr1).
  destruct (IH _ Hwf1 Hrun) as (Hwf2 & Hsub & Hsend & (ps & Hps) & Hnew). rewrite Hs1 in Hsub.
  split_and!; [done| |by rewrite Hsend| |].
  - etransitivity; [|exact Hsub]. by apply insert_subseteq.
  - exists (p :: ps). by rewrite Hps, Hr1, <- app_assoc.
  - intros q s Hq Hnq. destruct (decide (q = p)) as [->|Hne].
    + assert (sockets_ t' !! p = Some (mkTCPSocket (acc_fd c) false [] 0 [])) as Hp'
        by (eapply lookup_weaken; [|exact Hsub]; apply lookup_insert_eq).
      rewrite Hq in Hp'. injection Hp' as ->. split_and!; [done..|]. exists c. set_solver.
    + destruct (Hnew q s Hq) as (? & ? & ? & c' & ? & ?); [by rewrite Hs1, lookup_insert_ne by done|].
      split_and!; [done..|]. exists c'. set_solver.
Qed.
End containers.

