(* ===== verification/SocketUtils.v ===== *)
(** * Creating sockets and threads (common/socket_utils.h, common/thread_utils.h)

    The functions of these headers are sequences of system calls.  The kernel is an argument that
    answers a call from the history of calls, and the state of a function is that history: what a
    function is worth is what it has asked the kernel for. *)
From S2P Require Import Prelude Types Socket TcpServer.

(** ** System calls *)

(** The constants of the system's headers. *)
Class SystemConstants := {
  O_NONBLOCK : Z;
  EINPROGRESS : Z;
  AF_INET : Z;
  SOCK_STREAM : Z;
  SOCK_DGRAM : Z;
  IPPROTO_TCP : Z;
  IPPROTO_UDP : Z;
  AI_PASSIVE : Z;
  AI_NUMERICHOST : Z;
  AI_NUMERICSERV : Z;
  INADDR_ANY : Z;
  CPU_SETSIZE : Z
}.

Inductive sockopt :=
  | TCP_NODELAY
  | SO_TIMESTAMP
  | SO_REUSEADDR
  | IP_ADD_MEMBERSHIP (imr_multiaddr imr_interface : Z).

Record sockaddr_in := mkSockaddr { sin_addr : Z; sin_port : Z }.

Record addrinfo := mkAddrinfo { ai_family : Z; ai_socktype : Z; ai_protocol : Z; ai_addr : sockaddr_in }.

Record hints := mkHints { h_flags : Z; h_family : Z; h_socktype : Z; h_protocol : Z }.

(** An interface: the family of its address, if it has one. *)
Record ifaddr := mkIfaddr { ifa_name : string; ifa_family : option Z }.

Inductive syscall :=
  | sys_getifaddrs
  | sys_getnameinfo (i : ifaddr)
  | sys_freeifaddrs
  | sys_getaddrinfo (node service : string) (h : hints)
  | sys_socket (family socktype protocol : Z)
  | sys_fcntl_getfl (fd : Z)
  | sys_fcntl_setfl (fd flags : Z)
  | sys_setsockopt (fd : Z) (o : sockopt)
  | sys_connect (fd : Z) (a : sockaddr_in)
  | sys_bind (fd : Z) (a : sockaddr_in)
  | sys_listen (fd backlog : Z).

(** What a call returns, and errno. *)
Record answer := mkAnswer { ret : Z; errno : Z }.

Definition trace : Type := list (syscall * answer).

(** The kernel, and what the calls that write through a pointer leave there. *)
Class Kernel := {
  kernel : trace → syscall → answer;
  addresses : trace → list addrinfo;
  interfaces : trace → list ifaddr;
  host_name : trace → string;
  inet_addr : string → Z
}.

(** ** The configuration of a socket *)
Record SocketCfg := mkSocketCfg {
  cfg_ip_ : string;
  cfg_iface_ : string;
  cfg_port_ : Z;
  is_udp_ : bool;
  is_listening_ : bool;
  needs_so_timestamp_ : bool
}.

Definition bool_text (b : bool) : string := if b then "1" else "0".

Definition SocketCfg_toString (cfg : SocketCfg) : string :=
  "SocketCfg[ip:" +:+ cfg_ip_ cfg
  +:+ " iface:" +:+ cfg_iface_ cfg
  +:+ " port:" +:+ pretty (cfg_port_ cfg)
  +:+ " is_udp:" +:+ bool_text (is_udp_ cfg)
  +:+ " is_listening:" +:+ bool_text (is_listening_ cfg)
  +:+ " needs_SO_timestamp:" +:+ bool_text (needs_so_timestamp_ cfg)
  +:+ "]".

Definition MaxTCPServerBacklog : Z := 1024.

Section SocketUtils.
Context `{SystemConstants, Kernel}.
Implicit Types (cfg : SocketCfg) (ai : addrinfo) (ais : list addrinfo) (tr : trace) (c : syscall) (a : answer).

(** ** The functions *)
Definition sys c : M trace answer := λ tr, let a := kernel tr c in Ok (a, tr ++ [(c, a)]).

(** The interfaces from the first one on; the first with the name and an IPv4 address counts. *)
Fixpoint find_iface (iface : string) (ifas : list ifaddr) : M trace string :=
  match ifas with
  | [] => mret EmptyString
  | ifa :: ifas =>
      if bool_decide (ifa_family ifa = Some AF_INET) && bool_decide (iface = ifa_name ifa) then
        _ ← sys (sys_getnameinfo ifa); gets host_name
      else find_iface iface ifas
  end.

Definition getIfaceIP (iface : string) : M trace string :=
  r ← sys sys_getifaddrs;
  if negb (ret r =? -1) then
    ifas ← gets interfaces;
    buf ← find_iface iface ifas;
    _ ← sys sys_freeifaddrs;
    mret buf
  else mret EmptyString.

Definition setNonBlocking (fd : Z) : M trace bool :=
  flags ← sys (sys_fcntl_getfl fd);
  if negb (Z.land (ret flags) O_NONBLOCK =? 0) then mret true
  else
    r ← sys (sys_fcntl_setfl fd (Z.lor (ret flags) O_NONBLOCK));
    mret (negb (ret r =? -1)).

Definition set_option (fd : Z) (o : sockopt) : M trace bool :=
  r ← sys (sys_setsockopt fd o); mret (negb (ret r =? -1)).
Definition disableNagle (fd : Z) : M trace bool := set_option fd TCP_NODELAY.
Definition setSOTimestamp (fd : Z) : M trace bool := set_option fd SO_TIMESTAMP.
Definition join (fd : Z) (ip : string) : M trace bool :=
  set_option fd (IP_ADD_MEMBERSHIP (inet_addr ip) INADDR_ANY).

Definition when (b : bool) (m : M trace unit) : M trace unit := if b then m else mret tt.

(** The body of createSocket's loop over the addresses; sockaddr_in keeps the port in host order. *)
Definition open_one cfg ai : M trace Z :=
  s ← sys (sys_socket (ai_family ai) (ai_socktype ai) (ai_protocol ai));
  let socket_fd := ret s in
  ASSERT (negb (socket_fd =? -1));;
  (ok ← setNonBlocking socket_fd; ASSERT ok);;
  when (negb (is_udp_ cfg)) (ok ← disableNagle socket_fd; ASSERT ok);;
  when (negb (is_listening_ cfg))
    (r ← sys (sys_connect socket_fd (ai_addr ai));
     ASSERT ((ret r =? 0) || ((ret r =? -1) && (errno r =? EINPROGRESS))));;
  when (is_listening_ cfg)
    (r ← sys (sys_setsockopt socket_fd SO_REUSEADDR); ASSERT (ret r =? 0));;
  when (is_listening_ cfg)
    (let addr := mkSockaddr INADDR_ANY (cfg_port_ cfg `mod` 2 ^ 16) in
     r ← sys (sys_bind socket_fd (if is_udp_ cfg then addr else ai_addr ai)); ASSERT (ret r =? 0));;
  when (negb (is_udp_ cfg) && is_listening_ cfg)
    (r ← sys (sys_listen socket_fd MaxTCPServerBacklog); ASSERT (ret r =? 0));;
  when (needs_so_timestamp_ cfg) (ok ← setSOTimestamp socket_fd; ASSERT ok);;
  mret socket_fd.

Fixpoint open_all cfg ais (socket_fd : Z) : M trace Z :=
  match ais with
  | [] => mret socket_fd
  | ai :: ais => socket_fd ← open_one cfg ai; open_all cfg ais socket_fd
  end.

Definition hints_of cfg : hints :=
  mkHints (Z.lor (if is_listening_ cfg then AI_PASSIVE else 0) (Z.lor AI_NUMERICHOST AI_NUMERICSERV)) AF_INET
    (if is_udp_ cfg then SOCK_DGRAM else SOCK_STREAM) (if is_udp_ cfg then IPPROTO_UDP else IPPROTO_TCP).

Definition createSocket cfg : M trace Z :=
  ip ← (if bool_decide (cfg_ip_ cfg = EmptyString) then getIfaceIP (cfg_iface_ cfg) else mret (cfg_ip_ cfg));
  rc ← sys (sys_getaddrinfo ip (pretty (cfg_port_ cfg)) (hints_of cfg));
  ASSERT (ret rc =? 0);;
  result ← gets addresses;
  open_all cfg result (-1).

(** ** The sockets of the program *)

(** tcp_socket.cpp: TCPSocket::connect. *)
Definition TCPSocket_connect (ip iface : string) (port : Z) (is_listening : bool) : M (TCPSocket * trace) Z := λ st,
  match createSocket (mkSocketCfg ip iface port false is_listening true) st.2 with
  | Ok (fd, tr) => Ok (fd, (tcp_connect fd st.1, tr))
  | Err e => Err e
  end.

(** mcast_socket.cpp: McastSocket::init and join. *)
Definition McastSocket_init (ip iface : string) (port : Z) (is_listening : bool) : M (McastSocket * trace) Z := λ st,
  match createSocket (mkSocketCfg ip iface port true is_listening false) st.2 with
  | Ok (fd, tr) => Ok (fd, (mcast_init fd st.1, tr))
  | Err e => Err e
  end.
Definition McastSocket_join (ip : string) : M (McastSocket * trace) bool := λ st,
  match join (mc_socket_fd_ st.1) ip st.2 with
  | Ok (ok, tr) => Ok (ok, (st.1, tr))
  | Err e => Err e
  end.
End SocketUtils.

(** ** Threads *)
Section ThreadUtils.
Context `{SystemConstants}.

(** CPU_ZERO and CPU_SET: a core beyond the set is not entered. *)
Definition cpuset (core_id : Z) : list Z := if (0 <=? core_id) && (core_id <? CPU_SETSIZE) then [core_id] else [].

Definition setThreadCore (setaffinity : list Z → Z) (core_id : Z) : bool := setaffinity (cpuset core_id) =? 0.

(** What the new thread does: a core that it cannot be pinned to ends the process. *)
Definition thread_task {S A} (setaffinity : list Z → Z) (core_id : Z) (function : M S A) : M S A :=
  if (0 <=? core_id) && negb (setThreadCore setaffinity core_id) then FATAL else function.
End ThreadUtils.

(** ** What createSocket asks for *)
Section requests.
Context `{SystemConstants, Kernel}.
Implicit Types (cfg : SocketCfg) (ai : addrinfo) (ais : list addrinfo) (tr seg : trace) (c : syscall) (cs : list syscall).

(** The answers with which createSocket goes on. *)
Definition accepted (c : syscall) (a : answer) : bool :=
  match c with
  | sys_socket _ _ _ | sys_fcntl_setfl _ _ => negb (ret a =? -1)
  | sys_setsockopt _ SO_REUSEADDR | sys_bind _ _ | sys_listen _ _ | sys_getaddrinfo _ _ _ => ret a =? 0
  | sys_setsockopt _ _ => negb (ret a =? -1)
  | sys_connect _ _ => (ret a =? 0) || ((ret a =? -1) && (errno a =? EINPROGRESS))
  | _ => true
  end.

(** What has to be done to a new socket [fd] whose flags are [flags]. *)
Definition nonblocking_calls (fd flags : Z) : list syscall :=
  if Z.land flags O_NONBLOCK =? 0 then [sys_fcntl_setfl fd (Z.lor flags O_NONBLOCK)] else [].

Definition setup cfg ai (fd : Z) : list syscall :=
  (if is_udp_ cfg then [] else [sys_setsockopt fd TCP_NODELAY]) ++
  (if is_listening_ cfg then
     sys_setsockopt fd SO_REUSEADDR ::
     sys_bind fd (if is_udp_ cfg then mkSockaddr INADDR_ANY (cfg_port_ cfg `mod` 2 ^ 16) else ai_addr ai) ::
     (if is_udp_ cfg then [] else [sys_listen fd MaxTCPServerBacklog])
   else [sys_connect fd (ai_addr ai)]) ++
  (if needs_so_timestamp_ cfg then [sys_setsockopt fd SO_TIMESTAMP] else []).

(** Calls one after the other, as long as the kernel accepts them. *)
Fixpoint issue cs tr : option trace :=
  match cs with
  | [] => Some tr
  | c :: cs => let a := kernel tr c in if accepted c a then issue cs (tr ++ [(c, a)]) else None
  end.

Definition issued {A} (x : A) (o : option trace) : result (A * trace) :=
  match o with Some tr => Ok (x, tr) | None => Err AssertFailed end.

Lemma issue_app cs1 cs2 tr : issue (cs1 ++ cs2) tr = (tr' ← issue cs1 tr; issue cs2 tr').
Proof.
  revert tr. induction cs1 as [|c cs1 IH]; intros tr; cbn [app issue]; [done|].
  destruct (accepted c (kernel tr c)); [apply IH|done].
Qed.

Lemma issue_segment cs tr tr' : issue cs tr = Some tr' →
  ∃ seg, tr' = tr ++ seg ∧ seg.*1 = cs ∧ Forall (λ x, accepted x.1 x.2 = true) seg.
Proof.
  revert tr. induction cs as [|c cs IH]; intros tr; cbn [issue].
  { intros [= ->]. exists []. by rewrite app_nil_r. }
  destruct (accepted c (kernel tr c)) eqn:Ha; [|done]. intros (seg & -> & Hc & Hs)%IH.
  exists ((c, kernel tr c) :: seg). rewrite <- app_assoc. cbn. by rewrite Hc; repeat constructor.
Qed.

Lemma issue_accepting cs tr : (∀ tr c, accepted c (kernel tr c) = true) → is_Some (issue cs tr).
Proof.
  intros Ha. revert tr. induction cs as [|c cs IH]; intros tr; cbn [issue]; [done|]. by rewrite Ha.
Qed.

(** A call whose answer is checked. *)
Lemma ASSERT_issue c (f : answer → bool) tr : (∀ a, f a = accepted c a) →
  (r ← sys c; ASSERT (f r)) tr = issued tt (issue [c] tr).
Proof.
  intros Hf. unfold sys, mbind, M_bind, issued. cbn [issue]. rewrite Hf. by destruct (accepted c (kernel tr c)).
Qed.

Lemma when_issue b c (f : answer → bool) tr : (∀ a, f a = accepted c a) →
  when b (r ← sys c; ASSERT (f r)) tr = issued tt (issue (if b then [c] else []) tr).
Proof. intros Hf. destruct b; cbn [when]; [by apply ASSERT_issue|done]. Qed.

Lemma set_option_issue b fd o tr : accepted (sys_setsockopt fd o) = (λ a, negb (ret a =? -1)) →
  when b (ok ← set_option fd o; ASSERT ok) tr = issued tt (issue (if b then [sys_setsockopt fd o] else []) tr).
Proof.
  intros Ho. rewrite <- (when_issue b (sys_setsockopt fd o) (λ a, negb (ret a =? -1))); [|by rewrite Ho].
  by destruct b.
Qed.

Lemma bind_issue {B} (m : M trace unit) (k : M trace B) cs tr : m tr = issued tt (issue cs tr) →
  (m;; k) tr = match issue cs tr with Some tr => k tr | None => Err AssertFailed end.
Proof. intros Hm. unfold mbind, M_bind, issued in *. rewrite Hm. by destruct (issue cs tr). Qed.

Lemma setNonBlocking_issue fd tr :
  let flags := kernel tr (sys_fcntl_getfl fd) in
  (ok ← setNonBlocking fd; ASSERT ok) tr
  = issued tt (issue (nonblocking_calls fd (ret flags)) (tr ++ [(sys_fcntl_getfl fd, flags)])).
Proof.
  cbv zeta. unfold setNonBlocking, nonblocking_calls, sys, mbind, M_bind. cbn [fst snd].
  destruct (Z.land (ret (kernel tr (sys_fcntl_getfl fd))) O_NONBLOCK =? 0); cbn; [|done].
  by destruct (ret _ =? -1).
Qed.

Lemma sys_run {B} c (k : answer → M trace B) tr :
  (x ← sys c; k x) tr = k (kernel tr c) (tr ++ [(c, kernel tr c)]).
Proof. done. Qed.

Lemma setup_calls cfg ai fd :
  setup cfg ai fd =
    (if negb (is_udp_ cfg) then [sys_setsockopt fd TCP_NODELAY] else []) ++
    (if negb (is_listening_ cfg) then [sys_connect fd (ai_addr ai)] else []) ++
    (if is_listening_ cfg then [sys_setsockopt fd SO_REUSEADDR] else []) ++
    (if is_listening_ cfg then
       [sys_bind fd (if is_udp_ cfg then mkSockaddr INADDR_ANY (cfg_port_ cfg `mod` 2 ^ 16) else ai_addr ai)] else []) ++
    (if negb (is_udp_ cfg) && is_listening_ cfg then [sys_listen fd MaxTCPServerBacklog] else []) ++
    (if needs_so_timestamp_ cfg then [sys_setsockopt fd SO_TIMESTAMP] else []).
Proof. unfold setup. by destruct (is_udp_ cfg), (is_listening_ cfg), (needs_so_timestamp_ cfg). Qed.

Lemma bind_issue_app {B} (m : M trace unit) (k : M trace B) (x : B) cs cs' tr :
  m tr = issued tt (issue cs tr) → (∀ tr, k tr = issued x (issue cs' tr)) →
  (m;; k) tr = issued x (issue (cs ++ cs') tr).
Proof. intros Hm Hk. rewrite (bind_issue _ _ cs), issue_app by done. by destruct (issue cs tr) as [tr'|]; [apply Hk|]. Qed.

Lemma open_one_issue cfg ai tr :
  let c := sys_socket (ai_family ai) (ai_socktype ai) (ai_protocol ai) in
  open_one cfg ai tr =
    match issue [c] tr with
    | None => Err AssertFailed
    | Some tr1 =>
        let fd := ret (kernel tr c) in
        let flags := kernel tr1 (sys_fcntl_getfl fd) in
        issued fd (issue (nonblocking_calls fd (ret flags) ++ setup cfg ai fd) (tr1 ++ [(sys_fcntl_getfl fd, flags)]))
    end.
Proof.
  cbv zeta. unfold open_one. rewrite sys_run. cbn [issue accepted].
  set (fd := ret (kernel tr (sys_socket _ _ _))). set (tr1 := tr ++ _). clearbody fd.
  destruct (fd =? -1); [done|]. cbn [negb].
  change ((ASSERT true;; ?k) tr1) with (k tr1).
  unfold mbind at 1, M_bind at 1. rewrite setNonBlocking_issue, issue_app.
  destruct (issue (nonblocking_calls _ _) _) as [tr2|]; [|done]. cbn [issued mbind option_bind]. rewrite setup_calls.
  apply bind_issue_app; [by apply set_option_issue|]. intros tr3.
  apply bind_issue_app; [by apply when_issue|]. intros tr4.
  apply bind_issue_app; [by apply when_issue|]. intros tr5.
  apply bind_issue_app; [by apply (when_issue (is_listening_ cfg) (sys_bind fd _))|]. intros tr6.
  apply bind_issue_app; [by apply when_issue|]. intros tr7.
  rewrite <- (app_nil_r (if needs_so_timestamp_ cfg then _ else _)).
  apply bind_issue_app; [by apply set_option_issue|done].
Qed.
(** The segment of the history in which the socket [fd] for the address [ai] is made. *)
Definition made cfg ai (fd : Z) seg : Prop :=
  ∃ s flags rest,
    seg = (sys_socket (ai_family ai) (ai_socktype ai) (ai_protocol ai), s) :: (sys_fcntl_getfl fd, flags) :: rest ∧
    ret s = fd ∧ fd ≠ -1 ∧ rest.*1 = nonblocking_calls fd (ret flags) ++ setup cfg ai fd ∧
    Forall (λ x, accepted x.1 x.2 = true) rest.

Lemma open_one_spec cfg ai tr :
  match open_one cfg ai tr with
  | Ok (fd, tr') => ∃ seg, tr' = tr ++ seg ∧ made cfg ai fd seg
  | Err e => e = AssertFailed
  end.
Proof.
  rewrite open_one_issue. cbn [issue accepted]. set (s := kernel tr _). destruct (Z.eqb_spec (ret s) (-1)) as [|Hs]; [done|].
  cbn [negb]. unfold issued. destruct (issue _ _) as [tr'|] eqn:E; [|done].
  apply issue_segment in E as (seg & -> & Hc & Hseg). eexists. rewrite <- !app_assoc. split; [reflexivity|].
  by exists s, (kernel (tr ++ [(sys_socket (ai_family ai) (ai_socktype ai) (ai_protocol ai), s)]) (sys_fcntl_getfl (ret s))), seg.
Qed.

Lemma open_all_spec cfg ais fd0 tr :
  match open_all cfg ais fd0 tr with
  | Ok (fd, tr') => ∃ fds segs, tr' = tr ++ concat segs ∧ Forall3 (made cfg) ais fds segs ∧ fd = default fd0 (last fds)
  | Err e => e = AssertFailed
  end.
Proof.
  revert fd0 tr. induction ais as [|ai ais IH]; intros fd0 tr; cbn [open_all].
  { exists [], []. cbn. rewrite app_nil_r. split_and!; [done|constructor|done]. }
  unfold mbind, M_bind. pose proof (open_one_spec cfg ai tr) as H1. destruct (open_one cfg ai tr) as [[fd1 tr1]|e]; [|done].
  destruct H1 as (seg & -> & Hm). specialize (IH fd1 (tr ++ seg)).
  destruct (open_all cfg ais fd1 (tr ++ seg)) as [[fd tr']|e]; [|done]. destruct IH as (fds & segs & -> & Hf & ->).
  exists (fd1 :: fds), (seg :: segs). split_and!; [cbn; by rewrite app_assoc|by constructor|].
  rewrite last_cons. by destruct (last fds).
Qed.

Lemma open_all_accepting cfg ais fd0 tr :
  (∀ tr c, accepted c (kernel tr c) = true) → ∃ fd tr', open_all cfg ais fd0 tr = Ok (fd, tr').
Proof.
  intros Ha. revert fd0 tr. induction ais as [|ai ais IH]; intros fd0 tr; cbn [open_all]; [by eexists _, _|].
  unfold mbind, M_bind. rewrite open_one_issue. cbn [issue]. rewrite Ha. cbv zeta.
  set (x := sys_socket _ _ _). set (cs := nonblocking_calls _ _ ++ _).
  match goal with |- context [issue cs ?t] => destruct (issue_accepting cs t Ha) as [tr1 ->] end. apply IH.
Qed.

Lemma find_iface_total iface ifas tr : ∃ ip seg, find_iface iface ifas tr = Ok (ip, tr ++ seg).
Proof.
  induction ifas as [|ifa ifas IH]; cbn [find_iface]; [exists EmptyString, []; by rewrite app_nil_r|].
  destruct (_ && _); [|done]. by eexists _, [_].
Qed.

(** An address is found by asking the kernel; this does not fail. *)
Lemma getIfaceIP_total iface tr : ∃ ip seg, getIfaceIP iface tr = Ok (ip, tr ++ seg).
Proof.
  unfold getIfaceIP. rewrite sys_run. set (a := kernel tr sys_getifaddrs). destruct (negb _); [|by eexists _, [_]].
  unfold gets, mbind, M_bind. destruct (find_iface_total iface (interfaces (tr ++ [(sys_getifaddrs, a)])) (tr ++ [(sys_getifaddrs, a)]))
    as (ip & seg & ->). cbn. eexists ip, _. by rewrite <- !app_assoc.
Qed.

(** The first interface of the name with an IPv4 address is the one that counts. *)
Lemma getIfaceIP_first iface tr pre ifa post :
  ret (kernel tr sys_getifaddrs) ≠ -1 → 
  let tr1 := tr ++ [(sys_getifaddrs, kernel tr sys_getifaddrs)] in
  interfaces tr1 = pre ++ ifa :: post →
  Forall (λ i, ¬ (ifa_family i = Some AF_INET ∧ ifa_name i = iface)) pre →
  ifa_family ifa = Some AF_INET → ifa_name ifa = iface →
  let tr2 := tr1 ++ [(sys_getnameinfo ifa, kernel tr1 (sys_getnameinfo ifa))] in
  getIfaceIP iface tr = Ok (host_name tr2, tr2 ++ [(sys_freeifaddrs, kernel tr2 sys_freeifaddrs)]).
Proof.
  intros Ha tr1 Hi Hpre Hf Hn tr2. unfold getIfaceIP. rewrite sys_run. fold tr1.
  rewrite (proj2 (Z.eqb_neq _ _) Ha). cbn [negb]. unfold gets, mbind, M_bind at 1. rewrite Hi.
  assert (find_iface iface (pre ++ ifa :: post) tr1 = Ok (host_name tr2, tr2)) as E.
  { clear Hi. induction Hpre as [|i pre Hni Hpre IH]; cbn [app find_iface].
    - by rewrite !bool_decide_eq_true_2 by done.
    - destruct (bool_decide_reflect (ifa_family i = Some AF_INET)); [|exact IH].
      by rewrite bool_decide_eq_false_2 by (intros ->; by apply Hni). }
  unfold M_bind at 1. rewrite E. done.
Qed.

Definition found (cfg : SocketCfg) tr (ip : string) (lookup : trace) : Prop :=
  if bool_decide (cfg_ip_ cfg = EmptyString) then getIfaceIP (cfg_iface_ cfg) tr = Ok (ip, tr ++ lookup)
  else ip = cfg_ip_ cfg ∧ lookup = [].

(** What becomes of the mode of the socket [fd]: if the kernel tells the flags, they have O_NONBLOCK or are set
    to have it; if F_GETFL fails, nothing is set and the socket blocks as it was made. *)
Definition mode_set (fd : Z) seg : Prop :=
  ∃ flags, (sys_fcntl_getfl fd, flags) ∈ seg ∧
    if ret flags =? -1 then ∀ f, sys_fcntl_setfl fd f ∉ seg.*1
    else Z.land (ret flags) O_NONBLOCK ≠ 0 ∨
      ∃ a, (sys_fcntl_setfl fd (Z.lor (ret flags) O_NONBLOCK), a) ∈ seg ∧ ret a ≠ -1.

Lemma setup_no_setfl cfg ai fd f : sys_fcntl_setfl fd f ∉ setup cfg ai fd.
Proof. unfold setup. destruct (is_udp_ cfg), (is_listening_ cfg), (needs_so_timestamp_ cfg); cbn; set_solver. Qed.

Lemma made_mode cfg ai fd seg : O_NONBLOCK ≠ 0 → made cfg ai fd seg → mode_set fd seg.
Proof.
  intros Ho (s & flags & rest & -> & Hs & Hfd & Hc & Ha). exists flags. split; [set_solver|].
  unfold nonblocking_calls in Hc. destruct (Z.eqb_spec (ret flags) (-1)) as [E|E].
  - rewrite E, Z.land_m1_l, (proj2 (Z.eqb_neq _ _) Ho) in Hc. intros f. rewrite !fmap_cons, Hc. cbn [fst app].
    pose proof (setup_no_setfl cfg ai fd f). set_solver.
  - destruct (Z.eqb_spec (Z.land (ret flags) O_NONBLOCK) 0) as [E0|]; [right|by left].
    destruct rest as [|[x a] rest]; [done|]. injection Hc as -> _. exists a. split; [set_solver|].
    apply Forall_cons in Ha as [Ha _]. cbn in Ha. by destruct (Z.eqb_spec (ret a) (-1)).
Qed.


(** A failed F_GETFL answers -1, whose bits are all set: the socket is taken for a non-blocking one. *)
Lemma setNonBlocking_failed fd tr :
  O_NONBLOCK ≠ 0 → ret (kernel tr (sys_fcntl_getfl fd)) = -1 →
  setNonBlocking fd tr = Ok (true, tr ++ [(sys_fcntl_getfl fd, kernel tr (sys_fcntl_getfl fd))]).
Proof.
  intros Ho Hf. unfold setNonBlocking. rewrite sys_run, Hf, Z.land_m1_l.
  by rewrite (proj2 (Z.eqb_neq _ _) Ho).
Qed.
End requests.

(** ** Threads *)

(** The kernel refuses a set without a core: a core beyond the set ends the process. *)
Lemma core_beyond_set `{SystemConstants} {S A} (setaffinity : list Z → Z) (core_id : Z) (f : M S A) (x : S) :
  setaffinity [] ≠ 0 → 0 ≤ core_id → CPU_SETSIZE ≤ core_id → thread_task setaffinity core_id f x = Err FatalExit.
Proof.
  intros Hs H0 Hc. unfold thread_task, setThreadCore, cpuset.
  rewrite (proj2 (Z.ltb_ge _ _) Hc), andb_false_r, (proj2 (Z.eqb_neq _ _) Hs).
  by rewrite (proj2 (Z.leb_le _ _) H0).
Qed.

(** A thread that is not pinned runs its function at once. *)
Lemma thread_not_pinned `{SystemConstants} {S A} (setaffinity : list Z → Z) (core_id : Z) (f : M S A) (x : S) :
  core_id < 0 → thread_task setaffinity core_id f x = f x.
Proof. intros Hc. unfold thread_task. by rewrite (proj2 (Z.leb_gt _ _) Hc). Qed.
