(* ===== verification/BookTypes.v ===== *)
(** * Every field keeps its width

    The model's integers are unbounded; the fields of the program have 32 or 64 bits.  A book
    whose fields are within their types, given requests as they come off the wire, sends only messages
    whose fields are within theirs, and stays so. *)
From S2P Require Import Prelude Types LFQueue EngineSink BookSpec BookSweep BookInv MEOrderBook BookRep.
From S2P Require Import BookRefine BookTheorems MatchingEngine Wire.
Implicit Types (a : Aggressor) (o : Order) (os : list Order) (ls : list Level) (bk : Book) (bks : list Book)
  (r : MEClientRequest) (reqs : list MEClientRequest) (evs : list event).

Definition order_typed o : Prop :=
  is_u32 (s_ticker o) ∧ is_u32 (s_client o) ∧ is_u64 (s_coid o) ∧ is_u64 (s_moid o) ∧ in_i64P (s_price o) ∧
  is_u32 (s_qty o) ∧ is_u64 (s_prio o).

Definition book_typed bk : Prop := Forall order_typed (book_orders bk) ∧ is_u64 (next_id bk).

Definition event_typed (ev : event) : Prop :=
  match ev with Response r => in_range r | Update u => in_range u end.

Definition aggressor_typed a : Prop :=
  is_u32 (a_client a) ∧ is_u64 (a_coid a) ∧ is_u32 (a_ticker a) ∧ is_u64 (a_moid a).

Lemma invalid_typed : is_u64 OrderId_INVALID ∧ in_i64P Price_INVALID ∧ is_u32 Qty_INVALID ∧ is_u64 Priority_INVALID.
Proof. done. Qed.

Lemma execution_typed a leaves o :
  aggressor_typed a → is_u32 leaves → order_typed o → Forall event_typed (execution a leaves o).1.1.
Proof.
  intros (A1 & A2 & A3 & A4) Hl (O1 & O2 & O3 & O4 & O5 & O6 & O7).
  destruct invalid_typed as (I1 & I2 & I3 & I4).
  assert (is_u32 (Z.min leaves (s_qty o)) ∧ is_u32 (leaves - Z.min leaves (s_qty o)) ∧ is_u32 (s_qty o - Z.min leaves (s_qty o)))
    as (M1 & M2 & M3) by (unfold is_u32 in *; lia).
  cbn [execution fst]. rewrite !Forall_cons. split_and!; [..|by constructor]; try (by split_and!).
  by destruct (_ =? 0); split_and!.
Qed.

(** What an execution leaves of the aggressor. *)
Lemma execution_leaves a leaves o : is_u32 leaves → 0 ≤ s_qty o → is_u32 (execution a leaves o).1.2.
Proof. unfold is_u32. cbn. lia. Qed.

Lemma fill_level_typed a os : aggressor_typed a → Forall order_typed os → ∀ leaves, is_u32 leaves →
  Forall event_typed (fill_level a leaves os).1.1 ∧ is_u32 (fill_level a leaves os).1.2 ∧
  Forall order_typed (fill_level a leaves os).2.
Proof.
  intros Ha. induction 1 as [|o os Ho Hos IH]; intros l Hl; cbn [fill_level]; [by split_and!|].
  destruct (l =? 0); [split_and!; try done; by constructor|].
  pose proof (execution_typed a l o Ha Hl Ho) as Hx. destruct Ho as (O1 & O2 & O3 & O4 & O5 & O6 & O7).
  assert (is_u32 (execution a l o).1.2 ∧ is_u32 (execution a l o).2) as [Hl1 Hr1] by (cbn; unfold is_u32 in *; lia).
  destruct (execution a l o) as [[evs l1] r]. cbn [fst snd] in *.
  destruct (r =? 0); cbn [fst snd].
  - specialize (IH l1 Hl1). destruct (fill_level a l1 os) as [[evs' l2] os']. cbn [fst snd] in *.
    destruct IH as (? & ? & ?). split_and!; [by apply Forall_app|done|done].
  - split_and!; [done|done|]. constructor; [by split_and!|done].
Qed.

Lemma sweep_typed a ls : aggressor_typed a → Forall order_typed (flat ls) → ∀ leaves, is_u32 leaves →
  Forall event_typed (sweep a leaves ls).1.1 ∧ is_u32 (sweep a leaves ls).1.2 ∧
  Forall order_typed (flat (sweep a leaves ls).2).
Proof.
  intros Ha. induction ls as [|[p os] ls IH]; intros Hls l Hl; cbn [sweep]; [by split_and!|].
  destruct (_ || _); [by split_and!|]. rewrite flat_cons in Hls. apply Forall_app in Hls as [Hos Hls].
  pose proof (fill_level_typed a os Ha Hos l Hl) as (Hf1 & Hf2 & Hf3).
  destruct (fill_level a l os) as [[evs l1] os']. cbn [fst snd] in *. destruct os' as [|o os']; cbn [fst snd].
  - specialize (IH Hls l1 Hf2). destruct (sweep a l1 ls) as [[evs' l2] ls']. cbn [fst snd] in *.
    destruct IH as (? & ? & ?). split_and!; [by apply Forall_app|done|done].
  - split_and!; [done|done|]. rewrite flat_cons. by apply Forall_app.
Qed.

Lemma next_priority_typed price ls : is_u64 (next_priority price ls).
Proof. unfold next_priority. destruct (last _); [|done]. unfold is_u64, u64. apply Z.mod_pos_bound. lia. Qed.

Lemma add_typed client coid t s price qty bk :
  trading_side s → is_u32 client → is_u64 coid → is_u32 t → in_i64P price → is_u32 qty → book_typed bk →
  let x := spec_add client coid t s price qty bk in Forall event_typed x.2 ∧ book_typed x.1.
Proof.
  intros Hs Hc Ho Ht Hp Hq [Hos Hn] x. subst x. unfold spec_add. set (a := mkAggressor _ _ _ _ _ _).
  assert (aggressor_typed a) as Ha.
  { split_and!; try done. cbn. pose proof (u32_range (next_id bk)). unfold is_u32, is_u64 in *. lia. }
  rewrite (book_orders_perm s) in Hos by done. apply Forall_app in Hos as [Hown Hopp].
  destruct (sweep_typed a _ Ha Hopp qty Hq) as (He & Hl & Hls).
  destruct (sweep a qty (sel (opp s) (levels bk))) as [[evs leaves] passive]. cbn [fst snd] in *.
  assert (event_typed (Response (mkMEClientResponse ClientResponseType_ACCEPTED client t coid (next_id bk) s price 0 qty)))
    as Hacc by (by split_and!).
  pose proof (u64_range (next_id bk + 1)) as Hnext.
  destruct (leaves =? 0); cbn [fst snd].
  - split; [by constructor|]. split; [|done]. rewrite (book_orders_perm s) by done. cbn [levels].
    rewrite sel_upd_opp, sel_upd by done. by apply Forall_app.
  - pose proof (next_priority_typed price (sel s (upd (opp s) passive (levels bk)))) as Hprio. split.
    + constructor; [done|]. apply Forall_app. split; [done|]. constructor; [by split_and!|done].
    + split; [|done]. rewrite (book_orders_perm s) by done. cbn [levels].
      rewrite sel_upd, sel_opp_upd, sel_upd_opp, sel_upd, insert_order_flat by done.
      cbn [app]. constructor; [|by apply Forall_app]. split_and!; try done. apply next_priority_typed.
Qed.

Lemma cancel_typed client oid t bk :
  is_u32 client → is_u64 oid → is_u32 t → book_typed bk →
  let x := spec_cancel client oid t bk in Forall event_typed x.2 ∧ book_typed x.1.
Proof.
  intros Hc Ho Ht [Hos Hn] x. subst x. unfold spec_cancel. destruct invalid_typed as (I1 & I2 & I3 & I4).
  destruct (find_order client oid bk) as [o|] eqn:Hf; cbn [fst snd].
  - apply find_order_Some in Hf as [Hin _]. rewrite Forall_forall in Hos.
    destruct (Hos o Hin) as (O1 & O2 & O3 & O4 & O5 & O6 & O7). split; [by repeat (constructor; [by split_and!|])|].
    split; [|done]. unfold book_orders. cbn [levels fst snd]. rewrite delete_book_orders.
    apply Forall_forall. intros y [_ Hy]%list_elem_of_filter. by apply Hos.
  - split; [by constructor; [by split_and!|]|done].
Qed.

Section typed.
Context `{Limits}.

Lemma request_typed r bk : in_range r → admissible r bk → book_typed bk →
  Forall event_typed (spec_request r bk).2 ∧ book_typed (spec_request r bk).1.
Proof.
  intros (R1 & R2 & R3 & R4 & R5) Ha Hbk. unfold spec_request, admissible in *. destruct (req_type_ r); [done| |].
  - destruct Ha as [Hs _]. by apply add_typed.
  - by apply cancel_typed.
Qed.

Lemma steps_typed reqs bks :
  Forall in_range reqs → admissible_steps reqs bks → Forall book_typed bks →
  Forall event_typed (spec_steps reqs bks).2 ∧ Forall book_typed (spec_steps reqs bks).1.
Proof.
  revert bks. induction reqs as [|r reqs IH]; intros bks Hr Ha Hbks; [done|].
  apply Forall_cons in Hr as [Hr Hrs]. destruct Ha as [(bk & Hbk & Ha) Has]. cbn [spec_steps fst snd].
  unfold spec_step in *. rewrite Hbk in *. cbn [fst snd] in *.
  destruct (request_typed r bk Hr Ha (Forall_lookup_1 _ _ _ _ Hbks Hbk)) as [He Hb].
  destruct (IH _ Hrs Has (Forall_insert _ _ _ _ Hbks Hb)) as [He' Hb']. split; [by apply Forall_app|done].
Qed.

Lemma responses_typed evs : Forall event_typed evs → Forall in_range (responses evs) ∧ Forall in_range (updates evs).
Proof.
  induction 1 as [|[r|u] evs Hev Hevs [IH1 IH2]]; [done| |].
  - split; [|exact IH2]. change (responses (Response r :: evs)) with (r :: responses evs). by constructor.
  - split; [exact IH1|]. change (updates (Update u :: evs)) with (u :: updates evs). by constructor.
Qed.

(** C20: the matching engine is typed.  Requests with fields in the ranges of their types, as every request
    read from the wire has them, handled by books whose fields are in theirs, leave such books and
    put only messages with fields in range into the queues: so all that the engine says survives
    the wire, however the bytes of the responses or of the updates are cut up on their way. *)
Theorem engine_typed reqs m bks rs us :
  engine_ok m bks reqs rs us (spec_steps reqs bks).2 → run_ m = true → admissible_steps reqs bks →
  Forall in_range reqs → Forall book_typed bks →
  ∃ m' rs' us' bks', run (length reqs) m = Ok (tt, m') ∧ Forall2 implements (ticker_order_book_ m') bks' ∧
    Forall book_typed bks' ∧
    holds (outgoing_ogw_responses_ (outgoing_ m')) (rs ++ rs') ∧ holds (outgoing_md_updates_ (outgoing_ m')) (us ++ us') ∧
    Forall in_range rs' ∧ Forall in_range us' ∧
    (∀ chunks, concat chunks = stream rs' → receive [] chunks = (rs', [])) ∧
    (∀ chunks, concat chunks = stream us' → receive [] chunks = (us', [])).
Proof.
  intros Hok Hrun Ha Hr Hb. destruct (run_spec _ _ _ _ _ Hok Hrun Ha) as (m' & Hm & _ & Hbs & _ & Hrq & Huq & _).
  destruct (steps_typed reqs bks Hr Ha Hb) as [He Hb']. destruct (responses_typed _ He) as [Hrs Hus].
  do 4 eexists. split_and!; [exact Hm|exact Hbs|exact Hb'|exact Hrq|exact Huq|exact Hrs|exact Hus|..];
    intros chunks Hc; (apply receive_stream; [done|cbn; pose proof wire_size_pos; lia| |cbn; pose proof wire_size_pos; lia]); by rewrite app_nil_r.
Qed.
End typed.
