(* ===== verification/RecvFrames.v ===== *)
(** * Receiving messages on a TCP socket

    The recvCallback of the order server and the one of the order gateway have the same shape: a
    loop over the whole messages in the receive buffer, then a move of what is left to its front.
    [frame_callback] is that shape, for any message type of the wire and any handler of one
    message; [recv_loop_frames] says what the receive loop of a socket makes of it, however the
    kernel cuts the stream. *)
From S2P Require Import Prelude Types Wire Socket.
Section frames.
Context `{BufferSizes} {A : Type} `{WireLaws A} {St : Type}.
Context (handle : Z → A → St → result St).
Implicit Types (s : TCPSocket) (st : St).

(** The handler on one message after the other. *)
Fixpoint handle_all (ms : list (Z * A)) st : result St :=
  match ms with
  | [] => Ok st
  | (t, m) :: ms => match handle t m st with Ok st => handle_all ms st | Err e => Err e end
  end.

Definition frame_callback s (rx_time : Z) st : result (TCPSocket * St) :=
  if (wire_size <=? length (inbound_data_ s))%nat then
    let '(ms, rest) := frames (inbound_data_ s) in
    match handle_all (pair rx_time <$> ms) st with
    | Ok st => Ok (set_inbound rest s, st)
    | Err e => Err e
    end
  else Ok (s, st).

(** The messages read from chunks of bytes, each with the time of its last chunk. *)
Fixpoint recv_frames (left : list Z) (chunks : list (list Z * Z)) : list (Z * A) * list Z :=
  match chunks with
  | [] => ([], left)
  | (c, t) :: cs =>
      let x := frames (left ++ c) in let y := recv_frames x.2 cs in
      ((pair t <$> x.1) ++ y.1, y.2)
  end.

Lemma handle_all_app ms1 ms2 st :
  handle_all (ms1 ++ ms2) st
  = match handle_all ms1 st with Ok st => handle_all ms2 st | Err e => Err e end.
Proof.
  revert st. induction ms1 as [|[t m] ms1 IH]; intros st; cbn; [done|].
  destruct (handle t m st); [apply IH|done].
Qed.

Lemma recv_frames_receive left chunks :
  snd <$> (recv_frames left chunks).1 = (receive left chunks.*1).1 ∧
  (recv_frames left chunks).2 = (receive left chunks.*1).2.
Proof.
  revert left. induction chunks as [|[c t] cs IH]; intros left; [done|].
  cbn [recv_frames receive fmap list_fmap fst snd]. destruct (IH (frames (left ++ c)).2) as [IH1 IH2].
  split; [|exact IH2]. rewrite fmap_app, IH1. f_equal.
  rewrite <- list_fmap_compose. by apply list_fmap_id.
Qed.

Lemma frames_go_rest fuel bs :
  (length bs ≤ fuel)%nat → (length (frames_go (A := A) fuel bs).2 < wire_size)%nat.
Proof.
  pose proof wire_size_pos as Hpos. revert bs. induction fuel as [|fuel IH]; intros bs Hle; cbn [frames_go].
  - cbn. lia.
  - destruct (_ <=? _)%nat eqn:Hc; [apply Nat.leb_le in Hc|by apply Nat.leb_gt in Hc].
    cbn [snd]. apply IH. rewrite length_drop. lia.
Qed.

Lemma frame_callback_eq s t st :
  frame_callback s t st
  = match handle_all (pair t <$> (frames (inbound_data_ s)).1) st with
    | Ok st => Ok (set_inbound (frames (A := A) (inbound_data_ s)).2 s, st)
    | Err e => Err e
    end.
Proof.
  unfold frame_callback. destruct (_ <=? _)%nat eqn:Hc.
  - by destruct (frames (inbound_data_ s)).
  - replace (frames (inbound_data_ s)) with (@nil A, inbound_data_ s); [by destruct s|].
    unfold frames. destruct (length (inbound_data_ s)) eqn:Hl; cbn [frames_go]; rewrite ?Hl; [done|].
    by rewrite Hc.
Qed.

Definition chunk_ok (c : list Z * Z) : Prop :=
  (0 < length c.1)%nat ∧ (wire_size + length c.1 ≤ TCPBufferSize)%nat.

Definition recv_chunk (c : list Z * Z) : recv_result := RecvData c.1 c.2.

Lemma recv_loop_frames chunks s st st' r :
  closed_ s = false → (length (inbound_data_ s) < wire_size)%nat → Forall chunk_ok chunks →
  (wire_size ≤ TCPBufferSize)%nat →
  handle_all (recv_frames (inbound_data_ s) chunks).1 st = Ok st' →
  recv_loop frame_callback (recv_chunk <$> chunks) s st r
  = Ok (set_inbound (recv_frames (inbound_data_ s) chunks).2 s, st', match chunks with [] => r | _ => true end).
Proof.
  intros Hcl. intros Hlt Hok Hbuf. revert s st r Hcl Hlt.
  induction chunks as [|[c t] cs IH]; intros s st r Hcl Hlt Hh.
  - cbn in Hh |- *. injection Hh as <-. destruct s. by destruct (_ || _).
  - apply Forall_cons in Hok as [[Hc1 Hc2] Hok]. cbn [fst] in Hc1, Hc2.
    cbn [recv_frames fmap list_fmap fst snd] in Hh |- *. unfold recv_chunk at 1. cbn [recv_loop].
    rewrite Hcl. cbn [orb]. rewrite (proj2 (Nat.eqb_neq _ _)) by lia. cbv zeta.
    cbn [fst snd]. rewrite (take_ge c) by lia. rewrite (proj2 (Nat.ltb_lt _ _) Hc1).
    rewrite frame_callback_eq. cbn [set_inbound inbound_data_]. rewrite handle_all_app in Hh.
    destruct (handle_all (pair t <$> (frames (inbound_data_ s ++ c)).1) st) as [st1|e]; [|done].
    set (s1 := set_inbound _ _).
    rewrite (IH Hok s1 st1 true); [by destruct cs|done| |done].
    unfold s1. cbn. unfold frames. by apply frames_go_rest.
Qed.
End frames.

(** ** Sending a message behind its sequence number

    Both ends make two calls of send: the sequence number, then the message. *)
Section send.
Context `{BufferSizes} {A : Type} `{WireLaws A}.

Definition send_numbered (seq : Z) (m : A) (s : TCPSocket) : result TCPSocket :=
  s ← tcp_send (le 8 seq) s; tcp_send (encode m) s.

Lemma send_numbered_spec seq m s :
  tcp_wf s → closed_ s = false → (length (pending s) + (8 + wire_size) ≤ TCPBufferSize)%nat →
  ∃ s', send_numbered seq m s = Ok s' ∧ pending s' = pending s ++ le 8 seq ++ encode m ∧
    tcp_wf s' ∧ closed_ s' = false ∧ inbound_data_ s' = inbound_data_ s ∧
    socket_fd_ s' = socket_fd_ s.
Proof.
  intros Hwf Hc Hle. pose proof (tcp_send_spec (le 8 seq) s Hwf Hc) as Hsp1.
  rewrite decide_True in Hsp1 by (rewrite length_le; lia).
  destruct Hsp1 as (s1 & Hs1 & Hp1 & Hwf1 & Hc1 & Hi1 & Hf1).
  pose proof (tcp_send_spec (encode m) s1 Hwf1 Hc1) as Hsp2.
  rewrite decide_True in Hsp2 by (rewrite Hp1, length_app, length_le, length_encode; lia).
  destruct Hsp2 as (s2 & Hs2 & Hp2 & Hwf2 & Hc2 & Hi2 & Hf2).
  exists s2. unfold send_numbered. rewrite Hs1. cbn [mbind result_bind].
  split_and!; [done| |done|done|congruence|congruence].
  by rewrite Hp2, Hp1, <- app_assoc.
Qed.
End send.

(** ** Numbered sequences *)

(** The messages with consecutive sequence numbers from [n], as they wrap around. *)
Fixpoint numbered {A B} (mk : Z → A → B) (n : Z) (ms : list A) : list B :=
  match ms with [] => [] | m :: ms => mk n m :: numbered mk (u64 (n + 1)) ms end.

Lemma length_numbered {A B} (mk : Z → A → B) n ms : length (numbered mk n ms) = length ms.
Proof. revert n. induction ms as [|m ms IH]; intros n; cbn; [done|]. by rewrite IH. Qed.

Fixpoint advance {A} (n : Z) (ms : list A) : Z :=
  match ms with [] => n | _ :: ms => advance (u64 (n + 1)) ms end.

Lemma numbered_app {A B} (mk : Z → A → B) n ms1 ms2 :
  numbered mk n (ms1 ++ ms2) = numbered mk n ms1 ++ numbered mk (advance n ms1) ms2.
Proof. revert n. induction ms1 as [|m ms1 IH]; intros n; cbn; [done|]. by rewrite IH. Qed.

Lemma advance_app {A} n (ms1 ms2 : list A) : advance n (ms1 ++ ms2) = advance (advance n ms1) ms2.
Proof. revert n. induction ms1 as [|m ms1 IH]; intros n; cbn; [done|]. by rewrite IH. Qed.

Lemma advance_u64 {A} (ms : list A) n : is_u64 n → is_u64 (advance n ms).
Proof. revert n. induction ms as [|m ms IH]; intros n Hn; cbn [advance]; [done|]. apply IH, u64_range. Qed.

Lemma numbered_in_range {A B} `{Wire A, Wire B} (mk : Z → A → B) n ms :
  (∀ k m, is_u64 k → in_range m → in_range (mk k m)) →
  is_u64 n → Forall in_range ms → Forall in_range (numbered mk n ms).
Proof.
  intros Hmk Hn Hms. revert n Hn. induction Hms as [|m ms Hm Hms IH]; intros n Hn; [constructor|].
  cbn [numbered]. constructor; [by apply Hmk|]. apply IH, u64_range.
Qed.
