(* ===== verification/OrderServer.v ===== *)
(** * The order server (exchange/order_server)

    fifo_sequencer.h, order_server.h and order_server.cpp.  The member tcp_server_ is kept beside
    the rest of the object, because its callbacks take the rest; a socket pointer is the key of
    the socket in the server's store.  std::sort is a parameter with its documented contract. *)
From S2P Require Import Prelude Types LFQueue Wire Socket RecvFrames TcpServer.
(** ** The FIFO sequencer *)
Definition ME_MAX_PENDING_REQUESTS : nat := 1024.
#[global] Arguments ME_MAX_PENDING_REQUESTS : simpl never.

Record RecvTimeClientRequest := mkRecvTime { recv_time_ : Z; request_ : MEClientRequest }.

(** operator<, in the form std::sort leaves the array in: no later element is smaller. *)
Definition recv_le (a b : RecvTimeClientRequest) : Prop := recv_time_ a ≤ recv_time_ b.

Class StdSort := std_sort : list RecvTimeClientRequest → list RecvTimeClientRequest.
Class StdSortSpec (S : StdSort) : Prop := {
  std_sort_perm l : std_sort l ≡ₚ l;
  std_sort_sorted l : StronglySorted recv_le (std_sort l)
}.

(** [pending_client_requests_] is the part of the array up to pending_size_. *)
Record FIFOSequencer := mkFIFOSequencer {
  fifo_incoming_requests_ : LFQueue MEClientRequest;
  pending_client_requests_ : list RecvTimeClientRequest
}.

Definition addClientRequest (rx_time : Z) (request : MEClientRequest) (f : FIFOSequencer) :
    result FIFOSequencer :=
  if (ME_MAX_PENDING_REQUESTS <=? length (pending_client_requests_ f))%nat then Err FatalExit
  else Ok (mkFIFOSequencer (fifo_incoming_requests_ f)
             (pending_client_requests_ f ++ [mkRecvTime rx_time request])).

Definition sequenceAndPublish `{StdSort} (f : FIFOSequencer) : FIFOSequencer :=
  match pending_client_requests_ f with
  | [] => f
  | l => mkFIFOSequencer (push_all (request_ <$> std_sort l) (fifo_incoming_requests_ f)) []
  end.

(** ** The server *)
Record OrderServer := mkOrderServer {
  outgoing_responses_ : LFQueue MEClientResponse;
  os_run_ : bool;
  cid_next_outgoing_seq_num_ : list Z;
  cid_next_exp_seq_num_ : list Z;
  cid_tcp_socket_ : list (option nat);
  fifo_sequencer_ : FIFOSequencer
}.

Definition OrderServer_new `{Limits} (requests : LFQueue MEClientRequest)
    (responses : LFQueue MEClientResponse) : OrderServer :=
  let n := Z.to_nat ME_MAX_NUM_CLIENTS in
  mkOrderServer responses false (replicate n 1) (replicate n 1) (replicate n None)
    (mkFIFOSequencer requests []).

Definition set_owner (c : nat) (p : nat) (o : OrderServer) : OrderServer :=
  mkOrderServer (outgoing_responses_ o) (os_run_ o) (cid_next_outgoing_seq_num_ o)
    (cid_next_exp_seq_num_ o) (<[c := Some p]> (cid_tcp_socket_ o)) (fifo_sequencer_ o).
Definition set_next_exp (c : nat) (n : Z) (o : OrderServer) : OrderServer :=
  mkOrderServer (outgoing_responses_ o) (os_run_ o) (cid_next_outgoing_seq_num_ o)
    (<[c := n]> (cid_next_exp_seq_num_ o)) (cid_tcp_socket_ o) (fifo_sequencer_ o).
Definition set_sequencer (f : FIFOSequencer) (o : OrderServer) : OrderServer :=
  mkOrderServer (outgoing_responses_ o) (os_run_ o) (cid_next_outgoing_seq_num_ o)
    (cid_next_exp_seq_num_ o) (cid_tcp_socket_ o) f.
Definition set_responses (q : LFQueue MEClientResponse) (c : nat) (n : Z) (o : OrderServer) :
    OrderServer :=
  mkOrderServer q (os_run_ o) (<[c := n]> (cid_next_outgoing_seq_num_ o))
    (cid_next_exp_seq_num_ o) (cid_tcp_socket_ o) (fifo_sequencer_ o).

(** The body of recvCallback's loop, for one message on the socket [p].  The client id comes from
    the wire and indexes three arrays unchecked. *)
Definition recv_request (p : nat) (rx_time : Z) (request : OMClientRequest) (o : OrderServer) :
    result OrderServer :=
  let c := Z.to_nat (req_client_id_ (me_client_request_ request)) in
  match cid_tcp_socket_ o !! c with
  | None => Err WildDeref
  | Some owner =>
      let o := match owner with None => set_owner c p o | Some _ => o end in
      if decide (default p owner ≠ p) then Ok o
      else
        match cid_next_exp_seq_num_ o !! c with
        | None => Err WildDeref
        | Some next_exp_seq_num =>
            if decide (omreq_seq_num_ request ≠ next_exp_seq_num) then Ok o
            else
              let o := set_next_exp c (u64 (next_exp_seq_num + 1)) o in
              match addClientRequest rx_time (me_client_request_ request) (fifo_sequencer_ o) with
              | Ok f => Ok (set_sequencer f o)
              | Err e => Err e
              end
        end
  end.

Definition os_recvCallback `{BufferSizes} (p : nat) :
    TCPSocket → Z → OrderServer → result (TCPSocket * OrderServer) :=
  frame_callback (recv_request p).

Definition recvFinishedCallback `{StdSort} (o : OrderServer) : OrderServer :=
  set_sequencer (sequenceAndPublish (fifo_sequencer_ o)) o.

(** The loop over the outgoing responses. *)
Fixpoint send_responses `{BufferSizes} (fuel : nat) (socks : gmap nat TCPSocket) (o : OrderServer) :
    result (gmap nat TCPSocket * OrderServer) :=
  match getNextToRead (outgoing_responses_ o) with
  | None => Ok (socks, o)
  | Some i =>
      match fuel, read_slot i (outgoing_responses_ o) with
      | O, _ => Err Diverges
      | _, None => Err WildDeref
      | S fuel, Some client_response =>
          let c := Z.to_nat (rsp_client_id_ client_response) in
          match cid_next_outgoing_seq_num_ o !! c, cid_tcp_socket_ o !! c with
          | Some seq, Some (Some p) =>
              match socks !! p with
              | None => Err WildDeref
              | Some s =>
                  match send_numbered seq client_response s, updateReadIndex (outgoing_responses_ o) with
                  | Ok s, Ok q =>
                      send_responses fuel (<[p := s]> socks) (set_responses q c (u64 (seq + 1)) o)
                  | Err e, _ | _, Err e => Err e
                  end
              end
          | Some _, Some None => Err AssertFailed
          | _, _ => Err WildDeref
          end
      end
  end.

(** One iteration of the loop of run: poll, sendAndRecv, then the responses.  No producer runs
    between the calls, so the length of the queue is enough fuel. *)
Definition os_run_round `{BufferSizes, StdSort} (evs : list epoll_event) (conns : list accepted)
    (io1 io2 : socket_ptr → socket_io) (t : TCPServer) (o : OrderServer) :
    result (TCPServer * OrderServer * list (socket_ptr * list Z)) :=
  if os_run_ o then
    t ← poll evs conns t;
    x ← server_sendAndRecv os_recvCallback (λ o, Ok (recvFinishedCallback o)) io1 io2 t o;
    let '(t, o, out) := x in
    y ← send_responses (q_size (outgoing_responses_ o)) (sockets_ t) o;
    mret (set_sockets y.1 t, y.2, out)
  else Ok (t, o, []).

Definition os_start (epoll_fd fd : Z) (epoll_ok thread_ok : bool) (t : TCPServer) (o : OrderServer) :
    result (TCPServer * OrderServer) :=
  t ← listen epoll_fd fd epoll_ok t;
  if thread_ok then
    Ok (t, mkOrderServer (outgoing_responses_ o) true (cid_next_outgoing_seq_num_ o)
             (cid_next_exp_seq_num_ o) (cid_tcp_socket_ o) (fifo_sequencer_ o))
  else Err AssertFailed.

Definition os_stop (o : OrderServer) : OrderServer :=
  mkOrderServer (outgoing_responses_ o) false (cid_next_outgoing_seq_num_ o)
    (cid_next_exp_seq_num_ o) (cid_tcp_socket_ o) (fifo_sequencer_ o).

(** ** The sequencer *)
Section sequencer.
Context `{StdSortSpec}.

Lemma sequence_spec f l0 :
  holds (fifo_incoming_requests_ f) l0 →
  (length l0 + length (pending_client_requests_ f) ≤ capacity (fifo_incoming_requests_ f))%nat →
  holds (fifo_incoming_requests_ (sequenceAndPublish f))
    (l0 ++ (request_ <$> std_sort (pending_client_requests_ f))) ∧
  pending_client_requests_ (sequenceAndPublish f) = [].
Proof.
  intros Hq Hle. unfold sequenceAndPublish.
  pose proof (std_sort_perm (pending_client_requests_ f)) as Hp.
  destruct (pending_client_requests_ f) as [|x l] eqn:Hf.
  - apply Permutation_nil_r in Hp. rewrite Hp. cbn. by rewrite app_nil_r.
  - split; [|done]. apply holds_push_all; [done|]. by rewrite length_fmap, Hp.
Qed.

Lemma sort_strict (l : list RecvTimeClientRequest) :
  StronglySorted (λ a b, recv_time_ a < recv_time_ b) l → std_sort l = l.
Proof.
  intros Hl. apply (StronglySorted_unique_strong recv_le).
  - intros a b Ha Hb Hab Hba. rewrite (std_sort_perm l) in Ha. unfold recv_le in *.
    assert (recv_time_ a = recv_time_ b) as Heq by lia. clear Hab Hba.
    induction Hl as [|x l Hl IH Hx]; [set_solver|]. rewrite Forall_forall in Hx.
    apply elem_of_cons in Ha as [->|Ha], Hb as [->|Hb]; [done| | |by apply IH].
    + specialize (Hx _ Hb). lia.
    + specialize (Hx _ Ha). lia.
  - apply std_sort_sorted.
  - clear -Hl. induction Hl as [|x l Hl IH Hx]; constructor; [done|].
    eapply Forall_impl; [exact Hx|]. intros y Hy. cbn in Hy. unfold recv_le. lia.
  - apply std_sort_perm.
Qed.

(** The sequencer publishes every pending request exactly once, in ascending order of receive
    time, behind what the matching engine has not read yet, and starts over with none pending. *)
Theorem sequence_publishes f l0 :
  holds (fifo_incoming_requests_ f) l0 →
  (length l0 + length (pending_client_requests_ f) ≤ capacity (fifo_incoming_requests_ f))%nat →
  ∃ l, l ≡ₚ pending_client_requests_ f ∧ StronglySorted recv_le l ∧
    holds (fifo_incoming_requests_ (sequenceAndPublish f)) (l0 ++ (request_ <$> l)) ∧
    pending_client_requests_ (sequenceAndPublish f) = [].
Proof.
  intros Hq Hle. destruct (sequence_spec f l0 Hq Hle) as [H1 H2].
  exists (std_sort (pending_client_requests_ f)).
  split_and!; [apply std_sort_perm|apply std_sort_sorted|done|done].
Qed.

(** The requests that one pass over the sockets reads, in the order of the sockets. *)
Fixpoint add_requests (arrivals : list RecvTimeClientRequest) f : result FIFOSequencer :=
  match arrivals with
  | [] => Ok f
  | a :: arrivals => f ← addClientRequest (recv_time_ a) (request_ a) f; add_requests arrivals f
  end.

Lemma add_requests_all arrivals f :
  (length (pending_client_requests_ f) + length arrivals ≤ ME_MAX_PENDING_REQUESTS)%nat →
  add_requests arrivals f = Ok (mkFIFOSequencer (fifo_incoming_requests_ f) (pending_client_requests_ f ++ arrivals)).
Proof.
  revert f. induction arrivals as [|a arrivals IH]; intros f Hle; cbn [add_requests].
  { rewrite app_nil_r. by destruct f. }
  cbn [length] in Hle. unfold addClientRequest. rewrite (proj2 (Nat.leb_gt _ _)) by lia. cbn [mbind result_bind].
  rewrite IH by (cbn; rewrite length_app; cbn; lia). cbn. rewrite <- app_assoc. by destruct a.
Qed.

Lemma same_time (l : list RecvTimeClientRequest) a b :
  NoDup (recv_time_ <$> l) → a ∈ l → b ∈ l → recv_time_ a = recv_time_ b → a = b.
Proof.
  intros Hl (i & Hi)%list_elem_of_lookup (j & Hj)%list_elem_of_lookup E.
  assert (i = j) as <-; [|congruence].
  apply (NoDup_lookup (recv_time_ <$> l) i j (recv_time_ a)); [done|by rewrite list_lookup_fmap, Hi|rewrite list_lookup_fmap, Hj; cbn; congruence].
Qed.

(** Distinct times leave one sorted order. *)
Lemma sort_order_free (l l' : list RecvTimeClientRequest) :
  NoDup (recv_time_ <$> l) → l' ≡ₚ l → std_sort l' = std_sort l.
Proof.
  intros Hl Hp. apply (StronglySorted_unique_strong recv_le).
  - intros a b Ha Hb. rewrite std_sort_perm in Ha, Hb. rewrite Hp in Ha. unfold recv_le. intros. apply (same_time l); [done..|lia].
  - apply std_sort_sorted.
  - apply std_sort_sorted.
  - by rewrite !std_sort_perm.
Qed.

Lemma sorted_strict (l : list RecvTimeClientRequest) :
  NoDup (recv_time_ <$> l) → StronglySorted recv_le l → StronglySorted (λ a b, recv_time_ a < recv_time_ b) l.
Proof.
  intros Hnd Hs. induction Hs as [|a l Hs IH Ha]; [constructor|]. apply NoDup_cons in Hnd as [Hn Hnd]. constructor; [by apply IH|].
  rewrite Forall_forall in Ha |- *. intros b Hb. specialize (Ha b Hb). unfold recv_le in Ha.
  assert (recv_time_ a ≠ recv_time_ b); [|lia]. intros E. apply Hn. rewrite E. apply list_elem_of_fmap. by exists b.
Qed.

(** C28: first come, first served.  Requests that were received at distinct times reach the matching engine in
    the order of those times, each once and behind what it has not read yet, in whatever order the server
    has read the sockets that they came on: any other order leaves the very same queue. *)
Theorem sequence_receive_order arrivals arrivals' f l0 :
  holds (fifo_incoming_requests_ f) l0 → pending_client_requests_ f = [] →
  (length arrivals ≤ ME_MAX_PENDING_REQUESTS)%nat →
  (length l0 + length arrivals ≤ capacity (fifo_incoming_requests_ f))%nat →
  NoDup (recv_time_ <$> arrivals) → arrivals' ≡ₚ arrivals →
  ∃ f1 f1' l, add_requests arrivals f = Ok f1 ∧ add_requests arrivals' f = Ok f1' ∧
    l ≡ₚ arrivals ∧ StronglySorted (λ a b, recv_time_ a < recv_time_ b) l ∧
    holds (fifo_incoming_requests_ (sequenceAndPublish f1)) (l0 ++ (request_ <$> l)) ∧
    pending_client_requests_ (sequenceAndPublish f1) = [] ∧
    sequenceAndPublish f1' = sequenceAndPublish f1.
Proof.
  intros Hq Hpend Hmax Hcap Hnd Hp. pose proof (Permutation_length Hp) as Hlen.
  do 2 eexists. exists (std_sort arrivals).
  rewrite !add_requests_all by (rewrite Hpend; cbn; lia). rewrite Hpend. cbn [app].
  split; [done|]. split; [done|]. split; [apply std_sort_perm|].
  split; [apply sorted_strict; [by rewrite std_sort_perm|apply std_sort_sorted]|].
  destruct (sequence_spec (mkFIFOSequencer (fifo_incoming_requests_ f) arrivals) l0) as [H1 H2]; [done|done|].
  split; [exact H1|]. split; [exact H2|]. unfold sequenceAndPublish. cbn [pending_client_requests_ fifo_incoming_requests_].
  pose proof (sort_order_free _ _ Hnd Hp) as E. destruct arrivals as [|a l], arrivals' as [|a' l']; [done|..].
  - by apply Permutation_nil_r in Hp.
  - by apply Permutation_nil_l in Hp.
  - by rewrite E.
Qed.
End sequencer.

(** ** Incoming requests *)
Section requests.
Implicit Types (o : OrderServer) (r : OMClientRequest).

Definition req_client r : nat := Z.to_nat (req_client_id_ (me_client_request_ r)).

(** The socket [p] may speak for the client, and the number is the expected one. *)
Definition valid_request p r o : Prop :=
  (cid_tcp_socket_ o !! req_client r = Some None ∨ cid_tcp_socket_ o !! req_client r = Some (Some p)) ∧
  cid_next_exp_seq_num_ o !! req_client r = Some (omreq_seq_num_ r).

#[export] Instance valid_request_dec p r o : Decision (valid_request p r o).
Proof. unfold valid_request. apply _. Defined.

(** The two arrays have one element per client. *)
Definition same_clients o : Prop := length (cid_tcp_socket_ o) = length (cid_next_exp_seq_num_ o).

(** C27: the order server passes a request on exactly when it comes on the socket that owns its
    client, or on the first socket that speaks for it, and carries the number expected next;
    then the expected number moves on by one.  Everything else it drops, leaving the sequencer
    and the expected numbers alone. *)
Theorem recv_request_exactly p t r o :
  same_clients o → (req_client r < length (cid_tcp_socket_ o))%nat →
  (length (pending_client_requests_ (fifo_sequencer_ o)) < ME_MAX_PENDING_REQUESTS)%nat →
  ∃ o', recv_request p t r o = Ok o' ∧
    if decide (valid_request p r o) then
      pending_client_requests_ (fifo_sequencer_ o')
        = pending_client_requests_ (fifo_sequencer_ o) ++ [mkRecvTime t (me_client_request_ r)] ∧
      cid_next_exp_seq_num_ o' = <[req_client r := u64 (omreq_seq_num_ r + 1)]> (cid_next_exp_seq_num_ o) ∧
      cid_tcp_socket_ o' !! req_client r = Some (Some p)
    else fifo_sequencer_ o' = fifo_sequencer_ o ∧ cid_next_exp_seq_num_ o' = cid_next_exp_seq_num_ o.
Proof.
  intros Hsame Hc Hroom. unfold recv_request. fold (req_client r).
  destruct (lookup_lt_is_Some_2 _ _ Hc) as [w Hw]. rewrite Hw.
  unfold same_clients in Hsame. rewrite Hsame in Hc.
  destruct (lookup_lt_is_Some_2 _ _ Hc) as [n Hn]. cbv zeta.
  assert (cid_next_exp_seq_num_ (match w with None => set_owner (req_client r) p o | Some _ => o end)
          = cid_next_exp_seq_num_ o) as -> by (by destruct w). rewrite Hn.
  destruct (decide (default p w ≠ p)) as [Hne|Heq].
  { eexists. split; [done|]. destruct w as [q|]; cbn in Hne; [|done].
    rewrite decide_False by (unfold valid_request; naive_solver). done. }
  destruct (decide (omreq_seq_num_ r ≠ n)) as [Hne|Hseq].
  { eexists. split; [done|]. rewrite decide_False by (unfold valid_request; naive_solver). by destruct w. }
  apply dec_stable in Heq, Hseq. subst n. unfold addClientRequest.
  replace (fifo_sequencer_ (set_next_exp _ _ _)) with (fifo_sequencer_ o) by (by destruct w).
  rewrite (proj2 (Nat.leb_gt _ _) Hroom). eexists. split; [done|].
  rewrite decide_True.
  - cbn. destruct w as [q|]; cbn in *; [subst q|]; split_and!; try done.
    apply list_lookup_insert_eq. lia.
  - split; [|done]. destruct w as [q|]; cbn in *; [subst q; by right|by left].
Qed.

(** The server's three ways to stop on a request: a client id beyond the arrays reads outside
    them, and the request after the [ME_MAX_PENDING_REQUESTS]th of a round exits. *)
Theorem recv_request_faults p t r o :
  ((length (cid_tcp_socket_ o) ≤ req_client r)%nat → recv_request p t r o = Err WildDeref) ∧
  (valid_request p r o →
   (ME_MAX_PENDING_REQUESTS ≤ length (pending_client_requests_ (fifo_sequencer_ o)))%nat →
   recv_request p t r o = Err FatalExit).
Proof.
  unfold recv_request, valid_request. fold (req_client r). split.
  - intros Hge%lookup_ge_None_2. by rewrite Hge.
  - intros [Hw Hn] Hfull. unfold addClientRequest.
    destruct Hw as [Hw|Hw]; rewrite Hw; cbn [default from_option];
      rewrite decide_False by (by intros []); cbn; rewrite Hn; rewrite decide_False by (by intros []);
      cbn; apply Nat.leb_le in Hfull; by rewrite Hfull.
Qed.

(** A client's requests, numbered from what the server expects, all pass. *)
Lemma handle_requests p c ts reqs n o :
  Forall (λ q, Z.to_nat (req_client_id_ q) = c) reqs → length ts = length reqs →
  (cid_tcp_socket_ o !! c = Some None ∨ cid_tcp_socket_ o !! c = Some (Some p)) →
  cid_next_exp_seq_num_ o !! c = Some n →
  (length (pending_client_requests_ (fifo_sequencer_ o)) + length reqs ≤ ME_MAX_PENDING_REQUESTS)%nat →
  ∃ o', handle_all (recv_request p) (zip ts (numbered mkOMClientRequest n reqs)) o = Ok o' ∧
    fifo_incoming_requests_ (fifo_sequencer_ o') = fifo_incoming_requests_ (fifo_sequencer_ o) ∧
    pending_client_requests_ (fifo_sequencer_ o')
      = pending_client_requests_ (fifo_sequencer_ o) ++ zip_with mkRecvTime ts reqs ∧
    (∀ d, d ≠ c → cid_next_exp_seq_num_ o' !! d = cid_next_exp_seq_num_ o !! d ∧
                  cid_tcp_socket_ o' !! d = cid_tcp_socket_ o !! d).
Proof.
  intros Hcs. revert ts n o. induction reqs as [|r reqs IH]; intros ts n o Hlen Hw Hn Hroom.
  { destruct ts; [|done]. exists o. split_and!; try done. cbn. by rewrite app_nil_r. }
  destruct ts as [|t ts]; [done|]. injection Hlen as Hlen. apply Forall_cons in Hcs as [Hc Hcs].
  cbn [numbered zip zip_with handle_all length] in *.
  assert (∃ o1, recv_request p t (mkOMClientRequest n r) o = Ok o1 ∧
    cid_tcp_socket_ o1 !! c = Some (Some p) ∧ cid_next_exp_seq_num_ o1 !! c = Some (u64 (n + 1)) ∧
    fifo_incoming_requests_ (fifo_sequencer_ o1) = fifo_incoming_requests_ (fifo_sequencer_ o) ∧
    pending_client_requests_ (fifo_sequencer_ o1)
      = pending_client_requests_ (fifo_sequencer_ o) ++ [mkRecvTime t r] ∧
    ∀ d, d ≠ c → cid_next_exp_seq_num_ o1 !! d = cid_next_exp_seq_num_ o !! d ∧
                 cid_tcp_socket_ o1 !! d = cid_tcp_socket_ o !! d)
    as (o1 & -> & Hw1 & Hn1 & Hi1 & Hp1 & Hd1).
  { unfold recv_request, addClientRequest. cbn [me_client_request_ omreq_seq_num_]. rewrite Hc.
    destruct Hw as [Hw|Hw]; rewrite Hw; cbn [default from_option];
      rewrite decide_False by (by intros []); cbn; rewrite Hn; rewrite decide_False by (by intros []);
      cbn; rewrite (proj2 (Nat.leb_gt _ _)) by lia; (eexists; split; [done|]); cbn.
    all: pose proof (lookup_lt_Some _ _ _ Hw); pose proof (lookup_lt_Some _ _ _ Hn).
    all: rewrite ?list_lookup_insert_eq by lia; split_and!; try done.
    all: intros d Hd; by rewrite ?list_lookup_insert_ne by done. }
  destruct (IH Hcs ts (u64 (n + 1)) o1) as (o2 & Hr & Hi2 & Hp2 & Hd2);
    [done|by right|done|rewrite Hp1, length_app; cbn; lia|].
  exists o2. split_and!; [exact Hr|congruence| |].
  - by rewrite Hp2, Hp1, <- app_assoc.
  - intros d Hd. destruct (Hd1 d Hd), (Hd2 d Hd). split; congruence.
Qed.

(** On the socket that owns the client. *)
Lemma handle_requests_owned p c ts reqs n o :
  Forall (λ q, Z.to_nat (req_client_id_ q) = c) reqs → length ts = length reqs →
  cid_tcp_socket_ o !! c = Some (Some p) → cid_next_exp_seq_num_ o !! c = Some n →
  (length (pending_client_requests_ (fifo_sequencer_ o)) + length reqs ≤ ME_MAX_PENDING_REQUESTS)%nat →
  handle_all (recv_request p) (zip ts (numbered mkOMClientRequest n reqs)) o
  = Ok (set_sequencer (mkFIFOSequencer (fifo_incoming_requests_ (fifo_sequencer_ o))
          (pending_client_requests_ (fifo_sequencer_ o) ++ zip_with mkRecvTime ts reqs))
          (set_next_exp c (advance n reqs) o)).
Proof.
  intros Hcs. revert ts n o. induction reqs as [|r reqs IH]; intros ts n o Hlen Hw Hn Hroom.
  { destruct ts; [|done]. cbn. unfold set_next_exp, set_sequencer. cbn. rewrite app_nil_r, list_insert_id by done.
    by destruct o as [? ? ? ? ? []]. }
  destruct ts as [|t ts]; [done|]. injection Hlen as Hlen. apply Forall_cons in Hcs as [Hc Hcs].
  cbn [numbered zip zip_with handle_all length] in *. unfold recv_request, addClientRequest.
  cbn [me_client_request_ omreq_seq_num_]. rewrite Hc, Hw. cbn [default from_option].
  rewrite decide_False by (by intros []). rewrite Hn. rewrite decide_False by (by intros []).
  cbn [set_next_exp fifo_sequencer_]. rewrite (proj2 (Nat.leb_gt _ _)) by lia.
  rewrite IH; [|done|done|done| |].
  - unfold set_sequencer, set_next_exp. cbn. by rewrite list_insert_insert_eq, <- app_assoc.
  - cbn. apply list_lookup_insert_eq. by eapply lookup_lt_Some.
  - cbn. rewrite length_app. cbn. lia.
Qed.
(** A socket becomes the client's with the client's first request. *)
Definition owner_after (p c : nat) (reqs : list MEClientRequest) (o : OrderServer) : OrderServer :=
  match reqs with [] => o | _ => set_owner c p o end.

Lemma handle_requests_from p c ts reqs n o :
  Forall (λ q, Z.to_nat (req_client_id_ q) = c) reqs → length ts = length reqs →
  (cid_tcp_socket_ o !! c = Some None ∨ cid_tcp_socket_ o !! c = Some (Some p)) → cid_next_exp_seq_num_ o !! c = Some n →
  (length (pending_client_requests_ (fifo_sequencer_ o)) + length reqs ≤ ME_MAX_PENDING_REQUESTS)%nat →
  handle_all (recv_request p) (zip ts (numbered mkOMClientRequest n reqs)) o
  = Ok (set_sequencer (mkFIFOSequencer (fifo_incoming_requests_ (fifo_sequencer_ o))
          (pending_client_requests_ (fifo_sequencer_ o) ++ zip_with mkRecvTime ts reqs))
          (set_next_exp c (advance n reqs) (owner_after p c reqs o))).
Proof.
  intros Hcs Hlen Hw Hn Hroom. destruct reqs as [|r reqs].
  { destruct ts; [|done]. cbn. unfold set_next_exp, set_sequencer. cbn. rewrite app_nil_r, list_insert_id by done.
    by destruct o as [? ? ? ? ? []]. }
  assert (cid_tcp_socket_ (set_owner c p o) !! c = Some (Some p)) as Ho.
  { apply list_lookup_insert_eq. destruct Hw; by eapply lookup_lt_Some. }
  etrans; [|exact (handle_requests_owned p c ts (r :: reqs) n (set_owner c p o) Hcs Hlen Ho Hn Hroom)].
  destruct ts as [|t ts]; [done|]. apply Forall_cons in Hcs as [Hc _]. cbn [numbered zip zip_with handle_all].
  enough (recv_request p t (mkOMClientRequest n r) o = recv_request p t (mkOMClientRequest n r) (set_owner c p o)) as -> by done.
  unfold recv_request. cbn [me_client_request_ omreq_seq_num_]. rewrite Hc, Ho.
  destruct Hw as [Hw|Hw]; rewrite Hw; [done|]. unfold set_owner. cbn [cid_tcp_socket_ outgoing_responses_ os_run_
    cid_next_outgoing_seq_num_ cid_next_exp_seq_num_ fifo_sequencer_]. rewrite list_insert_id by done. by destruct o.
Qed.
End requests.

(** ** Outgoing responses *)
Section responses.
Context `{BufferSizes}.
Implicit Types (o : OrderServer) (r : MEClientResponse) (socks : gmap nat TCPSocket).

Definition rsp_client r : nat := Z.to_nat (rsp_client_id_ r).

(** The responses with the numbers that the server gives them: each client has its own count. *)
Fixpoint number_responses (seqs : list Z) (rs : list MEClientResponse) : list OMClientResponse :=
  match rs with
  | [] => []
  | r :: rs =>
      let n := default 0 (seqs !! rsp_client r) in
      mkOMClientResponse n r :: number_responses (<[rsp_client r := u64 (n + 1)]> seqs) rs
  end.

Definition to_socket (owners : list (option nat)) (p : nat) (m : OMClientResponse) : Prop :=
  owners !! rsp_client (me_client_response_ m) = Some (Some p).
#[export] Instance to_socket_dec owners p m : Decision (to_socket owners p m).
Proof. unfold to_socket. apply _. Defined.

(** What goes out on the socket [p]. *)
Definition outgoing_on o rs (p : nat) : list OMClientResponse :=
  filter (to_socket (cid_tcp_socket_ o) p) (number_responses (cid_next_outgoing_seq_num_ o) rs).

(** A socket that has something to send is open and has room for it. *)
Definition socket_ready s (ms : list OMClientResponse) : Prop :=
  ms ≠ [] → tcp_wf s ∧ closed_ s = false ∧
    (length (pending s) + length (stream ms) ≤ TCPBufferSize)%nat.

Definition responses_ok o socks rs : Prop :=
  Forall (λ r, ∃ p, cid_tcp_socket_ o !! rsp_client r = Some (Some p) ∧ is_Some (socks !! p)) rs ∧
  length (cid_next_outgoing_seq_num_ o) = length (cid_tcp_socket_ o) ∧
  ∀ p s, socks !! p = Some s → socket_ready s (outgoing_on o rs p).

Lemma send_responses_spec rs fuel socks o :
  holds (outgoing_responses_ o) rs → responses_ok o socks rs → (length rs ≤ fuel)%nat →
  ∃ socks' o', send_responses fuel socks o = Ok (socks', o') ∧ holds (outgoing_responses_ o') [] ∧
    dom socks' = dom socks ∧ cid_tcp_socket_ o' = cid_tcp_socket_ o ∧
    fifo_sequencer_ o' = fifo_sequencer_ o ∧ cid_next_exp_seq_num_ o' = cid_next_exp_seq_num_ o ∧ os_run_ o' = os_run_ o ∧
    length (cid_next_outgoing_seq_num_ o') = length (cid_next_outgoing_seq_num_ o) ∧
    (∀ c n, cid_next_outgoing_seq_num_ o !! c = Some n →
       cid_next_outgoing_seq_num_ o' !! c = Some (advance n (filter (λ r, rsp_client r = c) rs))) ∧
    ∀ p s, socks !! p = Some s → ∃ s', socks' !! p = Some s' ∧
      pending s' = pending s ++ stream (outgoing_on o rs p) ∧ (tcp_wf s → tcp_wf s') ∧
      closed_ s' = closed_ s ∧ inbound_data_ s' = inbound_data_ s ∧ socket_fd_ s' = socket_fd_ s.
Proof.
  revert fuel socks o. induction rs as [|r rs IH]; intros fuel socks o Hq (Hown & Hlen & Hready) Hf.
  { exists socks, o. pose proof (holds_pop_nil _ Hq) as Hp. unfold pop in Hp.
    replace (send_responses fuel socks o) with (Ok (socks, o)).
    - split_and!; try done. intros p s Hs. exists s. split; [done|]. cbn. by rewrite app_nil_r.
    - destruct fuel; cbn [send_responses]; destruct (getNextToRead _) as [i|]; try done.
      all: destruct (read_slot i _); try done; by destruct (updateReadIndex _). }
  destruct fuel as [|fuel]; [cbn in Hf; lia|]. apply Forall_cons in Hown as [(p & Hp & s & Hs) Hown].
  destruct (holds_pop_cons _ _ _ Hq) as (q & Hpop & Hq' & _). unfold pop in Hpop.
  cbn [send_responses]. destruct (getNextToRead _) as [i|]; [|done].
  destruct (read_slot i _) as [v|]; [|done].
  destruct (updateReadIndex (outgoing_responses_ o)) as [q'|] eqn:Hu; [|done].
  cbn in Hpop. injection Hpop as -> ->. cbv zeta. fold (rsp_client r).
  destruct (lookup_lt_is_Some_2 (cid_next_outgoing_seq_num_ o) (rsp_client r)) as [n Hn].
  { rewrite Hlen. by eapply lookup_lt_Some. }
  rewrite Hn, Hp, Hs.
  assert (∀ p', outgoing_on o (r :: rs) p'
    = (if decide (p' = p) then [mkOMClientResponse n r] else [])
      ++ outgoing_on (set_responses q (rsp_client r) (u64 (n + 1)) o) rs p') as Hcons.
  { intros p'. unfold outgoing_on. cbn [number_responses]. rewrite Hn. cbn [default from_option].
    destruct (decide (p' = p)) as [->|Hne].
    - by rewrite filter_cons_True by done.
    - rewrite filter_cons_False; [done|]. unfold to_socket. cbn. naive_solver. }
  destruct (Hready p s Hs) as (Hwf & Hcl & Hroom).
  { rewrite Hcons, decide_True by done. done. }
  rewrite Hcons, decide_True in Hroom by done. cbn [app] in Hroom.
  change (stream (?m :: ?l)) with (encode m ++ stream l) in Hroom.
  rewrite length_app, (length_encode (A := OMClientResponse)) in Hroom.
  destruct (send_numbered_spec n r s Hwf Hcl) as (s1 & -> & Hp1 & Hwf1 & Hcl1 & Hi1 & Hfd1);
    [cbn [wire_size wire_response wire_om_response] in *; lia|].
  set (o1 := set_responses q (rsp_client r) (u64 (n + 1)) o) in *.
  change (le 8 n ++ encode r) with (encode (mkOMClientResponse n r)) in Hp1.
  destruct (IH fuel (<[p := s1]> socks) o1) as (socks' & o' & Hrun & Hq2 & Hdom & Ho2 & Hf2 & He2 & Hr2 & Hl2 & Hn2 & Hps);
    [done| |cbn in Hf; lia|].
  { split_and!.
    - eapply Forall_impl; [exact Hown|]. intros r' (p' & Hp' & Hs'). exists p'. split; [done|].
      apply lookup_insert_is_Some. destruct (decide (p = p')); [by left|by right].
    - unfold o1. cbn. by rewrite length_insert.
    - intros p' s' Hs' Hne. apply lookup_insert_Some in Hs' as [[<- <-]|[Hpp Hs']].
      + split_and!; [done|done|]. rewrite Hp1, length_app, (length_encode (A := OMClientResponse)). lia.
      + apply (Hready p' s' Hs') in Hne || (specialize (Hready p' s' Hs'); rewrite Hcons, decide_False in Hready by done; by apply Hready). }
  exists socks', o'. split_and!; [exact Hrun|done| |done|done|done|done| | |].
  - rewrite Hdom, dom_insert_L. apply elem_of_dom_2 in Hs. set_solver.
  - rewrite Hl2. unfold o1. cbn. by rewrite length_insert.
  - intros c0 n0 Hc0. destruct (decide (rsp_client r = c0)) as [<-|Hne].
    + rewrite Hn in Hc0. injection Hc0 as <-. rewrite filter_cons_True by done. cbn [advance]. apply Hn2.
      apply list_lookup_insert_eq. by eapply lookup_lt_Some.
    + rewrite filter_cons_False by done. apply Hn2. unfold o1. cbn. by rewrite list_lookup_insert_ne.
  - intros p' s' Hs'. rewrite Hcons. destruct (decide (p' = p)) as [->|Hne].
    + rewrite Hs in Hs'. injection Hs' as <-.
      destruct (Hps p s1) as (s2 & Hs2 & Hp2 & Hw2 & Hc2 & Hi2 & Hfd2); [by rewrite lookup_insert_eq|].
      exists s2. split; [done|]. rewrite Hp2, Hp1, <- app_assoc. split_and!; [done|by auto|congruence..].
    + destruct (Hps p' s') as (s2 & Hs2 & Hp2); [by rewrite lookup_insert_ne by done|]. by exists s2.
Qed.

(** The numbers of one client are consecutive, whatever the other clients are sent in between. *)
Lemma number_client c seqs rs n :
  seqs !! c = Some n →
  filter (λ m, rsp_client (me_client_response_ m) = c) (number_responses seqs rs)
  = numbered mkOMClientResponse n (filter (λ r, rsp_client r = c) rs).
Proof.
  revert seqs n. induction rs as [|r rs IH]; intros seqs n Hn; [done|]. cbn [number_responses].
  destruct (decide (rsp_client r = c)) as [<-|Hne].
  - rewrite !filter_cons_True by done. cbn [numbered]. rewrite Hn. cbn [default from_option]. f_equal.
    apply IH. apply list_lookup_insert_eq. by eapply lookup_lt_Some.
  - rewrite !filter_cons_False by done. apply IH. by rewrite list_lookup_insert_ne.
Qed.
End responses.

(** C26: the order server forwards every response of the matching engine.  It empties the queue, and
    each socket's outgoing bytes grow by exactly the responses of the clients that own it, in the
    order of the queue, each behind its client's next sequence number. *)
Theorem responses_sent `{BufferSizes} rs socks o :
  holds (outgoing_responses_ o) rs → responses_ok o socks rs →
  ∃ socks' o', send_responses (q_size (outgoing_responses_ o)) socks o = Ok (socks', o') ∧
    holds (outgoing_responses_ o') [] ∧
    ∀ p s, socks !! p = Some s → ∃ s', socks' !! p = Some s' ∧
      pending s' = pending s ++ stream (outgoing_on o rs p).
Proof.
  intros Hq Hok. rewrite (holds_size _ _ Hq).
  destruct (send_responses_spec rs (length rs) socks o Hq Hok) as (socks' & o' & ? & ? & _ & _ & _ & _ & _ & _ & _ & Hps); [done|].
  exists socks', o'. split_and!; [done..|]. intros p s Hs. destruct (Hps p s Hs) as (s' & ? & ? & _). by exists s'.
Qed.
