(* ===== verification/OrderGateway.v ===== *)
(** * The order gateway and its session with the order server (trading/order_gw)

    order_gateway.h and order_gateway.cpp; the benchmark observers are not modelled.  The member
    tcp_socket_ is kept beside the rest of the object, because its callback takes the rest.  The
    second half of the file puts the two ends of the TCP session together. *)
From S2P Require Import Prelude Types LFQueue Wire Socket RecvFrames TcpServer OrderServer.
Record OrderGateway := mkOrderGateway {
  og_client_id_ : Z;
  og_outgoing_requests_ : LFQueue MEClientRequest;
  og_incoming_responses_ : LFQueue MEClientResponse;
  og_run_ : bool;
  next_outgoing_seq_num_ : Z;
  next_exp_seq_num_ : Z
}.

Definition OrderGateway_new (client_id : Z) (requests : LFQueue MEClientRequest)
    (responses : LFQueue MEClientResponse) : OrderGateway :=
  mkOrderGateway client_id requests responses false 1 1.

(** start: [fd] is what createSocket returns. *)
Definition og_start (fd : Z) (thread_ok : bool) (s : TCPSocket) (g : OrderGateway) :
    result (TCPSocket * OrderGateway) :=
  if (0 <=? fd) && thread_ok then
    Ok (tcp_connect fd s, mkOrderGateway (og_client_id_ g) (og_outgoing_requests_ g)
                            (og_incoming_responses_ g) true (next_outgoing_seq_num_ g) (next_exp_seq_num_ g))
  else Err AssertFailed.

Definition og_stop (g : OrderGateway) : OrderGateway :=
  mkOrderGateway (og_client_id_ g) (og_outgoing_requests_ g) (og_incoming_responses_ g) false
    (next_outgoing_seq_num_ g) (next_exp_seq_num_ g).

(** The body of recvCallback's loop, for one message. *)
Definition recv_response (rx_time : Z) (response : OMClientResponse) (g : OrderGateway) :
    result OrderGateway :=
  if decide (rsp_client_id_ (me_client_response_ response) ≠ og_client_id_ g) then Ok g
  else if decide (omrsp_seq_num_ response ≠ next_exp_seq_num_ g) then Ok g
  else Ok (mkOrderGateway (og_client_id_ g) (og_outgoing_requests_ g)
             (push (me_client_response_ response) (og_incoming_responses_ g)) (og_run_ g)
             (next_outgoing_seq_num_ g) (u64 (next_exp_seq_num_ g + 1))).

Definition og_recvCallback `{BufferSizes} :
    TCPSocket → Z → OrderGateway → result (TCPSocket * OrderGateway) :=
  frame_callback recv_response.

(** The loop over the outgoing requests. *)
Fixpoint send_requests `{BufferSizes} (fuel : nat) (s : TCPSocket) (g : OrderGateway) :
    result (TCPSocket * OrderGateway) :=
  match getNextToRead (og_outgoing_requests_ g) with
  | None => Ok (s, g)
  | Some i =>
      match fuel, read_slot i (og_outgoing_requests_ g) with
      | O, _ => Err Diverges
      | _, None => Err WildDeref
      | S fuel, Some client_request =>
          match send_numbered (next_outgoing_seq_num_ g) client_request s,
                updateReadIndex (og_outgoing_requests_ g) with
          | Ok s, Ok q =>
              send_requests fuel s
                (mkOrderGateway (og_client_id_ g) q (og_incoming_responses_ g) (og_run_ g)
                   (u64 (next_outgoing_seq_num_ g + 1)) (next_exp_seq_num_ g))
          | Err e, _ | _, Err e => Err e
          end
      end
  end.

(** One iteration of the loop of run; the length of the queue is enough fuel. *)
Definition og_run_round `{BufferSizes} (rs : list recv_result) (ss : list send_result)
    (s : TCPSocket) (g : OrderGateway) : result (TCPSocket * OrderGateway * list Z) :=
  if og_run_ g then
    x ← tcp_sendAndRecv og_recvCallback rs ss s g;
    let '(s, g, _, sent) := x in
    y ← send_requests (q_size (og_outgoing_requests_ g)) s g;
    mret (y.1, y.2, sent)
  else Ok (s, g, []).

Section gateway.
Context `{BufferSizes}.
Implicit Types (g : OrderGateway) (s : TCPSocket).

Lemma send_requests_spec reqs fuel s g :
  holds (og_outgoing_requests_ g) reqs → tcp_wf s → closed_ s = false → (length reqs ≤ fuel)%nat →
  (length (pending s)
     + length (stream (numbered mkOMClientRequest (next_outgoing_seq_num_ g) reqs)) ≤ TCPBufferSize)%nat →
  ∃ s' g', send_requests fuel s g = Ok (s', g') ∧ holds (og_outgoing_requests_ g') [] ∧
    pending s' = pending s ++ stream (numbered mkOMClientRequest (next_outgoing_seq_num_ g) reqs) ∧
    tcp_wf s' ∧ closed_ s' = false ∧
    og_incoming_responses_ g' = og_incoming_responses_ g ∧ next_exp_seq_num_ g' = next_exp_seq_num_ g ∧
    next_outgoing_seq_num_ g' = advance (next_outgoing_seq_num_ g) reqs ∧ og_client_id_ g' = og_client_id_ g ∧
    inbound_data_ s' = inbound_data_ s ∧ socket_fd_ s' = socket_fd_ s ∧
    capacity (og_outgoing_requests_ g') = capacity (og_outgoing_requests_ g).
Proof.
  revert fuel s g. induction reqs as [|r reqs IH]; intros fuel s g Hq Hwf Hcl Hf Hroom.
  { exists s, g. pose proof (holds_pop_nil _ Hq) as Hp. unfold pop in Hp.
    replace (send_requests fuel s g) with (Ok (s, g)).
    - split_and!; try done. cbn. by rewrite app_nil_r.
    - destruct fuel; cbn [send_requests]; destruct (getNextToRead _) as [i|]; try done.
      all: destruct (read_slot i _); try done; by destruct (updateReadIndex _). }
  destruct fuel as [|fuel]; [cbn in Hf; lia|].
  destruct (holds_pop_cons _ _ _ Hq) as (q & Hpop & Hq' & Hcap). unfold pop in Hpop.
  cbn [send_requests]. destruct (getNextToRead _) as [i|]; [|done].
  destruct (read_slot i _) as [v|]; [|done].
  destruct (updateReadIndex (og_outgoing_requests_ g)) as [q'|] eqn:Hu; [|done].
  cbn in Hpop. injection Hpop as -> ->. cbn [numbered] in *.
  change (stream (?m :: ?l)) with (encode m ++ stream l) in *.
  rewrite length_app, (length_encode (A := OMClientRequest)) in Hroom.
  destruct (send_numbered_spec (next_outgoing_seq_num_ g) r s Hwf Hcl) as (s1 & -> & Hp1 & Hwf1 & Hcl1 & Hi1 & Hfd1);
    [cbn [wire_size wire_request wire_om_request] in *; lia|].
  change (le 8 ?n ++ encode r) with (encode (mkOMClientRequest n r)) in Hp1.
  set (g1 := mkOrderGateway _ _ _ _ _ _).
  destruct (IH fuel s1 g1) as (s2 & g2 & Hr & Hq2 & Hp2 & Hwf2 & Hcl2 & Hi2 & He2 & Hn2 & Hc2 & Hin2 & Hfd2 & Hcap2);
    [done|done|done|cbn in Hf; lia| |].
  { rewrite Hp1, length_app, (length_encode (A := OMClientRequest)). cbn [g1 next_outgoing_seq_num_]. lia. }
  exists s2, g2. split_and!; [exact Hr|done| |done..|congruence|congruence|by rewrite Hcap2]. rewrite Hp2, Hp1, <- app_assoc. done.
Qed.

(** The client's responses, numbered from what the gateway expects, all pass. *)
Lemma handle_responses ts rs g l :
  holds (og_incoming_responses_ g) l →
  (length l + length rs ≤ capacity (og_incoming_responses_ g))%nat →
  Forall (λ r, rsp_client_id_ r = og_client_id_ g) rs → length ts = length rs →
  ∃ g', handle_all recv_response (zip ts (numbered mkOMClientResponse (next_exp_seq_num_ g) rs)) g = Ok g' ∧
    holds (og_incoming_responses_ g') (l ++ rs) ∧ og_outgoing_requests_ g' = og_outgoing_requests_ g ∧
    next_outgoing_seq_num_ g' = next_outgoing_seq_num_ g ∧ og_client_id_ g' = og_client_id_ g ∧
    next_exp_seq_num_ g' = advance (next_exp_seq_num_ g) rs.
Proof.
  revert ts g l. induction rs as [|r rs IH]; intros ts g l Hq Hroom Hcs Hlen.
  { destruct ts; [|done]. exists g. by rewrite app_nil_r. }
  destruct ts as [|t ts]; [done|]. injection Hlen as Hlen. apply Forall_cons in Hcs as [Hc Hcs].
  cbn [numbered zip zip_with handle_all length] in *.
  unfold recv_response at 1. cbn [me_client_response_ omrsp_seq_num_].
  rewrite decide_False by (by intros []). rewrite decide_False by (by intros []).
  set (g1 := mkOrderGateway _ _ _ _ _ _).
  destruct (IH ts g1 (l ++ [r])) as (g2 & Hr & Hq2 & Ho2 & Hn2 & Hc2 & He2); [| |done|done|].
  - apply holds_push; [done|lia].
  - unfold g1. cbn [og_incoming_responses_]. rewrite capacity_push, length_app. cbn [length]. lia.
  - exists g2. split_and!; [exact Hr| |done..]. by rewrite <- app_assoc in Hq2.
Qed.

(** The order gateway forwards every request of its trade engine: it empties the queue, and its
    outgoing bytes grow by the requests, in order, each behind the next sequence number. *)
Theorem requests_sent reqs s g :
  holds (og_outgoing_requests_ g) reqs → tcp_wf s → closed_ s = false →
  (length (pending s)
     + length (stream (numbered mkOMClientRequest (next_outgoing_seq_num_ g) reqs)) ≤ TCPBufferSize)%nat →
  ∃ s' g', send_requests (q_size (og_outgoing_requests_ g)) s g = Ok (s', g') ∧
    holds (og_outgoing_requests_ g') [] ∧
    pending s' = pending s ++ stream (numbered mkOMClientRequest (next_outgoing_seq_num_ g) reqs).
Proof.
  intros Hq Hwf Hcl Hroom. rewrite (holds_size _ _ Hq).
  destruct (send_requests_spec reqs (length reqs) s g Hq Hwf Hcl) as (s' & g' & ? & ? & ? & _); [done|done|].
  by exists s', g'.
Qed.
End gateway.

(** ** The session

    The bytes that one end sends reach the other in order (that is TCP), cut anywhere. *)
Section session.
Context `{BufferSizes} {A B St : Type} `{WireLaws B}.

(** The messages that a receiver reads, whatever the chunks. *)
Lemma recv_frames_numbered (mk : Z → A → B) n ms chunks :
  Forall in_range (numbered mk n ms) → concat chunks.*1 = stream (numbered mk n ms) →
  ∃ ts, length ts = length ms ∧ recv_frames [] chunks = (zip ts (numbered mk n ms), []).
Proof.
  intros Hr Hc. pose proof wire_size_pos as Hpos.
  pose proof (recv_frames_receive (A := B) [] chunks) as [E1 E2].
  assert (receive [] chunks.*1 = (numbered mk n ms, [])) as Hrs
    by (apply receive_stream; [done|cbn; lia|by rewrite app_nil_r|cbn; lia]).
  rewrite Hrs in E1, E2. clear Hrs.
  destruct (recv_frames [] chunks) as [l rest]. cbn [fst snd] in *. subst rest.
  exists l.*1. split.
  - by rewrite length_fmap, <- (length_numbered mk n ms), <- E1, length_fmap.
  - by rewrite <- E1, zip_fst_snd.
Qed.

(** The times at which the messages are complete. *)
Definition arrival_times chunks : list Z := (recv_frames (A := B) [] chunks).1.*1.

Lemma recv_numbered (mk : Z → A → B) (handle : Z → B → St → result St) n ms chunks s st st' :
  Forall in_range (numbered mk n ms) → concat chunks.*1 = stream (numbered mk n ms) →
  closed_ s = false → inbound_data_ s = [] → Forall (chunk_ok (A := B)) chunks →
  (wire_size ≤ TCPBufferSize)%nat →
  handle_all handle (zip (arrival_times chunks) (numbered mk n ms)) st = Ok st' →
  recv_loop (frame_callback handle) (recv_chunk <$> chunks) s st false
    = Ok (s, st', match chunks with [] => false | _ => true end).
Proof.
  intros Hr Hc Hcl Hin Hok Hbuf Hh. pose proof (wire_size_pos (A := B)) as Hpos.
  destruct (recv_frames_numbered mk n ms chunks Hr Hc) as (ts & Hlen & Hrf).
  unfold arrival_times in Hh. rewrite Hrf in Hh. cbn [fst] in Hh. rewrite fst_zip in Hh by (rewrite length_numbered; lia).
  rewrite (recv_loop_frames handle chunks s st st' false); [|done|by rewrite Hin|done|done|by rewrite Hin, Hrf].
  rewrite Hin, Hrf. cbn [snd]. by destruct s; cbn in *; subst.
Qed.

Lemma length_arrival_times (mk : Z → A → B) n ms chunks :
  Forall in_range (numbered mk n ms) → concat chunks.*1 = stream (numbered mk n ms) →
  length (arrival_times chunks) = length ms.
Proof.
  intros Hr Hc. destruct (recv_frames_numbered mk n ms chunks Hr Hc) as (ts & Hlen & Hrf).
  unfold arrival_times. rewrite Hrf. cbn [fst]. by rewrite fst_zip by (rewrite length_numbered; lia).
Qed.
End session.

Lemma request_zip ts reqs : length ts = length reqs → request_ <$> zip_with mkRecvTime ts reqs = reqs.
Proof.
  revert ts. induction reqs as [|q reqs IH]; intros [|t ts] Hlen; try done. cbn. f_equal. apply IH. by injection Hlen.
Qed.

(** C25: requests cross the session.  Whatever the chunks in which the kernel delivers the bytes that
    a gateway sent, the order server hands its sequencer exactly the requests of the client, in
    the order in which the gateway read them from its trade engine, and keeps nothing back in its
    buffer. *)
Theorem requests_delivered `{BufferSizes} p c n (reqs : list MEClientRequest) chunks s o :
  Forall in_range (numbered mkOMClientRequest n reqs) →
  concat chunks.*1 = stream (numbered mkOMClientRequest n reqs) →
  closed_ s = false → inbound_data_ s = [] → Forall (chunk_ok (A := OMClientRequest)) chunks →
  (wire_size (A := OMClientRequest) ≤ TCPBufferSize)%nat →
  Forall (λ q, Z.to_nat (req_client_id_ q) = c) reqs →
  (cid_tcp_socket_ o !! c = Some None ∨ cid_tcp_socket_ o !! c = Some (Some p)) →
  cid_next_exp_seq_num_ o !! c = Some n →
  (length (pending_client_requests_ (fifo_sequencer_ o)) + length reqs ≤ ME_MAX_PENDING_REQUESTS)%nat →
  ∃ o' r, recv_loop (os_recvCallback p) (recv_chunk <$> chunks) s o false = Ok (s, o', r) ∧
    request_ <$> pending_client_requests_ (fifo_sequencer_ o')
      = (request_ <$> pending_client_requests_ (fifo_sequencer_ o)) ++ reqs.
Proof.
  intros Hr Hc Hcl Hin Hok Hbuf Hcs Hw Hn Hroom.
  pose proof (length_arrival_times (A := MEClientRequest) mkOMClientRequest n reqs chunks Hr Hc) as Hlen.
  destruct (handle_requests p c _ reqs n o Hcs Hlen Hw Hn Hroom) as (o' & Hh & _ & Hp & _).
  exists o'. eexists. split; [by apply (recv_numbered mkOMClientRequest (recv_request p) n reqs)|].
  by rewrite Hp, fmap_app, request_zip.
Qed.

(** Responses cross the session.  The responses that the order server sends to a client on its
    own connection, among those of any other clients, reach the trade engine of that client
    exactly once and in the order of the matching engine, whatever the chunks. *)
Theorem responses_delivered `{BufferSizes} seqs rs c chunks s g l :
  let mine := filter (λ m, rsp_client (me_client_response_ m) = c) (number_responses seqs rs) in
  Forall in_range mine → concat chunks.*1 = stream mine →
  closed_ s = false → inbound_data_ s = [] → Forall (chunk_ok (A := OMClientResponse)) chunks →
  (wire_size (A := OMClientResponse) ≤ TCPBufferSize)%nat →
  og_client_id_ g = Z.of_nat c → seqs !! c = Some (next_exp_seq_num_ g) →
  Forall (λ r, 0 ≤ rsp_client_id_ r) rs → holds (og_incoming_responses_ g) l →
  (length l + length (filter (λ r, rsp_client r = c) rs) ≤ capacity (og_incoming_responses_ g))%nat →
  ∃ g' r, recv_loop og_recvCallback (recv_chunk <$> chunks) s g false = Ok (s, g', r) ∧
    holds (og_incoming_responses_ g') (l ++ filter (λ r, rsp_client r = c) rs).
Proof.
  intros mine Hr Hc Hcl Hin Hok Hbuf Hcid Hseq Hpos Hq Hroom. unfold mine in *.
  rewrite (number_client c seqs rs _ Hseq) in Hr, Hc.
  pose proof (length_arrival_times (A := MEClientResponse) mkOMClientResponse _ _ chunks Hr Hc) as Hlen.
  destruct (handle_responses (arrival_times (B := OMClientResponse) chunks) (filter (λ r, rsp_client r = c) rs) g l)
    as (g' & Hh & Hh2 & _); [done|done| |done|].
  { rewrite Hcid. apply Forall_forall. intros x [Hx Hin']%list_elem_of_filter.
    rewrite Forall_forall in Hpos. specialize (Hpos _ Hin'). unfold rsp_client in Hx. lia. }
  exists g'. eexists. split; [|exact Hh2]. by apply (recv_numbered mkOMClientResponse recv_response (next_exp_seq_num_ g) (filter (λ r, rsp_client r = c) rs)).
Qed.
