(* ===== verification/MarketStream.v ===== *)
(** * What the market data streams mean

    The abstract side of the market data path, shared by the publisher, the snapshot synthesizer
    and the consumer: the orders shown per ticker, what an update does to them, and the contents
    of a snapshot cycle. *)
From S2P Require Import Prelude Types EngineSink BookSpec BookReplay.
(** The orders shown, by ticker and market order id. *)
Abbreviation view := (list (gmap Z Shown)).

Implicit Types (u : MEMarketUpdate) (us : list MEMarketUpdate) (v w : view) (m : gmap Z Shown).

Definition apply_md u v : view := alter (apply_update u) (Z.to_nat (upd_ticker_id_ u)) v.
Definition apply_mds us v : view := foldl (λ v u, apply_md u v) v us.

Definition shown_of u : Shown := mkShown (upd_side_ u) (upd_price_ u) (upd_qty_ u) (upd_priority_ u).

(** The update that shows an order of the ticker [t]. *)
Definition order_update (t : nat) (i : Z) (x : Shown) : MEMarketUpdate :=
  mkMEMarketUpdate MarketUpdateType_ADD i (Z.of_nat t) (sh_side x) (sh_price x) (sh_qty x) (sh_prio x).

Definition clear_update (t : nat) : MEMarketUpdate :=
  mkMEMarketUpdate MarketUpdateType_CLEAR OrderId_INVALID (Z.of_nat t) Side_INVALID Price_INVALID
    Qty_INVALID Priority_INVALID.

(** The first and the last message of a cycle carry the sequence number in their order id. *)
Definition mark_update (type : MarketUpdateType) (seq : Z) : MEMarketUpdate :=
  mkMEMarketUpdate type seq TickerId_INVALID Side_INVALID Price_INVALID Qty_INVALID Priority_INVALID.

(** The orders of a ticker, by ascending id below [n]. *)
Definition ticker_updates (n t : nat) m : list MEMarketUpdate :=
  omap (λ i, order_update t (Z.of_nat i) <$> m !! Z.of_nat i) (seq 0 n).

(** The tickers from [t] on. *)
Fixpoint snapshot_body (n t : nat) v : list MEMarketUpdate :=
  match v with
  | [] => []
  | m :: v => (clear_update t :: ticker_updates n t m) ++ snapshot_body n (S t) v
  end.

(** A snapshot cycle of the view [v], as of the incremental update [last]. *)
Definition snapshot_cycle (n : nat) (last : Z) v : list MEMarketUpdate :=
  mark_update MarketUpdateType_SNAPSHOT_START last :: snapshot_body n 0 v
  ++ [mark_update MarketUpdateType_SNAPSHOT_END last].

(** The order ids of a view are below [n]. *)
Definition view_below (n : nat) v : Prop :=
  Forall (λ m, ∀ i, is_Some (m !! i) → 0 ≤ i < Z.of_nat n) v.

Definition live_count v : nat := foldr (λ m k, size m + k)%nat 0%nat v.

Lemma apply_mds_app us1 us2 v : apply_mds (us1 ++ us2) v = apply_mds us2 (apply_mds us1 v).
Proof. apply foldl_app. Qed.

Lemma length_apply_md u v : length (apply_md u v) = length v.
Proof. apply length_alter. Qed.

Lemma length_apply_mds us v : length (apply_mds us v) = length v.
Proof.
  revert v. induction us as [|u us IH]; intros v; [done|].
  change (apply_mds (u :: us) v) with (apply_mds us (apply_md u v)). by rewrite IH, length_apply_md.
Qed.

(** Updates of one ticker. *)
Lemma apply_mds_ticker t us v :
  Forall (λ u, Z.to_nat (upd_ticker_id_ u) = t) us →
  apply_mds us v = alter (λ m, foldl (λ m u, apply_update u m) m us) t v.
Proof.
  revert v. induction us as [|u us IH]; intros v Hus.
  - cbn. symmetry. apply list_eq. intros i. destruct (decide (i = t)) as [->|Hne].
    + rewrite list_lookup_alter_eq. by destruct (v !! t).
    + by rewrite list_lookup_alter_ne.
  - apply Forall_cons in Hus as [Hu Hus].
    change (apply_mds (u :: us) v) with (apply_mds us (apply_md u v)). rewrite IH by done.
    unfold apply_md. rewrite Hu. cbn [foldl]. apply list_eq. intros i.
    destruct (decide (i = t)) as [->|Hne].
    + rewrite !list_lookup_alter_eq. by destruct (v !! t).
    + by rewrite !list_lookup_alter_ne.
Qed.

Lemma ticker_updates_ticker n t m :
  Forall (λ u, Z.to_nat (upd_ticker_id_ u) = t) (ticker_updates n t m).
Proof.
  apply Forall_forall. intros u (i & _ & Hu)%list_elem_of_omap.
  apply fmap_Some in Hu as (x & _ & ->). cbn. lia.
Qed.

Lemma foldl_ticker_updates n t m m0 i :
  foldl (λ m u, apply_update u m) m0 (ticker_updates n t m) !! i
  = if decide (0 ≤ i < Z.of_nat n ∧ is_Some (m !! i)) then m !! i else m0 !! i.
Proof.
  unfold ticker_updates. induction n as [|n IH].
  { cbn. rewrite decide_False by lia. done. }
  rewrite seq_S, omap_app, foldl_app. cbn [plus].
  cbn [omap list_omap]. destruct (m !! Z.of_nat n) as [x|] eqn:Hx; cbn [fmap option_fmap option_map foldl].
  - unfold apply_update at 1. cbn [order_update upd_type_ upd_order_id_ upd_side_ upd_price_ upd_qty_ upd_priority_].
    destruct (decide (i = Z.of_nat n)) as [->|Hne].
    + rewrite lookup_insert_eq, decide_True; [by rewrite Hx; destruct x|]. split; [lia|by rewrite Hx].
    + rewrite lookup_insert_ne by done. rewrite IH.
      repeat case_decide; try done; exfalso; naive_solver lia.
  - rewrite IH. repeat case_decide; try done; exfalso.
    + naive_solver lia.
    + match goal with H : _ ∧ is_Some _ |- _ => destruct H as [? Hs] end.
      assert (i = Z.of_nat n) as -> by (apply dec_stable; naive_solver lia).
      rewrite Hx in Hs. by destruct Hs.
Qed.

Lemma list_alter_middle {A} (f : A → A) pre x l :
  alter f (length pre) (pre ++ x :: l) = pre ++ f x :: l.
Proof. induction pre as [|y pre IH]; [done|]. cbn. f_equal. exact IH. Qed.

Lemma apply_ticker_body n pre m0 m w :
  (∀ i, is_Some (m !! i) → 0 ≤ i < Z.of_nat n) →
  apply_mds (clear_update (length pre) :: ticker_updates n (length pre) m) (pre ++ m0 :: w)
  = pre ++ m :: w.
Proof.
  intros Hm. rewrite (apply_mds_ticker (length pre)).
  - rewrite list_alter_middle by done. cbn [foldl].
    change (apply_update (clear_update _) m0) with (∅ : gmap Z Shown). do 2 f_equal.
    apply map_eq. intros i. rewrite foldl_ticker_updates, lookup_empty. case_decide as Hd; [done|].
    destruct (m !! i) as [x|] eqn:Hx; [|done]. exfalso. apply Hd.
    assert (is_Some (m !! i)) as Hs by (by rewrite Hx). split; [by apply Hm|done].
  - constructor; [|apply ticker_updates_ticker]. unfold clear_update. cbn. lia.
Qed.

(** Applying the body of a cycle gives its view, whatever was shown before. *)
Lemma apply_snapshot_body n pre v w :
  view_below n v → length w = length v →
  apply_mds (snapshot_body n (length pre) v) (pre ++ w) = pre ++ v.
Proof.
  revert pre w. induction v as [|m v IH]; intros pre w Hv Hlen.
  - destruct w; [|done]. done.
  - destruct w as [|m0 w]; [done|]. apply Forall_cons in Hv as [Hm Hv]. injection Hlen as Hlen.
    cbn [snapshot_body]. rewrite apply_mds_app, apply_ticker_body by done.
    rewrite cons_middle, app_assoc, (cons_middle m pre v), app_assoc.
    specialize (IH (pre ++ [m]) w Hv Hlen). rewrite length_app in IH. cbn [length] in IH.
    by rewrite Nat.add_1_r in IH.
Qed.

(** A mark is about no ticker. *)
Lemma apply_mark type seq v :
  type = MarketUpdateType_SNAPSHOT_START ∨ type = MarketUpdateType_SNAPSHOT_END →
  apply_md (mark_update type seq) v = v.
Proof.
  intros Ht. unfold apply_md. apply list_eq. intros i. destruct (decide (i = Z.to_nat (upd_ticker_id_ (mark_update type seq)))) as [->|Hne].
  - rewrite list_lookup_alter_eq. destruct (v !! _); [|done]. cbn. by destruct Ht as [->| ->].
  - by rewrite list_lookup_alter_ne.
Qed.

Lemma live_count_alter t m m' v (f : gmap Z Shown → gmap Z Shown) :
  v !! t = Some m → f m = m' →
  (live_count (alter f t v) + size m = live_count v + size m')%nat.
Proof.
  intros Hm Hf. revert t Hm. induction v as [|x v IH]; intros [|t] Hm; try done.
  - cbn in Hm |- *. injection Hm as ->. rewrite Hf. lia.
  - specialize (IH t Hm). change (live_count (alter f (S t) (x :: v)))
      with (size x + live_count (alter f t v))%nat.
    change (live_count (x :: v)) with (size x + live_count v)%nat. lia.
Qed.

Lemma snapshot_body_types n t v u :
  u ∈ snapshot_body n t v →
  upd_type_ u = MarketUpdateType_CLEAR ∨ upd_type_ u = MarketUpdateType_ADD.
Proof.
  revert t. induction v as [|m v IH]; intros t; cbn [snapshot_body]; [set_solver|].
  rewrite elem_of_app, elem_of_cons. intros [[->|Hu]|Hu]; [by left| |by eapply IH].
  right. apply list_elem_of_omap in Hu as (i & _ & Hu). by apply fmap_Some in Hu as (x & _ & ->).
Qed.

Lemma filter_all {A} (P : A → Prop) `{∀ x, Decision (P x)} (l : list A) :
  (∀ x, x ∈ l → P x) → filter P l = l.
Proof.
  induction l as [|x l IH]; intros Hl; [done|].
  rewrite filter_cons_True by (apply Hl; set_solver). f_equal. apply IH. set_solver.
Qed.
