(* ===== verification/SnapshotSynthesizer.v ===== *)
(** * The snapshot synthesizer (exchange/market_data/snapshot_synthesizer.h and .cpp)

    The queue snapshot_md_updates_ belongs to the publisher and is passed to the operations that
    use it.  The datagrams that go out are returned; nothing comes in on a sending socket. *)
From S2P Require Import Prelude Types MemPool LFQueue BookReplay Wire Socket RecvFrames.
From S2P Require Import MarketStream.
Record SnapshotSynthesizer := mkSnapshotSynthesizer {
  ss_run_ : bool;
  snapshot_socket_ : McastSocket;
  ticker_orders_ : list (list ptr);
  last_inc_seq_num_ : Z;
  last_snapshot_time_ : Z;
  ss_order_pool_ : MemPool MEMarketUpdate
}.

Definition set_orders (os : list (list ptr)) (pool : MemPool MEMarketUpdate) (ss : SnapshotSynthesizer) :
    SnapshotSynthesizer :=
  mkSnapshotSynthesizer (ss_run_ ss) (snapshot_socket_ ss) os (last_inc_seq_num_ ss)
    (last_snapshot_time_ ss) pool.
Definition set_snapshot_socket (s : McastSocket) (ss : SnapshotSynthesizer) : SnapshotSynthesizer :=
  mkSnapshotSynthesizer (ss_run_ ss) s (ticker_orders_ ss) (last_inc_seq_num_ ss)
    (last_snapshot_time_ ss) (ss_order_pool_ ss).

(** A result tested by ASSERT. *)
Definition check (b : bool) : result unit := if b then Ok tt else Err AssertFailed.
(** std::array::at. *)
Definition at_ {A} (i : nat) (l : list A) : result A :=
  match l !! i with Some x => Ok x | None => Err OutOfRange end.

Section synthesizer.
Context `{Limits, BufferSizes}.
Implicit Types (ss : SnapshotSynthesizer).

(** The constructor: [fd] is what createSocket returns. *)
Definition SnapshotSynthesizer_new (fd : Z) : result SnapshotSynthesizer :=
  if 0 <=? fd then
    Ok (mkSnapshotSynthesizer false (mcast_init fd McastSocket_new)
          (replicate (Z.to_nat ME_MAX_TICKERS) (replicate (Z.to_nat ME_MAX_ORDER_IDS) None)) 0 0
          (MemPool_new (Z.to_nat ME_MAX_ORDER_IDS) MEMarketUpdate_default))
  else Err AssertFailed.

Definition ss_start (thread_ok : bool) ss : result SnapshotSynthesizer :=
  if thread_ok then
    Ok (mkSnapshotSynthesizer true (snapshot_socket_ ss) (ticker_orders_ ss) (last_inc_seq_num_ ss)
          (last_snapshot_time_ ss) (ss_order_pool_ ss))
  else Err AssertFailed.
Definition ss_stop ss : SnapshotSynthesizer :=
  mkSnapshotSynthesizer false (snapshot_socket_ ss) (ticker_orders_ ss) (last_inc_seq_num_ ss)
    (last_snapshot_time_ ss) (ss_order_pool_ ss).

(** What MODIFY writes into the order. *)
Definition modify_order (u : MEMarketUpdate) (order : MEMarketUpdate) : MEMarketUpdate :=
  mkMEMarketUpdate (upd_type_ order) (upd_order_id_ order) (upd_ticker_id_ order) (upd_side_ order)
    (upd_price_ u) (upd_qty_ u) (upd_priority_ order).

(** The checks that MODIFY and CANCEL make on the order they find. *)
Definition check_order (u : MEMarketUpdate) (order : ptr) (pool : MemPool MEMarketUpdate) : result unit :=
  check (bool_decide (order ≠ None)) ;;
  o ← deref order pool;
  check (upd_order_id_ o =? upd_order_id_ u) ;;
  check (bool_decide (upd_side_ o = upd_side_ u)).

Definition addToSnapshot (market_update : MDPMarketUpdate) ss : result SnapshotSynthesizer :=
  let u := me_market_update_ market_update in
  let t := Z.to_nat (upd_ticker_id_ u) in
  orders ← at_ t (ticker_orders_ ss);
  ss ← match upd_type_ u with
       | MarketUpdateType_ADD =>
           order ← at_ (Z.to_nat (upd_order_id_ u)) orders;
           check (bool_decide (order = None)) ;;
           x ← allocate u (ss_order_pool_ ss);
           mret (set_orders (<[t := <[Z.to_nat (upd_order_id_ u) := Some x.1]> orders]> (ticker_orders_ ss)) x.2 ss)
       | MarketUpdateType_MODIFY =>
           order ← at_ (Z.to_nat (upd_order_id_ u)) orders;
           check_order u order (ss_order_pool_ ss) ;;
           pool ← update order (modify_order u) (ss_order_pool_ ss);
           mret (set_orders (ticker_orders_ ss) pool ss)
       | MarketUpdateType_CANCEL =>
           order ← at_ (Z.to_nat (upd_order_id_ u)) orders;
           check_order u order (ss_order_pool_ ss) ;;
           pool ← deallocate order (ss_order_pool_ ss);
           mret (set_orders (<[t := <[Z.to_nat (upd_order_id_ u) := None]> orders]> (ticker_orders_ ss)) pool ss)
       | _ => Ok ss
       end;
  check (mdp_seq_num_ market_update =? u64 (last_inc_seq_num_ ss + 1)) ;;
  mret (mkSnapshotSynthesizer (ss_run_ ss) (snapshot_socket_ ss) (ticker_orders_ ss)
          (mdp_seq_num_ market_update) (last_snapshot_time_ ss) (ss_order_pool_ ss)).

(** What publishing goes through: the next number, the socket, and the datagrams sent. *)
Definition Publishing : Type := Z * McastSocket * list (list Z).

Definition mcast_flush (s : McastSocket) (out : list (list Z)) : result (McastSocket * list (list Z)) :=
  match mcast_sendAndRecv (λ s (_ : unit), Ok (s, tt)) RecvEAGAIN s tt with
  | Ok (s, _, _, Some d) => Ok (s, out ++ [d])
  | Ok (s, _, _, None) => Ok (s, out)
  | Err e => Err e
  end.

(** One message, and sendAndRecv when [flush] is set. *)
Definition publish_update (flush : bool) (u : MEMarketUpdate) (x : Publishing) : result Publishing :=
  let '(snapshot_size, s, out) := x in
  s ← mcast_send (encode (mkMDPMarketUpdate snapshot_size u)) s;
  y ← (if flush then mcast_flush s out else Ok (s, out));
  mret (u64 (snapshot_size + 1), y.1, y.2).

Fixpoint publish_orders (pool : MemPool MEMarketUpdate) (orders : list ptr) (x : Publishing) :
    result Publishing :=
  match orders with
  | [] => Ok x
  | None :: orders => publish_orders pool orders x
  | Some a :: orders =>
      o ← deref (Some a) pool;
      x ← publish_update true o x;
      publish_orders pool orders x
  end.

Fixpoint publish_tickers (pool : MemPool MEMarketUpdate) (ticker_id : nat)
    (ticker_orders : list (list ptr)) (x : Publishing) : result Publishing :=
  match ticker_orders with
  | [] => Ok x
  | orders :: ticker_orders =>
      x ← publish_update false (clear_update ticker_id) x;
      x ← publish_orders pool orders x;
      publish_tickers pool (S ticker_id) ticker_orders x
  end.

Definition publishSnapshot ss : result (SnapshotSynthesizer * list (list Z)) :=
  x ← publish_update false (mark_update MarketUpdateType_SNAPSHOT_START (last_inc_seq_num_ ss))
        (0, snapshot_socket_ ss, []);
  x ← publish_tickers (ss_order_pool_ ss) 0 (ticker_orders_ ss) x;
  x ← publish_update true (mark_update MarketUpdateType_SNAPSHOT_END (last_inc_seq_num_ ss)) x;
  mret (set_snapshot_socket x.1.2 ss, x.2).

(** The loop over the queue. *)
Fixpoint ss_drain (fuel : nat) (q : LFQueue MDPMarketUpdate) ss :
    result (LFQueue MDPMarketUpdate * SnapshotSynthesizer) :=
  match getNextToRead q with
  | None => Ok (q, ss)
  | Some i =>
      match fuel, read_slot i q with
      | O, _ => Err Diverges
      | _, None => Err WildDeref
      | S fuel, Some market_update =>
          ss ← addToSnapshot market_update ss;
          q ← updateReadIndex q;
          ss_drain fuel q ss
      end
  end.

(** One iteration of run: [now1] and [now2] are the two readings of the clock. *)
Definition ss_run_round (now1 now2 : Z) (q : LFQueue MDPMarketUpdate) ss :
    result (LFQueue MDPMarketUpdate * SnapshotSynthesizer * list (list Z)) :=
  if ss_run_ ss then
    x ← ss_drain (q_size q) q ss;
    let '(q, ss) := x in
    if 60 * 1000000000 <? i64 (now1 - last_snapshot_time_ ss) then
      let ss := mkSnapshotSynthesizer (ss_run_ ss) (snapshot_socket_ ss) (ticker_orders_ ss)
                  (last_inc_seq_num_ ss) now2 (ss_order_pool_ ss) in
      y ← publishSnapshot ss;
      mret (q, y.1, y.2)
    else Ok (q, ss, [])
  else Ok (q, ss, []).

(** ** The view that the snapshot holds *)

Definition slot ss (t i : nat) : option ptr := ticker_orders_ ss !! t ≫= (λ os, os !! i).

(** A slot and its order: what is allocated there is the update that shows the order. *)
Definition slot_ok ss (t i : nat) (p : ptr) (m : gmap Z Shown) : Prop :=
  match p with
  | None => m !! Z.of_nat i = None
  | Some a => ∃ x, m !! Z.of_nat i = Some x ∧
                   heap (ss_order_pool_ ss) !! a = Some (order_update t (Z.of_nat i) x)
  end.

Record snap_rep ss (v : view) : Prop := {
  sr_tickers : length (ticker_orders_ ss) = length v;
  sr_sizes : Forall (λ os, length os = Z.to_nat ME_MAX_ORDER_IDS) (ticker_orders_ ss);
  sr_slots : ∀ t m i p, v !! t = Some m → slot ss t i = Some p → slot_ok ss t i p m;
  sr_below : view_below (Z.to_nat ME_MAX_ORDER_IDS) v;
  sr_pool : pool_wf (ss_order_pool_ ss);
  sr_live : size (heap (ss_order_pool_ ss)) = live_count v
}.

(** The updates that a stream of the matching engine consists of, for a pool of [n] orders. *)
Definition snap_ok (n : nat) (u : MEMarketUpdate) (v : view) : Prop :=
  0 ≤ upd_ticker_id_ u ∧
  ∃ m, v !! Z.to_nat (upd_ticker_id_ u) = Some m ∧
    match upd_type_ u with
    | MarketUpdateType_ADD => m !! upd_order_id_ u = None ∧
        0 ≤ upd_order_id_ u < Z.of_nat (Z.to_nat ME_MAX_ORDER_IDS) ∧ (S (live_count v) < n)%nat
    | MarketUpdateType_MODIFY | MarketUpdateType_CANCEL =>
        ∃ x, m !! upd_order_id_ u = Some x ∧ sh_side x = upd_side_ u
    | MarketUpdateType_CLEAR => False
    | _ => True
    end.

(** Every update of the sequence is such an update when its turn comes. *)
Fixpoint snap_oks (n : nat) (us : list MEMarketUpdate) (v : view) : Prop :=
  match us with [] => True | u :: us => snap_ok n u v ∧ snap_oks n us (apply_md u v) end.
End synthesizer.

(** ** Updating the snapshot *)
#[local] Arguments deref : simpl never.
#[local] Arguments update : simpl never.
#[local] Arguments allocate : simpl never.
#[local] Arguments deallocate : simpl never.

Section tracking.
Context `{Limits, BufferSizes}.
Implicit Types (ss : SnapshotSynthesizer) (v : view) (m : gmap Z Shown) (u : MEMarketUpdate).

Lemma slot_orders ss t i orders :
  ticker_orders_ ss !! t = Some orders → slot ss t i = orders !! i.
Proof. unfold slot. by intros ->. Qed.

Lemma slot_set ss pool t i p orders t' i' :
  ticker_orders_ ss !! t = Some orders → (i < length orders)%nat →
  slot (set_orders (<[t := <[i := p]> orders]> (ticker_orders_ ss)) pool ss) t' i'
  = if decide (t' = t ∧ i' = i) then Some p else slot ss t' i'.
Proof.
  intros Ho Hi. unfold slot. cbn. destruct (decide (t' = t)) as [->|Hne].
  - rewrite list_lookup_insert_eq by (by eapply lookup_lt_Some). rewrite Ho. cbn.
    destruct (decide (i' = i)) as [->|Hne].
    + rewrite list_lookup_insert_eq by done. by rewrite decide_True.
    + rewrite list_lookup_insert_ne by done. rewrite decide_False; [done|tauto].
  - rewrite list_lookup_insert_ne by done. rewrite decide_False; [done|tauto].
Qed.

(** The slot of an order that the view may show. *)
Lemma rep_slot ss v t m i :
  snap_rep ss v → v !! t = Some m → (i < Z.to_nat ME_MAX_ORDER_IDS)%nat →
  ∃ orders p, ticker_orders_ ss !! t = Some orders ∧ orders !! i = Some p ∧ slot_ok ss t i p m ∧
    length orders = Z.to_nat ME_MAX_ORDER_IDS.
Proof.
  intros Hr Hm Hi.
  destruct (lookup_lt_is_Some_2 (ticker_orders_ ss) t) as [orders Ho].
  { rewrite (sr_tickers _ _ Hr). by eapply lookup_lt_Some. }
  pose proof (Forall_lookup_1 _ _ _ _ (sr_sizes _ _ Hr) Ho) as Hlen. cbn in Hlen.
  destruct (lookup_lt_is_Some_2 orders i) as [p Hp]; [lia|].
  exists orders, p. split_and!; [done..| |done]. eapply (sr_slots _ _ Hr); [done|].
  by rewrite (slot_orders _ _ _ _ Ho).
Qed.

(** A live order's object. *)
Lemma rep_live ss v t m i x :
  snap_rep ss v → v !! t = Some m → m !! i = Some x →
  ∃ orders a, ticker_orders_ ss !! t = Some orders ∧ orders !! Z.to_nat i = Some (Some a) ∧
    heap (ss_order_pool_ ss) !! a = Some (order_update t i x) ∧
    length orders = Z.to_nat ME_MAX_ORDER_IDS ∧ 0 ≤ i < Z.of_nat (Z.to_nat ME_MAX_ORDER_IDS).
Proof.
  intros Hr Hm Hx.
  pose proof (Forall_lookup_1 _ _ _ _ (sr_below _ _ Hr) Hm i ltac:(by rewrite Hx)) as Hi.
  destruct (rep_slot ss v t m (Z.to_nat i) Hr Hm) as (orders & p & Ho & Hp & Hok & Hlen); [lia|].
  unfold slot_ok in Hok. rewrite Z2Nat.id in Hok by lia. destruct p as [a|]; [|congruence].
  destruct Hok as (x' & Hx' & Ha). assert (x' = x) as -> by congruence. by exists orders, a.
Qed.

Lemma order_update_inj t i x t' i' x' :
  order_update t (Z.of_nat i) x = order_update t' (Z.of_nat i') x' → t = t' ∧ i = i'.
Proof. unfold order_update. intros Heq. injection Heq. intros. split; lia. Qed.

(** The invariant after one slot, one block and one order of the view have changed together. *)
Lemma rep_change ss v t m i orders p pool (f : gmap Z Shown → gmap Z Shown) :
  snap_rep ss v → v !! t = Some m → (i < Z.to_nat ME_MAX_ORDER_IDS)%nat →
  ticker_orders_ ss !! t = Some orders →
  pool_wf pool → (size (heap pool) + size m = live_count v + size (f m))%nat →
  let ss' := set_orders (<[t := <[i := p]> orders]> (ticker_orders_ ss)) pool ss in
  slot_ok ss' t i p (f m) →
  (∀ j, j ≠ Z.of_nat i → f m !! j = m !! j) →
  (∀ t' i' a x, (t', i') ≠ (t, i) → slot ss t' i' = Some (Some a) →
     heap (ss_order_pool_ ss) !! a = Some (order_update t' (Z.of_nat i') x) →
     heap pool !! a = heap (ss_order_pool_ ss) !! a) →
  snap_rep ss' (alter f t v).
Proof.
  intros Hr Hm Hi Ho Hwf Hsize ss' Hok Hother Hheap.
  pose proof (Forall_lookup_1 _ _ _ _ (sr_sizes _ _ Hr) Ho) as Hlen. cbn in Hlen.
  constructor.
  - unfold ss'. cbn. rewrite length_insert, length_alter. apply Hr.
  - unfold ss'. cbn. apply Forall_insert; [apply Hr|]. by rewrite length_insert.
  - intros t' m' i' p' Hm' Hp'. unfold ss' in Hp'. rewrite (slot_set _ _ _ _ _ _ _ _ Ho) in Hp' by lia.
    destruct (decide (t' = t ∧ i' = i)) as [[-> ->]|Hne].
    + injection Hp' as <-. rewrite list_lookup_alter_eq, Hm in Hm'. by injection Hm' as <-.
    + assert (∃ m0, v !! t' = Some m0 ∧ m' !! Z.of_nat i' = m0 !! Z.of_nat i') as (m0 & Hm0 & Hmi).
      { destruct (decide (t' = t)) as [->|Hnt].
        - rewrite list_lookup_alter_eq, Hm in Hm'. injection Hm' as <-. exists m. split; [done|].
          apply Hother. intros Heq%Nat2Z.inj. naive_solver.
        - rewrite list_lookup_alter_ne in Hm' by done. by exists m'. }
      pose proof (sr_slots _ _ Hr _ _ _ _ Hm0 Hp') as Hs. unfold slot_ok in *. rewrite Hmi.
      destruct p' as [a|]; [|done]. destruct Hs as (x & Hx & Ha). exists x. split; [done|].
      unfold ss'. cbn. rewrite (Hheap t' i' a x); [done|naive_solver|done|done].
  - apply Forall_forall. intros m' (t' & Hm')%list_elem_of_lookup j Hj.
    pose proof (sr_below _ _ Hr) as Hb. unfold view_below in Hb. rewrite Forall_lookup in Hb.
    destruct (decide (t' = t)) as [->|Hnt].
    + rewrite list_lookup_alter_eq, Hm in Hm'. injection Hm' as <-.
      destruct (decide (j = Z.of_nat i)) as [->|Hne]; [lia|].
      rewrite Hother in Hj by done. by eapply Hb.
    + rewrite list_lookup_alter_ne in Hm' by done. by eapply Hb.
  - done.
  - unfold ss'. cbn. pose proof (live_count_alter t m (f m) v f Hm eq_refl). lia.
Qed.

Lemma set_orders_same ss pool t orders i p :
  ticker_orders_ ss !! t = Some orders → orders !! i = Some p →
  set_orders (<[t := <[i := p]> orders]> (ticker_orders_ ss)) pool ss
  = set_orders (ticker_orders_ ss) pool ss.
Proof. intros Ho Hp. by rewrite (list_insert_id orders) by done; rewrite list_insert_id by done. Qed.

Lemma snap_rep_seq ss v n :
  snap_rep ss v →
  snap_rep (mkSnapshotSynthesizer (ss_run_ ss) (snapshot_socket_ ss) (ticker_orders_ ss) n
              (last_snapshot_time_ ss) (ss_order_pool_ ss)) v.
Proof. intros [? ? Hs ? ? ?]. constructor; try done. Qed.
Lemma order_update_shown_of u :
  upd_type_ u = MarketUpdateType_ADD → 0 ≤ upd_ticker_id_ u →
  order_update (Z.to_nat (upd_ticker_id_ u)) (upd_order_id_ u) (shown_of u) = u.
Proof. destruct u. cbn. intros -> Ht. unfold order_update, shown_of. cbn. f_equal. lia. Qed.

(** The three updates that change the snapshot. *)
Lemma add_order_rep ss v m u :
  snap_rep ss v → upd_type_ u = MarketUpdateType_ADD → 0 ≤ upd_ticker_id_ u →
  v !! Z.to_nat (upd_ticker_id_ u) = Some m → m !! upd_order_id_ u = None →
  0 ≤ upd_order_id_ u < Z.of_nat (Z.to_nat ME_MAX_ORDER_IDS) →
  (S (live_count v) < pool_size (ss_order_pool_ ss))%nat →
  ∃ orders a pool, ticker_orders_ ss !! Z.to_nat (upd_ticker_id_ u) = Some orders ∧
    orders !! Z.to_nat (upd_order_id_ u) = Some None ∧
    allocate u (ss_order_pool_ ss) = Ok (a, pool) ∧ pool_size pool = pool_size (ss_order_pool_ ss) ∧
    snap_rep (set_orders (<[Z.to_nat (upd_ticker_id_ u) := <[Z.to_nat (upd_order_id_ u) := Some a]> orders]>
                (ticker_orders_ ss)) pool ss) (apply_md u v).
Proof.
  intros Hr Ht Ht0 Hm Hnone Hid Hroom. set (t := Z.to_nat (upd_ticker_id_ u)) in *. set (i := Z.to_nat (upd_order_id_ u)) in *.
  destruct (rep_slot ss v t m i Hr Hm) as (orders & p & Ho & Hp & Hok & Hlen); [lia|].
  assert (Z.of_nat i = upd_order_id_ u) as Hi by lia.
  unfold slot_ok in Hok. rewrite Hi in Hok. destruct p as [a|]; [destruct Hok as (? & ? & ?); congruence|].
  destruct (allocate_cases (ss_order_pool_ ss) u (sr_pool _ _ Hr)) as [[Hfull _]|[_ (pool & Ha & Hfree & Hheap & Hwf & Hps)]].
  { rewrite (sr_live _ _ Hr) in Hfull. lia. }
  set (a := next_free_index_ (ss_order_pool_ ss)) in *.
  exists orders, a, pool. split_and!; [done..|].
  assert (u = order_update t (Z.of_nat i) (shown_of u)) as Hu.
  { rewrite Hi. unfold t. by rewrite order_update_shown_of. }
  assert (apply_update u m = <[Z.of_nat i := shown_of u]> m) as Hap
    by (unfold apply_update; by rewrite Ht, Hi).
  unfold apply_md. fold t. eapply rep_change; [done|exact Hm|lia|done|done| | | |]; rewrite ?Hap.
  - rewrite Hheap, !map_size_insert_None by (done || by rewrite Hi). rewrite (sr_live _ _ Hr). lia.
  - exists (shown_of u). rewrite lookup_insert_eq. split; [done|]. cbn. rewrite Hheap, lookup_insert_eq. by rewrite <- Hu.
  - intros j Hj. by rewrite lookup_insert_ne.
  - intros t' i' a' x _ _ Ha'. rewrite Hheap, lookup_insert_ne; [done|]. intros ->. congruence.
Qed.

Lemma modify_order_rep ss v m u x :
  snap_rep ss v → upd_type_ u = MarketUpdateType_MODIFY →
  v !! Z.to_nat (upd_ticker_id_ u) = Some m → m !! upd_order_id_ u = Some x →
  ∃ orders a pool o, ticker_orders_ ss !! Z.to_nat (upd_ticker_id_ u) = Some orders ∧
    orders !! Z.to_nat (upd_order_id_ u) = Some (Some a) ∧ deref (Some a) (ss_order_pool_ ss) = Ok o ∧
    upd_order_id_ o = upd_order_id_ u ∧ upd_side_ o = sh_side x ∧
    update (Some a) (modify_order u) (ss_order_pool_ ss) = Ok pool ∧
    pool_size pool = pool_size (ss_order_pool_ ss) ∧
    snap_rep (set_orders (ticker_orders_ ss) pool ss) (apply_md u v).
Proof.
  intros Hr Ht Hm Hx. set (t := Z.to_nat (upd_ticker_id_ u)) in *.
  destruct (rep_live ss v t m _ x Hr Hm Hx) as (orders & a & Ho & Hp & Ha & Hlen & Hid).
  set (i := Z.to_nat (upd_order_id_ u)) in *. assert (Z.of_nat i = upd_order_id_ u) as Hi by lia.
  destruct (update_heap _ a _ (modify_order u) Ha (sr_pool _ _ Hr)) as (pool & Hup & Hheap & Hwf & Hps).
  exists orders, a, pool, (order_update t (upd_order_id_ u) x).
  split_and!; [done|done|by apply deref_heap|done|done|done|done|].
  rewrite <- (set_orders_same ss pool t orders i (Some a)) by done.
  assert (apply_update u m
    = <[Z.of_nat i := mkShown (sh_side x) (upd_price_ u) (upd_qty_ u) (sh_prio x)]> m) as Hap.
  { unfold apply_update. rewrite Ht, Hi. apply map_eq. intros j. destruct (decide (j = upd_order_id_ u)) as [->|Hne].
    - by rewrite lookup_alter_eq, lookup_insert_eq, Hx.
    - by rewrite lookup_alter_ne, lookup_insert_ne. }
  unfold apply_md. fold t. eapply rep_change; [done|exact Hm|lia|done|done| | | |]; rewrite ?Hap.
  - rewrite Hheap, !map_size_insert, Ha, Hi, Hx, (sr_live _ _ Hr). cbn. lia.
  - eexists. rewrite lookup_insert_eq. split; [done|]. cbn. rewrite Hheap, lookup_insert_eq. by rewrite Hi.
  - intros j Hj. by rewrite lookup_insert_ne.
  - intros t' i' a' x' Hne Hs Ha'. rewrite Hheap, lookup_insert_ne; [done|]. intros <-.
    rewrite Ha, <- Hi in Ha'. injection Ha' as Heq. intros. apply Hne. f_equal; lia.
Qed.

Lemma cancel_order_rep ss v m u x :
  snap_rep ss v → upd_type_ u = MarketUpdateType_CANCEL →
  v !! Z.to_nat (upd_ticker_id_ u) = Some m → m !! upd_order_id_ u = Some x →
  ∃ orders a pool o, ticker_orders_ ss !! Z.to_nat (upd_ticker_id_ u) = Some orders ∧
    orders !! Z.to_nat (upd_order_id_ u) = Some (Some a) ∧ deref (Some a) (ss_order_pool_ ss) = Ok o ∧
    upd_order_id_ o = upd_order_id_ u ∧ upd_side_ o = sh_side x ∧
    deallocate (Some a) (ss_order_pool_ ss) = Ok pool ∧
    pool_size pool = pool_size (ss_order_pool_ ss) ∧
    snap_rep (set_orders (<[Z.to_nat (upd_ticker_id_ u) := <[Z.to_nat (upd_order_id_ u) := None]> orders]>
                (ticker_orders_ ss)) pool ss) (apply_md u v).
Proof.
  intros Hr Ht Hm Hx. set (t := Z.to_nat (upd_ticker_id_ u)) in *.
  destruct (rep_live ss v t m _ x Hr Hm Hx) as (orders & a & Ho & Hp & Ha & Hlen & Hid).
  set (i := Z.to_nat (upd_order_id_ u)) in *. assert (Z.of_nat i = upd_order_id_ u) as Hi by lia.
  destruct (deallocate_heap _ a _ Ha (sr_pool _ _ Hr)) as (pool & Hde & Hheap & Hwf & Hps).
  exists orders, a, pool, (order_update t (upd_order_id_ u) x).
  split_and!; [done|done|by apply deref_heap|done|done|done|done|].
  assert (apply_update u m = delete (Z.of_nat i) m) as Hap
    by (unfold apply_update; by rewrite Ht, Hi).
  unfold apply_md. fold t. eapply rep_change; [done|exact Hm|lia|done|done| | | |]; rewrite ?Hap.
  - rewrite Hheap, !map_size_delete, Ha, Hi, Hx, (sr_live _ _ Hr). cbn.
    assert (size m ≠ 0%nat) by (intros E%map_size_empty_inv; subst m; by rewrite lookup_empty in Hx).
    assert (size (heap (ss_order_pool_ ss)) ≠ 0%nat)
      by (intros E%map_size_empty_inv; by rewrite E, lookup_empty in Ha).
    rewrite (sr_live _ _ Hr) in *. lia.
  - cbn. apply lookup_delete_eq.
  - intros j Hj. by rewrite lookup_delete_ne.
  - intros t' i' a' x' Hne Hs Ha'. rewrite Hheap, lookup_delete_ne; [done|]. intros <-.
    rewrite Ha, <- Hi in Ha'. injection Ha' as Heq. intros. apply Hne. f_equal; lia.
Qed.

Lemma addToSnapshot_spec ss v u :
  snap_rep ss v → snap_ok (pool_size (ss_order_pool_ ss)) u v →
  let n := u64 (last_inc_seq_num_ ss + 1) in
  ∃ ss', addToSnapshot (mkMDPMarketUpdate n u) ss = Ok ss' ∧ snap_rep ss' (apply_md u v) ∧
    last_inc_seq_num_ ss' = n ∧ pool_size (ss_order_pool_ ss') = pool_size (ss_order_pool_ ss) ∧
    snapshot_socket_ ss' = snapshot_socket_ ss ∧ ss_run_ ss' = ss_run_ ss.
Proof.
  intros Hr (Ht0 & m & Hm & Hu) n. unfold addToSnapshot. cbn [me_market_update_ mdp_seq_num_].
  assert (∀ ss1, snap_rep ss1 (apply_md u v) → last_inc_seq_num_ ss1 = last_inc_seq_num_ ss →
    pool_size (ss_order_pool_ ss1) = pool_size (ss_order_pool_ ss) →
    snapshot_socket_ ss1 = snapshot_socket_ ss → ss_run_ ss1 = ss_run_ ss →
    ∃ ss', (check (n =? u64 (last_inc_seq_num_ ss1 + 1)) ;;
            mret (mkSnapshotSynthesizer (ss_run_ ss1) (snapshot_socket_ ss1) (ticker_orders_ ss1) n
                    (last_snapshot_time_ ss1) (ss_order_pool_ ss1))) = Ok ss' ∧
      snap_rep ss' (apply_md u v) ∧ last_inc_seq_num_ ss' = n ∧
      pool_size (ss_order_pool_ ss') = pool_size (ss_order_pool_ ss) ∧
      snapshot_socket_ ss' = snapshot_socket_ ss ∧ ss_run_ ss' = ss_run_ ss) as Hend.
  { intros ss1 Hr1 Hl Hp Hsk Hrun. rewrite Hl. fold n. rewrite Z.eqb_refl. eexists. split; [done|].
    split_and!; [by apply snap_rep_seq|done..]. }
  destruct (lookup_lt_is_Some_2 (ticker_orders_ ss) (Z.to_nat (upd_ticker_id_ u))) as [orders Ho].
  { rewrite (sr_tickers _ _ Hr). by eapply lookup_lt_Some. }
  assert (apply_update u m = m → apply_md u v = v) as Hsame.
  { intros Heq. unfold apply_md. apply list_eq. intros t.
    destruct (decide (t = Z.to_nat (upd_ticker_id_ u))) as [->|Hne].
    - rewrite list_lookup_alter_eq, Hm. cbn. by rewrite Heq.
    - by rewrite list_lookup_alter_ne. }
  unfold at_, check_order. destruct (upd_type_ u) eqn:Ht; try done.
  all: try (rewrite Ho; cbn [mbind result_bind]; apply Hend; try done;
            rewrite Hsame; [done|]; unfold apply_update; by rewrite Ht).
  - destruct Hu as (Hnone & Hid & Hroom).
    destruct (add_order_rep ss v m u Hr Ht Ht0 Hm Hnone Hid Hroom) as (orders' & a & pool & Ho' & Hp & Ha & Hps & Hr').
    rewrite Ho'. cbn. rewrite Hp. cbn. rewrite Ha. cbn. exact (Hend _ Hr' eq_refl Hps eq_refl eq_refl).
  - destruct Hu as (x & Hx & Hs).
    destruct (modify_order_rep ss v m u x Hr Ht Hm Hx) as (orders' & a & pool & o & Ho' & Hp & Hd & Hi & Hsd & Hup & Hps & Hr').
    rewrite Ho'. cbn. rewrite Hp. cbn. rewrite Hd. cbn. rewrite Hi, Z.eqb_refl. cbn.
    rewrite bool_decide_eq_true_2 by congruence. cbn. rewrite Hup. cbn. exact (Hend _ Hr' eq_refl Hps eq_refl eq_refl).
  - destruct Hu as (x & Hx & Hs).
    destruct (cancel_order_rep ss v m u x Hr Ht Hm Hx) as (orders' & a & pool & o & Ho' & Hp & Hd & Hi & Hsd & Hup & Hps & Hr').
    rewrite Ho'. cbn. rewrite Hp. cbn. rewrite Hd. cbn. rewrite Hi, Z.eqb_refl. cbn.
    rewrite bool_decide_eq_true_2 by congruence. cbn. rewrite Hup. cbn. exact (Hend _ Hr' eq_refl Hps eq_refl eq_refl).
Qed.
End tracking.

(** ** Publishing *)
Section publishing.
Context `{Limits, BufferSizes}.
Implicit Types (ss : SnapshotSynthesizer) (v : view) (m : gmap Z Shown) (u : MEMarketUpdate)
  (x : Publishing).

(** The bytes that have gone out and those that wait. *)
Definition published x : list Z := concat x.2 ++ mc_outbound_data_ x.1.2.
Definition waiting x : nat := length (mc_outbound_data_ x.1.2).

(** Publishing [us] from [x] to [x']. *)
Definition publishes us x x' : Prop :=
  x'.1.1 = advance x.1.1 us ∧ published x' = published x ++ stream (numbered mkMDPMarketUpdate x.1.1 us).

Lemma publishes_nil x : publishes [] x x.
Proof. unfold publishes. cbn. by rewrite app_nil_r. Qed.

Lemma publishes_app us1 us2 x x1 x2 :
  publishes us1 x x1 → publishes us2 x1 x2 → publishes (us1 ++ us2) x x2.
Proof.
  intros [Hn1 Hb1] [Hn2 Hb2]. split; [by rewrite Hn2, Hn1, advance_app|].
  by rewrite Hb2, Hb1, Hn1, numbered_app, stream_app, app_assoc.
Qed.

Lemma publish_update_spec flush u x :
  (waiting x + 42 < McastBufferSize)%nat →
  ∃ x', publish_update flush u x = Ok x' ∧ publishes [u] x x' ∧
    waiting x' = (if flush then 0 else waiting x + 42)%nat.
Proof.
  destruct x as [[n s] out]. unfold waiting, publishes, published. cbn [fst snd]. intros Hroom.
  unfold publish_update, mcast_send.
  set (b := encode (mkMDPMarketUpdate n u)).
  assert (length b = 42%nat) as Hb by (unfold b; by rewrite length_encode).
  rewrite (proj2 (Nat.ltb_lt _ _)) by (rewrite length_app; lia). cbn [mbind result_bind].
  assert (stream (numbered mkMDPMarketUpdate n [u]) = b) as Hs
    by (cbn [numbered stream mbind list_bind]; by rewrite app_nil_r).
  rewrite Hs. clearbody b. clear Hs. destruct flush.
  - unfold mcast_flush, mcast_sendAndRecv. cbn [length Nat.ltb Nat.leb]. cbn.
    destruct (mc_outbound_data_ s ++ b) as [|z l] eqn:Hd.
    { apply (f_equal length) in Hd. rewrite length_app, Hb in Hd. cbn in Hd. lia. }
    eexists. split; [done|]. cbn. split_and!; [done| |done].
    rewrite concat_app. cbn. rewrite !app_nil_r, <- Hd, <- app_assoc. done.
  - eexists. split; [done|]. cbn. split_and!; [done| |].
    + by rewrite app_assoc.
    + rewrite length_app. lia.
Qed.

Lemma publish_orders_spec pool orders t off m x :
  (∀ j p, orders !! j = Some p →
     match p with
     | None => m !! Z.of_nat (off + j) = None
     | Some a => ∃ y, m !! Z.of_nat (off + j) = Some y ∧
                      heap pool !! a = Some (order_update t (Z.of_nat (off + j)) y)
     end) →
  (waiting x + 42 < McastBufferSize)%nat →
  ∃ x', publish_orders pool orders x = Ok x' ∧
    publishes (omap (λ i, order_update t (Z.of_nat i) <$> m !! Z.of_nat i) (seq off (length orders))) x x' ∧
    (waiting x' ≤ waiting x)%nat.
Proof.
  revert off x. induction orders as [|p orders IH]; intros off x Hos Hroom.
  { exists x. split_and!; [done|apply publishes_nil|done]. }
  assert (∀ j q, orders !! j = Some q →
     match q with
     | None => m !! Z.of_nat (S off + j) = None
     | Some a => ∃ y, m !! Z.of_nat (S off + j) = Some y ∧
                      heap pool !! a = Some (order_update t (Z.of_nat (S off + j)) y)
     end) as Hos'.
  { intros j q Hq. specialize (Hos (S j) q Hq). by rewrite Nat.add_succ_r in Hos. }
  pose proof (Hos 0%nat p eq_refl) as Hp. rewrite Nat.add_0_r in Hp.
  cbn [length seq omap list_omap publish_orders]. destruct p as [a|].
  - destruct Hp as (y & Hy & Ha). rewrite Hy, (deref_heap _ _ _ Ha).
    cbn [fmap option_fmap option_map mbind result_bind].
    destruct (publish_update_spec true (order_update t (Z.of_nat off) y) x Hroom) as (x1 & -> & Hp1 & Hw1).
    destruct (IH (S off) x1 Hos') as (x2 & Hr2 & Hp2 & Hw2); [lia|].
    exists x2. split_and!; [exact Hr2| |lia].
    change (?u :: ?l) with ([u] ++ l). by eapply publishes_app.
  - rewrite Hp. cbn [fmap option_fmap option_map]. by apply IH.
Qed.

Lemma publish_tickers_spec ss v n0 tos t x :
  (∀ k orders, tos !! k = Some orders → ticker_orders_ ss !! (t + k)%nat = Some orders) →
  (∀ k m, v !! k = Some m → ∀ i p, slot ss (t + k) i = Some p → slot_ok ss (t + k) i p m) →
  length tos = length v → Forall (λ os, length os = n0) tos →
  (waiting x + 42 * S (length v) < McastBufferSize)%nat →
  ∃ x', publish_tickers (ss_order_pool_ ss) t tos x = Ok x' ∧
    publishes (snapshot_body n0 t v) x x' ∧ (waiting x' ≤ waiting x + 42 * length v)%nat.
Proof.
  revert t v x. induction tos as [|orders tos IH]; intros t v x Htos Hslots Hlen Hsz Hroom.
  { destruct v; [|done]. exists x. split_and!; [done|apply publishes_nil|lia]. }
  destruct v as [|m v]; [done|]. injection Hlen as Hlen. apply Forall_cons in Hsz as [Hsz0 Hsz].
  cbn [publish_tickers snapshot_body length] in *.
  destruct (publish_update_spec false (clear_update t) x) as (x1 & -> & Hp1 & Hw1); [lia|].
  cbn [mbind result_bind].
  destruct (publish_orders_spec (ss_order_pool_ ss) orders t 0 m x1) as (x2 & -> & Hp2 & Hw2).
  { intros j p Hj. specialize (Hslots 0%nat m eq_refl j p). rewrite Nat.add_0_r in Hslots.
    specialize (Htos 0%nat orders eq_refl). rewrite Nat.add_0_r in Htos.
    rewrite (slot_orders _ _ _ _ Htos) in Hslots. exact (Hslots Hj). }
  { rewrite Hw1. lia. }
  cbn [mbind result_bind].
  destruct (IH (S t) v x2) as (x3 & Hr3 & Hp3 & Hw3); [| |done|done|lia|].
  - intros k os Hk. rewrite Nat.add_succ_l, <- Nat.add_succ_r. by apply Htos.
  - intros k m' Hk. rewrite Nat.add_succ_l, <- Nat.add_succ_r. by apply Hslots.
  - exists x3. split_and!; [exact Hr3| |lia].
    eapply publishes_app; [|exact Hp3]. change (?u :: ?l) with ([u] ++ l).
    eapply publishes_app; [exact Hp1|]. unfold ticker_updates. by rewrite <- Hsz0.
Qed.

Lemma publishSnapshot_spec ss v :
  snap_rep ss v → mc_outbound_data_ (snapshot_socket_ ss) = [] →
  (42 * (2 + length v) < McastBufferSize)%nat →
  ∃ s out, publishSnapshot ss = Ok (set_snapshot_socket s ss, out) ∧ mc_outbound_data_ s = [] ∧
    concat out = stream (numbered mkMDPMarketUpdate 0
                           (snapshot_cycle (Z.to_nat ME_MAX_ORDER_IDS) (last_inc_seq_num_ ss) v)).
Proof.
  intros Hr Hout Hroom. unfold publishSnapshot.
  set (x0 := (0, snapshot_socket_ ss, []) : Publishing).
  assert (waiting x0 = 0%nat) as Hw0 by (unfold waiting, x0; cbn; by rewrite Hout).
  assert (published x0 = []) as Hp0 by (unfold published, x0; cbn; by rewrite Hout).
  destruct (publish_update_spec false (mark_update MarketUpdateType_SNAPSHOT_START (last_inc_seq_num_ ss)) x0)
    as (x1 & -> & Hp1 & Hw1); [lia|].
  cbn [mbind result_bind].
  destruct (publish_tickers_spec ss v (Z.to_nat ME_MAX_ORDER_IDS) (ticker_orders_ ss) 0 x1)
    as (x2 & -> & Hp2 & Hw2).
  { done. }
  { intros k m Hm i p. by apply (sr_slots _ _ Hr). }
  { apply Hr. }
  { apply Hr. }
  { lia. }
  cbn [mbind result_bind].
  destruct (publish_update_spec true (mark_update MarketUpdateType_SNAPSHOT_END (last_inc_seq_num_ ss)) x2)
    as (x3 & -> & Hp3 & Hw3); [lia|].
  cbn [mbind result_bind]. exists x3.1.2, x3.2. split; [done|].
  assert (mc_outbound_data_ x3.1.2 = []) as He by (apply length_zero_iff_nil; exact Hw3).
  split; [done|]. pose proof (publishes_app _ _ _ _ _ Hp1 (publishes_app _ _ _ _ _ Hp2 Hp3)) as [_ Hb].
  rewrite Hp0 in Hb. unfold published in Hb. rewrite He, app_nil_r in Hb. exact Hb.
Qed.

(** The loop over the queue, on the updates that follow the last one in sequence. *)
Lemma ss_drain_spec us fuel q ss v :
  holds q (numbered mkMDPMarketUpdate (u64 (last_inc_seq_num_ ss + 1)) us) → snap_rep ss v →
  snap_oks (pool_size (ss_order_pool_ ss)) us v → (length us ≤ fuel)%nat →
  ∃ q' ss', ss_drain fuel q ss = Ok (q', ss') ∧ holds q' [] ∧ snap_rep ss' (apply_mds us v) ∧
    last_inc_seq_num_ ss' = foldl (λ n _, u64 (n + 1)) (last_inc_seq_num_ ss) us ∧
    snapshot_socket_ ss' = snapshot_socket_ ss ∧ ss_run_ ss' = ss_run_ ss ∧
    pool_size (ss_order_pool_ ss') = pool_size (ss_order_pool_ ss).
Proof.
  revert fuel q ss v. induction us as [|u us IH]; intros fuel q ss v Hq Hr Hok Hf.
  { exists q, ss. pose proof (holds_pop_nil _ Hq) as Hp. unfold pop in Hp.
    replace (ss_drain fuel q ss) with (Ok (q, ss)); [done|].
    destruct fuel; cbn [ss_drain]; destruct (getNextToRead _) as [i|]; try done.
    all: destruct (read_slot i _); try done; by destruct (updateReadIndex _). }
  destruct fuel as [|fuel]; [cbn in Hf; lia|]. destruct Hok as [Hu Hok]. cbn [numbered] in Hq.
  destruct (holds_pop_cons _ _ _ Hq) as (q1 & Hpop & Hq1 & _). unfold pop in Hpop.
  cbn [ss_drain]. destruct (getNextToRead _) as [i|]; [|done].
  destruct (read_slot i _) as [d|]; [|done].
  destruct (updateReadIndex q) as [q'|] eqn:Hur; [|done].
  cbn in Hpop. injection Hpop as -> ->.
  destruct (addToSnapshot_spec ss v u Hr Hu) as (ss1 & -> & Hr1 & Hl1 & Hps1 & Hs1 & Hrun1).
  cbn [mbind result_bind]. rewrite <- Hl1 in Hq1. rewrite <- Hps1 in Hok.
  destruct (IH fuel q1 ss1 _ Hq1 Hr1 Hok) as (q2 & ss2 & Hr2 & Hq2 & Hrep2 & Hl2 & Hs2 & Hrun2 & Hps2); [cbn in Hf; lia|].
  exists q2, ss2. split_and!; [exact Hr2|done|exact Hrep2| |congruence..].
  rewrite Hl2. cbn [foldl]. by rewrite Hl1.
Qed.

(** The synthesizer shows [v] and waits for the update number [n]. *)
Record synthesizer_ready (n : Z) ss v : Prop := {
  sy_running : ss_run_ ss = true;
  sy_shows : snap_rep ss v;
  sy_number : n = u64 (last_inc_seq_num_ ss + 1);
  sy_outbound : mc_outbound_data_ (snapshot_socket_ ss) = [];
  sy_pool : pool_size (ss_order_pool_ ss) = Z.to_nat ME_MAX_ORDER_IDS
}.

(** One iteration of its loop, whether it publishes a snapshot or not. *)
Lemma ss_round us q n ss v (now1 now2 : Z) :
  synthesizer_ready n ss v → holds q (numbered mkMDPMarketUpdate n us) → snap_oks (Z.to_nat ME_MAX_ORDER_IDS) us v →
  (42 * (2 + length v) < McastBufferSize)%nat →
  ∃ q' ss' out, ss_run_round now1 now2 q ss = Ok (q', ss', out) ∧ holds q' [] ∧
    synthesizer_ready (advance n us) ss' (apply_mds us v).
Proof.
  intros [Hrun Hrep -> Hout Hps] Hq Hok Hroom. rewrite <- Hps in Hok. unfold ss_run_round. rewrite Hrun, (holds_size _ _ Hq), length_numbered.
  destruct (ss_drain_spec us (length us) q ss v Hq Hrep Hok) as (q' & ss1 & -> & Hq' & Hrep1 & Hl1 & Hs1 & Hrun1 & Hps1); [done|].
  cbn [mbind result_bind].
  assert (advance (u64 (last_inc_seq_num_ ss + 1)) us = u64 (last_inc_seq_num_ ss1 + 1)) as Hn.
  { rewrite Hl1. generalize (last_inc_seq_num_ ss). clear. induction us as [|u us IH]; intros n; [done|]. cbn [advance foldl]. apply IH. }
  assert (synthesizer_ready (advance (u64 (last_inc_seq_num_ ss + 1)) us) ss1 (apply_mds us v)) as Hr1
    by (constructor; congruence).
  destruct (_ <? _); [|by eexists _, _, _]. set (ss2 := mkSnapshotSynthesizer _ _ _ _ _ _).
  assert (synthesizer_ready (advance (u64 (last_inc_seq_num_ ss + 1)) us) ss2 (apply_mds us v)) as Hr2.
  { destruct Hr1 as [? [] ? ? ?]. by constructor. }
  destruct (publishSnapshot_spec ss2 (apply_mds us v)) as (s & out & -> & Hs & _); [apply Hr2|apply Hr2|by rewrite length_apply_mds|].
  cbn [mbind result_bind mret result_ret fst snd]. do 3 eexists. split; [reflexivity|]. split; [done|].
  destruct Hr2 as [? [] ? ? ?]. by constructor.
Qed.

Lemma snap_rep_new fd ss :
  (0 < Z.to_nat ME_MAX_ORDER_IDS)%nat → SnapshotSynthesizer_new fd = Ok ss →
  snap_rep ss (replicate (Z.to_nat ME_MAX_TICKERS) ∅) ∧ last_inc_seq_num_ ss = 0.
Proof.
  intros Hn. unfold SnapshotSynthesizer_new. destruct (0 <=? fd); [|done]. intros Heq. injection Heq as <-.
  split; [|done]. constructor; cbn [ticker_orders_ ss_order_pool_].
  - by rewrite !length_replicate.
  - apply Forall_replicate. apply length_replicate.
  - intros t m i p [-> _]%lookup_replicate Hp. unfold slot in Hp. cbn in Hp.
    destruct (replicate _ _ !! t) as [os|] eqn:Hos; [|done].
    apply lookup_replicate in Hos as [-> _]. cbn in Hp. apply lookup_replicate in Hp as [-> _]. done.
  - apply Forall_replicate. intros i Hi. rewrite lookup_empty in Hi. by destruct Hi.
  - by apply MemPool_new_wf.
  - rewrite MemPool_new_heap, map_size_empty. unfold live_count.
    induction (Z.to_nat ME_MAX_TICKERS) as [|k IH]; [done|]. cbn. by rewrite <- IH.
Qed.
End publishing.

(** C23: the snapshot is the replay of the stream.  Fed the updates that follow the last one it has
    seen, each an ADD of an order not shown or a MODIFY, a CANCEL or a TRADE of one that is, the
    synthesizer empties its queue without a fault, and its tables then hold exactly the orders
    that replaying the updates gives. *)
Theorem snapshot_tracks_stream `{Limits, BufferSizes} us q ss v :
  holds q (numbered mkMDPMarketUpdate (u64 (last_inc_seq_num_ ss + 1)) us) → snap_rep ss v →
  snap_oks (pool_size (ss_order_pool_ ss)) us v →
  ∃ q' ss', ss_drain (q_size q) q ss = Ok (q', ss') ∧ holds q' [] ∧ snap_rep ss' (apply_mds us v).
Proof.
  intros Hq Hr Hok. rewrite (holds_size _ _ Hq), length_numbered.
  destruct (ss_drain_spec us (length us) q ss v Hq Hr Hok) as (q' & ss' & ? & ? & ? & _); [done|].
  by exists q', ss'.
Qed.

(** C24: what a snapshot cycle sends.  The datagrams of one cycle carry, numbered from 0, a
    SNAPSHOT_START, for each ticker a CLEAR and its live orders by ascending id, and a
    SNAPSHOT_END; a client that applies them, whatever it showed before, shows exactly the live
    orders. *)
Theorem snapshot_published `{Limits, BufferSizes} ss v w :
  snap_rep ss v → mc_outbound_data_ (snapshot_socket_ ss) = [] →
  (42 * (2 + length v) < McastBufferSize)%nat → length w = length v →
  let us := snapshot_cycle (Z.to_nat ME_MAX_ORDER_IDS) (last_inc_seq_num_ ss) v in
  ∃ ss' out, publishSnapshot ss = Ok (ss', out) ∧ snap_rep ss' v ∧
    concat out = stream (numbered mkMDPMarketUpdate 0 us) ∧ apply_mds us w = v.
Proof.
  intros Hr Hout Hroom Hlen us.
  destruct (publishSnapshot_spec ss v Hr Hout Hroom) as (s & out & Hp & _ & Hb).
  exists (set_snapshot_socket s ss), out. split_and!; [done| |exact Hb|].
  - destruct Hr. by constructor.
  - unfold us, snapshot_cycle. change (?a :: ?l ++ ?l') with ([a] ++ l ++ l').
    rewrite !apply_mds_app. unfold apply_mds at 3. cbn [foldl]. rewrite apply_mark by tauto.
    rewrite (apply_snapshot_body _ [] v w); [|apply Hr|done]. cbn [app].
    unfold apply_mds. cbn [foldl]. apply apply_mark. tauto.
Qed.

(** The synthesizer refuses a gap: an update of a known ticker that changes no order and does
    not carry the number after the last one stops it. *)
Theorem addToSnapshot_gap `{Limits, BufferSizes} ss mu :
  is_Some (ticker_orders_ ss !! Z.to_nat (upd_ticker_id_ (me_market_update_ mu))) →
  upd_type_ (me_market_update_ mu) = MarketUpdateType_TRADE →
  mdp_seq_num_ mu ≠ u64 (last_inc_seq_num_ ss + 1) → addToSnapshot mu ss = Err AssertFailed.
Proof.
  intros [os Hos] Ht Hne. unfold addToSnapshot, at_. rewrite Hos, Ht. cbn.
  rewrite (proj2 (Z.eqb_neq _ _)) by done. done.
Qed.
