(* ===== verification/MarketDataPublisher.v ===== *)
(** * The market data publisher (exchange/market_data/market_data_publisher.h and .cpp)

    The snapshot synthesizer that the publisher owns runs in its own thread (SnapshotSynthesizer.v)
    and shares the queue [snapshot_md_updates_]. *)
From S2P Require Import Prelude Types LFQueue BookReplay Wire Socket RecvFrames MarketStream.
From S2P Require Import SnapshotSynthesizer MemPool.
Record MarketDataPublisher := mkMarketDataPublisher {
  next_inc_seq_num_ : Z;
  mdp_outgoing_md_updates_ : LFQueue MEMarketUpdate;
  snapshot_md_updates_ : LFQueue MDPMarketUpdate;
  mdp_run_ : bool;
  incremental_socket_ : McastSocket
}.

Section publisher.
Context `{Limits, BufferSizes}.
Implicit Types (p : MarketDataPublisher).

(** The constructor: the descriptors of the incremental socket and of the synthesizer's. *)
Definition MarketDataPublisher_new (market_updates : LFQueue MEMarketUpdate) (fd snapshot_fd : Z) :
    result (MarketDataPublisher * SnapshotSynthesizer) :=
  if 0 <=? fd then
    ss ← SnapshotSynthesizer_new snapshot_fd;
    mret (mkMarketDataPublisher 1 market_updates
            (LFQueue_new (Z.to_nat ME_MAX_MARKET_UPDATES) MDPMarketUpdate_default) false
            (mcast_init fd McastSocket_new), ss)
  else Err AssertFailed.

Definition mdp_set_run (b : bool) p : MarketDataPublisher :=
  mkMarketDataPublisher (next_inc_seq_num_ p) (mdp_outgoing_md_updates_ p) (snapshot_md_updates_ p) b
    (incremental_socket_ p).

Definition mdp_start (thread_ok ss_thread_ok : bool) p (ss : SnapshotSynthesizer) :
    result (MarketDataPublisher * SnapshotSynthesizer) :=
  if thread_ok then ss ← ss_start ss_thread_ok ss; mret (mdp_set_run true p, ss) else Err AssertFailed.

Definition mdp_stop p (ss : SnapshotSynthesizer) : MarketDataPublisher * SnapshotSynthesizer :=
  (mdp_set_run false p, ss_stop ss).

(** The body of the loop over the queue, on the slot [i].  The read index moves before the update
    is read for the second time, through the same pointer. *)
Definition publish_one (i : nat) p : result MarketDataPublisher :=
  match read_slot i (mdp_outgoing_md_updates_ p) with
  | None => Err WildDeref
  | Some market_update =>
      s ← mcast_send (le 8 (next_inc_seq_num_ p)) (incremental_socket_ p);
      s ← mcast_send (encode market_update) s;
      q ← updateReadIndex (mdp_outgoing_md_updates_ p);
      match read_slot i q with
      | None => Err WildDeref
      | Some market_update =>
          mret (mkMarketDataPublisher (u64 (next_inc_seq_num_ p + 1)) q
                  (push (mkMDPMarketUpdate (next_inc_seq_num_ p) market_update) (snapshot_md_updates_ p))
                  (mdp_run_ p) s)
      end
  end.

Fixpoint mdp_drain (fuel : nat) p : result MarketDataPublisher :=
  match getNextToRead (mdp_outgoing_md_updates_ p) with
  | None => Ok p
  | Some i =>
      match fuel with
      | O => Err Diverges
      | S fuel => p ← publish_one i p; mdp_drain fuel p
      end
  end.

(** One iteration of the loop of run: the datagram that goes out, if any. *)
Definition mdp_run_round p : result (MarketDataPublisher * list (list Z)) :=
  if mdp_run_ p then
    p ← mdp_drain (q_size (mdp_outgoing_md_updates_ p)) p;
    x ← mcast_flush (incremental_socket_ p) [];
    mret (mkMarketDataPublisher (next_inc_seq_num_ p) (mdp_outgoing_md_updates_ p)
            (snapshot_md_updates_ p) (mdp_run_ p) x.1, x.2)
  else Ok (p, []).

Lemma mcast_send_ok data s :
  (length (mc_outbound_data_ s) + length data < McastBufferSize)%nat →
  mcast_send data s = Ok (mkMcastSocket (mc_socket_fd_ s) (mc_outbound_data_ s ++ data) (mc_inbound_data_ s)).
Proof.
  intros Hle. unfold mcast_send. by rewrite (proj2 (Nat.ltb_lt _ _)) by (rewrite length_app; lia).
Qed.

Lemma read_after_pop {T} (q q' : LFQueue T) i v :
  read_slot i q = Some v → updateReadIndex q = Ok q' → read_slot i q' = Some v.
Proof. unfold updateReadIndex, read_slot. destruct (_ =? _)%nat; [done|]. intros Hv Heq. injection Heq as <-. done. Qed.

Lemma mdp_drain_spec us fuel p l :
  holds (mdp_outgoing_md_updates_ p) us → holds (snapshot_md_updates_ p) l →
  (length l + length us ≤ capacity (snapshot_md_updates_ p))%nat →
  (length (mc_outbound_data_ (incremental_socket_ p)) + 42 * length us < McastBufferSize)%nat →
  (length us ≤ fuel)%nat →
  let ms := numbered mkMDPMarketUpdate (next_inc_seq_num_ p) us in
  ∃ p', mdp_drain fuel p = Ok p' ∧ holds (mdp_outgoing_md_updates_ p') [] ∧
    holds (snapshot_md_updates_ p') (l ++ ms) ∧ next_inc_seq_num_ p' = advance (next_inc_seq_num_ p) us ∧
    mc_outbound_data_ (incremental_socket_ p') = mc_outbound_data_ (incremental_socket_ p) ++ stream ms ∧
    mdp_run_ p' = mdp_run_ p.
Proof.
  cbv zeta. revert fuel p l. induction us as [|u us IH]; intros fuel p l Hq Hs Hroom Hbuf Hf.
  { exists p. pose proof (holds_pop_nil _ Hq) as Hp. unfold pop in Hp.
    replace (mdp_drain fuel p) with (Ok p); [cbn; by rewrite !app_nil_r|].
    destruct fuel; cbn [mdp_drain]; destruct (getNextToRead _) as [i|]; try done.
    all: destruct (read_slot i _); try done; by destruct (updateReadIndex _). }
  destruct fuel as [|fuel]; [cbn in Hf; lia|]. cbn [length] in *.
  destruct (holds_pop_cons _ _ _ Hq) as (q1 & Hpop & Hq1 & _). unfold pop in Hpop.
  cbn [mdp_drain]. destruct (getNextToRead _) as [i|]; [|done]. unfold publish_one.
  destruct (read_slot i _) as [d|] eqn:Hrd; [|done].
  destruct (updateReadIndex _) as [q'|] eqn:Hur; [|done].
  cbn in Hpop. injection Hpop as -> ->.
  rewrite mcast_send_ok by (rewrite length_le; lia). cbn [mbind result_bind].
  rewrite mcast_send_ok by (cbn [mc_outbound_data_]; rewrite length_app, length_le, length_encode;
    cbn [wire_size wire_update]; lia).
  cbn [mbind result_bind]. rewrite (read_after_pop _ _ _ _ Hrd Hur). cbn [mret result_ret mc_socket_fd_ mc_inbound_data_ mc_outbound_data_].
  set (m := mkMDPMarketUpdate (next_inc_seq_num_ p) u).
  set (p1 := mkMarketDataPublisher _ _ _ _ _).
  destruct (IH fuel p1 (l ++ [m])) as (p2 & Hr2 & Hq2 & Hs2 & Hn2 & Hb2 & Hrun2).
  - done.
  - apply holds_push; [done|lia].
  - unfold p1. cbn [snapshot_md_updates_]. rewrite capacity_push, length_app. cbn [length]. lia.
  - unfold p1. cbn [incremental_socket_ mc_outbound_data_].
    rewrite !length_app, length_le, length_encode. cbn [wire_size wire_update]. lia.
  - lia.
  - exists p2. split_and!; [exact Hr2|done| |done| |done].
    + rewrite <- app_assoc in Hs2. exact Hs2.
    + rewrite Hb2. unfold p1. cbn [incremental_socket_ mc_outbound_data_ next_inc_seq_num_ numbered].
      change (stream (?a :: ?b)) with (encode a ++ stream b).
      change (encode (mkMDPMarketUpdate (next_inc_seq_num_ p) u)) with (le 8 (next_inc_seq_num_ p) ++ encode u).
      by rewrite <- !app_assoc.
Qed.
(** One iteration of the loop. *)
Lemma mdp_round us p l :
  mdp_run_ p = true → holds (mdp_outgoing_md_updates_ p) us → holds (snapshot_md_updates_ p) l →
  (length l + length us ≤ capacity (snapshot_md_updates_ p))%nat →
  mc_outbound_data_ (incremental_socket_ p) = [] → (42 * length us < McastBufferSize)%nat →
  let ms := numbered mkMDPMarketUpdate (next_inc_seq_num_ p) us in
  ∃ p', mdp_run_round p = Ok (p', match us with [] => [] | _ => [stream ms] end) ∧
    holds (mdp_outgoing_md_updates_ p') [] ∧ holds (snapshot_md_updates_ p') (l ++ ms) ∧
    next_inc_seq_num_ p' = advance (next_inc_seq_num_ p) us ∧
    mc_outbound_data_ (incremental_socket_ p') = [] ∧ mdp_run_ p' = true.
Proof.
  intros Hrun Hq Hs Hroom Hout Hbuf ms. unfold mdp_run_round. rewrite Hrun, (holds_size _ _ Hq).
  destruct (mdp_drain_spec us (length us) p l Hq Hs Hroom) as (p1 & -> & Hq1 & Hs1 & Hn1 & Hb1 & Hrun1);
    [rewrite Hout; cbn; lia|done|].
  rewrite Hout in Hb1. cbn [app] in Hb1. fold ms in Hb1, Hs1. cbn [mbind result_bind].
  unfold mcast_flush, mcast_sendAndRecv. cbn. rewrite Hb1. subst ms.
  destruct us as [|u us]; eexists; (split; [done|]); split_and!; try done; cbn; congruence.
Qed.
End publisher.

(** The publisher forwards every update of the matching engine once to each side.  One
    iteration of its loop empties the queue, sends the updates in order, behind consecutive
    sequence numbers, in one datagram on the incremental stream, and hands the same numbered
    updates to the snapshot synthesizer. *)
Theorem publisher_forwards `{Limits, BufferSizes} p us l :
  mdp_run_ p = true → holds (mdp_outgoing_md_updates_ p) us → holds (snapshot_md_updates_ p) l →
  (length l + length us ≤ capacity (snapshot_md_updates_ p))%nat →
  mc_outbound_data_ (incremental_socket_ p) = [] → (42 * length us < McastBufferSize)%nat →
  let ms := numbered mkMDPMarketUpdate (next_inc_seq_num_ p) us in
  ∃ p' out, mdp_run_round p = Ok (p', out) ∧ concat out = stream ms ∧ (length out ≤ 1)%nat ∧
    holds (mdp_outgoing_md_updates_ p') [] ∧ holds (snapshot_md_updates_ p') (l ++ ms) ∧
    next_inc_seq_num_ p' = advance (next_inc_seq_num_ p) us ∧
    mc_outbound_data_ (incremental_socket_ p') = [].
Proof.
  intros Hrun Hq Hs Hroom Hout Hbuf ms.
  destruct (mdp_round us p l Hrun Hq Hs Hroom Hout Hbuf) as (p' & Hr & ? & ? & ? & ? & _).
  eexists p', _. split; [exact Hr|]. subst ms. destruct us; split_and!; try done; cbn; try lia. by rewrite app_nil_r.
Qed.
