(* ===== verification/MarketDataConsumer.v ===== *)
(** * The market data consumer (trading/market_data/market_data_consumer.h and .cpp)

    recvCallback compares descriptors to tell the two streams apart, and closes or opens the
    snapshot socket while it runs on one of the two: the sockets are fields of the state, and the
    callback is told which of them it is called for.  What createSocket and join return is the
    list [kernel_], one element per call of startSnapshotSync; an exhausted list is a failure.
    The benchmark observers are not modelled. *)
From S2P Require Import Prelude Types LFQueue Wire Socket BookReplay RecvFrames.
From S2P Require Import MarketStream.
(** ** std::map with integer keys

    The container iterates by ascending key, which the consumer relies on: a list of pairs with
    strictly ascending keys. *)
Section ordered_map.
Context {V : Type}.
Implicit Types (l : list (Z * V)) (k : Z) (v : V).

(** operator[] and assignment. *)
Fixpoint om_set k v l : list (Z * V) :=
  match l with
  | [] => [(k, v)]
  | (k', v') :: l' =>
      if k <? k' then (k, v) :: l
      else if k =? k' then (k, v) :: l'
      else (k', v') :: om_set k v l'
  end.

Fixpoint om_find k l : option V :=
  match l with [] => None | (k', v) :: l => if k =? k' then Some v else om_find k l end.

Definition om_sorted l : Prop := StronglySorted Z.lt l.*1.

Lemma om_set_elem k v l k' v' :
  (k', v') ∈ om_set k v l → (k' = k ∧ v' = v) ∨ (k', v') ∈ l.
Proof.
  induction l as [|[k1 v1] l IH]; cbn [om_set]; [set_solver|].
  destruct (k <? k1); [set_solver|]. destruct (k =? k1); set_solver.
Qed.

Lemma om_set_keys k v l k' : k' ∈ (om_set k v l).*1 → k' = k ∨ k' ∈ l.*1.
Proof.
  intros ([k1 v1] & -> & Hin)%list_elem_of_fmap. apply om_set_elem in Hin as [[-> _]|Hin]; [by left|].
  right. apply list_elem_of_fmap. by exists (k1, v1).
Qed.

Lemma om_set_sorted k v l : om_sorted l → om_sorted (om_set k v l).
Proof.
  unfold om_sorted. induction l as [|[k1 v1] l IH]; intros Hs; cbn [om_set].
  - repeat constructor.
  - cbn in Hs. apply StronglySorted_inv in Hs as [Hs Hf]. destruct (Z.ltb_spec k k1).
    + cbn. constructor; [by constructor|]. constructor; [done|].
      eapply Forall_impl; [exact Hf|]. intros x Hx. cbn in Hx. lia.
    + destruct (Z.eqb_spec k k1) as [->|Hne]; cbn; constructor; auto.
      apply Forall_forall. intros x Hx%om_set_keys. rewrite Forall_forall in Hf.
      destruct Hx as [->|Hx]; [lia|by apply Hf].
Qed.

Lemma om_find_elem k l : is_Some (om_find k l) ↔ k ∈ l.*1.
Proof.
  induction l as [|[k1 v1] l IH]; cbn [om_find fmap list_fmap fst].
  - split; [by intros []|set_solver].
  - destruct (Z.eqb_spec k k1) as [->|Hne]; [split; [set_solver|by eexists]|].
    rewrite IH. set_solver.
Qed.

Lemma om_find_Some k v l : om_find k l = Some v → (k, v) ∈ l.
Proof.
  induction l as [|[k1 v1] l IH]; cbn [om_find]; [done|].
  destruct (Z.eqb_spec k k1) as [->|Hne]; [intros [= ->]; set_solver|set_solver].
Qed.

(** Keys that count up from [n] are the first ones from [n]. *)
Lemma sorted_cons_lt k v l : om_sorted ((k, v) :: l) → om_sorted l ∧ ∀ k', k' ∈ l.*1 → k < k'.
Proof.
  intros Hs. apply StronglySorted_inv in Hs as [Hs Hf]. rewrite Forall_forall in Hf. by split.
Qed.
End ordered_map.

(** ** The consumer *)
Record MarketDataConsumer := mkMarketDataConsumer {
  next_exp_inc_seq_num_ : Z;
  incoming_md_updates_ : LFQueue MEMarketUpdate;
  mdc_run_ : bool;
  incremental_mcast_socket_ : McastSocket;
  snapshot_mcast_socket_ : McastSocket;
  in_recovery_ : bool;
  snapshot_queued_msgs_ : list (Z * MEMarketUpdate);
  incremental_queued_msgs_ : list (Z * MEMarketUpdate);
  kernel_ : list (Z * bool)
}.

Definition set_queues (snap inc : list (Z * MEMarketUpdate)) (c : MarketDataConsumer) : MarketDataConsumer :=
  mkMarketDataConsumer (next_exp_inc_seq_num_ c) (incoming_md_updates_ c) (mdc_run_ c)
    (incremental_mcast_socket_ c) (snapshot_mcast_socket_ c) (in_recovery_ c) snap inc (kernel_ c).
Definition set_recovery (b : bool) (c : MarketDataConsumer) : MarketDataConsumer :=
  mkMarketDataConsumer (next_exp_inc_seq_num_ c) (incoming_md_updates_ c) (mdc_run_ c)
    (incremental_mcast_socket_ c) (snapshot_mcast_socket_ c) b (snapshot_queued_msgs_ c)
    (incremental_queued_msgs_ c) (kernel_ c).
Definition set_next_inc (n : Z) (q : LFQueue MEMarketUpdate) (c : MarketDataConsumer) : MarketDataConsumer :=
  mkMarketDataConsumer n q (mdc_run_ c) (incremental_mcast_socket_ c) (snapshot_mcast_socket_ c)
    (in_recovery_ c) (snapshot_queued_msgs_ c) (incremental_queued_msgs_ c) (kernel_ c).
Definition set_snap_socket (s : McastSocket) (k : list (Z * bool)) (c : MarketDataConsumer) :
    MarketDataConsumer :=
  mkMarketDataConsumer (next_exp_inc_seq_num_ c) (incoming_md_updates_ c) (mdc_run_ c)
    (incremental_mcast_socket_ c) s (in_recovery_ c) (snapshot_queued_msgs_ c)
    (incremental_queued_msgs_ c) k.
Definition set_inc_socket (s : McastSocket) (c : MarketDataConsumer) : MarketDataConsumer :=
  mkMarketDataConsumer (next_exp_inc_seq_num_ c) (incoming_md_updates_ c) (mdc_run_ c) s
    (snapshot_mcast_socket_ c) (in_recovery_ c) (snapshot_queued_msgs_ c)
    (incremental_queued_msgs_ c) (kernel_ c).

Section consumer.
Context `{BufferSizes}.
Implicit Types (c : MarketDataConsumer).

(** The constructor: the descriptor of the incremental socket and the result of join. *)
Definition MarketDataConsumer_new (market_updates : LFQueue MEMarketUpdate) (fd : Z) (join_ok : bool)
    (kernel : list (Z * bool)) : result MarketDataConsumer :=
  if (0 <=? fd) && join_ok then
    Ok (mkMarketDataConsumer 1 market_updates false (mcast_init fd McastSocket_new) McastSocket_new
          false [] [] kernel)
  else Err AssertFailed.

Definition mdc_set_run (b : bool) c : MarketDataConsumer :=
  mkMarketDataConsumer (next_exp_inc_seq_num_ c) (incoming_md_updates_ c) b
    (incremental_mcast_socket_ c) (snapshot_mcast_socket_ c) (in_recovery_ c)
    (snapshot_queued_msgs_ c) (incremental_queued_msgs_ c) (kernel_ c).

Definition mdc_start (thread_ok : bool) c : result MarketDataConsumer :=
  if thread_ok then Ok (mdc_set_run true c) else Err AssertFailed.
Definition mdc_stop c : MarketDataConsumer := mdc_set_run false c.

Definition startSnapshotSync c : result MarketDataConsumer :=
  let c := set_queues [] [] c in
  match kernel_ c with
  | (fd, join_ok) :: k =>
      if (0 <=? fd) && join_ok then Ok (set_snap_socket (mcast_init fd (snapshot_mcast_socket_ c)) k c)
      else Err AssertFailed
  | [] => Err AssertFailed
  end.

Definition is_mark (u : MEMarketUpdate) : bool :=
  bool_decide (upd_type_ u = MarketUpdateType_SNAPSHOT_START ∨ upd_type_ u = MarketUpdateType_SNAPSHOT_END).

(** The loop over the snapshot messages: the events, or [None] on a gap. *)
Fixpoint scan_snapshot (next_snapshot_seq : Z) (msgs : list (Z * MEMarketUpdate))
    (final_events : list MEMarketUpdate) : option (list MEMarketUpdate) :=
  match msgs with
  | [] => Some final_events
  | (seq, u) :: msgs =>
      if seq =? next_snapshot_seq then
        scan_snapshot (u64 (next_snapshot_seq + 1)) msgs
          (if is_mark u then final_events else final_events ++ [u])
      else None
  end.

(** The loop over the incremental messages: whether there was no gap, the number expected next,
    and the events. *)
Fixpoint scan_incremental (next_exp : Z) (msgs : list (Z * MEMarketUpdate))
    (final_events : list MEMarketUpdate) : bool * Z * list MEMarketUpdate :=
  match msgs with
  | [] => (true, next_exp, final_events)
  | (seq, u) :: msgs =>
      if seq <? next_exp then scan_incremental next_exp msgs final_events
      else if negb (seq =? next_exp) then (false, next_exp, final_events)
      else scan_incremental (u64 (next_exp + 1)) msgs
             (if is_mark u then final_events else final_events ++ [u])
  end.

Definition checkSnapshotSync c : MarketDataConsumer :=
  let clear_snapshot c := set_queues [] (incremental_queued_msgs_ c) c in
  match snapshot_queued_msgs_ c, last (snapshot_queued_msgs_ c) with
  | (_, first_snapshot_msg) :: _, Some (_, last_snapshot_msg) =>
      if decide (upd_type_ first_snapshot_msg ≠ MarketUpdateType_SNAPSHOT_START) then clear_snapshot c
      else
        match scan_snapshot 0 (snapshot_queued_msgs_ c) [] with
        | None => clear_snapshot c
        | Some final_events =>
            if decide (upd_type_ last_snapshot_msg ≠ MarketUpdateType_SNAPSHOT_END) then c
            else
              let '(have_complete_incremental, next_exp, final_events) :=
                scan_incremental (u64 (upd_order_id_ last_snapshot_msg + 1))
                  (incremental_queued_msgs_ c) final_events in
              let c := set_next_inc next_exp (incoming_md_updates_ c) c in
              if have_complete_incremental : bool then
                let c := set_next_inc next_exp (push_all final_events (incoming_md_updates_ c)) c in
                set_snap_socket (mcast_leave (snapshot_mcast_socket_ c)) (kernel_ c)
                  (set_recovery false (set_queues [] [] c))
              else clear_snapshot c
        end
  | _, _ => c
  end.

Definition queueMessage (is_snapshot : bool) (request : MDPMarketUpdate) c : MarketDataConsumer :=
  let seq := mdp_seq_num_ request in
  let c :=
    if is_snapshot then
      let msgs := match om_find seq (snapshot_queued_msgs_ c) with
                  | Some _ => []
                  | None => snapshot_queued_msgs_ c
                  end in
      set_queues (om_set seq (me_market_update_ request) msgs) (incremental_queued_msgs_ c) c
    else
      set_queues (snapshot_queued_msgs_ c)
        (om_set seq (me_market_update_ request) (incremental_queued_msgs_ c)) c in
  checkSnapshotSync c.

(** The body of recvCallback's loop, for one message. *)
Definition on_message (is_snapshot : bool) (request : MDPMarketUpdate) c : result MarketDataConsumer :=
  let already_in_recovery := in_recovery_ c in
  let in_recovery := already_in_recovery || negb (mdp_seq_num_ request =? next_exp_inc_seq_num_ c) in
  let c := set_recovery in_recovery c in
  if in_recovery then
    c ← (if already_in_recovery then Ok c else startSnapshotSync c);
    mret (queueMessage is_snapshot request c)
  else if negb is_snapshot then
    Ok (set_next_inc (u64 (next_exp_inc_seq_num_ c + 1))
          (push (me_market_update_ request) (incoming_md_updates_ c)) c)
  else Ok c.

Fixpoint on_messages (is_snapshot : bool) (ms : list MDPMarketUpdate) c : result MarketDataConsumer :=
  match ms with
  | [] => Ok c
  | m :: ms => c ← on_message is_snapshot m c; on_messages is_snapshot ms c
  end.

(** Which member the callback was called for. *)
Inductive stream_socket := IncrementalSocket | SnapshotSocket.

Definition socket_of (k : stream_socket) c : McastSocket :=
  match k with
  | IncrementalSocket => incremental_mcast_socket_ c
  | SnapshotSocket => snapshot_mcast_socket_ c
  end.
Definition set_socket_of (k : stream_socket) (s : McastSocket) c : MarketDataConsumer :=
  match k with
  | IncrementalSocket => set_inc_socket s c
  | SnapshotSocket => set_snap_socket s (kernel_ c) c
  end.

Definition set_mc_inbound (bs : list Z) (s : McastSocket) : McastSocket :=
  mkMcastSocket (mc_socket_fd_ s) (mc_outbound_data_ s) bs.

Definition mdc_recvCallback (k : stream_socket) c : result MarketDataConsumer :=
  let is_snapshot := mc_socket_fd_ (socket_of k c) =? mc_socket_fd_ (snapshot_mcast_socket_ c) in
  if is_snapshot && negb (in_recovery_ c) then
    Ok (set_socket_of k (set_mc_inbound [] (socket_of k c)) c)
  else if (wire_size (A := MDPMarketUpdate) <=? length (mc_inbound_data_ (socket_of k c)))%nat then
    let '(ms, rest) := frames (mc_inbound_data_ (socket_of k c)) in
    c ← on_messages is_snapshot ms c;
    mret (set_socket_of k (set_mc_inbound rest (socket_of k c)) c)
  else Ok c.

(** sendAndRecv of one of the sockets, whose callback works on the socket in place. *)
Definition poll_stream (k : stream_socket) (r : recv_result) c : result MarketDataConsumer :=
  match mcast_sendAndRecv (λ s c, c ← mdc_recvCallback k (set_socket_of k s c); mret (socket_of k c, c))
          r (socket_of k c) c with
  | Ok (s, c, _, _) => Ok (set_socket_of k s c)
  | Err e => Err e
  end.

(** One iteration of the loop of run. *)
Definition mdc_run_round (r1 r2 : recv_result) c : result MarketDataConsumer :=
  if mdc_run_ c then
    c ← poll_stream IncrementalSocket r1 c; poll_stream SnapshotSocket r2 c
  else Ok c.
End consumer.

(** ** Against the streams of the exchange

    [U] is what the exchange publishes on the incremental stream, the update number [n] at index
    [n - 1]; [v0] is the view before; a snapshot cycle shows the view after some prefix. *)
Section streams.
Context `{BufferSizes} (U : list MEMarketUpdate) (n_ids : nat) (v0 : view).
Implicit Types (c : MarketDataConsumer) (w : view) (cyc : list MEMarketUpdate).

Definition state_at (k : nat) : view := apply_mds (take k U) v0.

Definition cycle_of (k : nat) : list MEMarketUpdate := snapshot_cycle n_ids (Z.of_nat k) (state_at k).

(** The streams are as the exchange makes them: no mark on the incremental one, and the numbers of
    both do not wrap around. *)
Definition stream_ok : Prop :=
  Forall (λ u, is_mark u = false) U ∧ Z.of_nat (length U) + 1 < 2 ^ 64.

Definition cycle_ok (k : nat) : Prop :=
  (k ≤ length U)%nat ∧ view_below n_ids (state_at k) ∧ Z.of_nat (length (cycle_of k)) < 2 ^ 64.

(** The messages of the cycle [k], by sequence number. *)
Definition in_cycle (k : nat) (msg : Z * MEMarketUpdate) : Prop :=
  0 ≤ msg.1 ∧ cycle_of k !! Z.to_nat msg.1 = Some msg.2.

Definition in_stream (msg : Z * MEMarketUpdate) : Prop :=
  1 ≤ msg.1 ∧ U !! Z.to_nat (msg.1 - 1) = Some msg.2.

(** What a consumer knows, when a client has applied the updates it was handed and shows [w]. *)
Record mdc_inv c w : Prop := {
  mi_view : length w = length v0;
  mi_inc : Forall in_stream (incremental_queued_msgs_ c);
  mi_snap : in_recovery_ c = true → ∃ k, cycle_ok k ∧ Forall (in_cycle k) (snapshot_queued_msgs_ c);
  mi_sync : in_recovery_ c = false →
    ∃ k, (k ≤ length U)%nat ∧ next_exp_inc_seq_num_ c = Z.of_nat k + 1 ∧ w = state_at k
}.

(** A message that may arrive: any message of the incremental stream; any message of a cycle that
    the messages queued so far are from, or a second copy of a number that is queued. *)
Definition may_arrive (is_snapshot : bool) (m : MDPMarketUpdate) c : Prop :=
  let msg := (mdp_seq_num_ m, me_market_update_ m) in
  if is_snapshot then
    ∃ k, cycle_ok k ∧ in_cycle k msg ∧
      (in_recovery_ c = true → is_Some (om_find msg.1 (snapshot_queued_msgs_ c)) ∨
                               Forall (in_cycle k) (snapshot_queued_msgs_ c))
  else in_stream msg.

Lemma om_set_Forall (P : Z * MEMarketUpdate → Prop) k u l :
  Forall P l → P (k, u) → Forall P (om_set k u l).
Proof.
  rewrite !Forall_forall. intros Hl Hk [k' u'] Hin%om_set_elem.
  destruct Hin as [[-> ->]|Hin]; [done|by apply Hl].
Qed.

Lemma cycle_split k :
  cycle_of k = mark_update MarketUpdateType_SNAPSHOT_START (Z.of_nat k)
    :: snapshot_body n_ids 0 (state_at k) ++ [mark_update MarketUpdateType_SNAPSHOT_END (Z.of_nat k)].
Proof. done. Qed.

Lemma filter_body k :
  filter (λ u, is_mark u = false) (cycle_of k) = snapshot_body n_ids 0 (state_at k).
Proof.
  rewrite cycle_split, filter_cons_False by done. rewrite filter_app.
  rewrite (filter_cons_False _ (mark_update _ _)) by done. rewrite filter_nil, app_nil_r.
  apply filter_all. intros u Hu%snapshot_body_types.
  unfold is_mark. apply bool_decide_eq_false. intros [Ht|Ht]; rewrite Ht in Hu; by destruct Hu.
Qed.

(** The position of the SNAPSHOT_END. *)
Lemma cycle_end k i u :
  cycle_of k !! i = Some u → upd_type_ u = MarketUpdateType_SNAPSHOT_END →
  S i = length (cycle_of k) ∧ upd_order_id_ u = Z.of_nat k.
Proof.
  rewrite cycle_split. intros Hi Ht. destruct i as [|i]; [cbn in Hi; injection Hi as <-; done|].
  cbn in Hi. apply lookup_app_Some in Hi as [Hi|[Hge Hi]].
  - apply list_elem_of_lookup_2, snapshot_body_types in Hi. by destruct Hi; congruence.
  - apply list_lookup_singleton_Some in Hi as [Hi <-]. cbn. rewrite length_app. cbn. split; [lia|done].
Qed.

Lemma scan_snapshot_spec k msgs next evs r :
  cycle_ok k → Forall (in_cycle k) msgs → 0 ≤ next →
  scan_snapshot next msgs evs = Some r →
  msgs.*2 = take (length msgs) (drop (Z.to_nat next) (cycle_of k)) ∧
  r = evs ++ filter (λ u, is_mark u = false) msgs.*2.
Proof.
  intros (_ & _ & Hlen) Hin. revert next evs. induction Hin as [|[seq u] msgs [Hs Hu] _ IH]; intros next evs Hn.
  { cbn. intros [= <-]. by rewrite app_nil_r. }
  cbn [scan_snapshot]. cbn [fst snd] in Hs, Hu. destruct (Z.eqb_spec seq next) as [->|]; [|done].
  pose proof (lookup_lt_Some _ _ _ Hu) as Hlt.
  rewrite u64_small by (unfold is_u64; lia). intros Hsc. apply IH in Hsc as [Hm Hr]; [|lia].
  replace (Z.to_nat (next + 1)) with (S (Z.to_nat next)) in Hm by lia.
  cbn [fmap list_fmap fst snd length]. rewrite (drop_S _ _ _ Hu), firstn_cons, <- Hm. split; [done|].
  destruct (is_mark u) eqn:Hmk.
  - rewrite filter_cons_False by (by rewrite Hmk). exact Hr.
  - rewrite filter_cons_True by done. rewrite Hr, <- app_assoc. done.
Qed.

Lemma scan_incremental_spec msgs j evs :
  stream_ok → Forall in_stream msgs → (j ≤ length U)%nat →
  ∃ j', (j ≤ j' ≤ length U)%nat ∧
    (scan_incremental (Z.of_nat j + 1) msgs evs).1.2 = Z.of_nat j' + 1 ∧
    (scan_incremental (Z.of_nat j + 1) msgs evs).2 = evs ++ drop j (take j' U).
Proof.
  intros [Hmk Hlen] Hin. revert j evs. induction Hin as [|[seq u] msgs [Hs Hu] _ IH]; intros j evs Hj.
  { exists j. split; [lia|]. cbn. split; [done|]. rewrite drop_ge, app_nil_r; [done|]. rewrite length_take. lia. }
  cbn [scan_incremental]. cbn [fst snd] in Hs, Hu. destruct (Z.ltb_spec seq (Z.of_nat j + 1)); [by apply IH|].
  destruct (Z.eqb_spec seq (Z.of_nat j + 1)) as [->|]; cbn [negb].
  - replace (Z.to_nat (Z.of_nat j + 1 - 1)) with j in Hu by lia.
    pose proof (lookup_lt_Some _ _ _ Hu) as Hlt. rewrite u64_small by (unfold is_u64; lia).
    replace (Z.of_nat j + 1 + 1) with (Z.of_nat (S j) + 1) by lia.
    assert (is_mark u = false) as -> by (rewrite Forall_forall in Hmk; apply Hmk; by eapply list_elem_of_lookup_2).
    destruct (IH (S j) (evs ++ [u])) as (j' & Hj' & -> & ->); [lia|].
    exists j'. split; [lia|]. split; [done|]. rewrite <- app_assoc. f_equal.
    rewrite (drop_S (take j' U) u j); [done|]. rewrite lookup_take_lt by lia. done.
  - exists j. split; [lia|]. cbn. split; [done|]. rewrite drop_ge, app_nil_r; [done|]. rewrite length_take. lia.
Qed.

Lemma state_at_step k j :
  (k ≤ j)%nat → apply_mds (drop k (take j U)) (state_at k) = state_at j.
Proof.
  intros Hkj. unfold state_at. rewrite <- apply_mds_app.
  replace (take k U) with (take k (take j U)) by (rewrite take_take; f_equal; lia).
  by rewrite take_drop.
Qed.

(** The check of the queues: still recovering, or in step with the exchange. *)
Lemma checkSnapshotSync_spec c w k :
  stream_ok → cycle_ok k → length w = length v0 → in_recovery_ c = true →
  Forall in_stream (incremental_queued_msgs_ c) → Forall (in_cycle k) (snapshot_queued_msgs_ c) →
  ∃ evs, incoming_md_updates_ (checkSnapshotSync c) = push_all evs (incoming_md_updates_ c) ∧
    mdc_inv (checkSnapshotSync c) (apply_mds evs w).
Proof.
  intros Hst Hk Hw Hrec Hinc Hsnap.
  assert (∀ c1, in_recovery_ c1 = true → Forall in_stream (incremental_queued_msgs_ c1) →
    snapshot_queued_msgs_ c1 = [] ∨ snapshot_queued_msgs_ c1 = snapshot_queued_msgs_ c →
    mdc_inv c1 w) as Hstay.
  { intros c1 Hr1 Hi1 Hs1. constructor; [done|done| |by rewrite Hr1].
    intros _. exists k. split; [done|]. by destruct Hs1 as [->| ->]. }
  unfold checkSnapshotSync.
  destruct (snapshot_queued_msgs_ c) as [|[seq1 first] msgs] eqn:Hq; [exists []; split; [done|apply Hstay; [done|done|by left; rewrite Hq]]|].
  destruct (last _) as [[seqn lst]|] eqn:Hlast; [|by rewrite last_None in Hlast].
  destruct (decide _) as [_|_]; [exists []; split; [done|by apply Hstay; [..|left]]|].
  destruct (scan_snapshot 0 _ []) as [evs|] eqn:Hsc; [|exists []; split; [done|by apply Hstay; [..|left]]].
  destruct (decide _) as [_|Hend]; [exists []; split; [done|apply Hstay; [done|done|by right]]|].
  apply dec_stable in Hend.
  destruct (scan_snapshot_spec k _ 0 [] evs Hk Hsnap ltac:(lia) Hsc) as [Hm ->].
  change (Z.to_nat 0) with 0%nat in Hm. rewrite drop_0 in Hm. set (msgs1 := (seq1, first) :: msgs) in *.
  assert (cycle_of k !! (length msgs1 - 1)%nat = Some lst) as Hl.
  { rewrite last_lookup in Hlast. rewrite <- (lookup_take_lt _ (length msgs1)) by (unfold msgs1; cbn; lia).
    rewrite <- Hm, list_lookup_fmap. replace (length msgs1 - 1)%nat with (pred (length msgs1)) by lia.
    by rewrite Hlast. }
  destruct (cycle_end k _ _ Hl Hend) as [Hlen Hid].
  rewrite take_ge in Hm by (unfold msgs1 in *; cbn in *; lia).
  rewrite Hm, filter_body, Hid. cbn [app].
  destruct Hk as (Hkl & Hbelow & _). destruct Hst as [Hmk HlenU].
  rewrite u64_small by (unfold is_u64; lia).
  destruct (scan_incremental_spec (incremental_queued_msgs_ c) k (snapshot_body n_ids 0 (state_at k))
              (conj Hmk HlenU) Hinc Hkl) as (j & Hj & Hn & He).
  destruct (scan_incremental _ _ _) as [[ok n] evs]. cbn [fst snd] in Hn, He. subst n evs.
  destruct ok.
  - exists (snapshot_body n_ids 0 (state_at k) ++ drop k (take j U)). split; [done|].
    assert (apply_mds (snapshot_body n_ids 0 (state_at k) ++ drop k (take j U)) w = state_at j) as ->.
    { rewrite apply_mds_app. pose proof (apply_snapshot_body n_ids [] (state_at k) w) as Hb.
      cbn [app length] in Hb. rewrite Hb; [|done|unfold state_at; by rewrite length_apply_mds].
      apply state_at_step. lia. }
    constructor; [unfold state_at; by rewrite length_apply_mds|by constructor|done|].
    intros _. exists j. split_and!; [lia|done|done].
  - exists []. split; [done|]. by apply Hstay; [..|left].
Qed.

Lemma startSnapshotSync_spec c c1 :
  startSnapshotSync c = Ok c1 →
  in_recovery_ c1 = in_recovery_ c ∧ incoming_md_updates_ c1 = incoming_md_updates_ c ∧
  incremental_queued_msgs_ c1 = [] ∧ snapshot_queued_msgs_ c1 = [].
Proof.
  unfold startSnapshotSync. cbn. destruct (kernel_ c) as [|[fd ok] k]; [done|].
  destruct (_ && _); [|done]. intros Heq. injection Heq as <-. done.
Qed.

Lemma queueMessage_spec is_snapshot m c w k :
  stream_ok → cycle_ok k → length w = length v0 → in_recovery_ c = true →
  Forall in_stream (incremental_queued_msgs_ c) →
  (if is_snapshot : bool then in_cycle k (mdp_seq_num_ m, me_market_update_ m) ∧
     (is_Some (om_find (mdp_seq_num_ m) (snapshot_queued_msgs_ c)) ∨
      Forall (in_cycle k) (snapshot_queued_msgs_ c))
   else in_stream (mdp_seq_num_ m, me_market_update_ m) ∧ Forall (in_cycle k) (snapshot_queued_msgs_ c)) →
  ∃ evs, incoming_md_updates_ (queueMessage is_snapshot m c) = push_all evs (incoming_md_updates_ c) ∧
    mdc_inv (queueMessage is_snapshot m c) (apply_mds evs w).
Proof.
  intros Hst Hk Hw Hrec Hinc Hm. unfold queueMessage. destruct is_snapshot.
  - set (c1 := set_queues _ _ c). apply (checkSnapshotSync_spec c1 w k); try done.
    destruct Hm as [Hm Hq]. unfold c1. cbn [set_queues snapshot_queued_msgs_].
    apply om_set_Forall; [|done].
    destruct (om_find _ _) eqn:Hf; [constructor|]. by destruct Hq as [[? ?]|].
  - set (c1 := set_queues _ _ c). destruct Hm as [Hm Hq].
    apply (checkSnapshotSync_spec c1 w k); try done.
    unfold c1. cbn [set_queues incremental_queued_msgs_]. by apply om_set_Forall.
Qed.

(** One message keeps the invariant. *)
Lemma on_message_inv is_snapshot m c w c' :
  stream_ok → mdc_inv c w → may_arrive is_snapshot m c → cycle_ok 0 →
  on_message is_snapshot m c = Ok c' →
  ∃ evs, incoming_md_updates_ c' = push_all evs (incoming_md_updates_ c) ∧
    mdc_inv c' (apply_mds evs w).
Proof.
  intros Hst [Hw Hinc Hsnap Hsync] Harr Hk0. unfold on_message, may_arrive in *. cbv zeta in Harr.
  destruct (in_recovery_ c) eqn:Hrec; cbn [orb].
  - cbn [mbind result_bind]. intros Heq. injection Heq as <-. set (c1 := set_recovery true c).
    destruct (Hsnap eq_refl) as (k & Hk & Hq). destruct is_snapshot.
    + destruct Harr as (k' & Hk' & Hin & Hor). apply (queueMessage_spec true m c1 w k'); try done; by auto.
    + apply (queueMessage_spec false m c1 w k); done.
  - destruct (Hsync eq_refl) as (k & Hk & Hn & ->).
    destruct (Z.eqb_spec (mdp_seq_num_ m) (next_exp_inc_seq_num_ c)) as [Hseq|Hseq]; cbn [negb].
    + destruct is_snapshot; cbn [negb]; intros Heq; injection Heq as <-.
      * exists []. split; [done|]. by constructor.
      * exists [me_market_update_ m]. split; [done|]. destruct Harr as [Hpos Hu]. cbn [fst snd] in *.
        assert (Z.to_nat (mdp_seq_num_ m - 1) = k) as Hki by lia. rewrite Hki in Hu.
        pose proof (lookup_lt_Some _ _ _ Hu) as Hlt. destruct Hst as [_ HlenU].
        constructor; [by rewrite length_apply_mds|done|done|]. intros _. exists (S k). split_and!; [lia| |].
        -- cbn. rewrite Hn, u64_small by (unfold is_u64; lia). lia.
        -- unfold state_at. rewrite <- apply_mds_app. f_equal. by rewrite (take_S_r _ _ _ Hu).
    + destruct (startSnapshotSync (set_recovery true c)) as [c1|] eqn:Hs; [|done].
      cbn [mbind result_bind]. intros Heq. injection Heq as <-.
      apply startSnapshotSync_spec in Hs as (Hr1 & Hq1 & Hi1 & Hs1).
      change (incoming_md_updates_ (set_recovery true c)) with (incoming_md_updates_ c) in Hq1.
      rewrite <- Hq1. destruct is_snapshot.
      * destruct Harr as (k' & Hk' & Hin & _).
        apply (queueMessage_spec true m c1 (state_at k) k'); try done.
        -- by rewrite Hi1.
        -- split; [done|]. right. by rewrite Hs1.
      * apply (queueMessage_spec false m c1 (state_at k) 0); try done.
        -- by rewrite Hi1.
        -- split; [done|]. by rewrite Hs1.
Qed.

(** Any sequence of messages that may arrive, on either stream. *)
Fixpoint deliver (ms : list (bool * MDPMarketUpdate)) c : result MarketDataConsumer :=
  match ms with [] => Ok c | (b, m) :: ms => c ← on_message b m c; deliver ms c end.

Fixpoint may_deliver (ms : list (bool * MDPMarketUpdate)) c : Prop :=
  match ms with
  | [] => True
  | (b, m) :: ms => may_arrive b m c ∧ ∀ c', on_message b m c = Ok c' → may_deliver ms c'
  end.

Lemma deliver_inv ms c w c' :
  stream_ok → cycle_ok 0 → mdc_inv c w → may_deliver ms c → deliver ms c = Ok c' →
  ∃ evs, incoming_md_updates_ c' = push_all evs (incoming_md_updates_ c) ∧
    mdc_inv c' (apply_mds evs w).
Proof.
  intros Hst Hk0. revert c w. induction ms as [|[b m] ms IH]; intros c w Hinv Hmay; cbn [deliver].
  { intros Heq. injection Heq as <-. by exists []. }
  destruct Hmay as [Hm Hms]. destruct (on_message b m c) as [c1|] eqn:H1; [|done].
  cbn [mbind result_bind]. intros Hd.
  destruct (on_message_inv b m c w c1 Hst Hinv Hm Hk0 H1) as (evs1 & Hq1 & Hinv1).
  destruct (IH c1 _ Hinv1 (Hms c1 eq_refl) Hd) as (evs2 & Hq2 & Hinv2).
  exists (evs1 ++ evs2). by rewrite push_all_app, apply_mds_app, <- Hq1.
Qed.

(** Messages in sequence. *)
Lemma on_messages_in_sequence us c l :
  in_recovery_ c = false → holds (incoming_md_updates_ c) l →
  (length l + length us ≤ capacity (incoming_md_updates_ c))%nat →
  ∃ c', on_messages false (numbered mkMDPMarketUpdate (next_exp_inc_seq_num_ c) us) c = Ok c' ∧
    in_recovery_ c' = false ∧ holds (incoming_md_updates_ c') (l ++ us) ∧
    next_exp_inc_seq_num_ c' = advance (next_exp_inc_seq_num_ c) us ∧
    incremental_mcast_socket_ c' = incremental_mcast_socket_ c ∧ snapshot_mcast_socket_ c' = snapshot_mcast_socket_ c.
Proof.
  revert c l. induction us as [|u us IH]; intros c l Hr Hq Hroom; cbn [numbered on_messages advance].
  { exists c. by rewrite app_nil_r. }
  unfold on_message. rewrite Hr. cbn [mdp_seq_num_ me_market_update_]. rewrite Z.eqb_refl.
  cbn [orb negb mbind result_bind].
  set (c1 := set_next_inc _ _ _). cbn [length] in Hroom.
  destruct (IH c1 (l ++ [u])) as (c2 & H2 & Hr2 & Hq2 & Hn2 & Hsk).
  - done.
  - apply (holds_push (incoming_md_updates_ c)); [done|lia].
  - unfold c1. cbn [set_next_inc set_recovery incoming_md_updates_]. rewrite capacity_push, length_app. cbn [length]. lia.
  - exists c2. split; [exact H2|]. split; [done|]. split; [by rewrite <- app_assoc in Hq2|]. split; [exact Hn2|exact Hsk].
Qed.

(** Completing a recovery: what is queued is the whole cycle but its last message, and updates
    without a gap from no later than the one after it. *)
Fixpoint enum (n : Z) (us : list MEMarketUpdate) : list (Z * MEMarketUpdate) :=
  match us with [] => [] | u :: us => (n, u) :: enum (n + 1) us end.

Lemma enum_app n us1 us2 : enum n (us1 ++ us2) = enum n us1 ++ enum (n + Z.of_nat (length us1)) us2.
Proof.
  revert n. induction us1 as [|u us1 IH]; intros n; cbn [enum app length].
  - by rewrite Z.add_0_r.
  - rewrite IH. do 3 f_equal. lia.
Qed.

Lemma om_set_end n us u : om_set (n + Z.of_nat (length us)) u (enum n us) = enum n (us ++ [u]).
Proof.
  revert n. induction us as [|x us IH]; intros n; cbn [enum app length om_set].
  - by rewrite Z.add_0_r.
  - rewrite (proj2 (Z.ltb_ge _ _)) by lia. rewrite (proj2 (Z.eqb_neq _ _)) by lia. f_equal.
    rewrite <- IH. f_equal. lia.
Qed.

Lemma om_find_end n us : om_find (n + Z.of_nat (length us)) (enum n us) = None.
Proof.
  revert n. induction us as [|x us IH]; intros n; cbn [enum length om_find]; [done|].
  rewrite (proj2 (Z.eqb_neq _ _)) by lia. rewrite <- (IH (n + 1)). f_equal. lia.
Qed.

Lemma scan_snapshot_enum n us evs :
  0 ≤ n → n + Z.of_nat (length us) < 2 ^ 64 →
  scan_snapshot n (enum n us) evs = Some (evs ++ filter (λ u, is_mark u = false) us).
Proof.
  revert n evs. induction us as [|u us IH]; intros n evs Hn Hlt; cbn [enum scan_snapshot length] in *.
  { by rewrite app_nil_r. }
  rewrite Z.eqb_refl, u64_small by (unfold is_u64; lia). rewrite IH by lia.
  destruct (is_mark u) eqn:Hm.
  - rewrite filter_cons_False by (by rewrite Hm). done.
  - rewrite filter_cons_True by done. by rewrite <- app_assoc.
Qed.

Lemma scan_incremental_enum a j evs :
  stream_ok → (a ≤ j ≤ length U)%nat →
  scan_incremental (Z.of_nat j + 1) (enum (Z.of_nat a + 1) (drop a U)) evs
  = (true, Z.of_nat (length U) + 1, evs ++ drop j U).
Proof.
  intros [Hmk HlenU] Haj. remember (length U - a)%nat as d eqn:Hd. revert a j evs Haj Hd.
  induction d as [|d IH]; intros a j evs Haj Hd.
  - rewrite (drop_ge _ a), (drop_ge _ j) by lia. cbn. rewrite app_nil_r. do 3 f_equal. lia.
  - destruct (lookup_lt_is_Some_2 U a) as [u Hu]; [lia|]. rewrite (drop_S _ _ _ Hu). cbn [enum scan_incremental].
    replace (Z.of_nat a + 1 + 1) with (Z.of_nat (S a) + 1) by lia.
    destruct (Z.ltb_spec (Z.of_nat a + 1) (Z.of_nat j + 1)); [apply IH; lia|].
    assert (a = j) as -> by lia. rewrite Z.eqb_refl. cbn [negb].
    rewrite u64_small by (unfold is_u64; lia). replace (Z.of_nat j + 1 + 1) with (Z.of_nat (S j) + 1) by lia.
    assert (is_mark u = false) as -> by (rewrite Forall_forall in Hmk; apply Hmk; by eapply list_elem_of_lookup_2).
    rewrite IH by lia. by rewrite (drop_S _ _ _ Hu), <- app_assoc.
Qed.

Lemma recovery_completes_spec c k a :
  stream_ok → cycle_ok k → (a ≤ k)%nat → in_recovery_ c = true →
  snapshot_queued_msgs_ c = enum 0 (take (length (cycle_of k) - 1) (cycle_of k)) →
  incremental_queued_msgs_ c = enum (Z.of_nat a + 1) (drop a U) →
  let m := mkMDPMarketUpdate (Z.of_nat (length (cycle_of k)) - 1)
             (mark_update MarketUpdateType_SNAPSHOT_END (Z.of_nat k)) in
  ∃ c', on_message true m c = Ok c' ∧ in_recovery_ c' = false ∧
    next_exp_inc_seq_num_ c' = Z.of_nat (length U) + 1 ∧
    incoming_md_updates_ c'
      = push_all (snapshot_body n_ids 0 (state_at k) ++ drop k U) (incoming_md_updates_ c) ∧
    incremental_mcast_socket_ c' = incremental_mcast_socket_ c ∧ mc_socket_fd_ (snapshot_mcast_socket_ c') = -1.
Proof.
  intros Hst Hk Hak Hr Hs Hi m. unfold on_message. rewrite Hr. cbn [orb mbind result_bind mret result_ret].
  eexists. split; [done|]. unfold queueMessage. cbn [m mdp_seq_num_ me_market_update_ set_recovery snapshot_queued_msgs_ incremental_queued_msgs_].
  set (body := mark_update MarketUpdateType_SNAPSHOT_START (Z.of_nat k) :: snapshot_body n_ids 0 (state_at k)).
  assert (cycle_of k = body ++ [mark_update MarketUpdateType_SNAPSHOT_END (Z.of_nat k)]) as Hc by done.
  assert (Z.of_nat (length (cycle_of k)) - 1 = 0 + Z.of_nat (length body)) as Hseq
    by (rewrite Hc, length_app; cbn [length]; lia).
  assert (take (length (cycle_of k) - 1) (cycle_of k) = body) as Htk.
  { rewrite Hc, length_app. cbn [length]. rewrite Nat.add_sub. by rewrite take_app_length. }
  rewrite Hs, Htk, Hseq, om_find_end, om_set_end, <- Hc.
  set (c1 := set_queues _ _ _).
  unfold checkSnapshotSync. cbn [c1 set_queues set_recovery snapshot_queued_msgs_ incremental_queued_msgs_].
  assert (last (enum 0 (cycle_of k))
    = Some (Z.of_nat (length body), mark_update MarketUpdateType_SNAPSHOT_END (Z.of_nat k))) as ->
    by (rewrite Hc, enum_app, last_app; done).
  rewrite (scan_snapshot_enum 0 (cycle_of k) []); [|lia|destruct Hk as (_ & _ & ?); lia].
  rewrite filter_body. cbn [app].
  change (enum 0 (cycle_of k)) with ((0, mark_update MarketUpdateType_SNAPSHOT_START (Z.of_nat k))
    :: enum 1 (snapshot_body n_ids 0 (state_at k) ++ [mark_update MarketUpdateType_SNAPSHOT_END (Z.of_nat k)])).
  cbv iota beta. rewrite decide_False by (intros Hne; by apply Hne).
  rewrite decide_False by (intros Hne; by apply Hne). cbn [mark_update upd_order_id_].
  destruct Hk as (Hkl & _ & _). rewrite u64_small by (destruct Hst; unfold is_u64; lia).
  rewrite Hi, scan_incremental_enum by (done || lia). done.
Qed.
(** ** Gathering a recovery

    [cyc] is the cycle without its last message, [us] the updates from number [n] on: the consumer has
    queued the first [i] messages of the one and the first [j] of the other. *)
Definition gathering cyc (n : Z) us (i j : nat) c : MarketDataConsumer :=
  set_queues (enum 0 (take i cyc)) (enum n (take j us)) c.

(** The messages of one of the streams among those that arrive. *)
Definition sent_on (b : bool) (ms : list (bool * MDPMarketUpdate)) : list MDPMarketUpdate :=
  (filter (λ m, m.1 = b) ms).*2.

Definition opening k : list MEMarketUpdate := take (length (cycle_of k) - 1) (cycle_of k).

Lemma opening_length k : S (length (opening k)) = length (cycle_of k).
Proof. unfold opening. rewrite length_take, cycle_split. cbn [length]. lia. Qed.

Lemma last_enum n us : snd <$> last (enum n us) = last us.
Proof. revert n. induction us as [|u [|u' us] IH]; intros n; [done|done|]. exact (IH (n + 1)). Qed.

(** With the SNAPSHOT_END outstanding the consumer waits. *)
Lemma check_waits k i n us j c :
  cycle_ok k → (i ≤ length (opening k))%nat →
  checkSnapshotSync (gathering (opening k) n us i j c) = gathering (opening k) n us i j c.
Proof.
  intros (_ & _ & Hlen) Hi. pose proof (opening_length k) as Ho. unfold checkSnapshotSync. cbn [gathering set_queues snapshot_queued_msgs_].
  destruct i as [|i]; [done|]. destruct (take (S i) (opening k)) as [|u0 us0] eqn:Ht; [done|].
  assert (Some u0 = cycle_of k !! 0%nat) as Hu0.
  { transitivity (take (S i) (opening k) !! 0%nat); [by rewrite Ht|].
    rewrite lookup_take_lt by lia. unfold opening. rewrite lookup_take_lt by lia. done. }
  rewrite cycle_split in Hu0. injection Hu0 as ->.
  cbn [enum]. cbv iota beta. destruct (last _) as [[seq lst]|] eqn:Hl; [|done].
  rewrite decide_False by (intros Hne; by apply Hne).
  assert (length (take (S i) (opening k)) = S i) as Hlt by (rewrite length_take; lia). rewrite Ht in Hlt.
  pose proof (scan_snapshot_enum 0 (mark_update MarketUpdateType_SNAPSHOT_START (Z.of_nat k) :: us0) [] ltac:(lia) ltac:(lia)) as Hscan.
  cbn [enum] in Hscan. rewrite Hscan.
  rewrite decide_True; [done|]. intros Hend.
  assert (cycle_of k !! i = Some lst) as Hlst.
  { assert (last (take (S i) (opening k)) = Some lst) as Hla.
    { rewrite Ht, <- (last_enum 0). cbn [enum]. by rewrite Hl. }
    rewrite last_lookup, Ht, Hlt, <- Ht in Hla. cbn [pred] in Hla. rewrite lookup_take_lt in Hla by lia.
    unfold opening in Hla. rewrite lookup_take_lt in Hla; [done|lia]. }
  destruct (cycle_end k i lst Hlst Hend) as [? _]. lia.
Qed.

Lemma take_enum n us j u : us !! j = Some u → om_set (n + Z.of_nat j) u (enum n (take j us)) = enum n (take (S j) us).
Proof.
  intros Hu. pose proof (lookup_lt_Some _ _ _ Hu). rewrite (take_S_r _ _ _ Hu).
  pose proof (om_set_end n (take j us) u) as He. rewrite length_take, Nat.min_l in He by lia. exact He.
Qed.

Lemma gathers_snapshot k i n us j c u :
  cycle_ok k → in_recovery_ c = true → opening k !! i = Some u →
  on_message true (mkMDPMarketUpdate (Z.of_nat i) u) (gathering (opening k) n us i j c) = Ok (gathering (opening k) n us (S i) j c).
Proof.
  intros Hk Hr Hu. pose proof (lookup_lt_Some _ _ _ Hu) as Hlt. unfold on_message. cbn [gathering set_queues in_recovery_].
  rewrite Hr. cbn [orb mbind result_bind mret result_ret]. f_equal. unfold queueMessage. cbn [mdp_seq_num_ me_market_update_ set_recovery set_queues gathering snapshot_queued_msgs_ incremental_queued_msgs_].
  pose proof (om_find_end 0 (take i (opening k))) as Hf. rewrite length_take, Nat.min_l in Hf by lia. rewrite Z.add_0_l in Hf. rewrite Hf.
  pose proof (take_enum 0 _ _ _ Hu) as He. rewrite Z.add_0_l in He. rewrite He.
  transitivity (checkSnapshotSync (gathering (opening k) n us (S i) j c)); [|by apply check_waits].
  f_equal. destruct c; cbn in *. by subst.
Qed.

Lemma gathers_incremental k i n us j c u :
  cycle_ok k → in_recovery_ c = true → (i ≤ length (opening k))%nat → us !! j = Some u →
  on_message false (mkMDPMarketUpdate (n + Z.of_nat j) u) (gathering (opening k) n us i j c) = Ok (gathering (opening k) n us i (S j) c).
Proof.
  intros Hk Hr Hi Hu. unfold on_message. cbn [gathering set_queues in_recovery_].
  rewrite Hr. cbn [orb mbind result_bind mret result_ret]. f_equal. unfold queueMessage. cbn [mdp_seq_num_ me_market_update_ set_recovery set_queues gathering snapshot_queued_msgs_ incremental_queued_msgs_].
  rewrite (take_enum n _ _ _ Hu).
  transitivity (checkSnapshotSync (gathering (opening k) n us i (S j) c)); [|by apply check_waits].
  f_equal. destruct c; cbn in *. by subst.
Qed.

(** The two streams in any interleaving. *)
Lemma gathers k n us ms i j c :
  cycle_ok k → in_recovery_ c = true → 0 ≤ n → n + Z.of_nat (length us) < 2 ^ 64 →
  (i ≤ length (opening k))%nat → (j ≤ length us)%nat →
  sent_on true ms = numbered mkMDPMarketUpdate (Z.of_nat i) (drop i (opening k)) →
  sent_on false ms = numbered mkMDPMarketUpdate (n + Z.of_nat j) (drop j us) →
  deliver ms (gathering (opening k) n us i j c) = Ok (gathering (opening k) n us (length (opening k)) (length us) c).
Proof.
  intros Hk Hr Hn0 Hn. pose proof (opening_length k) as Ho. pose proof Hk as (_ & _ & Hlen).
  revert i j. induction ms as [|[b m] ms IH]; intros i j Hi Hj; unfold sent_on; cbn [deliver filter list_filter fst].
  - intros Hs Hu. assert (i = length (opening k)) as ->.
    { destruct (decide (i < length (opening k))%nat) as [Hlt|]; [|lia].
      apply lookup_lt_is_Some_2 in Hlt as [x Hx]. by rewrite (drop_S _ _ _ Hx) in Hs. }
    assert (j = length us) as ->; [|done].
    destruct (decide (j < length us)%nat) as [Hlt|]; [|lia].
    apply lookup_lt_is_Some_2 in Hlt as [x Hx]. by rewrite (drop_S _ _ _ Hx) in Hu.
  - fold (sent_on true ms) (sent_on false ms). destruct b.
    + destruct (decide (true = true)); [|done]. destruct (decide (true = false)); [done|]. cbn [fmap list_fmap snd].
      fold (sent_on true ms) (sent_on false ms). intros Hs Hu. destruct (opening k !! i) as [u|] eqn:Hx.
      2:{ apply lookup_ge_None in Hx. by rewrite drop_ge in Hs. }
      pose proof (lookup_lt_Some _ _ _ Hx). rewrite (drop_S _ _ _ Hx) in Hs. cbn [numbered] in Hs. injection Hs as -> Hs.
      rewrite u64_small in Hs by (unfold is_u64; lia).
      rewrite gathers_snapshot by done. cbn [mbind result_bind]. apply IH; [lia|done| |done].
      by replace (Z.of_nat (S i)) with (Z.of_nat i + 1) by lia.
    + destruct (decide (false = true)); [done|]. destruct (decide (false = false)); [|done]. cbn [fmap list_fmap snd].
      fold (sent_on true ms) (sent_on false ms). intros Hs Hu. destruct (us !! j) as [u|] eqn:Hx.
      2:{ apply lookup_ge_None in Hx. by rewrite drop_ge in Hu. }
      pose proof (lookup_lt_Some _ _ _ Hx). rewrite (drop_S _ _ _ Hx) in Hu. cbn [numbered] in Hu. injection Hu as -> Hu.
      rewrite u64_small in Hu by (unfold is_u64; lia).
      rewrite gathers_incremental by done. cbn [mbind result_bind]. apply IH; [done|lia|done|].
      by replace (n + Z.of_nat (S j)) with (n + Z.of_nat j + 1) by lia.
Qed.
Lemma deliver_app ms1 ms2 c : deliver (ms1 ++ ms2) c = (c ← deliver ms1 c; deliver ms2 c).
Proof.
  revert c. induction ms1 as [|[b m] ms1 IH]; intros c; cbn [app deliver]; [done|].
  destruct (on_message b m c) as [c1|e]; cbn [mbind result_bind]; [apply IH|done].
Qed.

Definition end_message k : MDPMarketUpdate :=
  mkMDPMarketUpdate (Z.of_nat (length (cycle_of k)) - 1) (mark_update MarketUpdateType_SNAPSHOT_END (Z.of_nat k)).

(** The first message that is not the one expected starts the recovery. *)
Lemma recovery_starts b m ms cyc n us c (fd : Z) ks :
  in_recovery_ c = false → kernel_ c = (fd, true) :: ks → 0 ≤ fd → mdp_seq_num_ m ≠ next_exp_inc_seq_num_ c →
  deliver ((b, m) :: ms) c =
  deliver ((b, m) :: ms) (gathering cyc n us 0 0 (set_snap_socket (mcast_init fd (snapshot_mcast_socket_ c)) ks (set_recovery true c))).
Proof.
  intros Hr Hk Hfd Hm. cbn [deliver]. unfold on_message at 1. rewrite Hr, (proj2 (Z.eqb_neq _ _) Hm). cbn [orb negb].
  unfold startSnapshotSync. cbn [set_recovery set_queues kernel_]. rewrite Hk, (proj2 (Z.leb_le _ _) Hfd). done.
Qed.

(** A consumer that has missed the first [a] updates recovers, whatever the order in which the
    messages of the two streams arrive before the SNAPSHOT_END. *)
Lemma recovers k a ms c (fd : Z) ks :
  stream_ok → cycle_ok k → (1 ≤ a ≤ k)%nat → in_recovery_ c = false → next_exp_inc_seq_num_ c = 1 →
  kernel_ c = (fd, true) :: ks → 0 ≤ fd →
  sent_on true ms = numbered mkMDPMarketUpdate 0 (opening k) →
  sent_on false ms = numbered mkMDPMarketUpdate (Z.of_nat a + 1) (drop a U) →
  ∃ c', deliver (ms ++ [(true, end_message k)]) c = Ok c' ∧ in_recovery_ c' = false ∧
    next_exp_inc_seq_num_ c' = Z.of_nat (length U) + 1 ∧
    incoming_md_updates_ c' = push_all (snapshot_body n_ids 0 (state_at k) ++ drop k U) (incoming_md_updates_ c) ∧
    incremental_mcast_socket_ c' = incremental_mcast_socket_ c ∧ mc_socket_fd_ (snapshot_mcast_socket_ c') = -1.
Proof.
  intros Hst Hk Hak Hr Hnx Hker Hfd Hs Hu. pose proof Hst as [_ HU]. pose proof Hk as (HkU & _ & _).
  set (c0 := set_snap_socket (mcast_init fd (snapshot_mcast_socket_ c)) ks (set_recovery true c)).
  assert (deliver ms c = deliver ms (gathering (opening k) (Z.of_nat a + 1) (drop a U) 0 0 c0)) as E.
  { destruct ms as [|[b m] ms].
    - apply (f_equal length) in Hs. rewrite length_numbered in Hs. change (sent_on true []) with (@nil MDPMarketUpdate) in Hs.
      pose proof (opening_length k) as Ho. rewrite cycle_split in Ho. rewrite <- Hs in Ho. cbn in Ho. rewrite length_app in Ho. cbn in Ho. lia.
    - apply recovery_starts; [done|done|done|]. rewrite Hnx. unfold sent_on in Hs, Hu. destruct b.
      + rewrite filter_cons_True in Hs by done. destruct (opening k); [done|]. cbn in Hs. injection Hs as -> _. done.
      + rewrite filter_cons_True in Hu by done. destruct (drop a U); [done|]. cbn [numbered fmap list_fmap snd] in Hu. injection Hu as -> _. cbn. lia. }
  rewrite deliver_app, E, (gathers k); [|done|done|lia|rewrite length_drop; lia|lia|lia|by rewrite drop_0|by rewrite Z.add_0_r, drop_0].
  cbn [mbind result_bind deliver].
  destruct (recovery_completes_spec (gathering (opening k) (Z.of_nat a + 1) (drop a U) (length (opening k)) (length (drop a U)) c0) k a)
    as (c' & Hm & Hr' & Hn' & Hq' & Hi' & Hs'); [done|done|lia|done| | |].
  - cbn. by rewrite firstn_all.
  - cbn. by rewrite firstn_all.
  - exists c'. unfold end_message. rewrite Hm. by split_and!.
Qed.
Lemma sent_on_app b ms1 ms2 : sent_on b (ms1 ++ ms2) = sent_on b ms1 ++ sent_on b ms2.
Proof. unfold sent_on. by rewrite filter_app, fmap_app. Qed.

Lemma advance_small {A} n (us : list A) : 0 ≤ n → n + Z.of_nat (length us) < 2 ^ 64 → advance n us = n + Z.of_nat (length us).
Proof.
  revert n. induction us as [|u us IH]; intros n Hn Hlt; cbn [advance length] in *; [lia|].
  rewrite u64_small by (unfold is_u64; lia). rewrite IH by lia. lia.
Qed.

(** A cycle of which the last message is the last of all. *)
Lemma cycle_last k ms :
  cycle_ok k → sent_on true ms = numbered mkMDPMarketUpdate 0 (cycle_of k) → fst <$> last ms = Some true →
  ∃ ms', ms = ms' ++ [(true, end_message k)] ∧ sent_on true ms' = numbered mkMDPMarketUpdate 0 (opening k) ∧
    sent_on false ms = sent_on false ms'.
Proof.
  intros (_ & _ & Hlen) Hs Hlast. pose proof (opening_length k) as Ho.
  assert (cycle_of k = opening k ++ [mark_update MarketUpdateType_SNAPSHOT_END (Z.of_nat k)]) as Hc.
  { rewrite <- (take_drop (length (cycle_of k) - 1) (cycle_of k)) at 1. unfold opening. f_equal. rewrite cycle_split, app_comm_cons.
    rewrite length_app, Nat.add_sub, drop_app_length. done. }
  destruct ms as [|[b m] ms' _] using rev_ind; [done|]. rewrite last_snoc in Hlast. injection Hlast as ->.
  rewrite sent_on_app, Hc, numbered_app, advance_small in Hs by lia. cbn [numbered] in Hs.
  apply app_inj_2 in Hs as [Hs Hm]; [|done]. injection Hm as ->. exists ms'. split; [|split; [exact Hs|]].
  - do 3 f_equal. unfold end_message. f_equal. lia.
  - rewrite sent_on_app. change (sent_on false [_]) with (@nil MDPMarketUpdate). by rewrite app_nil_r.
Qed.
End streams.

(** In step with the exchange.  A consumer that is not recovering and receives the incremental
    messages in sequence hands every update to its trade engine, in order, and stays out of
    recovery. *)
Theorem consumer_in_sequence us c l :
  in_recovery_ c = false → holds (incoming_md_updates_ c) l →
  (length l + length us ≤ capacity (incoming_md_updates_ c))%nat →
  ∃ c', on_messages false (numbered mkMDPMarketUpdate (next_exp_inc_seq_num_ c) us) c = Ok c' ∧
    in_recovery_ c' = false ∧ holds (incoming_md_updates_ c') (l ++ us).
Proof.
  intros Hr Hq Hroom. destruct (on_messages_in_sequence us c l Hr Hq Hroom) as (c' & ? & ? & ? & _).
  by exists c'.
Qed.

(** C11: a consumer is not silently wrong while it does not mix snapshots.  Let incremental messages be lost, repeated and
    reordered at will, and snapshot messages too, under the side condition ([may_deliver]) that the snapshot
    messages that are queued together are of one cycle: the code does not compare the numbers of START and END, and
    a mixture of two cycles can pass for a snapshot.
    Whenever the consumer is not recovering, a client that has applied the updates it was handed
    shows exactly the orders that the exchange showed after its update number
    [next_exp_inc_seq_num_ - 1]. *)
Theorem consumer_consistent U n_ids v0 ms c w c' :
  stream_ok U → cycle_ok U n_ids v0 0 → mdc_inv U n_ids v0 c w →
  may_deliver U n_ids v0 ms c → deliver ms c = Ok c' → in_recovery_ c' = false →
  ∃ evs k, incoming_md_updates_ c' = push_all evs (incoming_md_updates_ c) ∧
    next_exp_inc_seq_num_ c' = Z.of_nat k + 1 ∧ apply_mds evs w = apply_mds (take k U) v0.
Proof.
  intros Hst Hk0 Hinv Hmay Hd Hr.
  destruct (deliver_inv U n_ids v0 ms c w c' Hst Hk0 Hinv Hmay Hd) as (evs & Hq & Hinv').
  destruct (mi_sync _ _ _ _ _ Hinv' Hr) as (k & _ & Hn & Hv). by exists evs, k.
Qed.

(** C12: recovery completes.  When a consumer has queued a whole snapshot cycle but its last message,
    and the incremental updates without a gap from no later than the first one after the cycle,
    the SNAPSHOT_END ends the recovery: the trade engine is handed the snapshot and every later
    update, and the consumer expects the update after the last one queued. *)
Theorem recovery_completes U n_ids v0 c k a :
  stream_ok U → cycle_ok U n_ids v0 k → (a ≤ k)%nat → in_recovery_ c = true →
  let cyc := cycle_of U n_ids v0 k in
  snapshot_queued_msgs_ c = enum 0 (take (length cyc - 1) cyc) →
  incremental_queued_msgs_ c = enum (Z.of_nat a + 1) (drop a U) →
  ∃ c', on_message true (mkMDPMarketUpdate (Z.of_nat (length cyc) - 1)
             (mark_update MarketUpdateType_SNAPSHOT_END (Z.of_nat k))) c = Ok c' ∧
    in_recovery_ c' = false ∧ next_exp_inc_seq_num_ c' = Z.of_nat (length U) + 1 ∧
    ∃ evs, incoming_md_updates_ c' = push_all evs (incoming_md_updates_ c) ∧
      ∀ w, length w = length v0 → apply_mds evs w = apply_mds U v0.
Proof.
  intros Hst Hk Hak Hr cyc Hs Hi.
  destruct (recovery_completes_spec U n_ids v0 c k a Hst Hk Hak Hr Hs Hi) as (c' & Hm & Hr' & Hn & Hq & _).
  exists c'. split_and!; [done..|]. eexists. split; [exact Hq|]. intros w Hw. destruct Hk as (Hkl & Hb & _).
  rewrite apply_mds_app. pose proof (apply_snapshot_body n_ids [] (state_at U v0 k) w Hb) as Ha.
  cbn [app length] in Ha. rewrite Ha by (unfold state_at; by rewrite length_apply_mds).
  unfold state_at. rewrite <- apply_mds_app. by rewrite take_drop.
Qed.
