(* ===== verification/MarketOrderBook.v ===== *)
(** * The trading side's limit order book, as written

    trading/strategy/market_order.h, market_order.cpp, market_order_book.h and
    market_order_book.cpp.  As in MEOrderBook.v, a pointer is a block index of a memory pool and
    the arrays of pointers are finite maps in which an absent key is nullptr.  The calls into the
    trade engine are the last thing that onMarketUpdate does: they are its result. *)
From S2P Require Import Prelude Types MemPool EngineSink MEOrderBook.
(** ** Data (market_order.h) *)
Record MarketOrder := mkMarketOrder {
  mo_order_id_ : Z;
  mo_side_ : Side;
  mo_price_ : Z;
  mo_qty_ : Z;
  mo_priority_ : Z;
  mo_prev_order_ : ptr;
  mo_next_order_ : ptr
}.

Definition MarketOrder_default : MarketOrder :=
  mkMarketOrder OrderId_INVALID Side_INVALID Price_INVALID Qty_INVALID Priority_INVALID None None.

Record MarketOrdersAtPrice := mkMarketOrdersAtPrice {
  ml_side_ : Side;
  ml_price_ : Z;
  first_mkt_order_ : ptr;
  ml_prev_entry_ : ptr;
  ml_next_entry_ : ptr
}.

Definition MarketOrdersAtPrice_default : MarketOrdersAtPrice :=
  mkMarketOrdersAtPrice Side_INVALID Price_INVALID None None None.

Record BBO := mkBBO { bid_price_ : Z; ask_price_ : Z; bid_qty_ : Z; ask_qty_ : Z }.

Definition BBO_default : BBO := mkBBO Price_INVALID Price_INVALID Qty_INVALID Qty_INVALID.

Definition BBO_toString (bbo : BBO) : string :=
  "BBO{" +:+ qtyToString (bid_qty_ bbo) +:+ "@" +:+ priceToString (bid_price_ bbo) +:+ "X"
  +:+ priceToString (ask_price_ bbo) +:+ "@" +:+ qtyToString (ask_qty_ bbo) +:+ "}".

(** Field assignments. *)
Definition mo_set_prev (x : ptr) (o : MarketOrder) : MarketOrder :=
  mkMarketOrder (mo_order_id_ o) (mo_side_ o) (mo_price_ o) (mo_qty_ o) (mo_priority_ o) x (mo_next_order_ o).
Definition mo_set_next (x : ptr) (o : MarketOrder) : MarketOrder :=
  mkMarketOrder (mo_order_id_ o) (mo_side_ o) (mo_price_ o) (mo_qty_ o) (mo_priority_ o) (mo_prev_order_ o) x.
Definition mo_set_qty (q : Z) (o : MarketOrder) : MarketOrder :=
  mkMarketOrder (mo_order_id_ o) (mo_side_ o) (mo_price_ o) q (mo_priority_ o) (mo_prev_order_ o) (mo_next_order_ o).
Definition ml_set_first (x : ptr) (l : MarketOrdersAtPrice) : MarketOrdersAtPrice :=
  mkMarketOrdersAtPrice (ml_side_ l) (ml_price_ l) x (ml_prev_entry_ l) (ml_next_entry_ l).
Definition ml_set_prev (x : ptr) (l : MarketOrdersAtPrice) : MarketOrdersAtPrice :=
  mkMarketOrdersAtPrice (ml_side_ l) (ml_price_ l) (first_mkt_order_ l) x (ml_next_entry_ l).
Definition ml_set_next (x : ptr) (l : MarketOrdersAtPrice) : MarketOrdersAtPrice :=
  mkMarketOrdersAtPrice (ml_side_ l) (ml_price_ l) (first_mkt_order_ l) (ml_prev_entry_ l) x.

Record MarketOrderBook := mkMarketOrderBook {
  mb_ticker_id_ : Z;
  oid_to_order_ : gmap Z nat;
  mb_orders_at_price_pool_ : MemPool MarketOrdersAtPrice;
  mb_bids_by_price_ : ptr;
  mb_asks_by_price_ : ptr;
  mb_price_orders_at_price_ : gmap Z nat;
  mb_order_pool_ : MemPool MarketOrder;
  bbo_ : BBO
}.

Definition mb_set_oid_to_order (x : gmap Z nat) (b : MarketOrderBook) : MarketOrderBook :=
  mkMarketOrderBook (mb_ticker_id_ b) x (mb_orders_at_price_pool_ b) (mb_bids_by_price_ b)
    (mb_asks_by_price_ b) (mb_price_orders_at_price_ b) (mb_order_pool_ b) (bbo_ b).
Definition mb_set_level_pool (x : MemPool MarketOrdersAtPrice) (b : MarketOrderBook) : MarketOrderBook :=
  mkMarketOrderBook (mb_ticker_id_ b) (oid_to_order_ b) x (mb_bids_by_price_ b)
    (mb_asks_by_price_ b) (mb_price_orders_at_price_ b) (mb_order_pool_ b) (bbo_ b).
Definition mb_set_by_price (side : Side) (x : ptr) (b : MarketOrderBook) : MarketOrderBook :=
  if decide (side = Side_BUY)
  then mkMarketOrderBook (mb_ticker_id_ b) (oid_to_order_ b) (mb_orders_at_price_pool_ b) x
         (mb_asks_by_price_ b) (mb_price_orders_at_price_ b) (mb_order_pool_ b) (bbo_ b)
  else mkMarketOrderBook (mb_ticker_id_ b) (oid_to_order_ b) (mb_orders_at_price_pool_ b)
         (mb_bids_by_price_ b) x (mb_price_orders_at_price_ b) (mb_order_pool_ b) (bbo_ b).
Definition mb_set_slots (x : gmap Z nat) (b : MarketOrderBook) : MarketOrderBook :=
  mkMarketOrderBook (mb_ticker_id_ b) (oid_to_order_ b) (mb_orders_at_price_pool_ b)
    (mb_bids_by_price_ b) (mb_asks_by_price_ b) x (mb_order_pool_ b) (bbo_ b).
Definition mb_set_order_pool (x : MemPool MarketOrder) (b : MarketOrderBook) : MarketOrderBook :=
  mkMarketOrderBook (mb_ticker_id_ b) (oid_to_order_ b) (mb_orders_at_price_pool_ b)
    (mb_bids_by_price_ b) (mb_asks_by_price_ b) (mb_price_orders_at_price_ b) x (bbo_ b).
Definition mb_set_bbo (x : BBO) (b : MarketOrderBook) : MarketOrderBook :=
  mkMarketOrderBook (mb_ticker_id_ b) (oid_to_order_ b) (mb_orders_at_price_pool_ b)
    (mb_bids_by_price_ b) (mb_asks_by_price_ b) (mb_price_orders_at_price_ b) (mb_order_pool_ b) x.

Section MarketOrderBook.
Context `{Limits}.

(** A method of the book. *)
Definition MB (A : Type) : Type := M MarketOrderBook A.

Definition MarketOrderBook_new (ticker_id : Z) : MarketOrderBook :=
  mkMarketOrderBook ticker_id ∅
    (MemPool_new (Z.to_nat ME_MAX_PRICE_LEVELS) MarketOrdersAtPrice_default) None None ∅
    (MemPool_new (Z.to_nat ME_MAX_ORDER_IDS) MarketOrder_default) BBO_default.

(** Reads and writes through pointers. *)
Definition mrd_order (x : ptr) : MB MarketOrder :=
  p ← gets mb_order_pool_; lift (deref x p).
Definition mwr_order (x : ptr) (f : MarketOrder → MarketOrder) : MB unit :=
  p ← gets mb_order_pool_; p' ← lift (update x f p); modify (mb_set_order_pool p').
Definition mrd_level (x : ptr) : MB MarketOrdersAtPrice :=
  p ← gets mb_orders_at_price_pool_; lift (deref x p).
Definition mwr_level (x : ptr) (f : MarketOrdersAtPrice → MarketOrdersAtPrice) : MB unit :=
  p ← gets mb_orders_at_price_pool_; p' ← lift (update x f p); modify (mb_set_level_pool p').
Definition malloc_order (o : MarketOrder) : MB ptr :=
  p ← gets mb_order_pool_; r ← lift (allocate o p);
  modify (mb_set_order_pool r.2);; mret (Some r.1).
Definition mfree_order (x : ptr) : MB unit :=
  p ← gets mb_order_pool_; p' ← lift (deallocate x p); modify (mb_set_order_pool p').
Definition malloc_level (l : MarketOrdersAtPrice) : MB ptr :=
  p ← gets mb_orders_at_price_pool_; r ← lift (allocate l p);
  modify (mb_set_level_pool r.2);; mret (Some r.1).
Definition mfree_level (x : ptr) : MB unit :=
  p ← gets mb_orders_at_price_pool_; p' ← lift (deallocate x p); modify (mb_set_level_pool p').

Definition mb_by_price (side : Side) (b : MarketOrderBook) : ptr :=
  if decide (side = Side_BUY) then mb_bids_by_price_ b else mb_asks_by_price_ b.

Definition mb_priceToIndex (price : Z) : Z := u64 price `mod` ME_MAX_PRICE_LEVELS.

Definition mb_getOrdersAtPrice (price : Z) : MB ptr :=
  gets (λ b, mb_price_orders_at_price_ b !! mb_priceToIndex price).

Definition mb_set_slot (price : Z) (x : ptr) : MB unit :=
  modify (λ b, mb_set_slots (slot_set (mb_priceToIndex price) x (mb_price_orders_at_price_ b)) b).

(** The condition [add_after]. *)
Definition mb_goes_after (n t : MarketOrdersAtPrice) : bool :=
  (bool_decide (ml_side_ n = Side_SELL) && (ml_price_ t <? ml_price_ n)) ||
  (bool_decide (ml_side_ n = Side_BUY) && (ml_price_ n <? ml_price_ t)).

Fixpoint mb_find_target (fuel : nat) (n : MarketOrdersAtPrice) (best target : ptr)
    (add_after : bool) : MB (ptr * bool) :=
  if add_after && bool_decide (target ≠ best) then
    match fuel with
    | O => throw Diverges
    | S fuel =>
        t ← mrd_level target;
        if mb_goes_after n t then mb_find_target fuel n best (ml_next_entry_ t) true
        else mret (target, false)
    end
  else mret (target, add_after).

Definition mb_position (fuel : nat) (n : MarketOrdersAtPrice) (best : ptr) : MB (ptr * bool) :=
  t ← mrd_level best;
  if mb_goes_after n t then
    t' ← mrd_level (ml_next_entry_ t);
    mb_find_target fuel n best (ml_next_entry_ t) (mb_goes_after n t')
  else mb_find_target fuel n best best false.

Definition mb_link_after (new target : ptr) : MB unit :=
  mwr_level new (ml_set_prev target);;
  t ← mrd_level target; mwr_level (ml_next_entry_ t) (ml_set_prev new);;
  t ← mrd_level target; mwr_level new (ml_set_next (ml_next_entry_ t));;
  mwr_level target (ml_set_next new).

Definition mb_link_before (new target : ptr) : MB unit :=
  t ← mrd_level target; mwr_level new (ml_set_prev (ml_prev_entry_ t));;
  mwr_level new (ml_set_next target);;
  t ← mrd_level target; mwr_level (ml_prev_entry_ t) (ml_set_next new);;
  mwr_level target (ml_set_prev new).

Definition mb_addOrdersAtPrice (new : ptr) : MB unit :=
  n ← mrd_level new;
  mb_set_slot (ml_price_ n) new;;
  best ← gets (mb_by_price (ml_side_ n));
  match best with
  | None =>
      modify (mb_set_by_price (ml_side_ n) new);;
      mwr_level new (ml_set_next new);;
      mwr_level new (ml_set_prev new)
  | Some _ =>
      fuel ← gets (λ b, pool_size (mb_orders_at_price_pool_ b));
      r ← mb_position fuel n best;
      let target := r.1 in
      if (r.2 : bool) then
        b ← mrd_level best;
        mb_link_after new (if decide (target = best) then ml_prev_entry_ b else target)
      else
        mb_link_before new target;;
        b ← mrd_level best;
        if (bool_decide (ml_side_ n = Side_BUY) && (ml_price_ b <? ml_price_ n)) ||
           (bool_decide (ml_side_ n = Side_SELL) && (ml_price_ n <? ml_price_ b)) then
          t ← mrd_level target;
          mwr_level target (ml_set_next
            (if decide (ml_next_entry_ t = best) then new else ml_next_entry_ t));;
          modify (mb_set_by_price (ml_side_ n) new)
        else mret tt
  end.

Definition mb_removeOrdersAtPrice (side : Side) (price : Z) : MB unit :=
  best ← gets (mb_by_price side);
  x ← mb_getOrdersAtPrice price;
  l ← mrd_level x;
  (if decide (ml_next_entry_ l = x) then modify (mb_set_by_price side None)
   else
     l ← mrd_level x; mwr_level (ml_prev_entry_ l) (ml_set_next (ml_next_entry_ l));;
     l ← mrd_level x; mwr_level (ml_next_entry_ l) (ml_set_prev (ml_prev_entry_ l));;
     (if decide (x = best) then
        l ← mrd_level x; modify (mb_set_by_price side (ml_next_entry_ l))
      else mret tt);;
     mwr_level x (ml_set_next None);;
     mwr_level x (ml_set_prev None));;
  mb_set_slot price None;;
  mfree_level x.

(** [oid_to_order_.at(o) = x]. *)
Definition mb_set_oid (o : Z) (x : ptr) : MB unit :=
  if o <? ME_MAX_ORDER_IDS then
    modify (λ b, mb_set_oid_to_order (slot_set o x (oid_to_order_ b)) b)
  else throw OutOfRange.
(** [oid_to_order_.at(o)]. *)
Definition mb_get_oid (o : Z) : MB ptr :=
  if o <? ME_MAX_ORDER_IDS then gets (λ b, oid_to_order_ b !! o) else throw OutOfRange.

Definition mb_removeOrder (order : ptr) : MB unit :=
  o ← mrd_order order;
  orders_at_price ← mb_getOrdersAtPrice (mo_price_ o);
  (if decide (mo_prev_order_ o = order) then mb_removeOrdersAtPrice (mo_side_ o) (mo_price_ o)
   else
     let order_before := mo_prev_order_ o in
     let order_after := mo_next_order_ o in
     mwr_order order_before (mo_set_next order_after);;
     mwr_order order_after (mo_set_prev order_before);;
     l ← mrd_level orders_at_price;
     (if decide (first_mkt_order_ l = order) then
        mwr_level orders_at_price (ml_set_first order_after)
      else mret tt);;
     mwr_order order (mo_set_next None);;
     mwr_order order (mo_set_prev None));;
  mb_set_oid (mo_order_id_ o) None;;
  mfree_order order.

Definition mb_addOrder (order : ptr) : MB unit :=
  o ← mrd_order order;
  orders_at_price ← mb_getOrdersAtPrice (mo_price_ o);
  match orders_at_price with
  | None =>
      mwr_order order (mo_set_prev order);;
      mwr_order order (mo_set_next order);;
      new ← malloc_level (mkMarketOrdersAtPrice (mo_side_ o) (mo_price_ o) order None None);
      mb_addOrdersAtPrice new
  | Some _ =>
      l ← mrd_level orders_at_price;
      let first := first_mkt_order_ l in
      f ← mrd_order first; mwr_order (mo_prev_order_ f) (mo_set_next order);;
      f ← mrd_order first; mwr_order order (mo_set_prev (mo_prev_order_ f));;
      mwr_order order (mo_set_next first);;
      mwr_order first (mo_set_prev order)
  end;;
  mb_set_oid (mo_order_id_ o) order.

(** ** updateBBO *)

(** The loop that adds up the quantities of a level, from the second order back to the first. *)
Fixpoint sum_qty (fuel : nat) (first order : ptr) (qty : Z) : MB Z :=
  if decide (order = first) then mret qty
  else
    match fuel with
    | O => throw Diverges
    | S fuel => o ← mrd_order order; sum_qty fuel first (mo_next_order_ o) (u32 (qty + mo_qty_ o))
    end.

(** The price and the quantity of the best level of a side. *)
Definition best_of (best : ptr) : MB (Z * Z) :=
  match best with
  | None => mret (Price_INVALID, Qty_INVALID)
  | Some _ =>
      fuel ← gets (λ b, pool_size (mb_order_pool_ b));
      l ← mrd_level best;
      first ← mrd_order (first_mkt_order_ l);
      qty ← sum_qty fuel (first_mkt_order_ l) (mo_next_order_ first) (mo_qty_ first);
      mret (ml_price_ l, qty)
  end.

Definition updateBBO (update_bid update_ask : bool) : MB unit :=
  (if update_bid then
     best ← gets mb_bids_by_price_;
     x ← best_of best;
     modify (λ b, mb_set_bbo (mkBBO x.1 (ask_price_ (bbo_ b)) x.2 (ask_qty_ (bbo_ b))) b)
   else mret tt);;
  (if update_ask then
     best ← gets mb_asks_by_price_;
     x ← best_of best;
     modify (λ b, mb_set_bbo (mkBBO (bid_price_ (bbo_ b)) x.1 (bid_qty_ (bbo_ b)) x.2) b)
   else mret tt).

(** ** onMarketUpdate *)

(** The call into the trade engine. *)
Inductive notification := TradeUpdate | BookUpdate (ticker_id price : Z) (side : Side).

(** The loop of CLEAR over the orders by id. *)
Fixpoint free_orders (ids : list Z) : MB unit :=
  match ids with
  | [] => mret tt
  | i :: ids =>
      order ← gets (λ b, oid_to_order_ b !! i);
      (match order with Some _ => mfree_order order | None => mret tt end);;
      free_orders ids
  end.

(** The loop of CLEAR over the levels of a side, the best one excepted. *)
Fixpoint free_levels (fuel : nat) (best x : ptr) : MB unit :=
  if decide (x = best) then mret tt
  else
    match fuel with
    | O => throw Diverges
    | S fuel =>
        mfree_level x;;
        l ← mrd_level x;       (* the freed block keeps its last contents *)
        free_levels fuel best (ml_next_entry_ l)
    end.

Definition clear_side (best : ptr) : MB unit :=
  match best with
  | None => mret tt
  | Some _ =>
      fuel ← gets (λ b, pool_size (mb_orders_at_price_pool_ b));
      l ← mrd_level best;
      free_levels fuel best (ml_next_entry_ l);;
      mfree_level best
  end.

Definition clear_book : MB unit :=
  free_orders (Z.of_nat <$> seq 0 (Z.to_nat ME_MAX_ORDER_IDS));;
  modify (mb_set_oid_to_order ∅);;
  bids ← gets mb_bids_by_price_;
  clear_side bids;;
  asks ← gets mb_asks_by_price_;
  clear_side asks;;
  modify (mb_set_by_price Side_BUY None);;
  modify (mb_set_by_price Side_SELL None).

(** bid_updated and ask_updated. *)
Definition side_updated (side : Side) (u : MEMarketUpdate) : MB bool :=
  if decide (upd_side_ u = side) then
    best ← gets (mb_by_price side);
    match best with
    | None => mret true
    | Some _ =>
        l ← mrd_level best;
        mret (if decide (side = Side_BUY) then ml_price_ l <=? upd_price_ u
              else upd_price_ u <=? ml_price_ l)
    end
  else mret false.

Definition onMarketUpdate (u : MEMarketUpdate) : MB notification :=
  bid_updated ← side_updated Side_BUY u;
  ask_updated ← side_updated Side_SELL u;
  (match upd_type_ u with
   | MarketUpdateType_ADD =>
       order ← malloc_order (mkMarketOrder (upd_order_id_ u) (upd_side_ u) (upd_price_ u) (upd_qty_ u)
                               (upd_priority_ u) None None);
       mb_addOrder order
   | MarketUpdateType_MODIFY =>
       order ← mb_get_oid (upd_order_id_ u);
       mwr_order order (mo_set_qty (upd_qty_ u))
   | MarketUpdateType_CANCEL =>
       order ← mb_get_oid (upd_order_id_ u);
       mb_removeOrder order
   | MarketUpdateType_CLEAR => clear_book
   | _ => mret tt
   end);;
  if decide (upd_type_ u = MarketUpdateType_TRADE) then mret TradeUpdate
  else
    updateBBO bid_updated ask_updated;;
    mret (BookUpdate (upd_ticker_id_ u) (upd_price_ u) (upd_side_ u)).
End MarketOrderBook.
