(* ===== verification/MarketBookSim.v ===== *)
(** * The two order books share their pointer code

    The methods that keep the lists of orders and levels are written twice in the program, for
    the matching engine and for the trading side.  [matching] reads a trading book as a matching
    engine's book of a single client whose orders are numbered by their market order id; every
    shared method commutes with it.  What is proved of one is thereby proved of the other. *)
From S2P Require Import Prelude Types MemPool EngineSink MEOrderBook MarketOrderBook.
(** ** Mapping the objects of a pool *)
Section pool_map.
Context {A B : Type} (f : A → B).
Implicit Types (p : MemPool A).

Definition block_map (blk : ObjectBlock A) : ObjectBlock B := mkBlock (f (object_ blk)) (is_free_ blk).
Definition pool_map p : MemPool B := mkPool (block_map <$> store_ p) (next_free_index_ p).
Definition result_map {X Y} (g : X → Y) (r : result X) : result Y :=
  match r with Ok x => Ok (g x) | Err e => Err e end.

Lemma pool_map_lookup p i : store_ (pool_map p) !! i = block_map <$> store_ p !! i.
Proof. apply list_lookup_fmap. Qed.

Lemma deref_map x p : deref x (pool_map p) = result_map f (deref x p).
Proof.
  destruct x as [i|]; [|done]. unfold deref. rewrite pool_map_lookup. by destruct (store_ p !! i).
Qed.

Lemma pool_map_insert p i x b n :
  mkPool (<[i := mkBlock (f x) b]> (store_ (pool_map p))) n
  = pool_map (mkPool (<[i := mkBlock x b]> (store_ p)) n).
Proof. unfold pool_map. cbn. by rewrite list_fmap_insert. Qed.

Lemma update_map x (g : A → A) (g' : B → B) p :
  (∀ a, g' (f a) = f (g a)) → update x g' (pool_map p) = result_map pool_map (update x g p).
Proof.
  intros Hg. destruct x as [i|]; [|done]. unfold update. rewrite pool_map_lookup.
  destruct (store_ p !! i) as [blk|]; [|done]. cbn [fmap option_fmap option_map block_map object_ is_free_ result_map].
  rewrite Hg. f_equal. apply pool_map_insert.
Qed.

Lemma find_next_free_map fuel initial next (l : list (ObjectBlock A)) :
  find_next_free fuel initial next (block_map <$> l) = find_next_free fuel initial next l.
Proof.
  revert next. induction fuel as [|fuel IH]; intros next; cbn [find_next_free]; rewrite list_lookup_fmap;
    destruct (l !! next) as [blk|]; try done; cbn [fmap option_fmap option_map block_map is_free_];
    destruct (is_free_ blk); try done.
  rewrite length_fmap. cbv zeta. by rewrite IH.
Qed.

Lemma allocate_map a p :
  allocate (f a) (pool_map p) = result_map (λ x, (x.1, pool_map x.2)) (allocate a p).
Proof.
  unfold allocate. change (next_free_index_ (pool_map p)) with (next_free_index_ p). rewrite pool_map_lookup.
  destruct (store_ p !! next_free_index_ p) as [blk|]; [|done].
  cbn [fmap option_fmap option_map block_map is_free_]. destruct (is_free_ blk); [|done].
  unfold updateNextFreeIndex. cbn [store_ next_free_index_].
  change (store_ (pool_map p)) with (block_map <$> store_ p).
  change (mkBlock (f a) false) with (block_map (mkBlock a false)).
  rewrite <- list_fmap_insert, length_fmap, find_next_free_map.
  by destruct (find_next_free _ _ _ _).
Qed.

Lemma deallocate_map x p : deallocate x (pool_map p) = result_map pool_map (deallocate x p).
Proof.
  destruct x as [i|]; [|done]. unfold deallocate. rewrite pool_map_lookup.
  destruct (store_ p !! i) as [blk|]; [|done]. cbn [fmap option_fmap option_map block_map object_ is_free_].
  destruct (is_free_ blk); [done|]. cbn [result_map]. f_equal. apply pool_map_insert.
Qed.

Lemma pool_size_map p : pool_size (pool_map p) = pool_size p.
Proof. apply length_fmap. Qed.
End pool_map.

(** ** The reading *)
Definition as_MEOrder (o : MarketOrder) : MEOrder :=
  mkMEOrder 0 0 (mo_order_id_ o) (mo_order_id_ o) (mo_side_ o) (mo_price_ o) (mo_qty_ o)
    (mo_priority_ o) (mo_prev_order_ o) (mo_next_order_ o).
Definition as_MEOrdersAtPrice (l : MarketOrdersAtPrice) : MEOrdersAtPrice :=
  mkMEOrdersAtPrice (ml_side_ l) (ml_price_ l) (first_mkt_order_ l) (ml_prev_entry_ l) (ml_next_entry_ l).

Definition matching (b : MarketOrderBook) : MEOrderBook :=
  mkMEOrderBook (mb_ticker_id_ b) (kmap (pair 0) (oid_to_order_ b))
    (pool_map as_MEOrdersAtPrice (mb_orders_at_price_pool_ b)) (mb_bids_by_price_ b)
    (mb_asks_by_price_ b) (mb_price_orders_at_price_ b) (pool_map as_MEOrder (mb_order_pool_ b)) 0.

(** The shared methods send nothing. *)
#[export] Instance null_sink : EngineSink unit := {|
  sendClientResponse _ e := e;
  sendMarketUpdate _ e := e
|}.

(** [m'] does to the reading what [m] does to the book, and [m] leaves the BBO alone. *)
Definition sim {A A'} (r : A → A') (m : M MarketOrderBook A) (m' : M (MEOrderBook * unit) A') : Prop :=
  ∀ b, match m b with
       | Ok (a, b') => m' (matching b, tt) = Ok (r a, (matching b', tt)) ∧ bbo_ b' = bbo_ b
       | Err e => m' (matching b, tt) = Err e
       end.

(** What is proved of the reading holds of the book. *)
Lemma sim_wp {A A'} (r : A → A') m m' b (Q : A' → MEOrderBook * unit → Prop) :
  sim r m m' → wp m' (matching b, tt) Q →
  wp m b (λ a b', Q (r a) (matching b', tt) ∧ bbo_ b' = bbo_ b).
Proof.
  intros Hs. specialize (Hs b). unfold wp. destruct (m b) as [[a b']|e].
  - destruct Hs as [-> Hb]. done.
  - by rewrite Hs.
Qed.

#[local] Arguments deref : simpl never.
#[local] Arguments update : simpl never.
#[local] Arguments allocate : simpl never.
#[local] Arguments deallocate : simpl never.

Ltac sim_unfold :=
  unfold book_gets, book_modify, lift, modify, gets, mbind, M_bind, mret, M_ret; cbn.

Section sim_rules.
Context `{Limits}.

Lemma sim_ret {A A'} (r : A → A') a : sim r (mret a) (mret (r a)).
Proof. intros b. done. Qed.

Lemma sim_throw {A A'} (r : A → A') e : sim r (throw e) (throw e).
Proof. intros b. done. Qed.

Lemma sim_bind {A A' B B'} (r : A → A') (r2 : B → B') m m' f f' :
  sim r m m' → (∀ a, sim r2 (f a) (f' (r a))) → sim r2 (m ≫= f) (m' ≫= f').
Proof.
  intros Hm Hf b. specialize (Hm b). unfold mbind, M_bind. destruct (m b) as [[a b']|e].
  - destruct Hm as [-> Hb]. specialize (Hf a b'). destruct (f a b') as [[c b'']|e]; [|done].
    destruct Hf as [-> Hb']. split; [done|congruence].
  - by rewrite Hm.
Qed.

Lemma sim_rd_order x : sim as_MEOrder (mrd_order x) (rd_order x).
Proof.
  intros b. unfold mrd_order, rd_order. sim_unfold. rewrite deref_map.
  by destruct (deref x (mb_order_pool_ b)).
Qed.

Lemma sim_rd_level x : sim as_MEOrdersAtPrice (mrd_level x) (rd_level x).
Proof.
  intros b. unfold mrd_level, rd_level. sim_unfold. rewrite deref_map.
  by destruct (deref x (mb_orders_at_price_pool_ b)).
Qed.

Lemma sim_wr_order x g g' :
  (∀ o, g' (as_MEOrder o) = as_MEOrder (g o)) → sim id (mwr_order x g) (wr_order x g').
Proof.
  intros Hg b. unfold mwr_order, wr_order. sim_unfold.
  rewrite (update_map as_MEOrder x g g') by done. by destruct (update x g (mb_order_pool_ b)).
Qed.

Lemma sim_wr_level x g g' :
  (∀ l, g' (as_MEOrdersAtPrice l) = as_MEOrdersAtPrice (g l)) → sim id (mwr_level x g) (wr_level x g').
Proof.
  intros Hg b. unfold mwr_level, wr_level. sim_unfold.
  rewrite (update_map as_MEOrdersAtPrice x g g') by done.
  by destruct (update x g (mb_orders_at_price_pool_ b)).
Qed.

Lemma sim_alloc_order o : sim id (malloc_order o) (alloc_order (as_MEOrder o)).
Proof.
  intros b. unfold malloc_order, alloc_order. sim_unfold.
  rewrite allocate_map. by destruct (allocate o (mb_order_pool_ b)) as [[i p]|].
Qed.

Lemma sim_alloc_level l : sim id (malloc_level l) (alloc_level (as_MEOrdersAtPrice l)).
Proof.
  intros b. unfold malloc_level, alloc_level. sim_unfold.
  rewrite allocate_map. by destruct (allocate l (mb_orders_at_price_pool_ b)) as [[i p]|].
Qed.

Lemma sim_free_order x : sim id (mfree_order x) (free_order x).
Proof.
  intros b. unfold mfree_order, free_order. sim_unfold.
  rewrite deallocate_map. by destruct (deallocate x (mb_order_pool_ b)).
Qed.

Lemma sim_free_level x : sim id (mfree_level x) (free_level x).
Proof.
  intros b. unfold mfree_level, free_level. sim_unfold.
  rewrite deallocate_map. by destruct (deallocate x (mb_orders_at_price_pool_ b)).
Qed.

Lemma sim_by_price s : sim id (gets (mb_by_price s)) (book_gets (by_price s)).
Proof. intros b. unfold mb_by_price, by_price. sim_unfold. split; [by case_decide|done]. Qed.

Lemma sim_set_by_price s x : sim id (modify (mb_set_by_price s x)) (book_modify (set_by_price s x)).
Proof. intros b. unfold mb_set_by_price, set_by_price. sim_unfold. by case_decide. Qed.

Lemma sim_getOrdersAtPrice p : sim id (mb_getOrdersAtPrice p) (getOrdersAtPrice p).
Proof. intros b. done. Qed.

Lemma sim_set_slot p x : sim id (mb_set_slot p x) (set_orders_at_price_slot p x).
Proof. intros b. done. Qed.

Lemma sim_level_fuel :
  sim id (gets (λ b, pool_size (mb_orders_at_price_pool_ b))) (book_gets (λ b, pool_size (orders_at_price_pool_ b))).
Proof. intros b. split; [|done]. unfold book_gets, gets. cbn [compose fst].
  change (orders_at_price_pool_ (matching b)) with (pool_map as_MEOrdersAtPrice (mb_orders_at_price_pool_ b)).
  by rewrite pool_size_map. Qed.

Lemma sim_set_oid o x : 0 < ME_MAX_NUM_CLIENTS → sim id (mb_set_oid o x) (set_cid_oid 0 o x).
Proof.
  intros Hc b. unfold mb_set_oid, set_cid_oid. rewrite (proj2 (Z.ltb_lt _ _) Hc). cbn [andb].
  destruct (o <? ME_MAX_ORDER_IDS); [|done]. cbn. split; [|done]. do 2 f_equal.
  unfold matching, set_cid_oid_to_order, mb_set_oid_to_order. cbn. do 2 f_equal.
  destruct x as [i|]; cbn [slot_set].
  - by rewrite (kmap_insert (pair 0)).
  - by rewrite (kmap_delete (pair 0)).
Qed.
End sim_rules.

(** One step of a simulation proof: the primitives by their rules, the branches by cases on
    conditions that are the same on both sides. *)
Ltac sim_prim :=
  first
    [ apply sim_rd_order | apply sim_rd_level | apply sim_alloc_order | apply sim_alloc_level
    | apply sim_free_order | apply sim_free_level | apply sim_by_price | apply sim_set_by_price
    | apply sim_getOrdersAtPrice | apply sim_set_slot | apply sim_level_fuel
    | apply sim_set_oid; assumption
    | apply sim_wr_order; intros []; reflexivity
    | apply sim_wr_level; intros []; reflexivity ].

Ltac sim_step :=
  cbn [id as_MEOrder as_MEOrdersAtPrice o_client_id_ o_client_order_id_ o_side_ o_price_ o_qty_
       o_priority_ prev_order_ next_order_ l_side_ l_price_ first_me_order_ prev_entry_ next_entry_];
  lazymatch goal with
  | |- sim _ (mret _) _ => apply sim_ret
  | |- sim _ (if ?c then _ else _) (if ?c then _ else _) => destruct c
  | |- sim _ (match ?c with Some _ => _ | None => _ end) (match ?c with Some _ => _ | None => _ end) => destruct c
  | |- sim _ (_ ≫= _) _ => eapply sim_bind; [first [sim_prim | idtac] | intros ?]
  | |- _ => sim_prim
  end.

Section shared.
Context `{Limits}.

Lemma sim_find_target fuel n best target c :
  sim id (mb_find_target fuel n best target c)
    (find_target fuel (as_MEOrdersAtPrice n) best target c).
Proof.
  revert target c. induction fuel as [|fuel IH]; intros target c; cbn [mb_find_target find_target];
    destruct (c && bool_decide (target ≠ best)); try apply (sim_ret id); [apply sim_throw|].
  sim_step. change (goes_after _ _) with (mb_goes_after n a).
  destruct (mb_goes_after n a); [apply IH|apply (sim_ret id)].
Qed.

Lemma sim_position fuel n best :
  sim id (mb_position fuel n best) (position fuel (as_MEOrdersAtPrice n) best).
Proof.
  unfold mb_position, position. sim_step.
  change (goes_after _ (as_MEOrdersAtPrice a)) with (mb_goes_after n a).
  destruct (mb_goes_after n a); [|apply sim_find_target].
  sim_step. change (goes_after _ (as_MEOrdersAtPrice a0)) with (mb_goes_after n a0). apply sim_find_target.
Qed.

Lemma sim_link_after new target : sim id (mb_link_after new target) (link_after new target).
Proof. unfold mb_link_after, link_after. repeat sim_step. Qed.

Lemma sim_link_before new target : sim id (mb_link_before new target) (link_before new target).
Proof. unfold mb_link_before, link_before. repeat sim_step. Qed.

Lemma sim_addOrdersAtPrice new : sim id (mb_addOrdersAtPrice new) (addOrdersAtPrice new).
Proof.
  unfold mb_addOrdersAtPrice, addOrdersAtPrice. do 3 sim_step.
  sim_step; [|by repeat sim_step].
  sim_step. eapply sim_bind; [apply sim_position|]. intros r. cbn [id].
  destruct (r.2); [sim_step; apply sim_link_after|].
  eapply sim_bind; [apply sim_link_before|]. intros _. repeat sim_step.
Qed.

Lemma sim_removeOrdersAtPrice s p : sim id (mb_removeOrdersAtPrice s p) (removeOrdersAtPrice s p).
Proof.
  unfold mb_removeOrdersAtPrice, removeOrdersAtPrice. do 3 sim_step.
  eapply sim_bind; [|intros ?; repeat sim_step]. sim_step; repeat sim_step.
Qed.
End shared.

Section shared_orders.
Context `{Limits} (Hclients : 0 < ME_MAX_NUM_CLIENTS).

Lemma sim_removeOrder order : sim id (mb_removeOrder order) (removeOrder order).
Proof.
  unfold mb_removeOrder, removeOrder. do 2 sim_step.
  eapply (sim_bind id); [|intros ?; repeat sim_step].
  sim_step; [apply sim_removeOrdersAtPrice|]. repeat sim_step.
Qed.

Lemma sim_addOrder order : sim id (mb_addOrder order) (addOrder order).
Proof.
  unfold mb_addOrder, addOrder. do 2 sim_step.
  eapply (sim_bind id); [|intros ?; repeat sim_step].
  sim_step; [by repeat sim_step|]. do 2 sim_step.
  eapply sim_bind; [|intros ?; apply sim_addOrdersAtPrice].
  apply (sim_alloc_level (mkMarketOrdersAtPrice _ _ _ _ _)).
Qed.
End shared_orders.

(** The trading side keeps its order book as the matching engine does: adding an order to a
    price level and removing one do to the reading of the trading book as a matching engine's
    book exactly what the engine's own methods do, faults included. *)
Theorem books_share_code `{Limits} order (b : MarketOrderBook) :
  0 < ME_MAX_NUM_CLIENTS →
  addOrder order (matching b, tt) = result_map (λ x, (x.1, (matching x.2, tt))) (mb_addOrder order b) ∧
  removeOrder order (matching b, tt) = result_map (λ x, (x.1, (matching x.2, tt))) (mb_removeOrder order b).
Proof.
  intros Hc. split.
  - pose proof (sim_addOrder Hc order b) as Hs. destruct (mb_addOrder order b) as [[[] b']|]; [by destruct Hs|done].
  - pose proof (sim_removeOrder Hc order b) as Hs. destruct (mb_removeOrder order b) as [[[] b']|]; [by destruct Hs|done].
Qed.
