(* ===== verification/MarketBookSpec.v ===== *)
(** * What the trading side's book promises

    The abstract book is that of BookSpec.v, with the orders keyed by their market order id; the
    best bid and offer is a function of it. *)
From S2P Require Import Prelude Types EngineSink BookSpec BookSweep BookInv BookReplay.
From S2P Require Import MEOrderBook BookRep BookRefine BookCancel MarketOrderBook.
Implicit Types (o : Order) (os : list Order) (ls : list Level) (s : Side) (bk : Book)
  (u : MEMarketUpdate).

(** ** The best bid and offer *)

(** The quantities are added up in 32 bits. *)
Definition level_qty os : Z :=
  match os with [] => 0 | o :: os => foldl (λ q o, u32 (q + s_qty o)) (s_qty o) os end.

Definition best_quote ls : Z * Z :=
  match ls with [] => (Price_INVALID, Qty_INVALID) | (p, os) :: _ => (p, level_qty os) end.

Definition quote bk : BBO :=
  mkBBO (best_quote (levels bk).1).1 (best_quote (levels bk).2).1
    (best_quote (levels bk).1).2 (best_quote (levels bk).2).2.

(** ** Applying an update *)
Definition order_of_update u : Order :=
  mkOrder 0 0 (upd_order_id_ u) (upd_order_id_ u) (upd_side_ u) (upd_price_ u) (upd_qty_ u) (upd_priority_ u).

Definition requantify (oid q : Z) o : Order := if decide (has_key 0 oid o) then with_qty q o else o.

Definition set_qty_in (oid q : Z) ls : list Level := (λ l : Level, (l.1, requantify oid q <$> l.2)) <$> ls.

Definition spec_md u bk : Book :=
  match upd_type_ u with
  | MarketUpdateType_ADD =>
      mkBook (upd (upd_side_ u) (insert_order (order_of_update u) (sel (upd_side_ u) (levels bk))) (levels bk))
        (next_id bk)
  | MarketUpdateType_MODIFY =>
      mkBook (set_qty_in (upd_order_id_ u) (upd_qty_ u) (levels bk).1,
              set_qty_in (upd_order_id_ u) (upd_qty_ u) (levels bk).2) (next_id bk)
  | MarketUpdateType_CANCEL =>
      mkBook (delete_order 0 (upd_order_id_ u) (levels bk).1, delete_order 0 (upd_order_id_ u) (levels bk).2)
        (next_id bk)
  | _ => bk
  end.

(** What the book relies on: an ADD brings a new order that there is room for, at a price that is
    not live on the other side (the two sides share the table of levels by price); a MODIFY
    or a CANCEL names a live order with its side and price; a CLEAR, which begins a snapshot, finds the
    book empty, as it is when the snapshot is the first that the book is told. *)
Definition md_ok `{Limits} u bk : Prop :=
  match upd_type_ u with
  | MarketUpdateType_ADD =>
      trading_side (upd_side_ u) ∧ is_u32 (upd_qty_ u) ∧
      (upd_price_ u ∉ (sel (opp (upd_side_ u)) (levels bk)).*1) ∧ can_rest 0 (upd_order_id_ u) (upd_price_ u) bk
  | MarketUpdateType_MODIFY =>
      is_u32 (upd_qty_ u) ∧
      ∃ o, find_order 0 (upd_order_id_ u) bk = Some o ∧ s_side o = upd_side_ u ∧ s_price o = upd_price_ u
  | MarketUpdateType_CANCEL =>
      ∃ o, find_order 0 (upd_order_id_ u) bk = Some o ∧ s_side o = upd_side_ u ∧ s_price o = upd_price_ u
  | MarketUpdateType_CLEAR => levels bk = ([], [])
  | _ => True
  end.

(** ** Well-formed books, as far as the quote depends on it *)
Record book_ok bk : Prop := {
  bo_levels : ∀ s p os o, trading_side s → (p, os) ∈ sel s (levels bk) → o ∈ os → s_side o = s ∧ s_price o = p;
  bo_nonempty : ∀ s p os, trading_side s → (p, os) ∈ sel s (levels bk) → os ≠ [];
  bo_unique : ∀ o o', o ∈ book_orders bk → o' ∈ book_orders bk →
    s_client o = s_client o' → s_coid o = s_coid o' → o = o'
}.

(** The update cannot touch the best level of the side. *)
Definition behind s u ls : Prop :=
  upd_side_ u ≠ s ∨
  match ls with [] => False | (p, _) :: _ => before s p (upd_price_ u) = true end.

Lemma head_orders bk s p os ls o :
  trading_side s → sel s (levels bk) = (p, os) :: ls → o ∈ os → o ∈ book_orders bk.
Proof.
  intros Hs Hl Ho. apply (book_orders_side s); [done|]. left. rewrite Hl. unfold flat.
  apply list_elem_of_bind. exists (p, os). split; [done|set_solver].
Qed.

(** No order of the best level is the one that the update names. *)
Lemma behind_not_key bk s u p os ls o :
  book_ok bk → trading_side s → sel s (levels bk) = (p, os) :: ls → behind s u ((p, os) :: ls) →
  (∃ o', find_order 0 (upd_order_id_ u) bk = Some o' ∧ s_side o' = upd_side_ u ∧ s_price o' = upd_price_ u) →
  o ∈ os → ¬ has_key 0 (upd_order_id_ u) o.
Proof.
  intros Hok Hs Hl Hb (o' & Hf & Hos & Hop) Ho [Hk1 Hk2].
  apply find_order_Some in Hf as [Hin [Hk1' Hk2']].
  assert (o = o') as ->.
  { apply (bo_unique _ Hok); [by eapply head_orders|done|congruence|congruence]. }
  destruct (bo_levels _ Hok s p os o' Hs) as [Hs' Hp']; [rewrite Hl; set_solver|done|].
  destruct Hb as [Hne|Hb]; [congruence|]. rewrite <- Hop, Hp', before_irrefl in Hb. done.
Qed.

Lemma requantify_other oid q os :
  (∀ o, o ∈ os → ¬ has_key 0 oid o) → requantify oid q <$> os = os.
Proof.
  induction os as [|o os IH]; intros Hk; [done|]. cbn. rewrite IH by set_solver.
  unfold requantify. by rewrite decide_False by (apply Hk; set_solver).
Qed.

(** An update behind the best level leaves the quote of the side as it was. *)
Lemma behind_quote `{Limits} bk s u :
  book_ok bk → md_ok u bk → trading_side s → behind s u (sel s (levels bk)) →
  best_quote (sel s (levels (spec_md u bk))) = best_quote (sel s (levels bk)).
Proof.
  intros Hok Hmd Hs Hb. unfold spec_md, md_ok in *. destruct (upd_type_ u) eqn:Ht; try done.
  - destruct Hmd as (Hsu & _ & _). cbn [levels]. destruct (decide (upd_side_ u = s)) as [<-|Hne].
    + rewrite sel_upd. destruct Hb as [?|Hb]; [done|].
      destruct (sel (upd_side_ u) (levels bk)) as [|[p os] ls] eqn:Hl; [done|].
      cbn [insert_order order_of_update s_price s_side].
      rewrite (proj2 (Z.eqb_neq _ _)) by (intros ->; by rewrite before_irrefl in Hb). by rewrite Hb.
    + assert (∀ x, sel s (upd (upd_side_ u) x (levels bk)) = sel s (levels bk)) as Hsel; [|by rewrite Hsel].
      intros x. clear Hb. revert Hne. by destruct Hsu as [-> | ->], Hs as [-> | ->].
  - destruct Hmd as (_ & Hf). cbn [levels].
    assert (sel s (set_qty_in (upd_order_id_ u) (upd_qty_ u) (levels bk).1,
                   set_qty_in (upd_order_id_ u) (upd_qty_ u) (levels bk).2)
            = set_qty_in (upd_order_id_ u) (upd_qty_ u) (sel s (levels bk))) as ->
      by (unfold sel; by case_decide).
    destruct (sel s (levels bk)) as [|[p os] ls] eqn:Hl; [done|]. cbn. f_equal.
    rewrite requantify_other; [done|]. intros o Ho. by eapply behind_not_key.
  - cbn [levels].
    assert (sel s (delete_order 0 (upd_order_id_ u) (levels bk).1, delete_order 0 (upd_order_id_ u) (levels bk).2)
            = delete_order 0 (upd_order_id_ u) (sel s (levels bk))) as ->
      by (unfold sel; by case_decide).
    destruct (sel s (levels bk)) as [|[p os] ls] eqn:Hl; [done|]. cbn [delete_order].
    rewrite filter_not_key by (intros o Ho; by eapply behind_not_key).
    pose proof (bo_nonempty _ Hok s p os Hs) as Hne. rewrite Hl in Hne.
    destruct os as [|o os]; [|done]. exfalso. apply Hne; [set_solver|done].
Qed.

(** ** The orders shown *)

(** The orders of the trading book, as a client of the stream sees them. *)
Lemma book_map_lookup bk i x :
  NoDup (s_moid <$> book_orders bk) →
  book_map bk !! i = Some x ↔ ∃ o, o ∈ book_orders bk ∧ s_moid o = i ∧ shown o = x.
Proof.
  intros Hnd. unfold book_map, shown_map. rewrite <- elem_of_list_to_map by (by rewrite shown_fst).
  rewrite list_elem_of_fmap. split.
  - intros (o & [= -> ->] & Ho). eauto.
  - intros (o & Ho & <- & <-). eauto.
Qed.

(** The orders of the trading side carry no client; they are keyed by the market order id. *)
Record market_book bk : Prop := {
  mk_keys : ∀ o, o ∈ book_orders bk → s_client o = 0 ∧ s_coid o = s_moid o;
  mk_unique : NoDup (s_moid <$> book_orders bk)
}.

Lemma flat_set_qty oid q ls : flat (set_qty_in oid q ls) = requantify oid q <$> flat ls.
Proof.
  induction ls as [|[p os] ls IH]; [done|]. cbn. unfold flat in IH. rewrite fmap_app. by rewrite <- IH.
Qed.

(** The live orders after an update. *)
Lemma spec_md_orders `{Limits} bk u :
  md_ok u bk →
  match upd_type_ u with
  | MarketUpdateType_ADD => book_orders (spec_md u bk) ≡ₚ order_of_update u :: book_orders bk
  | MarketUpdateType_MODIFY =>
      book_orders (spec_md u bk) = requantify (upd_order_id_ u) (upd_qty_ u) <$> book_orders bk
  | MarketUpdateType_CANCEL =>
      book_orders (spec_md u bk) = filter (λ o, ¬ has_key 0 (upd_order_id_ u) o) (book_orders bk)
  | _ => book_orders (spec_md u bk) = book_orders bk
  end.
Proof.
  intros Hmd. unfold spec_md, md_ok in *. destruct (upd_type_ u) eqn:Ht; try done.
  - destruct Hmd as (Hs & _). rewrite (book_orders_perm _ (mkBook _ _) Hs), (book_orders_perm _ bk Hs).
    cbn [levels]. rewrite sel_upd, sel_opp_upd by done. by rewrite insert_order_flat.
  - unfold book_orders. cbn [levels fst snd]. by rewrite !flat_set_qty, fmap_app.
  - unfold book_orders. cbn [levels fst snd]. apply delete_book_orders.
Qed.

Lemma requantify_moid oid q o : s_moid (requantify oid q o) = s_moid o.
Proof. unfold requantify. by case_decide. Qed.

Lemma spec_md_market_book `{Limits} bk u : market_book bk → md_ok u bk → market_book (spec_md u bk).
Proof.
  intros [Hk Hu] Hmd. pose proof (spec_md_orders bk u Hmd) as Ho. unfold md_ok in Hmd.
  destruct (upd_type_ u) eqn:Ht; try (constructor; rewrite Ho; done).
  - destruct Hmd as (_ & _ & _ & (Hfresh & _)). constructor.
    + intros o. rewrite Ho. intros [->|Hin]%elem_of_cons; [done|by apply Hk].
    + rewrite Ho, fmap_cons. apply NoDup_cons. split; [|done].
      intros (o & Hm & Hin)%list_elem_of_fmap. destruct (Hk o Hin) as [Hc Hco].
      apply (Hfresh o Hin). split; [done|]. rewrite Hco, <- Hm. done.
  - constructor; rewrite Ho.
    + intros o (o' & -> & Hin)%list_elem_of_fmap. destruct (Hk o' Hin). unfold requantify. by case_decide.
    + rewrite <- list_fmap_compose. erewrite list_fmap_ext; [exact Hu|].
      intros i o _. apply requantify_moid.
  - constructor; rewrite Ho.
    + intros o [_ Hin]%list_elem_of_filter. by apply Hk.
    + by apply NoDup_fmap_filter.
Qed.

Lemma NoDup_fmap_moid os o o' :
  NoDup (s_moid <$> os) → o ∈ os → o' ∈ os → s_moid o = s_moid o' → o = o'.
Proof.
  intros Hnd (i & Hi)%list_elem_of_lookup (j & Hj)%list_elem_of_lookup Heq.
  assert (i = j) as ->; [|congruence].
  eapply NoDup_lookup; [exact Hnd|by rewrite list_lookup_fmap, Hi|by rewrite list_lookup_fmap, Hj; cbn; f_equal].
Qed.

(** The order that a MODIFY or a CANCEL names, by its market order id. *)
Lemma has_key_moid bk oid o :
  market_book bk → o ∈ book_orders bk → (has_key 0 oid o ↔ s_moid o = oid).
Proof. intros [Hk _] Ho. destruct (Hk o Ho) as [Hc Hm]. unfold has_key. split; [intros [_ ?]; congruence|]. intros. split; congruence. Qed.

(** The book shows what a client of the stream shows. *)
Lemma spec_md_view `{Limits} bk u :
  market_book bk → md_ok u bk → book_map (spec_md u bk) = apply_update u (book_map bk).
Proof.
  intros Hmk Hmd. pose proof (spec_md_market_book bk u Hmk Hmd) as Hmk'.
  pose proof (spec_md_orders bk u Hmd) as Ho. pose proof (mk_unique _ Hmk) as Hu.
  pose proof (mk_unique _ Hmk') as Hu'. unfold apply_update, md_ok in *.
  destruct (upd_type_ u) eqn:Ht; try (unfold book_map; by rewrite Ho).
  - unfold book_map. rewrite Ho. unfold book_orders. by rewrite Hmd.
  - unfold book_map. rewrite (shown_map_perm _ _ Hu' Ho). done.
  - destruct Hmd as (_ & o & Hf & Hos & Hop). apply find_order_Some in Hf as [Hin Hkey].
    apply map_eq. intros i. apply option_eq. intros x. rewrite book_map_lookup by done. rewrite Ho.
    rewrite (has_key_moid bk _ o Hmk Hin) in Hkey. split.
    + intros (o' & (o2 & -> & Hin2)%list_elem_of_fmap & <- & <-). rewrite requantify_moid.
      unfold requantify. case_decide as Hk2; rewrite (has_key_moid bk _ o2 Hmk Hin2) in Hk2.
      * apply lookup_alter_Some. left. split; [congruence|].
        exists (shown o2). split; [apply book_map_lookup; eauto|].
        assert (o2 = o) as -> by (apply (NoDup_fmap_moid _ _ _ Hu); congruence).
        unfold shown. cbn. by rewrite Hop.
      * apply lookup_alter_Some. right. split; [congruence|]. apply book_map_lookup; eauto.
    + intros [(Hi & y & Hy & ->)|(Hne & Hx)]%lookup_alter_Some; [subst i|].
      * apply book_map_lookup in Hy as (o2 & Hin2 & Hm2 & <-); [|done].
        assert (o2 = o) as -> by (apply (NoDup_fmap_moid _ _ _ Hu); congruence).
        exists (requantify (upd_order_id_ u) (upd_qty_ u) o). split_and!.
        -- apply list_elem_of_fmap. eauto.
        -- by rewrite requantify_moid.
        -- unfold requantify. rewrite decide_True by (by apply (has_key_moid bk)).
           unfold shown. cbn. by rewrite Hop.
      * apply book_map_lookup in Hx as (o2 & Hin2 & Hm2 & <-); [|done].
        exists o2. split_and!; [|done|done]. apply list_elem_of_fmap. exists o2. split; [|done].
        unfold requantify. rewrite decide_False; [done|]. rewrite (has_key_moid bk) by done. congruence.
  - apply map_eq. intros i. apply option_eq. intros x. rewrite book_map_lookup by done. rewrite Ho.
    rewrite lookup_delete_Some, book_map_lookup by done. split.
    + intros (o & [Hk Hin]%list_elem_of_filter & <- & <-). rewrite (has_key_moid bk) in Hk by done. eauto.
    + intros (Hne & o & Hin & Hm & <-). exists o. split_and!; [|done|done].
      apply list_elem_of_filter. split; [|done]. rewrite (has_key_moid bk) by done. congruence.
Qed.
