(* ===== verification/MarketBookTheorems.v ===== *)
(** * The trading side's book implements its specification

    Through the reading of MarketBookSim.v the proofs about the matching engine's pointer code
    serve the trading side; what is new here is the best bid and offer. *)
From S2P Require Import Prelude Types MemPool CircList EngineSink BookSpec BookSweep BookInv.
From S2P Require Import BookReplay MEOrderBook BookRep BookPtr BookLevels BookFrame BookRemove.
From S2P Require Import BookAdd BookMatch BookRefine BookTheorems.
From S2P Require Import BookCancel MarketOrderBook MarketBookSim MarketBookSpec.
Implicit Types (om : gmap nat MEOrder) (lm : gmap nat MEOrdersAtPrice) (gs : list GLevel)
  (gos : list (nat * Order)) (bst : ptr * ptr) (pm : gmap Z nat) (cm : gmap (Z * Z) nat)
  (G : list GLevel * list GLevel) (b : MarketOrderBook) (nid : Z) (bk : Book) (s : Side)
  (u : MEMarketUpdate).

Section reading.
Context `{Limits}.

Lemma wp_mrd_order b om lm bst pm cm nid i x (Q : MarketOrder → MarketOrderBook → Prop) :
  view (matching b) om lm bst pm cm nid → om !! i = Some x →
  (∀ o, as_MEOrder o = x → Q o b) → wp (mrd_order (Some i)) b Q.
Proof.
  intros (<- & _) Hi HQ. apply deref_heap in Hi. cbn [matching order_pool_] in Hi.
  rewrite deref_map in Hi. unfold mrd_order. apply wp_bind, wp_gets.
  destruct (deref (Some i) (mb_order_pool_ b)) as [o|] eqn:Hd; [|done]. cbn in Hi. injection Hi as Hi.
  eapply wp_lift; [reflexivity|by apply HQ].
Qed.

Lemma wp_mrd_level b om lm bst pm cm nid i l (Q : MarketOrdersAtPrice → MarketOrderBook → Prop) :
  view (matching b) om lm bst pm cm nid → lm !! i = Some l →
  (∀ o, as_MEOrdersAtPrice o = l → Q o b) → wp (mrd_level (Some i)) b Q.
Proof.
  intros (_ & _ & _ & <- & _) Hi HQ. apply deref_heap in Hi. cbn [matching orders_at_price_pool_] in Hi.
  rewrite deref_map in Hi. unfold mrd_level. apply wp_bind, wp_gets.
  destruct (deref (Some i) (mb_orders_at_price_pool_ b)) as [o|] eqn:Hd; [|done]. cbn in Hi. injection Hi as Hi.
  eapply wp_lift; [reflexivity|by apply HQ].
Qed.

(** ** The best bid and offer *)

(** The loop over the orders of a level, from those that are left. *)
Lemma wp_sum_qty b om lm bst pm cm nid s p h gos1 gos2 fuel qty (Q : Z → MarketOrderBook → Prop) :
  view (matching b) om lm bst pm cm nid → NoDup (h :: gos1.*1 ++ gos2.*1) →
  circ (onxt om) (oprv om) (h :: gos1.*1 ++ gos2.*1) → Forall (order_rep om s p) gos2 →
  (length gos2 ≤ fuel)%nat →
  Q (foldl (λ q o, u32 (q + s_qty o)) qty gos2.*2) b →
  wp (sum_qty fuel (Some h) (head (gos2.*1 ++ [h])) qty) b Q.
Proof.
  intros Hv Hnd Hc Hf. revert gos1 fuel qty Hnd Hc. induction Hf as [|[i o] gos2 Ho Hf IH];
    intros gos1 fuel qty Hnd Hc Hfuel HQ.
  - cbn. destruct fuel; cbn [sum_qty]; rewrite decide_True by done; by apply wp_ret.
  - cbn [fmap list_fmap fst snd app head] in *.
    assert (i ≠ h) as Hih.
    { intros ->. apply NoDup_cons in Hnd as [Hn _]. apply Hn. set_solver. }
    destruct fuel as [|fuel]; [cbn in Hfuel; lia|]. cbn [sum_qty]. rewrite decide_False by congruence.
    destruct Ho as (Hi & _). cbn [fst snd] in Hi. destruct (om !! i) as [x|] eqn:Hx; [|done].
    cbn in Hi. injection Hi as Hi.
    apply wp_bind. eapply wp_mrd_order; [exact Hv|exact Hx|]. intros mo Hmo.
    assert (mo_next_order_ mo = head (gos2.*1 ++ [h])) as ->.
    { pose proof (circ_next _ _ (h :: gos1.*1) i gos2.*1 Hc) as Hnx. unfold onxt in Hnx. rewrite Hx in Hnx.
      cbn in Hnx. subst x. cbn in Hnx. rewrite Hnx. by destruct gos2.*1. }
    assert (mo_qty_ mo = s_qty o) as -> by (subst o x; done).
    apply (IH (gos1 ++ [(i, o)])).
    + by rewrite fmap_app, <- app_assoc.
    + by rewrite fmap_app, <- app_assoc.
    + cbn in Hfuel. lia.
    + done.
Qed.

(** The orders of one level fit in the pool. *)
Lemma level_orders_bound bm nid G s lp p gos gs :
  trading_side s → book_rep bm G nid → sel s G = (lp, (p, gos)) :: gs →
  (length gos ≤ pool_size (order_pool_ bm))%nat.
Proof.
  intros Hs Hr HG. destruct (rep_wf _ _ _ _ Hs Hr) as (_ & _ & Hle). rewrite HG, gorders_cons, length_app in Hle.
  cbn in Hle. lia.
Qed.

Lemma wp_best_of b G nid s best (Q : Z * Z → MarketOrderBook → Prop) :
  book_rep (matching b) G nid → trading_side s → best = mb_by_price s b →
  Q (best_quote (abs_levels (sel s G))) b → wp (best_of best) b Q.
Proof.
  intros Hr Hs Hb HQ. pose proof Hr as (om & lm & bst & pm & cm & Hv & Hrep).
  pose proof (rep_side _ _ _ _ _ _ s Hs Hrep) as (Hbest & Hcl & Hf & _).
  assert (mb_by_price s b = sel s bst) as Hby.
  { unfold view in Hv. destruct_and! Hv. unfold mb_by_price, sel. subst bst. cbn. by case_decide. }
  rewrite Hb, Hby, Hbest. destruct (sel s G) as [|[lp [p gos]] gs] eqn:HG; cbn [fmap list_fmap head fst].
  { by apply wp_ret. }
  apply Forall_cons in Hf as [(Hne & Hd & Hfo & Hco) _]. cbn [fst snd] in Hne, Hd, Hfo, Hco.
  destruct gos as [|[h oh] gos]; [done|]. cbn [fmap list_fmap head fst snd] in Hd, Hco.
  destruct (rep_order _ _ _ _ _ _ s [] lp p [] h oh gos gs Hs Hrep HG)
    as ((xh & Hxh & Hoh & _) & (l & Hl & Hld) & _ & _ & _ & Hndo & _).
  cbn [app fmap list_fmap fst] in Hndo.
  apply wp_bind, wp_gets, wp_bind. eapply wp_mrd_level; [exact Hv|exact Hl|]. intros ml Hml.
  assert (first_mkt_order_ ml = Some h ∧ ml_price_ ml = p) as [-> ->].
  { subst l. unfold level_data in Hld. cbn in Hld. by injection Hld. }
  apply wp_bind. eapply wp_mrd_order; [exact Hv|exact Hxh|]. intros mo Hmo.
  assert (mo_next_order_ mo = head (gos.*1 ++ [h])) as ->.
  { pose proof (circ_next _ _ [] h gos.*1 Hco) as Hnx. unfold onxt in Hnx. rewrite Hxh in Hnx.
    cbn in Hnx. subst xh. cbn in Hnx. rewrite Hnx. by destruct gos.*1. }
  assert (mo_qty_ mo = s_qty oh) as -> by (subst oh xh; done).
  apply Forall_cons in Hfo as [_ Hfo].
  apply wp_bind. eapply (wp_sum_qty _ _ _ _ _ _ _ s p h [] gos); [exact Hv|done|done|exact Hfo| |].
  - pose proof (level_orders_bound _ _ _ _ _ _ _ _ Hs Hr HG) as Hle.
    cbn [matching order_pool_] in Hle. rewrite pool_size_map in Hle. cbn in Hle. lia.
  - apply wp_ret. unfold best_quote, level_qty in HQ. cbn in HQ. exact HQ.
Qed.

Lemma matching_set_bbo x b : matching (mb_set_bbo x b) = matching b.
Proof. done. Qed.

Lemma wp_updateBBO b G nid (ub ua : bool) (Q : unit → MarketOrderBook → Prop) :
  book_rep (matching b) G nid →
  let bids := best_quote (abs_levels G.1) in let asks := best_quote (abs_levels G.2) in
  (∀ b', matching b' = matching b →
     bbo_ b' = mkBBO (if ub then bids.1 else bid_price_ (bbo_ b)) (if ua then asks.1 else ask_price_ (bbo_ b))
                 (if ub then bids.2 else bid_qty_ (bbo_ b)) (if ua then asks.2 else ask_qty_ (bbo_ b)) →
     Q tt b') →
  wp (updateBBO ub ua) b Q.
Proof.
  intros Hr bids asks HQ. unfold updateBBO. apply wp_bind.
  assert (∀ b1, matching b1 = matching b →
    bbo_ b1 = mkBBO (if ub then bids.1 else bid_price_ (bbo_ b)) (ask_price_ (bbo_ b))
                (if ub then bids.2 else bid_qty_ (bbo_ b)) (ask_qty_ (bbo_ b)) →
    wp (if ua then
          best ← gets mb_asks_by_price_; x ← best_of best;
          modify (λ b, mb_set_bbo (mkBBO (bid_price_ (bbo_ b)) x.1 (bid_qty_ (bbo_ b)) x.2) b)
        else mret tt) b1 Q) as Hasks.
  { intros b1 Hm1 Hb1. destruct ua.
    - apply wp_bind, wp_gets, wp_bind. rewrite <- Hm1 in Hr.
      eapply (wp_best_of b1 G nid Side_SELL); [exact Hr|by right|done|].
      apply wp_modify, HQ; [done|]. cbn. by rewrite Hb1.
    - apply wp_ret, HQ; [done|]. rewrite Hb1. by destruct (bbo_ b). }
  destruct ub.
  - apply wp_bind, wp_gets, wp_bind. eapply (wp_best_of b G nid Side_BUY); [exact Hr|by left|done|].
    apply wp_modify, Hasks; [done|]. by destruct (bbo_ b).
  - apply wp_ret, Hasks; [done|]. by destruct (bbo_ b).
Qed.

(** ** onMarketUpdate *)

(** When the side is not to be updated, its best level is more aggressive than the update. *)
Lemma wp_side_updated b G nid bk s u (Q : bool → MarketOrderBook → Prop) :
  book_rep (matching b) G nid → levels bk = (abs_levels G.1, abs_levels G.2) → trading_side s →
  (∀ c, c = true ∨ behind s u (sel s (levels bk)) → Q c b) →
  wp (side_updated s u) b Q.
Proof.
  intros Hr Hlv Hs HQ. pose proof Hr as (om & lm & bst & pm & cm & Hv & Hrep).
  unfold side_updated. case_decide as Hsu; [|apply wp_ret, HQ; right; by left].
  pose proof (rep_side _ _ _ _ _ _ s Hs Hrep) as (Hbest & _ & Hf & _).
  apply wp_bind, wp_gets.
  assert (mb_by_price s b = sel s bst) as ->.
  { unfold view in Hv. destruct_and! Hv. unfold mb_by_price, sel. subst bst. cbn. by case_decide. }
  rewrite Hbest. destruct (sel s G) as [|[lp [p gos]] gs] eqn:HG; cbn [fmap list_fmap head fst].
  { apply wp_ret, HQ. by left. }
  apply Forall_cons in Hf as [(_ & Hd & _) _]. cbn [fst snd] in Hd.
  destruct (lm !! lp) as [l|] eqn:Hl; [|done]. cbn in Hd.
  apply wp_bind. eapply wp_mrd_level; [exact Hv|exact Hl|]. intros ml Hml.
  assert (ml_price_ ml = p) as -> by (subst l; unfold level_data in Hd; cbn in Hd; by injection Hd).
  apply wp_ret, HQ. rewrite Hlv, sel_abs, HG. unfold behind, before. cbn.
  destruct (decide (s = Side_BUY)); [destruct (p <=? upd_price_ u) eqn:E|destruct (upd_price_ u <=? p) eqn:E];
    try (by left); right; right; lia.
Qed.

(** A live order by its market order id. *)
Lemma wp_get_oid b om lm bst pm cm G nid bk oid o (Q : ptr → MarketOrderBook → Prop) :
  view (matching b) om lm bst pm cm nid → rep om lm bst pm cm G →
  levels bk = (abs_levels G.1, abs_levels G.2) → find_order 0 oid bk = Some o →
  (∀ i, cm !! (0, oid) = Some i → Q (Some i) b) → wp (mb_get_oid oid) b Q.
Proof.
  intros Hv (_ & _ & (_ & _ & _ & _ & _ & Hcm & Hb)) Hlv Hf HQ.
  apply find_order_Some in Hf as [Hin [Hk1 Hk2]].
  assert (∃ j, (j, o) ∈ gorders (G.1 ++ G.2)) as [j Hj].
  { rewrite gorders_app. unfold book_orders in Hin. rewrite Hlv in Hin.
    apply elem_of_app in Hin as [Hin|Hin]; apply flat_gorders in Hin as [j Hj]; exists j; set_solver. }
  assert (cm !! (0, oid) = Some j) as Hc by (apply Hcm; exists o; split; [done|congruence]).
  destruct (Hb j o Hj) as [_ Hlt]. rewrite Hk2 in Hlt.
  unfold mb_get_oid. rewrite (proj2 (Z.ltb_lt _ _) Hlt). apply wp_gets.
  assert (oid_to_order_ b !! oid = Some j) as ->; [|by apply HQ].
  assert (cm = kmap (pair 0) (oid_to_order_ b)) as -> by (unfold view in Hv; by destruct_and! Hv).
  by rewrite lookup_kmap in Hc by apply _.
Qed.

(** What [can_rest] says of the ghost levels. *)
Lemma can_rest_ghost b nid G bk s client coid price :
  levels bk = (abs_levels G.1, abs_levels G.2) → book_rep (matching b) G nid → trading_side s →
  (price ∉ (sel (opp s) (levels bk)).*1) → can_rest client coid price bk →
  (∀ g, g ∈ sel s G ++ sel (opp s) G → priceToIndex g.2.1 = priceToIndex price →
     g ∈ sel s G ∧ g.2.1 = price) ∧
  (∀ i o', (i, o') ∈ gorders (sel s G ++ sel (opp s) G) → ¬ has_key client coid o') ∧
  (S (length (gorders (sel s G ++ sel (opp s) G))) < Z.to_nat ME_MAX_ORDER_IDS)%nat ∧
  (S (length (sel s G ++ sel (opp s) G)) < Z.to_nat ME_MAX_PRICE_LEVELS)%nat.
Proof.
  intros Hlv Hr Hs Hopp (Hfresh & Hslot & (Hro & Hrl) & _).
  unfold slot_free in Hslot. setoid_rewrite (prices_side s bk Hs) in Hslot.
  rewrite (Permutation_length (prices_side s bk Hs)) in Hrl.
  unfold fresh in Hfresh. setoid_rewrite (book_orders_side s) in Hfresh; [|done].
  rewrite (book_orders_length s) in Hro by done. rewrite Hlv, !sel_abs in *.
  assert (∀ g gs, g ∈ gs → g.2.1 ∈ (abs_levels gs).*1) as Hg.
  { intros g gs Hg. rewrite abs_levels_prices. apply list_elem_of_fmap. eauto. }
  split_and!.
  - intros g [Hin|Hin]%elem_of_app Hidx;
      (assert (g.2.1 = price) as Hp by (apply Hslot; [apply elem_of_app; eauto|done])); [done|].
    exfalso. apply Hopp. rewrite <- Hp. by apply Hg.
  - intros i o'. rewrite gorders_app, elem_of_app. intros [Ho'|Ho']; apply Hfresh;
      [left|right]; apply flat_gorders; eauto.
  - rewrite gorders_app, length_app. rewrite !abs_levels_flat, !length_fmap in Hro. lia.
  - rewrite length_app in *. unfold abs_levels in Hrl. rewrite !length_fmap in Hrl. lia.
Qed.

(** Changing one quantity, on the side of the order and overall. *)
Lemma set_qty_other oid q ls : (∀ o, o ∈ flat ls → ¬ has_key 0 oid o) → set_qty_in oid q ls = ls.
Proof.
  induction ls as [|[p os] ls IH]; intros Hk; [done|]. rewrite flat_cons in Hk. unfold set_qty_in in *. cbn.
  rewrite requantify_other, IH by (intros; apply Hk; set_solver). done.
Qed.

Lemma spec_set_qty G s gs1 lp p (os1 : list (nat * Order)) i o (os2 : list (nat * Order)) gs2 oid q :
  trading_side s → sel s G = gs1 ++ (lp, (p, os1 ++ (i, o) :: os2)) :: gs2 → has_key 0 oid o →
  (∀ o', o' ∈ flat (abs_levels gs1) ++ os1.*2 ++ os2.*2 ++ flat (abs_levels gs2) ++
         flat (abs_levels (sel (opp s) G)) → ¬ has_key 0 oid o') →
  let G' := upd s (gs1 ++ (lp, (p, os1 ++ (i, with_qty q o) :: os2)) :: gs2) G in
  (set_qty_in oid q (abs_levels G.1), set_qty_in oid q (abs_levels G.2)) = (abs_levels G'.1, abs_levels G'.2).
Proof.
  intros Hs HG Hk Hother G'.
  assert (set_qty_in oid q (abs_levels (sel (opp s) G)) = abs_levels (sel (opp s) G)) as Hd2
    by (apply set_qty_other; intros o' Ho'; apply Hother; rewrite !elem_of_app; tauto).
  assert (set_qty_in oid q (abs_levels (sel s G)) = abs_levels (sel s G')) as Hd1.
  { unfold G'. rewrite sel_upd, HG, !abs_levels_app. unfold set_qty_in. rewrite fmap_app.
    change (set_qty_in oid q (abs_levels gs1) ++ ((p, requantify oid q <$> (os1 ++ (i, o) :: os2).*2)
              :: set_qty_in oid q (abs_levels gs2))
            = abs_levels gs1 ++ (p, (os1 ++ (i, with_qty q o) :: os2).*2) :: abs_levels gs2).
    rewrite !set_qty_other by (intros o' Ho'; apply Hother; rewrite !elem_of_app; tauto).
    rewrite !fmap_app. cbn [fmap list_fmap snd]. f_equal. f_equal. f_equal.
    assert (∀ os, (∀ o', o' ∈ os → ¬ has_key 0 oid o') → requantify oid q <$> os = os) as Hother'
      by (intros os; apply requantify_other).
    rewrite Hother' by (intros o' Ho'; apply Hother; rewrite !elem_of_app; tauto). f_equal.
    unfold requantify at 1. rewrite decide_True by done. f_equal.
    apply Hother'. intros o' Ho'. apply Hother. rewrite !elem_of_app. tauto. }
  unfold G' in *. destruct Hs as [->| ->]; apply f_equal2; first [exact Hd1|exact Hd2].
Qed.

Definition md_step (u : MEMarketUpdate) : MB unit :=
  match upd_type_ u with
  | MarketUpdateType_ADD =>
      order ← malloc_order (mkMarketOrder (upd_order_id_ u) (upd_side_ u) (upd_price_ u) (upd_qty_ u)
                              (upd_priority_ u) None None);
      mb_addOrder order
  | MarketUpdateType_MODIFY =>
      order ← mb_get_oid (upd_order_id_ u);
      mwr_order order (mo_set_qty (upd_qty_ u))
  | MarketUpdateType_CANCEL =>
      order ← mb_get_oid (upd_order_id_ u);
      mb_removeOrder order
  | MarketUpdateType_CLEAR => clear_book
  | _ => mret tt
  end.

(** A CLEAR of an empty book leaves it as it is. *)
Lemma free_no_orders ids b : oid_to_order_ b = ∅ → free_orders ids b = Ok (tt, b).
Proof.
  intros Hb. induction ids as [|i ids IH]; [done|]. cbn [free_orders]. unfold gets, mbind, M_bind. cbn beta.
  rewrite Hb, lookup_empty. exact IH.
Qed.

Lemma clear_empty b bk : implements (matching b) bk → levels bk = ([], []) → clear_book b = Ok (tt, b).
Proof.
  intros ([G1 G2] & (om & lm & bst & pm & cm & (_ & _ & _ & _ & _ & _ & Hb & _ & Hcm & _) & (Hr1 & _) & (Hr2 & _) & Hg) & Hlv) He.
  rewrite He in Hlv. cbn [fst snd] in *. destruct G1 as [|? ?], G2 as [|? ?]; try done. clear Hlv. cbn in Hr1, Hr2.
  destruct bst as [b1 b2]. cbn [fst snd] in Hr1, Hr2. subst b1 b2. destruct Hg as (_ & _ & _ & _ & _ & Hk & _).
  unfold matching in Hb, Hcm. cbn in Hb, Hcm. injection Hb as Hbids Hasks.
  assert (oid_to_order_ b = ∅) as Hoid.
  { apply map_eq. intros i. rewrite lookup_empty. destruct (oid_to_order_ b !! i) as [x|] eqn:E; [|done].
    assert (cm !! (0, i) = Some x) as Hx by (by rewrite <- Hcm, (lookup_kmap (pair 0))).
    apply Hk in Hx as (o & Ho & _). by apply not_elem_of_nil in Ho. }
  unfold clear_book. unfold mbind at 1, M_bind at 1. rewrite free_no_orders by done.
  destruct b. cbn in *. subst. reflexivity.
Qed.

(** The levels after the change that the update makes. *)
Lemma wp_md_step b bk u (Q : unit → MarketOrderBook → Prop) :
  implements (matching b) bk → md_ok u bk → 0 < ME_MAX_NUM_CLIENTS →
  (∀ b', implements (matching b') (spec_md u bk) → bbo_ b' = bbo_ b → Q tt b') →
  wp (md_step u) b Q.
Proof.
  intros (G & Hr & Hlv) Hmd Hclients HQ. unfold md_step, md_ok in *. set (bk' := spec_md u bk) in *.
  assert (∀ m m', sim id m m' → wp m' (matching b, tt) (λ _ st, implements st.1 bk') → wp m b Q) as Hwp.
  { intros m m' Hsim Hm. eapply wp_mono; [by eapply (sim_wp id)|]. intros [] b' [Himp Hbb]. by apply HQ. }
  unfold spec_md in bk'.
  destruct (upd_type_ u) eqn:Ht; try done; try (apply wp_ret, HQ; [by exists G|done]).
  - unfold wp. rewrite (clear_empty b bk) by (done || by exists G). apply HQ; [by exists G|done].
  - destruct Hmd as (Hs & Hq & Hopp & Hrest). pose proof Hrest as (_ & _ & _ & Hc1 & Hc2).
    destruct (can_rest_ghost _ _ _ _ _ _ _ _ Hlv Hr Hs Hopp Hrest) as (Hslot & Hkey & Hro & Hrl).
    set (x := mkMarketOrder _ _ _ _ _ _ _).
    assert (sim id (order ← malloc_order x; mb_addOrder order)
              (order ← alloc_order (as_MEOrder x); addOrder order)) as Hsim.
    { eapply sim_bind; [apply sim_alloc_order|]. intros i. by apply sim_addOrder. }
    apply (Hwp _ _ Hsim). apply (wp_rest_order _ _ _ _ _ (λ st, implements st.1 bk') Hr); try done.
    intros b' gs' Hr' Hgs'. exists (upd (upd_side_ u) gs' G). split; [exact Hr'|]. unfold bk'. cbn [levels].
    rewrite Hlv, sel_abs, <- upd_abs, Hgs'. done.
  - destruct Hmd as (Hq & o & Hf & _).
    pose proof Hr as (om & lm & bst & pm & cm & Hv & Hrep).
    apply wp_bind. eapply wp_get_oid; [exact Hv|exact Hrep|exact Hlv|exact Hf|]. intros i Hi.
    destruct (rep_find _ _ _ _ _ _ _ _ _ Hrep Hi)
      as (s & gs1 & lp & p & os1 & o' & os2 & gs2 & Hs & HG & Hk & Hos & Hop & Hother & Hne).
    destruct (rep_order _ _ _ _ _ _ _ _ _ _ _ _ _ _ _ Hs Hrep HG) as ((y & Hy & <- & _) & _).
    assert (sim id (mwr_order (Some i) (mo_set_qty (upd_qty_ u))) (wr_order (Some i) (set_qty (upd_qty_ u))))
      as Hsim by (apply sim_wr_order; by intros []).
    apply (Hwp _ _ Hsim). eapply wp_wr_order; [exact Hv|exact Hy|]. intros b' Hv'.
    eexists. split; [do 5 eexists; split; [exact Hv'|by eapply rep_set_qty]|].
    unfold bk'. cbn [levels]. rewrite Hlv. cbn [fst snd].
    by rewrite (spec_set_qty G s gs1 lp p os1 i (order_of y) os2 gs2).
  - destruct Hmd as (o & Hf & _).
    pose proof Hr as (om & lm & bst & pm & cm & Hv & Hrep).
    apply wp_bind. eapply wp_get_oid; [exact Hv|exact Hrep|exact Hlv|exact Hf|]. intros i Hi.
    destruct (rep_find _ _ _ _ _ _ _ _ _ Hrep Hi)
      as (s & gs1 & lp & p & os1 & o' & os2 & gs2 & Hs & HG & Hk & Hos & Hop & Hother & Hne).
    destruct (spec_delete bk G s gs1 lp p os1 i o' os2 gs2 0 _ Hlv Hs HG Hk Hother Hne) as [_ Hdel].
    apply (Hwp _ _ (sim_removeOrder Hclients _)).
    eapply wp_removeOrder; [exact Hv|exact Hrep|exact Hs|exact HG|]. intros b' Hr'.
    eexists. by split; [exact Hr'|exact Hdel].
Qed.

Lemma implements_book_ok bm bk : implements bm bk → book_ok bk.
Proof.
  intros (G & (om & lm & bst & pm & cm & Hv & Hr) & Hlv). constructor.
  - intros s p os o Hs. rewrite Hlv, sel_abs. intros ([lp [p' gos]] & [= -> ->] & Hg)%list_elem_of_fmap Ho.
    pose proof (rep_side _ _ _ _ _ _ s Hs Hr) as (_ & _ & Hf & _).
    rewrite Forall_forall in Hf. destruct (Hf _ Hg) as (_ & _ & Hfo & _). cbn [fst snd] in *.
    apply list_elem_of_fmap in Ho as (io & -> & Hio).
    rewrite Forall_forall in Hfo. by destruct (Hfo _ Hio) as (_ & ? & ? & _).
  - intros s p os Hs. rewrite Hlv, sel_abs. intros ([lp [p' gos]] & [= -> ->] & Hg)%list_elem_of_fmap.
    pose proof (rep_side _ _ _ _ _ _ s Hs Hr) as (_ & _ & Hf & _).
    rewrite Forall_forall in Hf. destruct (Hf _ Hg) as (Hne & _). cbn in Hne |- *. by destruct gos.
  - assert (∀ o, o ∈ book_orders bk → ∃ i, (i, o) ∈ gorders (G.1 ++ G.2)) as Hin.
    { intros o. unfold book_orders. rewrite Hlv, gorders_app.
      intros [Ho|Ho]%elem_of_app; apply flat_gorders in Ho as [i Hi]; exists i; set_solver. }
    intros o o' [i Hi]%Hin [j Hj]%Hin Hc Hco. destruct Hr as (_ & _ & Hg).
    by destruct (global_key_unique _ _ _ _ _ i o j o' Hg Hi Hj) as [_ <-].
Qed.

Lemma wp_onMarketUpdate b bk u :
  implements (matching b) bk → bbo_ b = quote bk → md_ok u bk → 0 < ME_MAX_NUM_CLIENTS →
  wp (onMarketUpdate u) b (λ n b',
    n = (if decide (upd_type_ u = MarketUpdateType_TRADE) then TradeUpdate
         else BookUpdate (upd_ticker_id_ u) (upd_price_ u) (upd_side_ u)) ∧
    implements (matching b') (spec_md u bk) ∧ bbo_ b' = quote (spec_md u bk)).
Proof.
  intros Himp Hbbo Hmd Hclients. pose proof (implements_book_ok _ _ Himp) as Hok.
  pose proof Himp as (G & Hr & Hlv). unfold onMarketUpdate.
  apply wp_bind. eapply (wp_side_updated _ _ _ bk); [exact Hr|exact Hlv|by left|]. intros ub Hub.
  apply wp_bind. eapply (wp_side_updated _ _ _ bk); [exact Hr|exact Hlv|by right|]. intros ua Hua.
  apply wp_bind. change (wp (md_step u) b (λ _ b', wp (if decide (upd_type_ u = MarketUpdateType_TRADE)
    then mret TradeUpdate
    else updateBBO ub ua;; mret (BookUpdate (upd_ticker_id_ u) (upd_price_ u) (upd_side_ u))) b' (λ n b',
    n = (if decide (upd_type_ u = MarketUpdateType_TRADE) then TradeUpdate
         else BookUpdate (upd_ticker_id_ u) (upd_price_ u) (upd_side_ u)) ∧
    implements (matching b') (spec_md u bk) ∧ bbo_ b' = quote (spec_md u bk)))).
  eapply wp_md_step; [exact Himp|done|done|]. intros b' Himp' Hb'.
  case_decide as Htr.
  { apply wp_ret. split_and!; [done|done|]. rewrite Hb', Hbbo. unfold spec_md. by rewrite Htr. }
  destruct Himp' as (G' & Hr' & Hlv').
  apply wp_bind. eapply wp_updateBBO; [exact Hr'|]. intros b2 Hm2 Hb2.
  apply wp_ret. split_and!; [done|exists G'; by rewrite Hm2|].
  rewrite Hb2, Hb', Hbbo. unfold quote. cbn [bid_price_ ask_price_ bid_qty_ ask_qty_].
  assert (∀ (s : Side) (c : bool), trading_side s → c = true ∨ behind s u (sel s (levels bk)) →
    best_quote (sel s (levels (spec_md u bk)))
    = if c then best_quote (sel s (levels (spec_md u bk))) else best_quote (sel s (levels bk))) as Hside.
  { intros s c Hs [->|Hb]; [done|]. rewrite (behind_quote bk s u) by done. by destruct c. }
  pose proof (Hside _ _ (or_introl eq_refl) Hub) as HB. pose proof (Hside _ _ (or_intror eq_refl) Hua) as HA.
  assert (∀ {A} (x : A * A), sel Side_BUY x = x.1 ∧ sel Side_SELL x = x.2) as Hsel by done.
  rewrite !(proj1 (Hsel _ _)) in HB. rewrite !(proj2 (Hsel _ _)) in HA.
  rewrite Hlv' in HA, HB |- *. cbn [fst snd] in HA, HB |- *.
  destruct ub, ua; try rewrite HA; try rewrite HB; reflexivity.
Qed.

(** A new book is empty. *)
Lemma pool_map_new {A B} (f : A → B) n dflt : pool_map f (MemPool_new n dflt) = MemPool_new n (f dflt).
Proof. unfold pool_map, MemPool_new. cbn. by rewrite fmap_replicate. Qed.

Definition empty_market_book : Book := mkBook ([], []) 0.

Lemma market_new_implements t :
  0 < ME_MAX_PRICE_LEVELS → 0 < ME_MAX_ORDER_IDS →
  implements (matching (MarketOrderBook_new t)) empty_market_book ∧
  bbo_ (MarketOrderBook_new t) = quote empty_market_book ∧ market_book empty_market_book.
Proof.
  intros Hl Ho. split_and!; [|done|].
  - exists ([], []). split; [|done]. exists ∅, ∅, (None, None), ∅, ∅. split; [|apply rep_empty].
    unfold view, matching, MarketOrderBook_new.
    cbn [order_pool_ orders_at_price_pool_ bids_by_price_ asks_by_price_ price_orders_at_price_
           cid_oid_to_order_ next_market_order_id_ mb_order_pool_ mb_orders_at_price_pool_ mb_bids_by_price_
           mb_asks_by_price_ mb_price_orders_at_price_ oid_to_order_].
    rewrite !pool_map_new, !MemPool_new_heap, !MemPool_new_size, kmap_empty.
    split_and!; try done; apply MemPool_new_wf; lia.
  - constructor; [by intros o Ho'%not_elem_of_nil|constructor].
Qed.

(** C3: the trading side's book follows the market data stream: on an update that fits the book it
    does not fault, notifies the trade engine of a trade or of a change of the book, the levels and
    their queues become those that the update asks for, the best bid and offer is the quote of the
    new book although a side is recomputed only when the update may touch its best level, and the
    orders shown are those that a client of the stream computes from the same update. *)
Theorem market_book_follows b bk u :
  implements (matching b) bk → bbo_ b = quote bk → market_book bk → md_ok u bk → 0 < ME_MAX_NUM_CLIENTS →
  ∃ b', onMarketUpdate u b =
          Ok (if decide (upd_type_ u = MarketUpdateType_TRADE) then TradeUpdate
              else BookUpdate (upd_ticker_id_ u) (upd_price_ u) (upd_side_ u), b') ∧
        implements (matching b') (spec_md u bk) ∧ bbo_ b' = quote (spec_md u bk) ∧
        market_book (spec_md u bk) ∧ book_map (spec_md u bk) = apply_update u (book_map bk).
Proof.
  intros Himp Hbbo Hmk Hmd Hclients.
  pose proof (wp_onMarketUpdate b bk u Himp Hbbo Hmd Hclients) as Hwp.
  apply wp_Ok in Hwp as (n & b' & Hu & -> & Himp' & Hbbo'). exists b'. split_and!; [done|done|done| |].
  - by apply spec_md_market_book.
  - by apply spec_md_view.
Qed.
End reading.
