(* ===== verification/MarketMirror.v ===== *)
(** * The trading book mirrors the exchange's book

    The updates that the exchange's book publishes fit the trading side's book, one after the other,
    and take it from the image of the exchange's book to the image of the next one. *)
From S2P Require Import Prelude Types EngineSink BookSpec BookSweep BookInv BookReplay.
From S2P Require Import MEOrderBook BookRep BookRefine BookTheorems BookCancel MatchingEngine.
From S2P Require Import MarketOrderBook MarketBookSim MarketBookSpec MarketBookTheorems.
Implicit Types (o : Order) (os : list Order) (ls : list Level) (s : Side) (bk : Book) (a : Aggressor)
  (u : MEMarketUpdate) (us : list MEMarketUpdate) (evs : list event) (L : list Level * list Level).

(** ** The image of a book *)

(** What the trading side keeps of an order: no client, and the market order id as its key. *)
Definition mask o : Order :=
  mkOrder 0 0 (s_moid o) (s_moid o) (s_side o) (s_price o) (s_qty o) (s_prio o).
Definition mirror_levels ls : list Level := (λ l : Level, (l.1, mask <$> l.2)) <$> ls.
Definition mirror bk : Book := mkBook (mirror_levels (levels bk).1, mirror_levels (levels bk).2) 0.

Lemma sel_mirror s bk : sel s (levels (mirror bk)) = mirror_levels (sel s (levels bk)).
Proof. unfold sel. by case_decide. Qed.

Lemma mirror_upd s ls bk n :
  mirror (mkBook (upd s ls (levels bk)) n) = mkBook (upd s (mirror_levels ls) (levels (mirror bk))) 0.
Proof. unfold mirror, upd. by case_decide. Qed.

Lemma flat_mirror ls : flat (mirror_levels ls) = mask <$> flat ls.
Proof.
  induction ls as [|[p os] ls IH]; [done|]. rewrite flat_cons, fmap_app, <- IH. done.
Qed.

Lemma mirror_orders bk : book_orders (mirror bk) = mask <$> book_orders bk.
Proof. unfold book_orders. cbn [mirror levels fst snd]. by rewrite !flat_mirror, fmap_app. Qed.

Lemma mirror_prices bk : prices (mirror bk) = prices bk.
Proof.
  unfold prices, mirror. cbn [levels fst snd].
  assert (∀ ls, (mirror_levels ls).*1 = ls.*1) as E; [|by rewrite !E].
  intros ls. unfold mirror_levels. by rewrite <- list_fmap_compose.
Qed.

Lemma mirror_fst ls : (mirror_levels ls).*1 = ls.*1.
Proof. unfold mirror_levels. by rewrite <- list_fmap_compose. Qed.

Lemma mirror_market_book bk : NoDup (s_moid <$> book_orders bk) → market_book (mirror bk).
Proof.
  intros Hnd. constructor; rewrite mirror_orders.
  - by intros o (o' & -> & _)%list_elem_of_fmap.
  - by rewrite <- list_fmap_compose.
Qed.

Lemma insert_mirror o ls : mirror_levels (insert_order o ls) = insert_order (mask o) (mirror_levels ls).
Proof.
  induction ls as [|[p os] ls IH]; [done|]. cbn [insert_order mirror_levels fmap list_fmap fst snd mask s_price s_side].
  destruct (p =? s_price o); [cbn [fmap list_fmap fst snd]; by rewrite fmap_app|].
  destruct (before (s_side o) p (s_price o)); [|done]. cbn [fmap list_fmap fst snd]. f_equal. exact IH.
Qed.

(** The quote of the image is that of the book. *)
Lemma mirror_quote bk : quote (mirror bk) = quote bk.
Proof.
  assert (∀ os n, foldl (λ q o, u32 (q + s_qty o)) n (mask <$> os) = foldl (λ q o, u32 (q + s_qty o)) n os) as Hf.
  { induction os as [|o os IH]; intros n; [done|]. cbn. apply IH. }
  assert (∀ ls, best_quote (mirror_levels ls) = best_quote ls) as E.
  { intros [|[p [|o os]] ls]; [done|done|]. cbn. by rewrite Hf. }
  unfold quote. cbn [mirror levels fst snd]. by rewrite !E.
Qed.

(** ** Naming an order *)
Lemma has_key_mask i o : has_key 0 i (mask o) ↔ s_moid o = i.
Proof. unfold has_key, mask. cbn. naive_solver. Qed.

Lemma filter_mask (P Q : Order → Prop) `{∀ o, Decision (P o), ∀ o, Decision (Q o)} os :
  (∀ o, P (mask o) ↔ Q o) → filter P (mask <$> os) = mask <$> filter Q os.
Proof.
  intros Hpq. induction os as [|o os IH]; [done|]. rewrite fmap_cons, !filter_cons, IH.
  repeat case_decide; try done; naive_solver.
Qed.

Lemma NoDup_filter_moid os o :
  NoDup (s_moid <$> os) → o ∈ os → filter (λ y, s_moid y = s_moid o) os = [o].
Proof.
  intros Hnd Ho. induction os as [|y os IH]; [by apply not_elem_of_nil in Ho|].
  rewrite fmap_cons in Hnd. apply NoDup_cons in Hnd as [Hy Hnd]. rewrite filter_cons.
  apply elem_of_cons in Ho as [->|Ho].
  - rewrite decide_True by done. f_equal. clear IH.
    induction os as [|z os IH]; [done|]. rewrite fmap_cons in Hy, Hnd. rewrite filter_cons, decide_False by set_solver.
    apply IH; [set_solver|by apply NoDup_cons in Hnd as [_ ?]].
  - rewrite decide_False; [by apply IH|]. intros E. apply Hy. rewrite E. apply list_elem_of_fmap. by exists o.
Qed.

Lemma mirror_find bk o :
  NoDup (s_moid <$> book_orders bk) → o ∈ book_orders bk →
  find_order 0 (s_moid o) (mirror bk) = Some (mask o).
Proof.
  intros Hnd Ho. unfold find_order. rewrite mirror_orders.
  rewrite (filter_mask _ (λ y, s_moid y = s_moid o)) by (intros; apply has_key_mask).
  by rewrite NoDup_filter_moid.
Qed.

(** ** Removing an order *)
Lemma delete_order_none c i ls :
  Forall (λ l, l.2 ≠ []) ls → (∀ o, o ∈ flat ls → ¬ has_key c i o) → delete_order c i ls = ls.
Proof.
  induction ls as [|[p os] ls IH]; [done|]. intros [Hne Hls]%Forall_cons Hk. cbn [delete_order].
  rewrite filter_not_key by (intros o Ho; apply Hk; rewrite flat_cons; set_solver).
  rewrite IH; [by destruct os|done|]. intros o Ho. apply Hk. rewrite flat_cons. set_solver.
Qed.

(** The two ways to name an order remove the same. *)
Lemma delete_mirror c y i ls :
  (∀ o, o ∈ flat ls → has_key c y o ↔ s_moid o = i) →
  delete_order 0 i (mirror_levels ls) = mirror_levels (delete_order c y ls).
Proof.
  induction ls as [|[p os] ls IH]; intros Hk; [done|].
  cbn [mirror_levels fmap list_fmap fst snd delete_order].
  change (delete_order 0 i ((λ l : Level, (l.1, mask <$> l.2)) <$> ls)) with (delete_order 0 i (mirror_levels ls)).
  rewrite IH by (intros o Ho; apply Hk; rewrite flat_cons; set_solver).
  assert (filter (λ x, ¬ has_key 0 i x) (mask <$> os) = mask <$> filter (λ x, ¬ has_key c y x) os) as ->.
  { assert (∀ o, o ∈ os → has_key c y o ↔ s_moid o = i) as Hos by (intros o Ho; apply Hk; rewrite flat_cons; set_solver).
    clear -Hos. induction os as [|o os IH]; [done|]. rewrite fmap_cons, !filter_cons, IH by (intros z Hz; apply Hos; by right).
    pose proof (Hos o (list_elem_of_here _ _)) as Ho. rewrite <- (has_key_mask i o) in Ho.
    repeat case_decide; try done; naive_solver. }
  by destruct (filter _ os).
Qed.

(** ** Sequences of updates *)
Definition md_after us bk : Book := foldl (λ bk u, spec_md u bk) bk us.

Fixpoint md_fits `{Limits} us bk : Prop :=
  match us with [] => True | u :: us => md_ok u bk ∧ md_fits us (spec_md u bk) end.

Lemma md_after_app us1 us2 bk : md_after (us1 ++ us2) bk = md_after us2 (md_after us1 bk).
Proof. apply foldl_app. Qed.

Lemma md_fits_app `{Limits} us1 us2 bk :
  md_fits (us1 ++ us2) bk ↔ md_fits us1 bk ∧ md_fits us2 (md_after us1 bk).
Proof.
  revert bk. induction us1 as [|u us1 IH]; intros bk; cbn; [tauto|]. rewrite IH. tauto.
Qed.

(** From one book to another by updates that fit. *)
Definition md_leads `{Limits} us bk bk' : Prop := md_fits us bk ∧ md_after us bk = bk'.

Lemma md_leads_app `{Limits} us1 us2 bk bk' bk'' :
  md_leads us1 bk bk' → md_leads us2 bk' bk'' → md_leads (us1 ++ us2) bk bk''.
Proof.
  intros [H1 <-] [H2 <-]. split; [by apply md_fits_app|apply md_after_app].
Qed.

Section matching.
Context `{Limits}.

(** The book whose side [s] has the levels [ls]. *)
Definition with_side s ls L : Book := mkBook (upd s ls L) 0.

Definition filled_levels ls : Prop := Forall (λ l : Level, l.2 ≠ []) ls.

(** What the other orders of the book are. *)
Lemma others_differ s p o os rest L :
  trading_side s → NoDup (s_moid <$> book_orders (with_side s ((p, o :: os) :: rest) L)) →
  s_moid o ∉ (s_moid <$> os ++ flat rest ++ flat (sel (opp s) L)).
Proof.
  intros Hs Hnd. rewrite (book_orders_perm s) in Hnd by done. cbn [with_side levels] in Hnd.
  rewrite sel_upd, sel_opp_upd, flat_cons in Hnd by done. cbn [app] in Hnd.
  rewrite fmap_cons in Hnd. apply NoDup_cons in Hnd as [Hn _]. by rewrite <- app_assoc in Hn.
Qed.

Lemma not_key_masked (os : list Order) i :
  i ∉ (s_moid <$> os) → ∀ o, o ∈ (mask <$> os) → ¬ has_key 0 i o.
Proof.
  intros Hi o (o' & -> & Ho')%list_elem_of_fmap Hk%has_key_mask. apply Hi. rewrite <- Hk. apply list_elem_of_fmap. eauto.
Qed.

Lemma filled_mirror ls : filled_levels ls → filled_levels (mirror_levels ls).
Proof.
  intros Hf. apply Forall_fmap. eapply Forall_impl; [exact Hf|]. intros [p [|o os]] Hne; [done|]. done.
Qed.

(** A side of a pair that is changed on both sides. *)
Lemma upd_both {A} s (f : A → A) (x : A * A) (y : A) :
  trading_side s → f (sel (opp s) x) = sel (opp s) x → f (sel s x) = y → (f x.1, f x.2) = upd s y x.
Proof. destruct x as [a b]. intros [->| ->] E1 E2; [change (f b = b) in E1|change (f a = a) in E1]; rewrite <- E2; [change ((f a, f b) = (f a, b))|change ((f a, f b) = (a, f b))]; by rewrite E1. Qed.

Section head.
Context (s : Side) (p : Z) (o : Order) (os : list Order) (rest : list Level) (L : list Level * list Level).
Context (Hs : trading_side s) (Hrest : filled_levels rest) (Hother : filled_levels (sel (opp s) L)).
Context (Hnd : NoDup (s_moid <$> book_orders (with_side s ((p, o :: os) :: rest) L))).

Abbreviation B ls := (mirror (with_side s ls L)).

Lemma head_sel ls : sel s (levels (B ls)) = mirror_levels ls.
Proof. rewrite sel_mirror. cbn [with_side levels]. by rewrite sel_upd. Qed.
Lemma head_opp ls : sel (opp s) (levels (B ls)) = mirror_levels (sel (opp s) L).
Proof. rewrite sel_mirror. cbn [with_side levels]. by rewrite sel_opp_upd. Qed.
Lemma head_upd ls ls' : mkBook (upd s (mirror_levels ls') (levels (B ls))) 0 = B ls'.
Proof. unfold with_side. rewrite <- (mirror_upd _ _ _ 0). cbn [levels]. by rewrite upd_upd. Qed.

Lemma head_others : (s_moid o ∉ (s_moid <$> os)) ∧ (s_moid o ∉ (s_moid <$> flat rest)) ∧
  (s_moid o ∉ (s_moid <$> flat (sel (opp s) L))).
Proof.
  pose proof (others_differ s p o os rest L Hs Hnd) as Hn. rewrite !fmap_app in Hn. set_solver.
Qed.

Lemma head_in : o ∈ book_orders (with_side s ((p, o :: os) :: rest) L).
Proof. apply (book_orders_side s); [done|]. left. cbn [with_side levels]. rewrite sel_upd, flat_cons. set_solver. Qed.

Lemma head_find u : upd_order_id_ u = s_moid o → upd_side_ u = s_side o → upd_price_ u = s_price o →
  ∃ x, find_order 0 (upd_order_id_ u) (B ((p, o :: os) :: rest)) = Some x ∧
    s_side x = upd_side_ u ∧ s_price x = upd_price_ u.
Proof. intros -> -> ->. exists (mask o). split; [|done]. by apply mirror_find; [|apply head_in]. Qed.

Lemma head_cancel u :
  upd_type_ u = MarketUpdateType_CANCEL → upd_order_id_ u = s_moid o → upd_side_ u = s_side o → upd_price_ u = s_price o →
  md_leads [u] (B ((p, o :: os) :: rest)) (B (cons_level p os rest)).
Proof.
  intros Ht Hi Hsd Hp. destruct head_others as (H1 & H2 & H3). split.
  - cbn. split; [|done]. unfold md_ok. rewrite Ht. by apply head_find.
  - cbn [md_after foldl]. unfold spec_md. rewrite Ht, Hi, <- (head_upd ((p, o :: os) :: rest) (cons_level p os rest)). f_equal.
    apply (upd_both s (delete_order 0 (s_moid o))); [done| |].
    + rewrite head_opp. apply delete_order_none; [by apply filled_mirror|]. rewrite flat_mirror. by apply not_key_masked.
    + rewrite head_sel. cbn [mirror_levels fmap list_fmap fst snd delete_order].
      rewrite filter_cons_False by (intros Hk; apply Hk; by apply has_key_mask).
      rewrite filter_not_key by by apply not_key_masked.
      change ((λ l : Level, (l.1, mask <$> l.2)) <$> rest) with (mirror_levels rest).
      rewrite delete_order_none; [by destruct os|by apply filled_mirror|]. rewrite flat_mirror. by apply not_key_masked.
Qed.

Lemma head_modify u :
  upd_type_ u = MarketUpdateType_MODIFY → upd_order_id_ u = s_moid o → upd_side_ u = s_side o → upd_price_ u = s_price o →
  is_u32 (upd_qty_ u) →
  md_leads [u] (B ((p, o :: os) :: rest)) (B ((p, with_qty (upd_qty_ u) o :: os) :: rest)).
Proof.
  intros Ht Hi Hsd Hp Hq. destruct head_others as (H1 & H2 & H3). split.
  - cbn. split; [|done]. unfold md_ok. rewrite Ht. split; [done|]. by apply head_find.
  - cbn [md_after foldl]. unfold spec_md. rewrite Ht, Hi, <- (head_upd ((p, o :: os) :: rest) ((p, with_qty (upd_qty_ u) o :: os) :: rest)).
    f_equal. apply (upd_both s (set_qty_in (s_moid o) (upd_qty_ u))); [done| |].
    + rewrite head_opp. apply set_qty_other. rewrite flat_mirror. by apply not_key_masked.
    + rewrite head_sel. cbn [mirror_levels fmap list_fmap fst snd set_qty_in].
      change ((λ l : Level, (l.1, mask <$> l.2)) <$> rest) with (mirror_levels rest).
      rewrite requantify_other by by apply not_key_masked.
      change ((λ l : Level, (l.1, requantify (s_moid o) (upd_qty_ u) <$> l.2)) <$> mirror_levels rest)
        with (set_qty_in (s_moid o) (upd_qty_ u) (mirror_levels rest)).
      rewrite set_qty_other by (rewrite flat_mirror; by apply not_key_masked).
      unfold requantify. rewrite decide_True by by apply has_key_mask. done.
Qed.

(** One execution. *)
Lemma execution_mirror a leaves :
  0 ≤ leaves → 0 < s_qty o < 2 ^ 32 →
  let x := execution a leaves o in
  md_leads (updates x.1.1) (B ((p, o :: os) :: rest))
    (B (cons_level p (if x.2 =? 0 then os else with_qty x.2 o :: os) rest)).
Proof.
  intros Hl Hq x. subst x. unfold execution. cbn [fst snd updates omap list_omap].
  set (r := s_qty o - Z.min leaves (s_qty o)). destruct (r =? 0) eqn:E.
  - apply (md_leads_app [_]  [_] _ (B ((p, o :: os) :: rest))); [by split|]. by apply head_cancel.
  - apply (md_leads_app [_]  [_] _ (B ((p, o :: os) :: rest))); [by split|]. cbn [cons_level].
    apply head_modify; try done. cbn. unfold r, is_u32. lia.
Qed.
End head.

Lemma md_leads_nil bk : md_leads [] bk bk.
Proof. by split. Qed.

Section sweep.
Context (s : Side) (L : list Level * list Level) (Hs : trading_side s) (Hother : filled_levels (sel (opp s) L)).

Abbreviation B ls := (mirror (with_side s ls L)).
Definition distinct_ids ls : Prop := NoDup (s_moid <$> flat ls ++ flat (sel (opp s) L)).
Definition quantities os : Prop := Forall (λ o, 0 < s_qty o < 2 ^ 32) os.

Lemma distinct_orders ls : distinct_ids ls ↔ NoDup (s_moid <$> book_orders (with_side s ls L)).
Proof.
  unfold distinct_ids. rewrite (book_orders_perm s) by done. cbn [with_side levels].
  by rewrite sel_upd, sel_opp_upd.
Qed.

Lemma distinct_drop os ls : distinct_ids (ls) → ∀ ls0, flat ls = os ++ flat ls0 → distinct_ids ls0.
Proof.
  unfold distinct_ids. intros Hd ls0 E. rewrite E, <- app_assoc, fmap_app in Hd. by apply NoDup_app in Hd as (_ & _ & ?).
Qed.

Lemma fill_level_mirror a p os rest : filled_levels rest → ∀ leaves,
  quantities os → 0 ≤ leaves → distinct_ids (cons_level p os rest) →
  let x := fill_level a leaves os in
  md_leads (updates x.1.1) (B (cons_level p os rest)) (B (cons_level p x.2 rest)) ∧ 0 ≤ x.1.2.
Proof.
  intros Hrest. induction os as [|o os IH]; intros leaves Hq Hl Hd; cbn [fill_level]; [split; [apply md_leads_nil|done]|].
  destruct (leaves =? 0); [split; [apply md_leads_nil|done]|]. apply Forall_cons in Hq as [Ho Hq].
  pose proof (execution_mirror s p o os rest L Hs Hrest Hother (proj1 (distinct_orders _) Hd) a leaves Hl Ho) as Hx.
  assert (0 ≤ (execution a leaves o).1.2) as Hl1 by (unfold execution; cbn [fst snd]; lia).
  destruct (execution a leaves o) as [[evs l1] r]. cbn [fst snd] in *.
  destruct (r =? 0).
  - specialize (IH l1 Hq Hl1). destruct (fill_level a l1 os) as [[evs' l2] os']. cbn [fst snd] in *.
    destruct IH as [IH ?]; [apply (distinct_drop [o] _ Hd); by rewrite !cons_level_flat|]. split; [|done].
    rewrite updates_app. by eapply md_leads_app.
  - cbn [fst snd]. split; [exact Hx|done].
Qed.

Lemma sweep_mirror a ls : ∀ leaves,
  filled_levels ls → quantities (flat ls) → 0 ≤ leaves → distinct_ids ls →
  let x := sweep a leaves ls in md_leads (updates x.1.1) (B ls) (B x.2).
Proof.
  induction ls as [|[p os] ls IH]; intros leaves Hf Hq Hl Hd; cbn [sweep]; [apply md_leads_nil|].
  destruct (_ || _); [apply md_leads_nil|]. apply Forall_cons in Hf as [Hne Hf].
  rewrite flat_cons in Hq. apply Forall_app in Hq as [Hq1 Hq2].
  assert (cons_level p os ls = (p, os) :: ls) as Ecl by by destruct os.
  pose proof (fill_level_mirror a p os ls Hf leaves Hq1 Hl) as Hx. rewrite Ecl in Hx. destruct (Hx Hd) as [Hx1 Hl1].
  destruct (fill_level a leaves os) as [[evs l1] os']. cbn [fst snd] in *. destruct os' as [|o os'].
  - specialize (IH l1 Hf Hq2 Hl1). destruct (sweep a l1 ls) as [[evs' l2] ls']. cbn [fst snd cons_level] in *.
    rewrite updates_app. eapply md_leads_app; [exact Hx1|]. apply IH. by apply (distinct_drop os _ Hd).
  - exact Hx1.
Qed.
End sweep.

(** ** Requests *)

Lemma side_filled s ls : side_ok s ls → filled_levels ls.
Proof. intros [Hl _]. eapply Forall_impl; [exact Hl|]. by intros l [? _]. Qed.

Lemma side_quantities s ls : side_ok s ls → quantities (flat ls).
Proof.
  intros [Hl _]. unfold quantities. induction Hl as [|[p os] ls [_ Hos] _ IH]; [constructor|].
  rewrite flat_cons. apply Forall_app. split; [|done]. eapply Forall_impl; [exact Hos|]. by intros o (_ & _ & ?).
Qed.

(** What the trading side needs of a request: room for what may rest, its table of orders being
    indexed by the market order id. *)
Definition mirror_room (r : MEClientRequest) bk : Prop :=
  0 < ME_MAX_NUM_CLIENTS ∧
  (req_type_ r = ClientRequestType_NEW →
     trading_side (req_side_ r) ∧ is_u32 (req_qty_ r) ∧ next_id bk < ME_MAX_ORDER_IDS ∧
     slot_free (req_price_ r) bk ∧ room bk).

Lemma with_side_mirror s ls bk n : mirror (mkBook (upd s ls (levels bk)) n) = mirror (with_side s ls (levels bk)).
Proof. done. Qed.

(** What is left after matching has room for the order. *)
Lemma can_rest_mirror bk a s qty :
  a_side a = s → trading_side s → 0 ≤ qty → wf_book bk → 0 < ME_MAX_NUM_CLIENTS → next_id bk < ME_MAX_ORDER_IDS →
  slot_free (a_price a) bk → room bk →
  can_rest 0 (next_id bk) (a_price a)
    (mirror (mkBook (upd (opp s) (sweep a qty (sel (opp s) (levels bk))).2 (levels bk)) (next_id bk))).
Proof.
  intros Ha Hs Hq Hwf Hc Hid Hslot [Ho Hp].
  destruct (wf_book_swept bk a s qty Ha Hs Hq Hwf) as (Hwf' & _).
  apply (wf_book_side _ _ (opp_trading _ Hs)) in Hwf as (Hok & _).
  pose proof (side_ok_wf_levels _ _ Hok) as Hwl.
  destruct (sweep_remains a qty _ Hq Hwl) as (_ & Hr & _).
  destruct (remains_prices _ _ Hr) as [pre Hpre]. destruct (remains_length _ _ Hwl Hr) as [Hl1 Hl2].
  set (ls := (sweep a qty (sel (opp s) (levels bk))).2) in *. set (bk' := mkBook _ _) in *.
  assert (∀ q, q ∈ prices bk' → q ∈ prices bk) as Hin.
  { intros q. rewrite (prices_side s bk Hs), (prices_side s bk' Hs). unfold bk'. cbn [levels].
    rewrite sel_upd_opp, sel_upd by done. rewrite Hpre. set_solver. }
  split_and!; [|..|done|done].
  - intros o Hx Hk. rewrite mirror_orders in Hx. apply list_elem_of_fmap in Hx as (o' & -> & Ho').
    apply has_key_mask in Hk. pose proof (wf_old _ Hwf' o' Ho') as Hold. cbn in Hold. lia.
  - intros q. rewrite mirror_prices. intros Hq'%Hin. by apply Hslot.
  - split; [rewrite mirror_orders, length_fmap|rewrite mirror_prices].
    + rewrite (book_orders_length s bk Hs) in Ho. rewrite (book_orders_length s bk' Hs). unfold bk'. cbn [levels].
      rewrite sel_upd_opp, sel_upd by done. lia.
    + rewrite (Permutation_length (prices_side s bk Hs)), length_app, !length_fmap in Hp.
      rewrite (Permutation_length (prices_side s bk' Hs)), length_app, !length_fmap. unfold bk'. cbn [levels].
      rewrite sel_upd_opp, sel_upd by done. lia.
Qed.

Lemma add_mirror bk client coid t s price qty :
  wf_book bk → trading_side s → is_u32 qty → slot_free price bk → room bk →
  0 < ME_MAX_NUM_CLIENTS → next_id bk < ME_MAX_ORDER_IDS →
  let x := spec_add client coid t s price qty bk in md_leads (updates x.2) (mirror bk) (mirror x.1).
Proof.
  intros Hwf Hs Hq Hslot Hroom Hc Hid x. subst x. unfold spec_add. set (a := mkAggressor _ _ _ _ _ _).
  assert (0 ≤ qty < 2 ^ 32) as [Hq0 Hq1] by (unfold is_u32 in Hq; lia).
  pose proof (proj1 (wf_book_side _ _ (opp_trading _ Hs)) Hwf) as (Hok1 & Hok2 & _ & _ & Hids & _).
  pose proof (can_rest_mirror bk a s qty eq_refl Hs Hq0 Hwf Hc Hid Hslot Hroom) as Hcr.
  destruct (wf_book_swept bk a s qty eq_refl Hs Hq0 Hwf) as (_ & Hle & Hbey & _).
  assert (md_leads (updates (sweep a qty (sel (opp s) (levels bk))).1.1) (mirror bk)
    (mirror (with_side (opp s) (sweep a qty (sel (opp s) (levels bk))).2 (levels bk)))) as Hsw.
  { pose proof (sweep_mirror (opp s) (levels bk) (opp_trading _ Hs) (side_filled _ _ Hok2) a _ qty
      (side_filled _ _ Hok1) (side_quantities _ _ Hok1) Hq0 Hids) as Hx. cbv zeta in Hx.
    unfold with_side at 1 in Hx. by rewrite upd_sel in Hx. }
  destruct (sweep a qty (sel (opp s) (levels bk))) as [[evs leaves] passive]. cbn [fst snd] in *.
  destruct (leaves =? 0) eqn:Hz; [exact Hsw|]. apply Z.eqb_neq in Hz. cbn [fst snd].
  change (updates (?r :: ?l)) with (updates l). rewrite updates_app. eapply md_leads_app; [exact Hsw|].
  set (o := mkOrder _ _ _ _ _ _ _ _). set (u := mkMEMarketUpdate _ _ _ _ _ _ _).
  change (updates [Update u]) with [u]. split.
  - split; [|done]. unfold md_ok. cbn [u upd_type_ upd_side_ upd_qty_ upd_price_ upd_order_id_].
    split_and!; [done|unfold is_u32; lia| |exact Hcr].
    rewrite sel_mirror. cbn [with_side levels]. rewrite sel_upd, mirror_fst. intros Hin.
    specialize (Hbey Hz _ Hin). cbn in Hbey. by rewrite beyond_irrefl in Hbey.
  - cbn [md_after foldl]. unfold spec_md. cbn [u upd_type_ upd_side_].
    change (order_of_update _) with (mask o). change (next_id (mirror _)) with 0.
    rewrite sel_mirror, <- insert_mirror, <- (mirror_upd _ _ _ 0). done.
Qed.

Lemma cancel_mirror bk client oid t :
  wf_book bk →
  let x := spec_cancel client oid t bk in md_leads (updates x.2) (mirror bk) (mirror x.1).
Proof.
  intros Hwf x. subst x. unfold spec_cancel.
  destruct (find_order client oid bk) as [o|] eqn:Hf; [|apply md_leads_nil]. cbn [fst snd].
  apply find_order_Some in Hf as [Ho [Hk1 Hk2]]. pose proof (wf_ids _ Hwf) as Hids. pose proof (wf_keys _ Hwf) as Hkeys.
  assert (∀ y, y ∈ book_orders bk → has_key client oid y ↔ s_moid y = s_moid o) as Hsame.
  { intros y Hy. split.
    - intros [Hy1 Hy2]. apply list_elem_of_lookup in Hy as [i Hi], Ho as [j Hj].
      assert (i = j) as ->; [|congruence]. eapply NoDup_lookup; [exact Hkeys|by rewrite list_lookup_fmap, Hi|].
      rewrite list_lookup_fmap, Hj. cbn. unfold key. by rewrite Hk1, Hk2, Hy1, Hy2.
    - intros E. assert (y = o) as -> by by eapply NoDup_fmap_moid. done. }
  split.
  - cbn. split; [|done]. unfold md_ok. cbn [upd_type_ upd_order_id_ upd_side_ upd_price_].
    exists (mask o). split_and!; [by apply mirror_find|done|done].
  - cbn. unfold spec_md. cbn [upd_type_ upd_order_id_ mirror levels fst snd next_id]. unfold mirror. cbn [levels fst snd].
    rewrite !(delete_mirror client oid); [done|..]; intros y Hy; apply Hsame; unfold book_orders; set_solver.
Qed.

(** The updates of a request fit and lead from the image of the book to the image of the next. *)
Lemma request_mirror r bk :
  wf_book bk → mirror_room r bk →
  md_leads (updates (spec_request r bk).2) (mirror bk) (mirror (spec_request r bk).1).
Proof.
  intros Hwf [Hc Hnew]. unfold spec_request in *. destruct (req_type_ r); [apply md_leads_nil| |by apply cancel_mirror].
  destruct (Hnew eq_refl) as (? & ? & ? & ? & ?). by apply add_mirror.
Qed.

Lemma admissible_room r bk :
  0 < ME_MAX_NUM_CLIENTS → admissible r bk →
  (req_type_ r = ClientRequestType_NEW → next_id bk < ME_MAX_ORDER_IDS) → mirror_room r bk.
Proof.
  intros Hc Ha Hid. split; [done|]. intros E. specialize (Hid E). unfold admissible in Ha. rewrite E in Ha.
  destruct Ha as (? & ? & _ & (_ & ? & ? & _)). done.
Qed.
End matching.
