(* ===== verification/TradingMirror.v ===== *)
(** * From the exchange's book to the trading side's

    The engine's run, the updates it publishes, and the trading side's book that applies them. *)
From S2P Require Import Prelude Types LFQueue EngineSink BookSpec BookInv BookReplay MEOrderBook BookRep.
From S2P Require Import BookRefine BookTheorems MatchingEngine MarketOrderBook MarketBookSim MarketBookSpec.
From S2P Require Import MarketBookTheorems MarketMirror.
Implicit Types (bk : Book) (bks : list Book) (r : MEClientRequest) (reqs : list MEClientRequest)
  (b : MarketOrderBook) (u : MEMarketUpdate) (us : list MEMarketUpdate) (evs : list event) (t : nat).

Definition of_book (t : nat) us : list MEMarketUpdate := filter (λ u, upd_ticker_id_ u = Z.of_nat t) us.

Section TradingMirror.
Context `{Limits}.

(** The updates of a ticker, one after the other. *)
Fixpoint onMarketUpdates us : M MarketOrderBook unit :=
  match us with [] => mret tt | u :: us => onMarketUpdate u;; onMarketUpdates us end.

Lemma wp_onMarketUpdates us b bk :
  0 < ME_MAX_NUM_CLIENTS → implements (matching b) bk → bbo_ b = quote bk → md_fits us bk →
  wp (onMarketUpdates us) b (λ _ b', implements (matching b') (md_after us bk) ∧ bbo_ b' = quote (md_after us bk)).
Proof.
  intros Hc. revert b bk. induction us as [|u us IH]; intros b bk Himp Hbbo; [by intros _; apply wp_ret|].
  intros [Hok Hfit]. cbn [onMarketUpdates]. apply wp_bind.
  eapply wp_mono; [by apply wp_onMarketUpdate|]. intros _ b' (_ & Himp' & Hbbo'). by apply IH.
Qed.

(** ** Requests *)
Lemma of_book_updates t evs : of_book t (updates evs) = updates (filter (about (Z.of_nat t)) evs).
Proof.
  induction evs as [|[r|u] evs IH]; [done| |].
  - rewrite filter_cons_False by tauto. exact IH.
  - change (updates (Update u :: evs)) with (u :: updates evs). unfold of_book.
    destruct (decide (upd_ticker_id_ u = Z.of_nat t)).
    + rewrite !filter_cons_True by done. unfold of_book in IH. by rewrite IH.
    + rewrite !filter_cons_False by done. exact IH.
Qed.

Lemma filter_about_same (i : Z) evs : Forall (of_ticker i) evs → updates (filter (about i) evs) = updates evs.
Proof.
  induction 1 as [|[r|u] evs Hev Hf IH]; [done| |].
  - rewrite filter_cons_False by tauto. exact IH.
  - rewrite filter_cons_True by done. change (u :: updates (filter (about i) evs) = u :: updates evs). by rewrite IH.
Qed.

(** The exchange never takes an order id back. *)
Lemma request_next_id r bk :
  wf_book bk → admissible r bk →
  next_id bk ≤ next_id (spec_request r bk).1 ∧
  (req_type_ r = ClientRequestType_NEW → next_id bk < next_id (spec_request r bk).1).
Proof.
  intros Hwf Ha. pose proof (wf_next _ Hwf). unfold admissible, spec_request in *. destruct (req_type_ r); [done| |].
  - destruct Ha as (_ & _ & Hn & _).
    assert (next_id (spec_add (req_client_id_ r) (req_order_id_ r) (req_ticker_id_ r) (req_side_ r) (req_price_ r)
              (req_qty_ r) bk).1 = next_id bk + 1) as ->; [|lia].
    unfold spec_add. destruct (sweep _ _ _) as [[evs l] ls].
    by destruct (l =? 0); cbn [fst next_id]; apply u64_small; unfold is_u64; lia.
  - unfold spec_cancel. destruct (find_order _ _ _); cbn; split; (done || lia).
Qed.

Lemma steps_mirror reqs bks t bk :
  0 < ME_MAX_NUM_CLIENTS → Forall wf_book bks → admissible_steps reqs bks →
  Forall (λ r, 0 ≤ req_ticker_id_ r) reqs → bks !! t = Some bk →
  let x := spec_steps reqs bks in
  ∃ bk', x.1 !! t = Some bk' ∧ next_id bk ≤ next_id bk' ∧
    (next_id bk' ≤ ME_MAX_ORDER_IDS → md_leads (of_book t (updates x.2)) (mirror bk) (mirror bk')).
Proof.
  intros Hc. revert bks bk. induction reqs as [|r reqs IH]; intros bks bk Hwf Ha Hpos Hbk.
  { exists bk. split_and!; [done|done|]. intros _. apply md_leads_nil. }
  cbn [spec_steps fst snd]. destruct Ha as [Ha1 Ha2]. apply Forall_cons in Hpos as [Hr Hpos].
  pose proof (wf_spec_step _ _ Hwf Ha1) as Hwf'.
  destruct Ha1 as (bk1 & Hbk1 & Ha1). unfold spec_step in *. rewrite Hbk1 in *. cbn [fst snd] in *.
  pose proof (spec_request_ticker r bk1) as Ht.
  pose proof (Forall_lookup_1 _ _ _ _ Hwf Hbk1) as Hwf1.
  assert (∃ bk2, <[Z.to_nat (req_ticker_id_ r) := (spec_request r bk1).1]> bks !! t = Some bk2 ∧
            next_id bk ≤ next_id bk2 ∧
            (next_id bk2 ≤ ME_MAX_ORDER_IDS →
             md_leads (of_book t (updates (spec_request r bk1).2)) (mirror bk) (mirror bk2)))
    as (bk2 & Hbk2 & Hle2 & Hm2).
  { destruct (decide (Z.to_nat (req_ticker_id_ r) = t)) as [<-|Hne].
    - exists (spec_request r bk1).1. rewrite Hbk in Hbk1. injection Hbk1 as ->.
      rewrite list_lookup_insert_eq by (by eapply lookup_lt_Some).
      destruct (request_next_id r bk1 Hwf1 Ha1) as [Hle Hnew]. split_and!; [done|done|]. intros Hmax.
      rewrite of_book_updates, Z2Nat.id, filter_about_same by done. apply request_mirror; [done|].
      apply admissible_room; [done|done|]. intros E. specialize (Hnew E). lia.
    - exists bk. rewrite list_lookup_insert_ne by done. split_and!; [done|done|]. intros _.
      rewrite of_book_updates, (filter_about_other _ (req_ticker_id_ r)) by (done || lia). apply md_leads_nil. }
  destruct (IH _ _ Hwf' Ha2 Hpos Hbk2) as (bk3 & Hbk3 & Hle3 & Hm3).
  exists bk3. split_and!; [done|lia|]. intros Hmax. unfold of_book. rewrite updates_app, filter_app.
  eapply md_leads_app; [apply Hm2; lia|by apply Hm3].
Qed.

(** C4: from the exchange to the trading side.  Over any run of the matching engine on admissible
    requests, a trading side whose book is the image of the exchange's book applies the updates that the
    run publishes for the ticker without a fault, and ends with the image of the exchange's new book:
    the same levels with the same orders in the same priority, and as its best bid and offer the
    exchange's best prices with the quantities there; as long as the exchange has given out no
    more market order ids than the trading side's table of orders has entries. *)
Theorem trading_book_mirrors reqs m bks rs us t bk b :
  engine_ok m bks reqs rs us (spec_steps reqs bks).2 → run_ m = true → admissible_steps reqs bks →
  Forall wf_book bks → Forall (λ r, 0 ≤ req_ticker_id_ r) reqs → 0 < ME_MAX_NUM_CLIENTS →
  bks !! t = Some bk → implements (matching b) (mirror bk) → bbo_ b = quote bk →
  ∃ m' us' be bk', run (length reqs) m = Ok (tt, m') ∧
    holds (outgoing_md_updates_ (outgoing_ m')) (us ++ us') ∧
    ticker_order_book_ m' !! t = Some be ∧ implements be bk' ∧ wf_book bk' ∧
    (next_id bk' ≤ ME_MAX_ORDER_IDS →
     ∃ b', onMarketUpdates (of_book t us') b = Ok (tt, b') ∧
       implements (matching b') (mirror bk') ∧ bbo_ b' = quote bk').
Proof.
  intros Hok Hrun Ha Hwf Hpos Hc Hbk Himp Hbbo.
  destruct (run_spec _ _ _ _ _ Hok Hrun Ha) as (m' & Hr & _ & Hbs & _ & _ & Hu & _).
  destruct (steps_mirror reqs bks t bk Hc Hwf Ha Hpos Hbk) as (bk' & Hbk' & _ & Hm).
  destruct (Forall2_lookup_r _ _ _ _ _ Hbs Hbk') as (be & Hbe & Himpe).
  do 4 eexists. split_and!; [exact Hr|exact Hu|exact Hbe|exact Himpe| |].
  { exact (Forall_lookup_1 _ _ _ _ (wf_spec_steps _ _ Hwf Ha) Hbk'). }
  intros Hmax. destruct (Hm Hmax) as [Hfit Hafter]. rewrite <- mirror_quote in Hbbo.
  pose proof (wp_onMarketUpdates _ b _ Hc Himp Hbbo Hfit) as Hwp.
  apply wp_Ok in Hwp as ([] & b' & Hb' & Himp' & Hbbo'). rewrite Hafter in Himp', Hbbo'.
  exists b'. split_and!; [done|done|]. by rewrite <- (mirror_quote bk').
Qed.

End TradingMirror.
