(* ===== verification/Double.v ===== *)
(** * double: IEEE 754 binary64

    The Standard Library's specification of floating-point numbers at 53 bits of precision, round
    to nearest even, as the C++ operators on double compute it (each operation rounds once). *)
From S2P Require Import Prelude.
From Stdlib Require Import SpecFloat.

Definition double : Type := spec_float.

Definition double_prec : Z := 53.
Definition double_emax : Z := 1024.

Definition dadd (x y : double) : double := SFadd double_prec double_emax x y.
Definition dsub (x y : double) : double := SFsub double_prec double_emax x y.
Definition dmul (x y : double) : double := SFmul double_prec double_emax x y.
Definition ddiv (x y : double) : double := SFdiv double_prec double_emax x y.
(** Comparisons are false when an operand is NaN. *)
Definition dltb (x y : double) : bool := SFltb x y.
Definition dgeb (x y : double) : bool := SFleb y x.
Definition deqb (x y : double) : bool := SFeqb x y.

(** The conversion from an integer type. *)
Definition of_int (z : Z) : double := binary_normalize double_prec double_emax z 0 false.

Definition dzero : double := of_int 0.
(** 0.5 *)
Definition dhalf : double := S754_finite false 4503599627370496 (-53).
(** std::numeric_limits<double>::quiet_NaN() *)
Definition quiet_NaN : double := S754_nan.

(** NaN is not equal to anything, itself included. *)
Lemma deqb_nan x : deqb x quiet_NaN = false.
Proof. by destruct x as [[]|[]| |[]]. Qed.

Lemma dltb_nan x : dltb quiet_NaN x = false.
Proof. by destruct x as [[]|[]| |[]]. Qed.

(** A difference with NaN passes no comparison. *)
Lemma dgeb_sub_nan y t : dgeb (dsub quiet_NaN y) t = false ∧ dgeb (dsub y quiet_NaN) t = false.
Proof.
  split.
  - by destruct t as [[]|[]| |[]], y as [[]|[]| |[]].
  - by destruct t as [[]|[]| |[]], y as [[]|[]| |[]].
Qed.

(** ** Numbers on a grid

    [of_dyadic z k] is the number z / 2^k.  While the numerators stay below 2^53 nothing is rounded: the
    subtraction of two such numbers on one grid is exact, and any two compare as the numbers do. *)
Definition of_dyadic (z k : Z) : double := binary_normalize double_prec double_emax z (- k) false.

Lemma digits2_log (m : positive) : Zpos (digits2_pos m) = Z.log2 (Zpos m) + 1.
Proof.
  induction m as [m IH|m IH|]; cbn [digits2_pos]; [| |done]; rewrite Pos2Z.inj_succ, IH.
  - change (Zpos m~1) with (2 * Zpos m + 1). rewrite Z.log2_succ_double by lia. lia.
  - change (Zpos m~0) with (2 * Zpos m). rewrite Z.log2_double by lia. lia.
Qed.

Lemma shr_1_double m : 0 < m → shr_1 (Build_shr_record (2 * m) false false) = Build_shr_record m false false.
Proof. by destruct m. Qed.

Lemma iter_shr n m :
  0 < m → iter_pos shr_1 n (Build_shr_record (m * 2 ^ Zpos n) false false) = Build_shr_record m false false.
Proof.
  revert m. induction n as [n IH|n IH|]; intros m Hm; cbn [iter_pos].
  - replace (Zpos n~1) with (Zpos n + Zpos n + 1) by lia. rewrite !Z.pow_add_r, Z.pow_1_r by lia.
    replace (m * (2 ^ Zpos n * 2 ^ Zpos n * 2)) with (2 * (m * 2 ^ Zpos n * 2 ^ Zpos n)) by lia.
    assert (0 < 2 ^ Zpos n) by (apply Z.pow_pos_nonneg; lia).
    rewrite shr_1_double by nia. rewrite !IH by nia. done.
  - replace (Zpos n~0) with (Zpos n + Zpos n) by lia. rewrite Z.pow_add_r, Z.mul_assoc by lia.
    assert (0 < 2 ^ Zpos n) by (apply Z.pow_pos_nonneg; lia). rewrite !IH by nia. done.
  - rewrite Z.pow_1_r, Z.mul_comm. by apply shr_1_double.
Qed.

Lemma iter_double d m : Zpos (Pos.iter xO m d) = Zpos m * 2 ^ Zpos d.
Proof.
  revert m. induction d as [|d IH] using Pos.peano_ind; intros m; [cbn; lia|].
  rewrite Pos.iter_succ, Pos2Z.inj_succ, Z.pow_succ_r by lia. change (Zpos (Pos.iter xO m d)~0) with (2 * Zpos (Pos.iter xO m d)).
  rewrite IH. lia.
Qed.

(** The mantissa of 53 digits, and the number z * 2^x with it. *)
Definition mantissa (p : positive) : Z := Zpos p * 2 ^ (52 - Z.log2 (Zpos p)).
Definition canonical (z x : Z) : double :=
  match z with
  | Z0 => S754_zero false
  | Zpos p => S754_finite false (Z.to_pos (mantissa p)) (Z.log2 (Zpos p) - 52 + x)
  | Zneg p => S754_finite true (Z.to_pos (mantissa p)) (Z.log2 (Zpos p) - 52 + x)
  end.

Lemma log2_small p : Zpos p < 2 ^ 53 → 0 ≤ Z.log2 (Zpos p) ≤ 52.
Proof. intros Hp. pose proof (Z.log2_nonneg (Zpos p)). apply Z.log2_lt_pow2 in Hp; lia. Qed.

Lemma mantissa_log p : Zpos p < 2 ^ 53 → 0 < mantissa p ∧ Z.log2 (mantissa p) = 52.
Proof.
  intros Hp%log2_small. unfold mantissa. split.
  - apply Z.mul_pos_pos; [done|]. apply Z.pow_pos_nonneg; lia.
  - rewrite Z.log2_mul_pow2 by lia. lia.
Qed.

(** A mantissa of 53 digits is not rounded. *)
Lemma shr_fexp_normal m e :
  0 < m → Z.log2 m = 52 → -1074 ≤ e → shr_fexp double_prec double_emax m e loc_Exact = (Build_shr_record m false false, e).
Proof.
  intros Hm Hl He. unfold shr_fexp, fexp, emin, double_prec, double_emax. destruct m as [|p|p]; [lia| |lia]. cbn [Zdigits2].
  rewrite digits2_log, Hl. replace (Z.max (52 + 1 + e - 53) (3 - 1024 - 53) - e) with 0 by lia. done.
Qed.

Lemma round_aux_shift s p j e :
  Zpos p < 2 ^ 53 → 0 ≤ j → 52 ≤ Z.log2 (Zpos p) + j → -1074 ≤ Z.log2 (Zpos p) + j + e - 52 ≤ 971 →
  binary_round_aux double_prec double_emax s (Zpos p * 2 ^ j) e loc_Exact
  = S754_finite s (Z.to_pos (mantissa p)) (Z.log2 (Zpos p) + j + e - 52).
Proof.
  intros Hp Hj Hn He. pose proof (log2_small p Hp) as Hl. destruct (mantissa_log p Hp) as [Hm Hml].
  assert (0 < Zpos p * 2 ^ j) as Hpos by (apply Z.mul_pos_pos; [done|apply Z.pow_pos_nonneg; lia]).
  assert (shr_fexp double_prec double_emax (Zpos p * 2 ^ j) e loc_Exact
    = (Build_shr_record (mantissa p) false false, Z.log2 (Zpos p) + j + e - 52)) as Hs.
  { unfold shr_fexp, fexp, emin. destruct (Zpos p * 2 ^ j) as [|q|q] eqn:Eq; [lia| |lia]. cbn [Zdigits2].
    rewrite digits2_log, <- Eq, Z.log2_mul_pow2 by lia. unfold double_prec, double_emax.
    set (d := Z.log2 (Zpos p) + j - 52). replace (Z.max (j + Z.log2 (Zpos p) + 1 + e - 53) (3 - 1024 - 53) - e) with d by lia.
    assert (Zpos p * 2 ^ j = mantissa p * 2 ^ d) as ->.
    { unfold mantissa. rewrite <- Z.mul_assoc, <- Z.pow_add_r by lia. do 2 f_equal. lia. }
    cbn [shr_record_of_loc]. destruct d as [|n|n] eqn:Ed; [| |lia].
    - cbn [shr]. rewrite Z.pow_0_r, Z.mul_1_r. f_equal. lia.
    - cbn [shr]. rewrite iter_shr by done. f_equal. lia. }
  unfold binary_round_aux. rewrite Hs. cbn [shr_m loc_of_shr_record round_nearest_even].
  rewrite shr_fexp_normal by (done || lia). cbn [shr_m]. destruct (mantissa p) as [|m|m]; [lia| |lia].
  rewrite (proj2 (Z.leb_le _ _)) by (unfold double_emax, double_prec; lia). done.
Qed.

Lemma round_shift s p j e q :
  Zpos q = Zpos p * 2 ^ j → Zpos p < 2 ^ 53 → 0 ≤ j → -1074 ≤ Z.log2 (Zpos p) + j + e - 52 ≤ 971 →
  binary_round double_prec double_emax s q e = S754_finite s (Z.to_pos (mantissa p)) (Z.log2 (Zpos p) + j + e - 52).
Proof.
  intros Eq Hp Hj He. pose proof (log2_small p Hp) as Hl. unfold binary_round, shl_align, fexp, emin.
  rewrite digits2_log, Eq, Z.log2_mul_pow2 by lia. unfold double_prec at 1, double_emax at 1.
  set (t := Z.max _ _). assert (t = Z.log2 (Zpos p) + j + e - 52) as Ht by (unfold t, double_prec; lia).
  destruct (t - e) as [|n|n] eqn:En.
  - rewrite Eq. apply round_aux_shift; lia.
  - rewrite Eq. apply round_aux_shift; lia.
  - rewrite iter_double, Eq, <- Z.mul_assoc, <- Z.pow_add_r by lia. rewrite round_aux_shift by lia. f_equal. lia.
Qed.

Lemma normalize_shift z j e s :
  z ≠ 0 → Z.abs z < 2 ^ 53 → 0 ≤ j → -1022 ≤ j + e ≤ 971 →
  binary_normalize double_prec double_emax (z * 2 ^ j) e s = canonical z (j + e).
Proof.
  intros Hz Ha Hj He. assert (0 < 2 ^ j) as H2 by (apply Z.pow_pos_nonneg; lia).
  destruct z as [|p|p]; [done| |].
  - pose proof (log2_small p ltac:(lia)) as Hl. destruct (Zpos p * 2 ^ j) as [|q|q] eqn:E; [nia| |nia]. cbn [binary_normalize canonical].
    rewrite (round_shift false p j e q) by lia. f_equal. lia.
  - pose proof (log2_small p ltac:(lia)) as Hl. destruct (Zneg p * 2 ^ j) as [|q|q] eqn:E; [nia|nia|]. cbn [binary_normalize canonical].
    rewrite (round_shift true p j e q) by lia. f_equal. lia.
Qed.

(** The grids: [k] binary places, up to 900. *)
Lemma of_dyadic_canonical z k : Z.abs z < 2 ^ 53 → 0 ≤ k ≤ 900 → of_dyadic z k = canonical z (- k).
Proof.
  intros Hz Hk. destruct (decide (z = 0)) as [->|Hne]; [done|]. unfold of_dyadic.
  rewrite <- (Z.mul_1_r z) at 1. rewrite <- (Z.pow_0_r 2). rewrite normalize_shift by lia. done.
Qed.

Lemma of_int_dyadic z : of_int z = of_dyadic z 0.
Proof. done. Qed.

Lemma of_dyadic_scale z k : Z.abs (z * 2 ^ k) < 2 ^ 53 → 0 ≤ k ≤ 900 → of_int z = of_dyadic (z * 2 ^ k) k.
Proof.
  intros Hz Hk. destruct (decide (z = 0)) as [->|Hne]; [done|]. assert (0 < 2 ^ k) by (apply Z.pow_pos_nonneg; lia).
  unfold of_dyadic, of_int. rewrite (normalize_shift z k (- k)) by nia. rewrite Z.add_opp_diag_r.
  rewrite <- (Z.mul_1_r z) at 1. rewrite <- (Z.pow_0_r 2). rewrite normalize_shift by nia. done.
Qed.

Lemma aligned p x y :
  Zpos p < 2 ^ 53 → y ≤ Z.log2 (Zpos p) - 52 + x →
  Zpos (shl_align (Z.to_pos (mantissa p)) (Z.log2 (Zpos p) - 52 + x) y).1 = Zpos p * 2 ^ (x - y).
Proof.
  intros Hp Hy. pose proof (log2_small p Hp) as Hl. destruct (mantissa_log p Hp) as [Hm _].
  assert (∀ n, 0 ≤ n → n = Z.log2 (Zpos p) - 52 + x - y → mantissa p * 2 ^ n = Zpos p * 2 ^ (x - y)) as Hv.
  { intros n Hn En. unfold mantissa. rewrite <- Z.mul_assoc, <- Z.pow_add_r by lia. do 2 f_equal. lia. }
  unfold shl_align. destruct (y - _) as [|n|n] eqn:E; [|lia|]; cbn [fst].
  - rewrite Z2Pos.id by done. rewrite <- (Hv 0) by lia. lia.
  - rewrite iter_double, Z2Pos.id by done. apply Hv; lia.
Qed.

(** Subtracting is exact. *)
Lemma dsub_dyadic z w k :
  Z.abs z < 2 ^ 53 → Z.abs w < 2 ^ 53 → Z.abs (z - w) < 2 ^ 53 → 0 ≤ k ≤ 900 →
  dsub (of_dyadic z k) (of_dyadic w k) = of_dyadic (z - w) k.
Proof.
  intros Hz Hw Hd Hk. rewrite !of_dyadic_canonical by done.
  assert (∀ (s : bool) p, Z.abs (cond_Zopp s (Zpos p)) < 2 ^ 53 → Zpos p < 2 ^ 53) as Habs by (intros [] p; cbn [cond_Zopp]; lia).
  assert (∀ (s t : bool) p q, Zpos p < 2 ^ 53 → Zpos q < 2 ^ 53 → Z.abs (cond_Zopp s (Zpos p) - cond_Zopp t (Zpos q)) < 2 ^ 53 →
    SFsub double_prec double_emax (S754_finite s (Z.to_pos (mantissa p)) (Z.log2 (Zpos p) - 52 + - k))
      (S754_finite t (Z.to_pos (mantissa q)) (Z.log2 (Zpos q) - 52 + - k))
    = canonical (cond_Zopp s (Zpos p) - cond_Zopp t (Zpos q)) (- k)) as Hfin.
  { intros s t p q Hp Hq Hpq. pose proof (log2_small p Hp). pose proof (log2_small q Hq). cbn [SFsub].
    set (ez := Z.min _ _). rewrite !aligned by (done || lia).
    assert (cond_Zopp s (Zpos p * 2 ^ (- k - ez)) - cond_Zopp t (Zpos q * 2 ^ (- k - ez))
      = (cond_Zopp s (Zpos p) - cond_Zopp t (Zpos q)) * 2 ^ (- k - ez)) as -> by (destruct s, t; cbn [cond_Zopp]; lia).
    destruct (decide (cond_Zopp s (Zpos p) - cond_Zopp t (Zpos q) = 0)) as [->|Hne]; [done|].
    rewrite normalize_shift by (done || lia). f_equal. lia. }
  unfold dsub. destruct z as [|p|p], w as [|q|q]; try done.
  - exact (Hfin false false p q ltac:(lia) ltac:(lia) Hd).
  - exact (Hfin false true p q ltac:(lia) ltac:(lia) Hd).
  - exact (Hfin true false p q ltac:(lia) ltac:(lia) Hd).
  - exact (Hfin true true p q ltac:(lia) ltac:(lia) Hd).
Qed.

Lemma mantissa_compare p k q l :
  Zpos p < 2 ^ 53 → Zpos q < 2 ^ 53 → 0 ≤ k → 0 ≤ l →
  match Z.log2 (Zpos p) - 52 + - k ?= Z.log2 (Zpos q) - 52 + - l with
  | Lt => Lt | Gt => Gt | Eq => Pos.compare_cont Eq (Z.to_pos (mantissa p)) (Z.to_pos (mantissa q))
  end = (Zpos p * 2 ^ l ?= Zpos q * 2 ^ k).
Proof.
  intros Hp Hq Hk Hl. destruct (mantissa_log p Hp) as [Hmp _], (mantissa_log q Hq) as [Hmq _].
  pose proof (log2_small p Hp) as Hlp. pose proof (log2_small q Hq) as Hlq.
  pose proof (Z.log2_mul_pow2 (Zpos p) l ltac:(lia) Hl) as Ep. pose proof (Z.log2_mul_pow2 (Zpos q) k ltac:(lia) Hk) as Eq'.
  destruct (Z.compare_spec (Z.log2 (Zpos p) - 52 + - k) (Z.log2 (Zpos q) - 52 + - l)) as [E|E|E]; symmetry.
  - change (Pos.compare_cont Eq ?a ?b) with (a ?= b)%positive. rewrite <- (Z2Pos.inj_compare _ _ Hmp Hmq).
    rewrite (Zmult_compare_compat_r (Zpos p * 2 ^ l) _ (2 ^ (52 - Z.log2 (Zpos p)))) by (apply Z.lt_gt, Z.pow_pos_nonneg; lia).
    rewrite (Zmult_compare_compat_r (mantissa p) _ (2 ^ l)) by (apply Z.lt_gt, Z.pow_pos_nonneg; lia).
    unfold mantissa. f_equal; rewrite <- !Z.mul_assoc, <- !Z.pow_add_r by lia; do 2 f_equal; lia.
  - apply Z.compare_lt_iff. apply Z.log2_lt_cancel. lia.
  - apply Z.compare_gt_iff. apply Z.log2_lt_cancel. lia.
Qed.

(** They compare as the numbers, on whatever grids they are. *)
Lemma dgeb_dyadic z k w l :
  Z.abs z < 2 ^ 53 → Z.abs w < 2 ^ 53 → 0 ≤ k ≤ 900 → 0 ≤ l ≤ 900 →
  dgeb (of_dyadic z k) (of_dyadic w l) = (w * 2 ^ k <=? z * 2 ^ l).
Proof.
  intros Hz Hw Hk Hl. rewrite !of_dyadic_canonical by done. unfold dgeb, SFleb.
  assert (0 < 2 ^ k) as Hk2 by (apply Z.pow_pos_nonneg; lia). assert (0 < 2 ^ l) as Hl2 by (apply Z.pow_pos_nonneg; lia).
  assert (SFcompare (canonical w (- l)) (canonical z (- k)) = Some (w * 2 ^ k ?= z * 2 ^ l)) as ->;
    [|by destruct (w * 2 ^ k ?= z * 2 ^ l) eqn:E; unfold Z.leb; rewrite E].
  assert (∀ p (n : Z), 0 < n → 0 < Zpos p * n ∧ Zneg p * n < 0) as Hsg by (intros p n Hn; split; nia).
  destruct w as [|q|q], z as [|p|p]; cbn [canonical SFcompare]; f_equal; symmetry.
  - destruct (Hsg p _ Hl2). apply Z.compare_lt_iff; lia.
  - destruct (Hsg p _ Hl2). apply Z.compare_gt_iff; lia.
  - destruct (Hsg q _ Hk2). apply Z.compare_gt_iff; lia.
  - symmetry. apply mantissa_compare; lia.
  - destruct (Hsg q _ Hk2), (Hsg p _ Hl2). apply Z.compare_gt_iff; lia.
  - destruct (Hsg q _ Hk2). apply Z.compare_lt_iff; lia.
  - destruct (Hsg q _ Hk2), (Hsg p _ Hl2). apply Z.compare_lt_iff; lia.
  - pose proof (mantissa_compare q l p k ltac:(lia) ltac:(lia) ltac:(lia) ltac:(lia)) as Hc.
    change (Zneg q) with (- Zpos q). change (Zneg p) with (- Zpos p). rewrite !Z.mul_opp_l, Z.compare_opp, Z.compare_antisym, <- Hc.
    by destruct (_ ?= _).
Qed.

(** Signed arithmetic whose overflow is undefined. *)
Definition int32 (z : Z) : result Z := if in_i32 z then Ok z else Err SignedOverflow.
Definition int64 (z : Z) : result Z := if in_i64 z then Ok z else Err SignedOverflow.

Lemma int32_ok z : - 2 ^ 31 ≤ z < 2 ^ 31 → int32 z = Ok z.
Proof.
  intros Hz. unfold int32, in_i32. rewrite (proj2 (Z.leb_le _ _)), (proj2 (Z.ltb_lt _ _)) by lia. done.
Qed.
Lemma int64_ok z : - 2 ^ 63 ≤ z < 2 ^ 63 → int64 z = Ok z.
Proof.
  intros Hz. unfold int64, in_i64. rewrite (proj2 (Z.leb_le _ _)), (proj2 (Z.ltb_lt _ _)) by lia. done.
Qed.
Lemma int32_inv z x : int32 z = Ok x → x = z ∧ - 2 ^ 31 ≤ z < 2 ^ 31.
Proof. unfold int32, in_i32. destruct (_ && _) eqn:E; [|done]. intros [= <-]. lia. Qed.
Lemma int64_inv z x : int64 z = Ok x → x = z ∧ - 2 ^ 63 ≤ z < 2 ^ 63.
Proof. unfold int64, in_i64. destruct (_ && _) eqn:E; [|done]. intros [= <-]. lia. Qed.

(** std::abs of an int. *)
Definition std_abs (z : Z) : result Z := int32 (Z.abs z).

Lemma i32_small z : - 2 ^ 31 ≤ z < 2 ^ 31 → i32 z = z.
Proof. intros Hz. unfold i32, to_signed. rewrite Z.mod_small by lia. lia. Qed.

Lemma i32_range z : - 2 ^ 31 ≤ i32 z < 2 ^ 31.
Proof. unfold i32, to_signed. pose proof (Z.mod_pos_bound (z + 2 ^ (32 - 1)) (2 ^ 32)). lia. Qed.

(** Steps of an error monad taken under a hypothesis that the whole succeeds. *)
Lemma bind_Ok {A B} (r : result A) (f : A → result B) b :
  r ≫= f = Ok b → ∃ a, r = Ok a ∧ f a = Ok b.
Proof. destruct r as [a|e]; [|done]. intros Hf. by exists a. Qed.
