(* ===== verification/PositionKeeper.v ===== *)
(** * Positions (trading/strategy/position_keeper.h)

    The position and the volume are integers of 32 bits that wrap; the products that the code
    computes in int or int64_t must not overflow, which is a fault here.  The constructor leaves
    open_vwap_ as it finds the memory: its first contents are an argument.  The pointer bbo_ is the
    index of the book that owns the best bid and offer. *)
From S2P Require Import Prelude Types MemPool BookSpec MarketOrderBook Double.
Record PositionInfo := mkPositionInfo {
  position_ : Z;
  real_pnl_ : double;
  unreal_pnl_ : double;
  total_pnl_ : double;
  open_vwap_ : list double;
  volume_ : Z;
  pi_bbo_ : ptr
}.

Definition PositionInfo_new (garbage : list double) : PositionInfo :=
  mkPositionInfo 0 dzero dzero dzero garbage 0 None.

(** The array open_vwap_, indexed without a check. *)
Definition vwap_at (i : nat) (v : list double) : result double :=
  match v !! i with Some x => Ok x | None => Err WildDeref end.

Definition side_index (side : Side) : nat := Z.to_nat (sideToIndex side).

Section PositionInfo.
Implicit Types (p : PositionInfo) (r : MEClientResponse).

(** [value - open_vwap_[side] / abs(position_)] in one or the other direction, times
    [abs(position_)]: what an open position would gain at [value]. *)
Definition open_pnl (position : Z) (vwap : list double) (value : double) : result double :=
  n ← std_abs position;
  if 0 <? position then
    v ← vwap_at (side_index Side_BUY) vwap;
    mret (dmul (dsub value (ddiv v (of_int n))) (of_int n))
  else
    v ← vwap_at (side_index Side_SELL) vwap;
    mret (dmul (dsub (ddiv v (of_int n)) value) (of_int n)).

(** An execution that opens or increases the position. *)
Definition increase r (vwap : list double) : result (list double) :=
  let i := side_index (rsp_side_ r) in
  v ← vwap_at i vwap;
  value ← int64 (rsp_price_ r * rsp_exec_qty_ r);
  mret (<[i := dadd v (of_int value)]> vwap).

(** An execution that decreases, closes or flips the position [old]: the new average prices and
    the realised profit. *)
Definition decrease r (old new : Z) (vwap : list double) : result (list double * double) :=
  let i := side_index (rsp_side_ r) in
  let j := side_index (if decide (rsp_side_ r = Side_BUY) then Side_SELL else Side_BUY) in
  abs_old ← std_abs old;
  v ← vwap_at j vwap;
  let opp_side_vwap := ddiv v (of_int abs_old) in
  abs_new ← std_abs new;
  let vwap := <[j := dmul opp_side_vwap (of_int abs_new)]> vwap in
  let pnl :=
    dmul (dmul (of_int (Z.min (i32 (rsp_exec_qty_ r)) abs_old)) (dsub opp_side_vwap (of_int (rsp_price_ r))))
      (of_int (sideToValue (rsp_side_ r))) in
  flip ← int32 (new * old);
  if flip <? 0 then
    value ← int64 (rsp_price_ r * abs_new);
    mret (<[j := dzero]> (<[i := of_int value]> vwap), pnl)
  else mret (vwap, pnl).

Definition addFill r p : result PositionInfo :=
  let old := position_ p in
  let new := i32 (old + rsp_exec_qty_ r * sideToValue (rsp_side_ r)) in
  let volume := u32 (volume_ p + rsp_exec_qty_ r) in
  direction ← int32 (old * sideToValue (rsp_side_ r));
  x ← (if 0 <=? direction then
         vwap ← increase r (open_vwap_ p); mret (vwap, real_pnl_ p)
       else
         y ← decrease r old new (open_vwap_ p); mret (y.1, dadd (real_pnl_ p) y.2));
  y ← (if new =? 0 then
         mret (<[side_index Side_BUY := dzero]> (<[side_index Side_SELL := dzero]> x.1), dzero)
       else
         u ← open_pnl new x.1 (of_int (rsp_price_ r)); mret (x.1, u));
  mret (mkPositionInfo new x.2 y.2 (dadd y.2 x.2) y.1 volume (pi_bbo_ p)).

(** [book] is the address of the book, [bbo] what it holds. *)
Definition pi_updateBBO (book : nat) (bbo : BBO) p : result PositionInfo :=
  let p := mkPositionInfo (position_ p) (real_pnl_ p) (unreal_pnl_ p) (total_pnl_ p) (open_vwap_ p)
             (volume_ p) (Some book) in
  if negb (position_ p =? 0) && negb (bid_price_ bbo =? Price_INVALID) && negb (ask_price_ bbo =? Price_INVALID)
  then
    sum ← int64 (bid_price_ bbo + ask_price_ bbo);
    u ← open_pnl (position_ p) (open_vwap_ p) (dmul (of_int sum) dhalf);
    mret (mkPositionInfo (position_ p) (real_pnl_ p) u (dadd u (real_pnl_ p)) (open_vwap_ p) (volume_ p)
            (pi_bbo_ p))
  else Ok p.
End PositionInfo.

(** ** The keeper of all tickers *)
Abbreviation PositionKeeper := (list PositionInfo).

Definition PositionKeeper_new `{Limits} (garbage : nat → list double) : PositionKeeper :=
  (λ i, PositionInfo_new (garbage i)) <$> seq 0 (Z.to_nat ME_MAX_TICKERS).

(** std::array::at on the array of tickers. *)
Definition on_ticker {A} (ticker_id : Z) (f : A → result A) (l : list A) : result (list A) :=
  match l !! Z.to_nat ticker_id with
  | Some x => y ← f x; mret (<[Z.to_nat ticker_id := y]> l)
  | None => Err OutOfRange
  end.

Definition pk_addFill (r : MEClientResponse) (k : PositionKeeper) : result PositionKeeper :=
  on_ticker (rsp_ticker_id_ r) (addFill r) k.

Definition pk_updateBBO (ticker_id : Z) (book : nat) (bbo : BBO) (k : PositionKeeper) : result PositionKeeper :=
  on_ticker ticker_id (pi_updateBBO book bbo) k.

Definition getPositionInfo (ticker_id : Z) (k : PositionKeeper) : result PositionInfo :=
  match k !! Z.to_nat ticker_id with Some p => Ok p | None => Err OutOfRange end.

(** ** What the keeper computes *)
Section theorems.
Implicit Types (p : PositionInfo) (r : MEClientResponse).

(** The signed quantity of an execution. *)
Definition fill_value r : Z := rsp_exec_qty_ r * sideToValue (rsp_side_ r).

Fixpoint addFills (rs : list MEClientResponse) p : result PositionInfo :=
  match rs with [] => Ok p | r :: rs => p ← addFill r p; addFills rs p end.

Lemma addFill_position r p p' :
  addFill r p = Ok p' → position_ p' = i32 (position_ p + fill_value r) ∧
    volume_ p' = u32 (volume_ p + rsp_exec_qty_ r) ∧ total_pnl_ p' = dadd (unreal_pnl_ p') (real_pnl_ p') ∧
    (position_ p' = 0 → unreal_pnl_ p' = dzero ∧
       ∀ s x, trading_side s → open_vwap_ p' !! side_index s = Some x → x = dzero).
Proof.
  unfold addFill. intros (d & _ & (x & _ & (y & Hy & [= <-])%bind_Ok)%bind_Ok)%bind_Ok. cbn.
  split_and!; try done. intros Hz. unfold fill_value in *. rewrite Hz in Hy. cbn in Hy. injection Hy as <-.
  split; [done|]. cbn [fst]. intros s v Hs Hv.
  assert (side_index Side_BUY ≠ side_index Side_SELL) as Hne by done.
  destruct Hs as [->| ->].
  - by apply list_lookup_insert_Some in Hv as [(_ & -> & _)|[? _]].
  - rewrite list_lookup_insert_ne in Hv by done.
    by apply list_lookup_insert_Some in Hv as [(_ & -> & _)|[? _]].
Qed.

Definition total_value (rs : list MEClientResponse) : Z := foldr (λ r n, fill_value r + n) 0 rs.
Definition total_exec (rs : list MEClientResponse) : Z := foldr (λ r n, rsp_exec_qty_ r + n) 0 rs.

Lemma i32_add_l a b : i32 (i32 a + b) = i32 (a + b).
Proof.
  unfold i32, to_signed. f_equal.
  replace ((a + 2 ^ (32 - 1)) `mod` 2 ^ 32 - 2 ^ (32 - 1) + b + 2 ^ (32 - 1))
    with ((a + 2 ^ (32 - 1)) `mod` 2 ^ 32 + b) by lia.
  rewrite Z.add_mod_idemp_l by lia. f_equal. lia.
Qed.

(** C30: the position is the signed sum of the executions and the volume their sum, each at its
    width of 32 bits, whatever order they come in; the total profit is the sum of its parts, and
    when the executions end flat nothing of the open position is left. *)
Theorem position_is_sum rs p p' :
  addFills rs p = Ok p' → - 2 ^ 31 ≤ position_ p < 2 ^ 31 → is_u32 (volume_ p) →
  position_ p' = i32 (position_ p + total_value rs) ∧ volume_ p' = u32 (volume_ p + total_exec rs) ∧
  (rs ≠ [] → total_pnl_ p' = dadd (unreal_pnl_ p') (real_pnl_ p') ∧
     (position_ p' = 0 → unreal_pnl_ p' = dzero ∧
        ∀ s x, trading_side s → open_vwap_ p' !! side_index s = Some x → x = dzero)).
Proof.
  revert p. induction rs as [|r rs IH]; intros p; cbn [addFills total_value total_exec foldr].
  { intros [= <-] Hp Hv. rewrite !Z.add_0_r, i32_small, u32_small by done. done. }
  intros (p1 & H1 & H2)%bind_Ok Hp Hv. destruct (addFill_position r p p1 H1) as (Hp1 & Hv1 & Ht1 & Hf1).
  destruct (IH p1 H2) as (Hp2 & Hv2 & Hrest).
  - rewrite Hp1. apply i32_range.
  - rewrite Hv1. apply u32_range.
  - split_and!.
    + rewrite Hp2, Hp1, i32_add_l. f_equal. unfold total_value. lia.
    + rewrite Hv2, Hv1. unfold u32. rewrite Z.add_mod_idemp_l by lia. f_equal. unfold total_exec. lia.
    + intros _. destruct rs as [|r' rs]; [|by apply Hrest]. cbn in H2. injection H2 as <-. done.
Qed.

(** C37: reducing a large position overflows: the test for a flipped position multiplies the old and
    the new position in 32 bits, so that a sale out of a long position of 65536 or more can be
    undefined although every quantity and every position is far from the limits of its type. *)
Theorem addFill_overflow r p :
  rsp_side_ r = Side_SELL → 0 < position_ p < 2 ^ 31 → 0 ≤ rsp_exec_qty_ r < position_ p →
  length (open_vwap_ p) = 4%nat → 2 ^ 31 ≤ (position_ p - rsp_exec_qty_ r) * position_ p →
  addFill r p = Err SignedOverflow.
Proof.
  intros Hs Hp Hq Hlen Hov. unfold addFill. rewrite Hs. cbn [sideToValue].
  rewrite int32_ok by lia. cbn [mbind result_bind]. rewrite (proj2 (Z.leb_gt _ _)) by lia.
  cbv zeta. rewrite !(i32_small (position_ p + _)) by lia. unfold decrease, std_abs. rewrite Hs. rewrite decide_False by done.
  rewrite (int32_ok (Z.abs (position_ p))) by lia. cbn [mbind result_bind].
  destruct (open_vwap_ p) as [|v0 [|v1 [|v2 [|v3 l]]]]; try done.
  change (side_index Side_BUY) with 2%nat. cbn [vwap_at lookup list_lookup mbind result_bind].
  unfold vwap_at. cbn [lookup list_lookup mbind result_bind].
  rewrite (int32_ok (Z.abs (position_ p + _))) by lia. cbn [mbind result_bind].
  unfold int32, in_i32. rewrite (proj2 (Z.ltb_ge _ _)) by lia. by rewrite andb_false_r.
Qed.
End theorems.
