(* ===== verification/RiskManager.v ===== *)
(** * Pre-trade risk checks (trading/strategy/risk_manager.h and .cpp, common/types.h)

    The pointer position_info_ of a RiskInfo is the entry of its ticker in the position keeper:
    the position is an argument of the check. *)
From S2P Require Import Prelude Types Double PositionKeeper.
(** ** Configuration (types.h) *)
Record RiskCfg := mkRiskCfg { max_order_size_ : Z; max_position_ : Z; max_loss_ : double }.
Definition RiskCfg_default : RiskCfg := mkRiskCfg 0 0 dzero.

Record TradeEngineCfg := mkTradeEngineCfg { clip_ : Z; threshold_ : double; risk_cfg_ : RiskCfg }.
Definition TradeEngineCfg_default : TradeEngineCfg := mkTradeEngineCfg 0 dzero RiskCfg_default.

(** ** The check *)
Inductive RiskCheckResult :=
  | RiskCheckResult_INVALID
  | RiskCheckResult_ORDER_TOO_LARGE
  | RiskCheckResult_POSITION_TOO_LARGE
  | RiskCheckResult_LOSS_TOO_LARGE
  | RiskCheckResult_ALLOWED.

#[export] Instance RiskCheckResult_eq_dec : EqDecision RiskCheckResult.
Proof. solve_decision. Defined.

Definition riskCheckResultToString (result : RiskCheckResult) : string :=
  match result with
  | RiskCheckResult_INVALID => "INVALID"
  | RiskCheckResult_ORDER_TOO_LARGE => "ORDER_TOO_LARGE"
  | RiskCheckResult_POSITION_TOO_LARGE => "POSITION_TOO_LARGE"
  | RiskCheckResult_LOSS_TOO_LARGE => "LOSS_TOO_LARGE"
  | RiskCheckResult_ALLOWED => "ALLOWED"
  end.

(** RiskInfo::checkPreTradeRisk. *)
Definition info_checkPreTradeRisk (cfg : RiskCfg) (p : PositionInfo) (side : Side) (qty : Z) :
    result RiskCheckResult :=
  if max_order_size_ cfg <? qty then Ok RiskCheckResult_ORDER_TOO_LARGE
  else
    value ← int32 (sideToValue side * i32 qty);
    sum ← int32 (position_ p + value);
    n ← std_abs sum;
    if i32 (max_position_ cfg) <? n then Ok RiskCheckResult_POSITION_TOO_LARGE
    else if dltb (total_pnl_ p) (max_loss_ cfg) then Ok RiskCheckResult_LOSS_TOO_LARGE
    else Ok RiskCheckResult_ALLOWED.

(** The array ticker_risk_ holds the configurations; its pointers lead into the keeper. *)
Abbreviation RiskManager := (list RiskCfg).

Definition RiskManager_new (ticker_cfg : list TradeEngineCfg) : RiskManager := risk_cfg_ <$> ticker_cfg.

Definition checkPreTradeRisk (rm : RiskManager) (k : PositionKeeper) (ticker_id : Z) (side : Side) (qty : Z) :
    result RiskCheckResult :=
  match rm !! Z.to_nat ticker_id, k !! Z.to_nat ticker_id with
  | Some cfg, Some p => info_checkPreTradeRisk cfg p side qty
  | _, _ => Err OutOfRange
  end.

(** The limits fit the arithmetic of the check. *)
Definition cfg_ok (cfg : RiskCfg) : Prop :=
  0 ≤ max_order_size_ cfg ∧ 0 ≤ max_position_ cfg ∧ max_order_size_ cfg + max_position_ cfg < 2 ^ 31.

(** The first limit that the order breaks. *)
Definition risk_spec (cfg : RiskCfg) (position : Z) (pnl : double) (side : Side) (qty : Z) : RiskCheckResult :=
  if max_order_size_ cfg <? qty then RiskCheckResult_ORDER_TOO_LARGE
  else if max_position_ cfg <? Z.abs (position + sideToValue side * qty) then RiskCheckResult_POSITION_TOO_LARGE
  else if dltb pnl (max_loss_ cfg) then RiskCheckResult_LOSS_TOO_LARGE
  else RiskCheckResult_ALLOWED.

Lemma info_check_spec cfg p side qty :
  cfg_ok cfg → Z.abs (position_ p) ≤ max_position_ cfg → 0 ≤ qty → side = Side_BUY ∨ side = Side_SELL →
  info_checkPreTradeRisk cfg p side qty = Ok (risk_spec cfg (position_ p) (total_pnl_ p) side qty).
Proof.
  intros (Hs & Hm & Hsum) Hp Hq Hside. unfold info_checkPreTradeRisk, risk_spec.
  destruct (max_order_size_ cfg <? qty) eqn:E; [done|]. apply Z.ltb_ge in E.
  rewrite (i32_small qty), (i32_small (max_position_ cfg)) by lia.
  assert (- qty ≤ sideToValue side * qty ≤ qty) by (destruct Hside as [->| ->]; cbn [sideToValue]; lia).
  rewrite int32_ok by lia. cbn [mbind result_bind]. rewrite int32_ok by lia. cbn [mbind result_bind].
  unfold std_abs. rewrite int32_ok by lia. cbn [mbind result_bind].
  destruct (_ <? Z.abs _); [done|]. by destruct (dltb _ _).
Qed.

(** C31: with limits that fit 31 bits and a position within its limit, the check computes without
    overflow and answers with the first limit that the order breaks, the size of the order, the
    position that a full execution would give, the loss, and ALLOWED when there is none. *)
Theorem risk_check_exact rm k ticker_id cfg p side qty :
  rm !! Z.to_nat ticker_id = Some cfg → k !! Z.to_nat ticker_id = Some p →
  cfg_ok cfg → Z.abs (position_ p) ≤ max_position_ cfg → 0 ≤ qty → side = Side_BUY ∨ side = Side_SELL →
  checkPreTradeRisk rm k ticker_id side qty = Ok (risk_spec cfg (position_ p) (total_pnl_ p) side qty).
Proof.
  intros Hrm Hk Hc Hp Hq Hs. unfold checkPreTradeRisk. rewrite Hrm, Hk. by apply info_check_spec.
Qed.

(** A loss that is not a number passes the check of losses: an order that keeps the other limits
    is allowed. *)
Theorem nan_loss_allowed cfg p side qty :
  total_pnl_ p = quiet_NaN → cfg_ok cfg → Z.abs (position_ p) ≤ max_position_ cfg → 0 ≤ qty ≤ max_order_size_ cfg →
  side = Side_BUY ∨ side = Side_SELL → Z.abs (position_ p + sideToValue side * qty) ≤ max_position_ cfg →
  info_checkPreTradeRisk cfg p side qty = Ok RiskCheckResult_ALLOWED.
Proof.
  intros Hn Hc Hp Hq Hs Hlim. rewrite info_check_spec by (done || lia). unfold risk_spec. rewrite Hn, dltb_nan.
  rewrite (proj2 (Z.ltb_ge _ _)) by lia. by rewrite (proj2 (Z.ltb_ge _ _)) by lia.
Qed.
