(* ===== verification/OrderManager.v ===== *)
(** * The order manager (trading/strategy/om_order.h, order_manager.h and order_manager.cpp)

    The manager calls its trade engine in one way only, sendClientRequest: it is modelled against
    that interface.  A pointer to an OMOrder is the pair of indices of the order in
    ticker_side_order_.  The risk manager is the function that it passes the checks to. *)
From S2P Require Import Prelude Types BookSpec PositionKeeper RiskManager Double.
Class RequestSink (T : Type) := sendClientRequest : MEClientRequest → T → T.

(** ** Orders (om_order.h) *)
Inductive OMOrderState :=
  | OMOrderState_INVALID
  | OMOrderState_PENDING_NEW
  | OMOrderState_LIVE
  | OMOrderState_PENDING_CANCEL
  | OMOrderState_DEAD.

#[export] Instance OMOrderState_eq_dec : EqDecision OMOrderState.
Proof. solve_decision. Defined.

Definition OMOrderStateToString (state : OMOrderState) : string :=
  match state with
  | OMOrderState_PENDING_NEW => "PENDING_NEW"
  | OMOrderState_LIVE => "LIVE"
  | OMOrderState_PENDING_CANCEL => "PENDING_CANCEL"
  | OMOrderState_DEAD => "DEAD"
  | OMOrderState_INVALID => "INVALID"
  end.

Record OMOrder := mkOMOrder {
  om_ticker_id_ : Z;
  om_order_id_ : Z;
  om_side_ : Side;
  om_price_ : Z;
  om_qty_ : Z;
  om_order_state_ : OMOrderState
}.

Definition OMOrder_default : OMOrder :=
  mkOMOrder TickerId_INVALID OrderId_INVALID Side_INVALID Price_INVALID Qty_INVALID OMOrderState_INVALID.

Definition OMOrder_toString (o : OMOrder) : string :=
  "OMOrder" +:+ "[" +:+ "tid:" +:+ tickerIdToString (om_ticker_id_ o)
  +:+ " " +:+ "oid:" +:+ orderIdToString (om_order_id_ o)
  +:+ " " +:+ "side:" +:+ sideToString (om_side_ o)
  +:+ " " +:+ "price:" +:+ priceToString (om_price_ o)
  +:+ " " +:+ "qty:" +:+ qtyToString (om_qty_ o)
  +:+ " " +:+ "state:" +:+ OMOrderStateToString (om_order_state_ o) +:+ "]".

Definition om_set_state (s : OMOrderState) (o : OMOrder) : OMOrder :=
  mkOMOrder (om_ticker_id_ o) (om_order_id_ o) (om_side_ o) (om_price_ o) (om_qty_ o) s.
Definition om_set_qty (q : Z) (o : OMOrder) : OMOrder :=
  mkOMOrder (om_ticker_id_ o) (om_order_id_ o) (om_side_ o) (om_price_ o) q (om_order_state_ o).

(** ** The manager (order_manager.h) *)
Record OrderManager := mkOrderManager {
  ticker_side_order_ : list (list OMOrder);
  next_order_id_ : Z
}.

Definition OrderManager_new `{Limits} : OrderManager :=
  mkOrderManager (replicate (Z.to_nat ME_MAX_TICKERS) (replicate (S (side_index Side_MAX)) OMOrder_default)) 1.

(** The address of an order. *)
Definition order_ptr : Type := nat * nat.

Definition om_lookup (a : order_ptr) (m : OrderManager) : option OMOrder :=
  ticker_side_order_ m !! a.1 ≫= (λ l, l !! a.2).
Definition om_store (a : order_ptr) (o : OMOrder) (m : OrderManager) : OrderManager :=
  mkOrderManager (alter (<[a.2 := o]>) a.1 (ticker_side_order_ m)) (next_order_id_ m).

(** The buy and sell orders of a ticker. *)
Definition getOMOrderSideHashMap (ticker_id : Z) (m : OrderManager) : result (list OMOrder) :=
  match ticker_side_order_ m !! Z.to_nat ticker_id with Some l => Ok l | None => Err OutOfRange end.

Section OrderManager.
Context {T : Type} `{RequestSink T} (client_id : Z) (risk : Z → Side → Z → result RiskCheckResult).

Definition OM (A : Type) : Type := M (OrderManager * T) A.

(** [ticker_side_order_.at(ticker_id).at(sideToIndex(side))]. *)
Definition om_at (ticker_id : Z) (side : Side) : OM order_ptr :=
  m ← gets fst;
  let a := (Z.to_nat ticker_id, side_index side) in
  match om_lookup a m with Some _ => mret a | None => throw OutOfRange end.
Definition om_read (a : order_ptr) : OM OMOrder :=
  m ← gets fst; match om_lookup a m with Some o => mret o | None => throw WildDeref end.
Definition om_write (a : order_ptr) (o : OMOrder) : OM unit := modify (λ st, (om_store a o st.1, st.2)).

Definition newOrder (order : order_ptr) (ticker_id price : Z) (side : Side) (qty : Z) : OM unit :=
  id ← gets (λ st, next_order_id_ st.1);
  modify (λ st, (st.1, sendClientRequest
    (mkMEClientRequest ClientRequestType_NEW client_id ticker_id id side price qty) st.2));;
  om_write order (mkOMOrder ticker_id id side price qty OMOrderState_PENDING_NEW);;
  modify (λ st, (mkOrderManager (ticker_side_order_ st.1) (u64 (next_order_id_ st.1 + 1)), st.2)).

Definition cancelOrder (order : order_ptr) : OM unit :=
  o ← om_read order;
  modify (λ st, (st.1, sendClientRequest
    (mkMEClientRequest ClientRequestType_CANCEL client_id (om_ticker_id_ o) (om_order_id_ o) (om_side_ o)
       (om_price_ o) (om_qty_ o)) st.2));;
  om_write order (om_set_state OMOrderState_PENDING_CANCEL o).

Definition moveOrder (order : order_ptr) (ticker_id price : Z) (side : Side) (qty : Z) : OM unit :=
  o ← om_read order;
  match om_order_state_ o with
  | OMOrderState_LIVE => if negb (om_price_ o =? price) then cancelOrder order else mret tt
  | OMOrderState_INVALID | OMOrderState_DEAD =>
      if negb (price =? Price_INVALID) then
        risk_result ← lift (risk ticker_id side qty);
        if decide (risk_result = RiskCheckResult_ALLOWED) then newOrder order ticker_id price side qty
        else mret tt
      else mret tt
  | OMOrderState_PENDING_NEW | OMOrderState_PENDING_CANCEL => mret tt
  end.

Definition moveOrders (ticker_id bid_price ask_price clip : Z) : OM unit :=
  bid_order ← om_at ticker_id Side_BUY;
  moveOrder bid_order ticker_id bid_price Side_BUY clip;;
  ask_order ← om_at ticker_id Side_SELL;
  moveOrder ask_order ticker_id ask_price Side_SELL clip.

Definition om_onOrderUpdate (r : MEClientResponse) : OM unit :=
  order ← om_at (rsp_ticker_id_ r) (rsp_side_ r);
  o ← om_read order;
  match rsp_type_ r with
  | ClientResponseType_ACCEPTED => om_write order (om_set_state OMOrderState_LIVE o)
  | ClientResponseType_CANCELED => om_write order (om_set_state OMOrderState_DEAD o)
  | ClientResponseType_FILLED =>
      let o := om_set_qty (rsp_leaves_qty_ r) o in
      om_write order (if om_qty_ o =? 0 then om_set_state OMOrderState_DEAD o else o)
  | ClientResponseType_CANCEL_REJECTED | ClientResponseType_INVALID => mret tt
  end.
End OrderManager.
