(* ===== verification/FeatureEngine.v ===== *)
(** * The feature engine (trading/strategy/feature_engine.h)

    [bbo] is the best bid and offer of the book that the update is about. *)
From S2P Require Import Prelude Types Double MarketOrderBook.
Definition Feature_INVALID : double := quiet_NaN.

Record FeatureEngine := mkFeatureEngine { mkt_price_ : double; agg_trade_qty_ratio_ : double }.

Definition FeatureEngine_new : FeatureEngine := mkFeatureEngine Feature_INVALID Feature_INVALID.

Definition both_sides (bbo : BBO) : bool :=
  negb (bid_price_ bbo =? Price_INVALID) && negb (ask_price_ bbo =? Price_INVALID).

(** The sum of the quantities wraps at 32 bits before it is converted. *)
Definition fe_onOrderBookUpdate (bbo : BBO) (fe : FeatureEngine) : result FeatureEngine :=
  if both_sides bbo then
    x ← int64 (bid_price_ bbo * ask_qty_ bbo);
    y ← int64 (ask_price_ bbo * bid_qty_ bbo);
    sum ← int64 (x + y);
    mret (mkFeatureEngine (ddiv (of_int sum) (of_int (u32 (bid_qty_ bbo + ask_qty_ bbo)))) (agg_trade_qty_ratio_ fe))
  else Ok fe.

Definition fe_onTradeUpdate (u : MEMarketUpdate) (bbo : BBO) (fe : FeatureEngine) : FeatureEngine :=
  if both_sides bbo then
    mkFeatureEngine (mkt_price_ fe)
      (ddiv (of_int (upd_qty_ u))
         (of_int (if decide (upd_side_ u = Side_BUY) then ask_qty_ bbo else bid_qty_ bbo)))
  else fe.
