(* ===== verification/Algorithms.v ===== *)
(** * The two trading algorithms (market_maker.h and .cpp, liquidity_taker.h and .cpp)

    Each algorithm is its callbacks: the constructor stores them in the trade engine.  They read the
    feature engine and the book's best bid and offer, and act through the order manager. *)
From S2P Require Import Prelude Types Double BookSpec MarketOrderBook FeatureEngine PositionKeeper.
From S2P Require Import RiskManager OrderManager.
Section algorithms.
Context {T : Type} `{RequestSink T} (client_id : Z) (risk : Z → Side → Z → result RiskCheckResult).

Definition cfg_at (ticker_id : Z) (ticker_cfg : list TradeEngineCfg) : OM (T := T) TradeEngineCfg :=
  match ticker_cfg !! Z.to_nat ticker_id with Some c => mret c | None => throw OutOfRange end.

(** The comparison with Feature_INVALID of both algorithms. *)
Definition is_feature (x : double) : bool := negb (deqb x Feature_INVALID).

(** ** The market maker *)
Definition mm_onOrderBookUpdate (ticker_cfg : list TradeEngineCfg) (fe : FeatureEngine) (ticker_id : Z) (bbo : BBO) :
    OM (T := T) unit :=
  let fair_price := mkt_price_ fe in
  if both_sides bbo && is_feature fair_price then
    c ← cfg_at ticker_id ticker_cfg;
    bid_price ← lift (int64 (bid_price_ bbo -
      (if dgeb (dsub fair_price (of_int (bid_price_ bbo))) (threshold_ c) then 0 else 1)));
    ask_price ← lift (int64 (ask_price_ bbo +
      (if dgeb (dsub (of_int (ask_price_ bbo)) fair_price) (threshold_ c) then 0 else 1)));
    moveOrders client_id risk ticker_id bid_price ask_price (clip_ c)
  else mret tt.

Definition mm_onTradeUpdate (u : MEMarketUpdate) : OM (T := T) unit := mret tt.

Definition mm_onOrderUpdate (r : MEClientResponse) : OM (T := T) unit := om_onOrderUpdate r.

(** ** The liquidity taker *)
Definition lt_onOrderBookUpdate (ticker_id price : Z) (side : Side) : OM (T := T) unit := mret tt.

Definition lt_onTradeUpdate (ticker_cfg : list TradeEngineCfg) (fe : FeatureEngine) (u : MEMarketUpdate) (bbo : BBO) :
    OM (T := T) unit :=
  let agg_qty_ratio := agg_trade_qty_ratio_ fe in
  if both_sides bbo && is_feature agg_qty_ratio then
    c ← cfg_at (upd_ticker_id_ u) ticker_cfg;
    if dgeb agg_qty_ratio (threshold_ c) then
      if decide (upd_side_ u = Side_BUY)
      then moveOrders client_id risk (upd_ticker_id_ u) (ask_price_ bbo) Price_INVALID (clip_ c)
      else moveOrders client_id risk (upd_ticker_id_ u) Price_INVALID (bid_price_ bbo) (clip_ c)
    else mret tt
  else mret tt.

Definition lt_onOrderUpdate (r : MEClientResponse) : OM (T := T) unit := om_onOrderUpdate r.

(** The maker quotes at the best prices or one tick behind them.  On a book with both sides it
    asks the order manager for a bid at the best bid or one below and an ask at the best ask or one
    above, so that the quotes never cross when the book is not crossed.  Its test of the fair price
    never fails, NaN included: a fair price that is not a number puts both quotes one tick behind. *)
Lemma maker_quotes_near ticker_cfg fe ticker_id bbo c st :
  both_sides bbo = true → ticker_cfg !! Z.to_nat ticker_id = Some c →
  - 2 ^ 63 < bid_price_ bbo < 2 ^ 63 → - 2 ^ 63 ≤ ask_price_ bbo < 2 ^ 63 - 1 →
  ∃ bid ask, mm_onOrderBookUpdate ticker_cfg fe ticker_id bbo st = moveOrders client_id risk ticker_id bid ask (clip_ c) st ∧
    (bid = bid_price_ bbo ∨ bid = bid_price_ bbo - 1) ∧ (ask = ask_price_ bbo ∨ ask = ask_price_ bbo + 1) ∧
    (bid_price_ bbo < ask_price_ bbo → bid < ask) ∧
    (mkt_price_ fe = quiet_NaN → bid = bid_price_ bbo - 1 ∧ ask = ask_price_ bbo + 1).
Proof.
  intros Hb Hc Hbid Hask. unfold mm_onOrderBookUpdate, is_feature, Feature_INVALID, cfg_at.
  rewrite Hb, deqb_nan, Hc. cbn [andb negb]. unfold mbind, M_bind, mret, M_ret, lift.
  set (d1 := dgeb (dsub (mkt_price_ fe) (of_int (bid_price_ bbo))) (threshold_ c)).
  set (d2 := dgeb (dsub (of_int (ask_price_ bbo)) (mkt_price_ fe)) (threshold_ c)).
  assert (mkt_price_ fe = quiet_NaN → d1 = false ∧ d2 = false) as Hnan.
  { intros Hn. unfold d1, d2. rewrite Hn. split; apply dgeb_sub_nan. }
  clearbody d1 d2. exists (bid_price_ bbo - (if d1 then 0 else 1)), (ask_price_ bbo + (if d2 then 0 else 1)).
  split_and!.
  - rewrite (int64_ok (bid_price_ bbo - _)) by (destruct d1; lia).
    by rewrite (int64_ok (ask_price_ bbo + _)) by (destruct d2; lia).
  - destruct d1; lia.
  - destruct d2; lia.
  - destruct d1, d2; lia.
  - intros [-> ->]%Hnan. done.
Qed.

(** ** What the maker sends *)
Definition quote_request (ticker_id id price : Z) (side : Side) (qty : Z) : MEClientRequest :=
  mkMEClientRequest ClientRequestType_NEW client_id ticker_id id side price qty.
Definition pending_order (ticker_id id price : Z) (side : Side) (qty : Z) : OMOrder :=
  mkOMOrder ticker_id id side price qty OMOrderState_PENDING_NEW.

(** No order of the side is in the market or on its way there. *)
Definition idle (m : OrderManager) (ticker_id : Z) (side : Side) : Prop :=
  ∃ o, om_lookup (Z.to_nat ticker_id, side_index side) m = Some o ∧
    (om_order_state_ o = OMOrderState_INVALID ∨ om_order_state_ o = OMOrderState_DEAD).

Lemma moveOrder_idle m (q : T) ticker_id price side qty :
  idle m ticker_id side → price ≠ Price_INVALID → risk ticker_id side qty = Ok RiskCheckResult_ALLOWED →
  moveOrder client_id risk (Z.to_nat ticker_id, side_index side) ticker_id price side qty (m, q) =
  Ok (tt, (mkOrderManager
             (ticker_side_order_ (om_store (Z.to_nat ticker_id, side_index side)
                (pending_order ticker_id (next_order_id_ m) price side qty) m)) (u64 (next_order_id_ m + 1)),
           sendClientRequest (quote_request ticker_id (next_order_id_ m) price side qty) q)).
Proof.
  intros (o & Ho & Hs) Hp Hr. unfold moveOrder, om_read, mbind, M_bind, gets. cbn [fst]. rewrite Ho. cbn [mret M_ret].
  apply Z.eqb_neq in Hp. by destruct Hs as [->| ->]; rewrite Hp; cbn [negb]; unfold lift; rewrite Hr; rewrite decide_True by done.
Qed.

Lemma lookup_stored m a o : is_Some (om_lookup a m) → om_lookup a (om_store a o m) = Some o.
Proof.
  unfold om_lookup, om_store. cbn [ticker_side_order_]. intros [x Hx]. rewrite list_lookup_alter_eq.
  destruct (ticker_side_order_ m !! a.1) as [l|]; [|done]. cbn in Hx |- *. apply list_lookup_insert_eq. by eapply lookup_lt_Some.
Qed.

Lemma lookup_stored_other m i j j' o : j ≠ j' → om_lookup (i, j') (om_store (i, j) o m) = om_lookup (i, j') m.
Proof.
  intros Hj. unfold om_lookup, om_store. cbn [ticker_side_order_ fst snd]. rewrite list_lookup_alter_eq.
  destruct (ticker_side_order_ m !! i) as [l|]; [|done]. cbn. by apply list_lookup_insert_ne.
Qed.

(** C32: the market maker's quotes.  On a book with both sides, when the fair price is f / 2^k and the threshold
    t / 2^j, doubles of any precision, the maker asks the order manager for a bid at the best bid if
    the fair price is at least the threshold above it, and one tick below it otherwise, and for an ask at the best ask if that is at
    least the threshold above the fair price, and one tick above it otherwise; the comparisons are those of the
    numbers, since nothing is rounded while the prices, and what they are away from the fair price, are below 2^53 in
    units of 2^-k.  The quotes do not cross when the book
    does not.  If the client has no order at work for the ticker and the pre-trade check allows both, exactly
    these two orders are sent, the bid first, and are pending then. *)
Theorem maker_quotes ticker_cfg fe ticker_id bbo c f k t j m (q : T) :
  both_sides bbo = true → ticker_cfg !! Z.to_nat ticker_id = Some c →
  mkt_price_ fe = of_dyadic f k → threshold_ c = of_dyadic t j → 0 ≤ k ≤ 900 → 0 ≤ j ≤ 900 →
  Z.abs f < 2 ^ 53 → Z.abs t < 2 ^ 53 →
  Z.abs (bid_price_ bbo * 2 ^ k) < 2 ^ 53 → Z.abs (ask_price_ bbo * 2 ^ k) < 2 ^ 53 →
  Z.abs (f - bid_price_ bbo * 2 ^ k) < 2 ^ 53 → Z.abs (ask_price_ bbo * 2 ^ k - f) < 2 ^ 53 →
  let bid := if t * 2 ^ k <=? (f - bid_price_ bbo * 2 ^ k) * 2 ^ j then bid_price_ bbo else bid_price_ bbo - 1 in
  let ask := if t * 2 ^ k <=? (ask_price_ bbo * 2 ^ k - f) * 2 ^ j then ask_price_ bbo else ask_price_ bbo + 1 in
  let id := next_order_id_ m in
  mm_onOrderBookUpdate ticker_cfg fe ticker_id bbo (m, q) = moveOrders client_id risk ticker_id bid ask (clip_ c) (m, q) ∧
  (bid_price_ bbo < ask_price_ bbo → bid < ask) ∧
  (idle m ticker_id Side_BUY → idle m ticker_id Side_SELL →
   risk ticker_id Side_BUY (clip_ c) = Ok RiskCheckResult_ALLOWED → risk ticker_id Side_SELL (clip_ c) = Ok RiskCheckResult_ALLOWED →
   ∃ m', mm_onOrderBookUpdate ticker_cfg fe ticker_id bbo (m, q) =
     Ok (tt, (m', sendClientRequest (quote_request ticker_id (u64 (id + 1)) ask Side_SELL (clip_ c))
                    (sendClientRequest (quote_request ticker_id id bid Side_BUY (clip_ c)) q))) ∧
     om_lookup (Z.to_nat ticker_id, side_index Side_BUY) m' = Some (pending_order ticker_id id bid Side_BUY (clip_ c)) ∧
     om_lookup (Z.to_nat ticker_id, side_index Side_SELL) m'
       = Some (pending_order ticker_id (u64 (id + 1)) ask Side_SELL (clip_ c))).
Proof.
  intros Hb Hc Hf Ht Hk Hj Hfs Hts Hbs Has Hfb Hfa bid ask id.
  assert (0 < 2 ^ k) as H2 by (apply Z.pow_pos_nonneg; lia).
  assert (Z.abs (bid_price_ bbo) < 2 ^ 53 ∧ Z.abs (ask_price_ bbo) < 2 ^ 53) as [Hbp Hap] by (rewrite !Z.abs_mul in *; nia).
  assert (mm_onOrderBookUpdate ticker_cfg fe ticker_id bbo (m, q) = moveOrders client_id risk ticker_id bid ask (clip_ c) (m, q)) as E.
  { unfold mm_onOrderBookUpdate, is_feature, Feature_INVALID, cfg_at. rewrite Hb, deqb_nan, Hc. cbn [andb negb].
    unfold mbind at 1 2 3, M_bind, mret at 1, M_ret, lift. rewrite Hf, Ht.
    rewrite (of_dyadic_scale (bid_price_ bbo) k), (of_dyadic_scale (ask_price_ bbo) k) by lia.
    rewrite !dsub_dyadic, !dgeb_dyadic by lia. unfold bid, ask.
    rewrite (int64_ok (bid_price_ bbo - _)) by (case_match; lia). rewrite (int64_ok (ask_price_ bbo + _)) by (case_match; lia).
    do 2 (case_match; rewrite ?Z.sub_0_r, ?Z.add_0_r). all: done. }
  split; [exact E|]. split; [unfold bid, ask; repeat case_match; lia|].
  intros Hib Hia Hrb Hra. rewrite E. unfold moveOrders, om_at, mbind at 1 2 3 4 5, M_bind, gets. cbn [fst].
  pose proof Hib as (ob & Hob & _). pose proof Hia as (oa & Hoa & Hsa). rewrite Hob. cbn [mret M_ret].
  rewrite moveOrder_idle by (done || unfold bid, Price_INVALID; case_match; lia). cbn [fst].
  set (m1 := mkOrderManager _ _).
  assert (om_lookup (Z.to_nat ticker_id, side_index Side_SELL) m1 = Some oa) as Hoa1
    by (rewrite <- Hoa; by apply (lookup_stored_other m)).
  rewrite Hoa1. cbn [mret M_ret]. rewrite moveOrder_idle; [|by exists oa|unfold ask, Price_INVALID; case_match; lia|done].
  eexists. split; [reflexivity|]. split.
  - transitivity (om_lookup (Z.to_nat ticker_id, side_index Side_BUY) m1); [by apply (lookup_stored_other m1)|]. apply (lookup_stored m). by eexists.
  - apply (lookup_stored m1). by eexists.
Qed.
End algorithms.
