(* ===== verification/TradeEngine.v ===== *)
(** * The trade engine (trading/strategy/trade_engine.h and trade_engine.cpp)

    The engine owns a book per ticker and the components of the strategy.  Its thread reads the
    responses and then the market updates; a market update changes its book, the book calls the
    engine back, and the engine calls the algorithm.  The algorithm's three std::function members are
    chosen once, by the constructor: they are the case analysis on [te_algo_].  The time of the clock
    is an argument of each step that reads it.  Threads, logging and the benchmark's recorders are
    not modelled. *)
From S2P Require Import Prelude Types MemPool LFQueue BookSpec MarketOrderBook Double.
From S2P Require Import PositionKeeper RiskManager OrderManager FeatureEngine Algorithms.
Record TradeEngine := mkTradeEngine {
  te_client_id_ : Z;
  te_algo_ : AlgoType;
  te_ticker_cfg_ : list TradeEngineCfg;
  te_ticker_order_book_ : list MarketOrderBook;
  outgoing_ogw_requests_ : LFQueue MEClientRequest;
  incoming_ogw_responses_ : LFQueue MEClientResponse;
  incoming_md_updates_ : LFQueue MEMarketUpdate;
  last_event_time_ : Z;
  te_run_ : bool;
  feature_engine_ : FeatureEngine;
  position_keeper_ : PositionKeeper;
  risk_manager_ : RiskManager;
  order_manager_ : OrderManager
}.

(** Assignments to the members. *)
Definition te_set_books (x : list MarketOrderBook) (e : TradeEngine) : TradeEngine :=
  mkTradeEngine (te_client_id_ e) (te_algo_ e) (te_ticker_cfg_ e) x (outgoing_ogw_requests_ e)
    (incoming_ogw_responses_ e) (incoming_md_updates_ e) (last_event_time_ e) (te_run_ e) (feature_engine_ e)
    (position_keeper_ e) (risk_manager_ e) (order_manager_ e).
Definition te_set_responses (x : LFQueue MEClientResponse) (e : TradeEngine) : TradeEngine :=
  mkTradeEngine (te_client_id_ e) (te_algo_ e) (te_ticker_cfg_ e) (te_ticker_order_book_ e)
    (outgoing_ogw_requests_ e) x (incoming_md_updates_ e) (last_event_time_ e) (te_run_ e) (feature_engine_ e)
    (position_keeper_ e) (risk_manager_ e) (order_manager_ e).
Definition te_set_updates (x : LFQueue MEMarketUpdate) (e : TradeEngine) : TradeEngine :=
  mkTradeEngine (te_client_id_ e) (te_algo_ e) (te_ticker_cfg_ e) (te_ticker_order_book_ e)
    (outgoing_ogw_requests_ e) (incoming_ogw_responses_ e) x (last_event_time_ e) (te_run_ e) (feature_engine_ e)
    (position_keeper_ e) (risk_manager_ e) (order_manager_ e).
Definition te_set_time (x : Z) (e : TradeEngine) : TradeEngine :=
  mkTradeEngine (te_client_id_ e) (te_algo_ e) (te_ticker_cfg_ e) (te_ticker_order_book_ e)
    (outgoing_ogw_requests_ e) (incoming_ogw_responses_ e) (incoming_md_updates_ e) x (te_run_ e)
    (feature_engine_ e) (position_keeper_ e) (risk_manager_ e) (order_manager_ e).
Definition te_set_run (x : bool) (e : TradeEngine) : TradeEngine :=
  mkTradeEngine (te_client_id_ e) (te_algo_ e) (te_ticker_cfg_ e) (te_ticker_order_book_ e)
    (outgoing_ogw_requests_ e) (incoming_ogw_responses_ e) (incoming_md_updates_ e) (last_event_time_ e) x
    (feature_engine_ e) (position_keeper_ e) (risk_manager_ e) (order_manager_ e).
Definition te_set_features (x : FeatureEngine) (e : TradeEngine) : TradeEngine :=
  mkTradeEngine (te_client_id_ e) (te_algo_ e) (te_ticker_cfg_ e) (te_ticker_order_book_ e)
    (outgoing_ogw_requests_ e) (incoming_ogw_responses_ e) (incoming_md_updates_ e) (last_event_time_ e)
    (te_run_ e) x (position_keeper_ e) (risk_manager_ e) (order_manager_ e).
Definition te_set_positions (x : PositionKeeper) (e : TradeEngine) : TradeEngine :=
  mkTradeEngine (te_client_id_ e) (te_algo_ e) (te_ticker_cfg_ e) (te_ticker_order_book_ e)
    (outgoing_ogw_requests_ e) (incoming_ogw_responses_ e) (incoming_md_updates_ e) (last_event_time_ e)
    (te_run_ e) (feature_engine_ e) x (risk_manager_ e) (order_manager_ e).
Definition te_set_orders (x : OrderManager * LFQueue MEClientRequest) (e : TradeEngine) : TradeEngine :=
  mkTradeEngine (te_client_id_ e) (te_algo_ e) (te_ticker_cfg_ e) (te_ticker_order_book_ e) x.2
    (incoming_ogw_responses_ e) (incoming_md_updates_ e) (last_event_time_ e) (te_run_ e) (feature_engine_ e)
    (position_keeper_ e) (risk_manager_ e) x.1.

Section TradeEngine.
Context `{Limits}.

(** A method of the engine. *)
Definition TE (A : Type) : Type := M TradeEngine A.

(** [garbage] is what the memory of the position keeper holds before. *)
Definition TradeEngine_new (client_id : Z) (algo_type : AlgoType) (ticker_cfg : list TradeEngineCfg)
    (client_requests : LFQueue MEClientRequest) (client_responses : LFQueue MEClientResponse)
    (market_updates : LFQueue MEMarketUpdate) (garbage : nat → list double) : TradeEngine :=
  mkTradeEngine client_id algo_type ticker_cfg
    ((λ i, MarketOrderBook_new (Z.of_nat i)) <$> seq 0 (Z.to_nat ME_MAX_TICKERS))
    client_requests client_responses market_updates 0 false
    FeatureEngine_new (PositionKeeper_new garbage) (RiskManager_new ticker_cfg) OrderManager_new.

(** start: [thread_ok] says whether the thread could be created. *)
Definition te_start (thread_ok : bool) (e : TradeEngine) : result TradeEngine :=
  if thread_ok then Ok (te_set_run true e) else Err AssertFailed.

(** One round of stop's waiting loop: None while the loop sleeps, then the stopped engine. *)
Definition te_stop (has_thread : bool) (e : TradeEngine) : option TradeEngine :=
  if has_thread && (negb (q_size (incoming_ogw_responses_ e) =? 0)%nat || negb (q_size (incoming_md_updates_ e) =? 0)%nat)
  then None else Some (te_set_run false e).

Definition initLastEventTime (now : Z) (e : TradeEngine) : TradeEngine := te_set_time now e.

Definition NANOS_TO_SECS : Z := 1000 * 1000 * 1000.

Definition silentSeconds (now : Z) (e : TradeEngine) : result Z :=
  d ← int64 (now - last_event_time_ e); mret (Z.quot d NANOS_TO_SECS).

(** sendClientRequest, as the order manager sees the engine. *)
#[export] Instance engine_requests : RequestSink (LFQueue MEClientRequest) := push.

(** A call of the algorithm that acts through the order manager. *)
Definition algo (f : Z → (Z → Side → Z → result RiskCheckResult) → OM (T := LFQueue MEClientRequest) unit) : TE unit :=
  e ← gets id;
  x ← lift (f (te_client_id_ e) (checkPreTradeRisk (risk_manager_ e) (position_keeper_ e))
              (order_manager_ e, outgoing_ogw_requests_ e));
  modify (te_set_orders x.2).

Definition te_onOrderBookUpdate (ticker_id price : Z) (side : Side) (book : nat) (bbo : BBO) : TE unit :=
  e ← gets id;
  pk ← lift (pk_updateBBO ticker_id book bbo (position_keeper_ e));
  modify (te_set_positions pk);;
  fe ← lift (fe_onOrderBookUpdate bbo (feature_engine_ e));
  modify (te_set_features fe);;
  match te_algo_ e with
  | AlgoType_MAKER =>
      algo (λ client_id risk, mm_onOrderBookUpdate client_id risk (te_ticker_cfg_ e) fe ticker_id bbo)
  | AlgoType_TAKER => algo (λ _ _, lt_onOrderBookUpdate ticker_id price side)
  | _ => mret tt
  end.

Definition te_onTradeUpdate (u : MEMarketUpdate) (bbo : BBO) : TE unit :=
  e ← gets id;
  let fe := fe_onTradeUpdate u bbo (feature_engine_ e) in
  modify (te_set_features fe);;
  match te_algo_ e with
  | AlgoType_MAKER => algo (λ _ _, mm_onTradeUpdate u)
  | AlgoType_TAKER => algo (λ client_id risk, lt_onTradeUpdate client_id risk (te_ticker_cfg_ e) fe u bbo)
  | _ => mret tt
  end.

Definition te_onOrderUpdate (r : MEClientResponse) : TE unit :=
  e ← gets id;
  (if decide (rsp_type_ r = ClientResponseType_FILLED) then
     pk ← lift (pk_addFill r (position_keeper_ e)); modify (te_set_positions pk)
   else mret tt);;
  match te_algo_ e with
  | AlgoType_MAKER => algo (λ _ _, mm_onOrderUpdate r)
  | AlgoType_TAKER => algo (λ _ _, lt_onOrderUpdate r)
  | _ => mret tt
  end.

(** The book's call back into the engine, with the book as its argument. *)
Definition notify (u : MEMarketUpdate) (n : notification) (book : nat) (b : MarketOrderBook) : TE unit :=
  match n with
  | TradeUpdate => te_onTradeUpdate u (bbo_ b)
  | BookUpdate ticker_id price side => te_onOrderBookUpdate ticker_id price side book (bbo_ b)
  end.

Definition processMarketUpdate (now : Z) (u : MEMarketUpdate) : TE unit :=
  e ← gets id;
  let i := Z.to_nat (upd_ticker_id_ u) in
  match te_ticker_order_book_ e !! i with
  | None => throw AssertFailed
  | Some b =>
      x ← lift (onMarketUpdate u b);
      modify (te_set_books (<[i := x.2]> (te_ticker_order_book_ e)));;
      notify u x.1 i x.2;;
      modify (te_set_time now)
  end.

(** The loop over the responses; [clock k] is the time after the k-th response. *)
Fixpoint te_drain_responses (fuel : nat) (clock : nat → Z) : TE unit :=
  e ← gets id;
  x ← lift (pop (incoming_ogw_responses_ e));
  match x, fuel with
  | None, _ => mret tt
  | Some _, O => throw Diverges
  | Some (r, q), S fuel =>
      te_onOrderUpdate r;;
      modify (te_set_responses q);;
      modify (te_set_time (clock fuel));;
      te_drain_responses fuel clock
  end.

Fixpoint te_drain_updates (fuel : nat) (clock : nat → Z) : TE unit :=
  e ← gets id;
  x ← lift (pop (incoming_md_updates_ e));
  match x, fuel with
  | None, _ => mret tt
  | Some _, O => throw Diverges
  | Some (u, q), S fuel =>
      processMarketUpdate (clock fuel) u;;
      modify (te_set_updates q);;
      te_drain_updates fuel clock
  end.

(** One iteration of the loop of run; the sizes of the queues are enough fuel while nothing is
    written to them. *)
Definition te_run_round (clock clock' : nat → Z) : TE unit :=
  e ← gets id;
  if te_run_ e then
    te_drain_responses (q_size (incoming_ogw_responses_ e)) clock;;
    te_drain_updates (q_size (incoming_md_updates_ e)) clock'
  else mret tt.
End TradeEngine.
