(* ===== verification/OrderSafety.v ===== *)
(** * The order manager keeps the position limits

    The exposure of a side is what the position would be if its open order executed in full.  The
    order manager has at most one open order per ticker and side, and sends a new one only after the
    risk check, which is what keeps the exposure of every side within the position limit, in
    whatever order prices, acknowledgements, executions and cancels arrive. *)
From S2P Require Import Prelude Types BookSpec MarketOrderBook Double PositionKeeper RiskManager.
From S2P Require Import OrderManager.
Definition active (s : OMOrderState) : bool :=
  match s with
  | OMOrderState_PENDING_NEW | OMOrderState_LIVE | OMOrderState_PENDING_CANCEL => true
  | OMOrderState_INVALID | OMOrderState_DEAD => false
  end.

(** What may still execute of an order. *)
Definition open_qty (o : OMOrder) : Z := if active (om_order_state_ o) then om_qty_ o else 0.

(** The limits, within which the arithmetic of the position keeper does not overflow either. *)
Definition limits_ok (cfg : RiskCfg) : Prop :=
  cfg_ok cfg ∧ max_position_ cfg * max_position_ cfg < 2 ^ 31.

(** The exposure of side [s]. *)
Definition within (cfg : RiskCfg) (position : Z) (s : Side) (o : OMOrder) : Prop :=
  0 ≤ open_qty o ≤ max_order_size_ cfg ∧ sideToValue s * position + open_qty o ≤ max_position_ cfg.

Definition ticker_safe (cfg : RiskCfg) (position : Z) (l : list OMOrder) : Prop :=
  length l = S (side_index Side_MAX) ∧
  ∀ s, trading_side s → ∃ o, l !! side_index s = Some o ∧ within cfg position s o.

Definition keeper_ok (k : PositionKeeper) : Prop := Forall (λ p, length (open_vwap_ p) = S (side_index Side_MAX)) k.

(** The tickers are those of the three arrays. *)
Definition orders_safe (rm : RiskManager) (k : PositionKeeper) (m : OrderManager) : Prop :=
  length k = length rm ∧ length (ticker_side_order_ m) = length rm ∧
  ∀ i cfg p l, rm !! i = Some cfg → k !! i = Some p → ticker_side_order_ m !! i = Some l →
    ticker_safe cfg (position_ p) l.

(** What the exchange may answer to the orders in [m]: an order is accepted once, after it was
    sent; it executes while it is live or a cancel is on its way, by no more than it has open; and it
    is cancelled only when that was asked. *)
Definition conforms (m : OrderManager) (r : MEClientResponse) : Prop :=
  ∃ o, om_lookup (Z.to_nat (rsp_ticker_id_ r), side_index (rsp_side_ r)) m = Some o ∧
  match rsp_type_ r with
  | ClientResponseType_ACCEPTED => trading_side (rsp_side_ r) ∧ om_order_state_ o = OMOrderState_PENDING_NEW
  | ClientResponseType_CANCELED => trading_side (rsp_side_ r) ∧ om_order_state_ o = OMOrderState_PENDING_CANCEL
  | ClientResponseType_FILLED =>
      trading_side (rsp_side_ r) ∧
      (om_order_state_ o = OMOrderState_LIVE ∨ om_order_state_ o = OMOrderState_PENDING_CANCEL) ∧
      0 ≤ rsp_exec_qty_ r ∧ 0 ≤ rsp_leaves_qty_ r ∧ rsp_exec_qty_ r + rsp_leaves_qty_ r = om_qty_ o ∧
      Z.abs (rsp_price_ r) < 2 ^ 31
  | ClientResponseType_CANCEL_REJECTED | ClientResponseType_INVALID => True
  end.

(** ** The position keeper does not overflow *)
Section keeper.
Implicit Types (p : PositionInfo) (r : MEClientResponse) (P : Z).

Lemma vwap_ok v s : length v = S (side_index Side_MAX) → trading_side s → ∃ x, vwap_at (side_index s) v = Ok x.
Proof.
  intros Hlen Hs. unfold vwap_at. destruct (lookup_lt_is_Some_2 v (side_index s)) as [x ->]; [|by eexists].
  rewrite Hlen. by destruct Hs as [->| ->]; apply Nat.ltb_lt.
Qed.

Lemma open_pnl_ok pos vwap value :
  length vwap = S (side_index Side_MAX) → Z.abs pos < 2 ^ 31 → ∃ x, open_pnl pos vwap value = Ok x.
Proof.
  intros Hlen Hp. unfold open_pnl, std_abs. rewrite int32_ok by lia. cbn [mbind result_bind].
  destruct (vwap_ok vwap Side_BUY Hlen) as [x ->]; [by left|].
  destruct (vwap_ok vwap Side_SELL Hlen) as [y ->]; [by right|].
  destruct (0 <? pos); by eexists.
Qed.

Lemma addFill_ok r p P :
  Z.abs (position_ p) ≤ P → Z.abs (position_ p + fill_value r) ≤ P → P * P < 2 ^ 31 →
  length (open_vwap_ p) = S (side_index Side_MAX) → trading_side (rsp_side_ r) →
  0 ≤ rsp_exec_qty_ r < 2 ^ 31 → Z.abs (rsp_price_ r) < 2 ^ 31 →
  ∃ p', addFill r p = Ok p' ∧ position_ p' = position_ p + fill_value r ∧
    length (open_vwap_ p') = S (side_index Side_MAX).
Proof.
  intros Hp Hp' HP Hlen Hs Hq Hpr.
  assert (0 ≤ P < 2 ^ 31) as HP2 by nia.
  assert (Z.abs (sideToValue (rsp_side_ r)) = 1) as Hsv by (by destruct Hs as [->| ->]).
  set (new := position_ p + fill_value r) in *.
  assert (i32 (position_ p + rsp_exec_qty_ r * sideToValue (rsp_side_ r)) = new) as Hnew
    by (apply i32_small; unfold new, fill_value in *; lia).
  assert (∃ x, (if 0 <=? position_ p * sideToValue (rsp_side_ r) then
      vwap ← increase r (open_vwap_ p); mret (vwap, real_pnl_ p)
    else y ← decrease r (position_ p) new (open_vwap_ p); mret (y.1, dadd (real_pnl_ p) y.2)) = Ok x ∧
    length x.1 = S (side_index Side_MAX)) as (x & Hx & Hxl).
  { destruct (0 <=? _).
    - unfold increase. destruct (vwap_ok _ _ Hlen Hs) as [v ->]. cbn [mbind result_bind].
      rewrite int64_ok by nia. eexists. split; [done|]. cbn. by rewrite length_insert.
    - unfold decrease, std_abs. rewrite (int32_ok (Z.abs (position_ p))) by lia. cbn [mbind result_bind].
      assert (trading_side (if decide (rsp_side_ r = Side_BUY) then Side_SELL else Side_BUY)) as Ho
        by (case_decide; [by right|by left]).
      destruct (vwap_ok _ _ Hlen Ho) as [v ->]. cbn [mbind result_bind].
      rewrite (int32_ok (Z.abs new)) by lia. cbn [mbind result_bind]. cbv zeta.
      rewrite (int32_ok (new * position_ p)) by nia. cbn [mbind result_bind].
      destruct (_ <? 0).
      + rewrite (int64_ok (rsp_price_ r * Z.abs new)) by nia. eexists. split; [done|]. cbn. by rewrite !length_insert.
      + eexists. split; [done|]. cbn. by rewrite length_insert. }
  unfold addFill. cbv zeta. rewrite Hnew, int32_ok by nia. cbn [mbind result_bind].
  cbn [mbind result_bind] in Hx. rewrite Hx. cbn [mbind result_bind].
  destruct (new =? 0) eqn:E.
  - eexists. split; [done|]. split; [done|]. cbn. by rewrite !length_insert.
  - destruct (open_pnl_ok new x.1 (of_int (rsp_price_ r)) Hxl) as [u ->]; [lia|].
    eexists. by split_and!.
Qed.

Lemma pi_updateBBO_ok book bbo p :
  Z.abs (position_ p) < 2 ^ 31 → length (open_vwap_ p) = S (side_index Side_MAX) →
  (bid_price_ bbo ≠ Price_INVALID → ask_price_ bbo ≠ Price_INVALID →
     - 2 ^ 63 ≤ bid_price_ bbo + ask_price_ bbo < 2 ^ 63) →
  ∃ p', pi_updateBBO book bbo p = Ok p' ∧ position_ p' = position_ p ∧ open_vwap_ p' = open_vwap_ p.
Proof.
  intros Hp Hlen Hb. unfold pi_updateBBO. cbn [position_ open_vwap_].
  destruct (_ && _) eqn:E; [|by eexists].
  apply andb_prop in E as [[_ Hb1]%andb_prop Hb2]. rewrite int64_ok.
  2: { apply negb_true_iff, Z.eqb_neq in Hb1, Hb2. by apply Hb. }
  cbn [mbind result_bind].
  destruct (open_pnl_ok (position_ p) (open_vwap_ p) (dmul (of_int (bid_price_ bbo + ask_price_ bbo)) dhalf) Hlen Hp)
    as [u ->]. by eexists.
Qed.
End keeper.

(** ** Steps of the order manager *)
Lemma side_index_inj s1 s2 : side_index s1 = side_index s2 → s1 = s2.
Proof.
  unfold side_index. intros E. apply sideToIndex_inj.
  pose proof (sideToIndex_range s1). pose proof (sideToIndex_range s2). lia.
Qed.

Lemma opposite_value s s' : trading_side s → trading_side s' → s' ≠ s → sideToValue s' = - sideToValue s.
Proof. by intros [->| ->] [->| ->]. Qed.

Lemma safe_position cfg pos l : ticker_safe cfg pos l → Z.abs pos ≤ max_position_ cfg.
Proof.
  intros [_ Hl]. destruct (Hl Side_BUY) as (b & _ & [Hb ?]); [by left|].
  destruct (Hl Side_SELL) as (s & _ & [Hs ?]); [by right|]. cbn [sideToValue] in *. lia.
Qed.

(** The order of side [s] changes, and perhaps the position. *)
Lemma safe_order cfg pos pos' s o' l :
  ticker_safe cfg pos l → trading_side s → within cfg pos' s o' →
  (∀ s', trading_side s' → s' ≠ s → sideToValue s' * pos' ≤ sideToValue s' * pos) →
  ticker_safe cfg pos' (<[side_index s := o']> l).
Proof.
  intros [Hlen Hl] Hs Ho Hpos. split; [by rewrite length_insert|]. intros s' Hs'.
  destruct (decide (s' = s)) as [->|Hne].
  - exists o'. split; [|done]. apply list_lookup_insert_eq. destruct (Hl s Hs) as (o & Hlk & _).
    by apply lookup_lt_Some in Hlk.
  - destruct (Hl s' Hs') as (o & Hlk & [Ho1 Ho2]). exists o. split.
    + rewrite list_lookup_insert_ne; [done|]. by intros E%side_index_inj.
    + split; [done|]. specialize (Hpos s' Hs' Hne). lia.
Qed.

Section order_manager.
Context {T : Type} `{RequestSink T} (client_id : Z) (rm : RiskManager) (k : PositionKeeper).
Implicit Types (m : OrderManager) (st : OrderManager * T).

Hypothesis Hlimits : Forall limits_ok rm.

(** The three entries of a ticker. *)
Lemma safe_ticker m i :
  orders_safe rm k m → (i < length rm)%nat →
  ∃ cfg p l, rm !! i = Some cfg ∧ k !! i = Some p ∧ ticker_side_order_ m !! i = Some l ∧ limits_ok cfg ∧
    ticker_safe cfg (position_ p) l.
Proof.
  intros (Hk & Hm & Hs) Hi.
  destruct (lookup_lt_is_Some_2 rm i Hi) as [cfg Hcfg].
  destruct (lookup_lt_is_Some_2 k i) as [p Hp]; [lia|].
  destruct (lookup_lt_is_Some_2 (ticker_side_order_ m) i) as [l Hl]; [lia|].
  exists cfg, p, l. split_and!; try done; [|by eapply Hs].
  rewrite Forall_lookup in Hlimits. by eapply Hlimits.
Qed.

Lemma om_lookup_ticker m i l j : ticker_side_order_ m !! i = Some l → om_lookup (i, j) m = l !! j.
Proof. unfold om_lookup. cbn. by intros ->. Qed.

(** Rewriting the order of a ticker's side. *)
Lemma orders_safe_store m i s l o' n :
  orders_safe rm k m → ticker_side_order_ m !! i = Some l → trading_side s →
  (∀ cfg p, rm !! i = Some cfg → k !! i = Some p → within cfg (position_ p) s o') →
  orders_safe rm k (mkOrderManager (alter (<[side_index s := o']>) i (ticker_side_order_ m)) n).
Proof.
  intros (Hk & Hm & Hs) Hl Hts Ho. split_and!; [done|cbn [ticker_side_order_]; by rewrite length_alter|]. cbn [ticker_side_order_].
  intros i' cfg p l' Hcfg Hp Hl'. destruct (decide (i' = i)) as [->|Hne].
  - rewrite list_lookup_alter_eq, Hl in Hl'. cbn in Hl'. injection Hl' as <-.
    eapply safe_order; [by eapply Hs|done|by eapply Ho|lia].
  - rewrite list_lookup_alter_ne in Hl' by done. by eapply Hs.
Qed.

Lemma om_store_ticker m i s o' : om_store (i, side_index s) o' m
  = mkOrderManager (alter (<[side_index s := o']>) i (ticker_side_order_ m)) (next_order_id_ m).
Proof. done. Qed.

Lemma wp_om_at t s m (q : T) (Q : order_ptr → OrderManager * T → Prop) :
  is_Some (om_lookup (Z.to_nat t, side_index s) m) → Q (Z.to_nat t, side_index s) (m, q) →
  wp (om_at t s) (m, q) Q.
Proof. intros [o Ho] HQ. unfold om_at. apply wp_bind, wp_gets. cbn [fst]. rewrite Ho. by apply wp_ret. Qed.

Lemma wp_om_read a o m (q : T) (Q : OMOrder → OrderManager * T → Prop) :
  om_lookup a m = Some o → Q o (m, q) → wp (om_read a) (m, q) Q.
Proof. intros Ho HQ. unfold om_read. apply wp_bind, wp_gets. cbn [fst]. rewrite Ho. by apply wp_ret. Qed.

Lemma wp_om_write a o m (q : T) (Q : unit → OrderManager * T → Prop) :
  Q tt (om_store a o m, q) → wp (om_write a o) (m, q) Q.
Proof. done. Qed.

(** Moving the order of one side, to any price, with a quantity of 32 bits. *)
Lemma wp_moveOrder t price s qty m q :
  orders_safe rm k m → (Z.to_nat t < length rm)%nat → trading_side s → 0 ≤ qty →
  wp (moveOrder client_id (checkPreTradeRisk rm k) (Z.to_nat t, side_index s) t price s qty) (m, q)
    (λ _ st, orders_safe rm k st.1).
Proof.
  intros Hsafe Ht Hs Hq. destruct (safe_ticker m _ Hsafe Ht) as (cfg & p & l & Hcfg & Hp & Hl & Hlim & Htk).
  pose proof Htk as [_ Hside]. destruct (Hside s Hs) as (o & Ho & [Ho1 Ho2]).
  assert (om_lookup (Z.to_nat t, side_index s) m = Some o) as Hlk by (by rewrite (om_lookup_ticker _ _ l)).
  unfold moveOrder. apply wp_bind. eapply wp_om_read; [done|].
  unfold open_qty in Ho1, Ho2.
  destruct (om_order_state_ o) eqn:Est; cbn [active] in *; try by apply wp_ret.
  2: { destruct (negb _); [|by apply wp_ret]. unfold cancelOrder.
       apply wp_bind. eapply wp_om_read; [done|]. apply wp_bind, wp_modify. cbn [fst snd].
       apply wp_om_write. cbn [fst]. rewrite om_store_ticker. eapply orders_safe_store; [done|done|done|].
       intros cfg' p' E1 E2. assert (cfg' = cfg ∧ p' = p) as [-> ->] by (split; congruence).
       by split. }
  all: destruct (negb _); [|by apply wp_ret].
  all: apply wp_bind; eapply wp_lift;
    [unfold checkPreTradeRisk; rewrite Hcfg, Hp; apply info_check_spec; [by apply Hlim|by eapply safe_position|done|done]|].
  all: case_decide as Hall; [|by apply wp_ret].
  all: unfold newOrder; apply wp_bind, wp_gets; apply wp_bind, wp_modify; apply wp_bind, wp_om_write;
    apply wp_modify; cbn [fst snd].
  all: eapply orders_safe_store; [done|done|done|]; intros cfg' p' E1 E2; cbn [fst] in E1, E2;
    assert (cfg' = cfg ∧ p' = p) as [-> ->] by (split; congruence).
  all: unfold risk_spec in Hall; destruct (max_order_size_ cfg <? qty) eqn:E3; [done|];
    destruct (max_position_ cfg <? _) eqn:E4; [done|]; clear Hall;
    apply Z.ltb_ge in E3, E4; unfold within, open_qty; cbn [om_order_state_ om_qty_ active];
    destruct Hs as [->| ->]; cbn [sideToValue] in *; lia.
Qed.

Lemma om_at_ok m t s :
  orders_safe rm k m → (Z.to_nat t < length rm)%nat → is_Some (om_lookup (Z.to_nat t, side_index s) m).
Proof.
  intros Hsafe Ht. destruct (safe_ticker m _ Hsafe Ht) as (cfg & p & l & _ & _ & Hl & _ & [Hlen _]).
  rewrite (om_lookup_ticker _ _ l) by done. apply lookup_lt_is_Some_2. rewrite Hlen.
  pose proof (sideToIndex_range s). unfold side_index. lia.
Qed.

Lemma wp_moveOrders t bid ask clip m q :
  orders_safe rm k m → (Z.to_nat t < length rm)%nat → 0 ≤ clip →
  wp (moveOrders client_id (checkPreTradeRisk rm k) t bid ask clip) (m, q) (λ _ st, orders_safe rm k st.1).
Proof.
  intros Hsafe Ht Hq. unfold moveOrders. apply wp_bind, wp_om_at; [by apply om_at_ok|].
  apply wp_bind. eapply wp_mono; [apply wp_moveOrder; try done; by left|].
  intros _ [m1 q1] Hs1. cbn [fst] in Hs1. apply wp_bind, wp_om_at; [by apply om_at_ok|].
  apply wp_moveOrder; try done. by right.
Qed.
End order_manager.

(** ** An answer of the exchange *)

(** The position and the order change together. *)
Lemma wp_response {T} `{RequestSink T} rm k m (q : T) r :
  Forall limits_ok rm → keeper_ok k → orders_safe rm k m → conforms m r →
  ∃ k', (if decide (rsp_type_ r = ClientResponseType_FILLED) then pk_addFill r k else Ok k) = Ok k' ∧
    keeper_ok k' ∧ wp (om_onOrderUpdate r) (m, q) (λ _ st, orders_safe rm k' st.1 ∧ st.2 = q).
Proof.
  intros Hlim Hk Hsafe (o & Ho & Hc). set (i := Z.to_nat (rsp_ticker_id_ r)) in *.
  destruct (ticker_side_order_ m !! i) as [l|] eqn:Hl; [|by unfold om_lookup in Ho; cbn in Ho; rewrite Hl in Ho].
  assert (l !! side_index (rsp_side_ r) = Some o) as Hlo by (by rewrite <- (om_lookup_ticker m i l)).
  assert (i < length rm)%nat as Hi.
  { destruct Hsafe as (_ & <- & _). by apply lookup_lt_Some in Hl. }
  destruct (safe_ticker rm k Hlim m i Hsafe Hi) as (cfg & p & l' & Hcfg & Hp & Hl' & [Hcok Hsq] & Htk).
  assert (l' = l) as -> by congruence.
  assert (∀ (k' : PositionKeeper) (m' : OrderManager) (F : OMOrder),
    orders_safe rm k' (om_store (i, side_index (rsp_side_ r)) F m) →
    wp (om_write (T := T) (i, side_index (rsp_side_ r)) F) (m, q) (λ _ st, orders_safe rm k' st.1 ∧ st.2 = q))
    as Hwr by done.
  assert (∀ o', trading_side (rsp_side_ r) → om_qty_ o' = om_qty_ o →
    (active (om_order_state_ o') = true → active (om_order_state_ o) = true) →
    orders_safe rm k (om_store (i, side_index (rsp_side_ r)) o' m)) as Hstate.
  { intros o' Hs Hq Ha. rewrite om_store_ticker. eapply orders_safe_store; [done|done|done|].
    intros cfg' p' E1 E2. assert (cfg' = cfg ∧ p' = p) as [-> ->] by (split; congruence).
    destruct Htk as [_ Htk]. destruct (Htk _ Hs) as (o2 & Ho2 & [W1 W2]).
    assert (o2 = o) as -> by congruence. unfold within, open_qty in *. rewrite Hq.
    destruct (active (om_order_state_ o')) eqn:E; [rewrite Ha in W1, W2 by done; lia|].
    destruct (active (om_order_state_ o)); lia. }
  unfold om_onOrderUpdate.
  assert (∀ Q : OMOrder → OrderManager * T → Prop, Q o (m, q) →
    ∀ a, a = (i, side_index (rsp_side_ r)) → wp (om_read (T := T) a) (m, q) Q) as Hrd
    by (intros Q HQ a ->; by eapply wp_om_read).
  destruct (rsp_type_ r) eqn:Hty.
  all: try rewrite decide_False by done.
  all: try (exists k; split; [done|]; split; [done|]; apply wp_bind, wp_om_at; [by eexists|];
    apply wp_bind; eapply wp_om_read; [exact Ho|]).
  - by apply wp_ret.
  - destruct Hc as [Hs Hst]. apply Hwr; [done|]. apply Hstate; [done..|]. by rewrite Hst.
  - destruct Hc as [Hs Hst]. apply Hwr; [done|]. by apply Hstate.
  - rewrite decide_True by done. destruct Hc as (Hs & Hst & He & Hv & Hev & Hpr).
    pose proof Htk as [_ Hside]. destruct (Hside _ Hs) as (o2 & Ho2 & [W1 W2]).
    assert (o2 = o) as -> by congruence. clear Ho2.
    assert (open_qty o = om_qty_ o) as Hoq by (unfold open_qty; by destruct Hst as [->| ->]).
    rewrite Hoq in W1, W2. destruct Hcok as (C1 & C2 & C3).
    pose proof (safe_position _ _ _ Htk) as Habs.
    assert (sideToValue (rsp_side_ r) = 1 ∨ sideToValue (rsp_side_ r) = -1) as Hsv
      by (destruct Hs as [->| ->]; [by left|by right]).
    unfold keeper_ok in Hk. rewrite Forall_lookup in Hk. pose proof (Hk _ _ Hp) as Hvw.
    destruct (addFill_ok r p (max_position_ cfg)) as (p' & Hp' & Hpos & Hvw'); try done; [|lia|].
    { unfold fill_value. destruct Hsv as [E|E]; rewrite E in *; lia. }
    exists (<[i := p']> k). unfold pk_addFill, on_ticker. fold i. rewrite Hp. cbn [mbind result_bind].
    rewrite Hp'. split; [done|]. split.
    { apply Forall_lookup. intros j pj [(-> & <- & _)|[_ Hj]]%list_lookup_insert_Some; [done|by eapply Hk]. }
    apply wp_bind, wp_om_at; [by eexists|]. apply wp_bind. eapply wp_om_read; [exact Ho|].
    apply Hwr; [done|]. rewrite om_store_ticker. destruct Hsafe as (S1 & S2 & S3).
    split_and!; [by rewrite length_insert|cbn [ticker_side_order_]; by rewrite length_alter|]. cbn [ticker_side_order_].
    intros j cfgj pj lj Ecfg Ep El.
    apply list_lookup_insert_Some in Ep as [(-> & -> & _)|[Hne Ep]].
    2: { rewrite list_lookup_alter_ne in El by done. by eapply S3. }
    rewrite list_lookup_alter_eq, Hl in El. cbn in El. injection El as <-.
    assert (cfgj = cfg) as -> by congruence. eapply safe_order; [exact Htk|done| |].
    + rewrite Hpos. unfold within, open_qty, fill_value.
      cbn [om_set_qty om_qty_]. destruct (rsp_leaves_qty_ r =? 0) eqn:Ez.
      * cbn [om_set_state om_order_state_ active]. destruct Hsv as [E|E]; rewrite E in *; lia.
      * cbn [om_set_qty om_order_state_ om_qty_].
        destruct Hst as [->| ->]; cbn [active]; destruct Hsv as [E|E]; rewrite E in *; lia.
    + intros s' Hs' Hne. rewrite Hpos, (opposite_value _ _ Hs Hs' Hne). unfold fill_value.
      destruct Hsv as [E|E]; rewrite E in *; lia.
  - by apply wp_ret.
Qed.
