(* ===== verification/TradingSafety.v ===== *)
(** * The trade engine keeps its position limits

    An engine with one of the two algorithms handles every answer of a conforming exchange and
    every update that fits its books without a fault, and whatever their order the exposure of
    every ticker stays within the position limit of its configuration. *)
From S2P Require Import Prelude Types MemPool LFQueue CircList EngineSink BookSpec BookSweep.
From S2P Require Import MEOrderBook BookRep BookRefine MarketOrderBook MarketBookSim MarketBookSpec.
From S2P Require Import MarketBookTheorems Double PositionKeeper RiskManager OrderManager.
From S2P Require Import FeatureEngine Algorithms TradeEngine OrderSafety.
(** ** Events *)
Inductive te_event := Answer (r : MEClientResponse) | Update (now : Z) (u : MEMarketUpdate).

(** The best prices are such that the products with quantities stay within 64 bits. *)
Definition quote_small (bbo : BBO) : Prop :=
  (bid_price_ bbo ≠ Price_INVALID → Z.abs (bid_price_ bbo) < 2 ^ 30) ∧
  (ask_price_ bbo ≠ Price_INVALID → Z.abs (ask_price_ bbo) < 2 ^ 30) ∧
  is_u32 (bid_qty_ bbo) ∧ is_u32 (ask_qty_ bbo).

Section TradingSafety.
Context `{Limits}.
Implicit Types (e : TradeEngine) (ev : te_event) (bks : list Book).

Definition te_handle ev : TE unit :=
  match ev with Answer r => te_onOrderUpdate r | Update now u => processMarketUpdate now u end.

Fixpoint te_handles (evs : list te_event) : TE unit :=
  match evs with [] => mret tt | ev :: evs => te_handle ev;; te_handles evs end.

Definition books_after ev bks : list Book :=
  match ev with Answer _ => bks | Update _ u => alter (spec_md u) (Z.to_nat (upd_ticker_id_ u)) bks end.

(** What the environment owes the engine: answers of a conforming exchange, and updates that fit
    the book of their ticker. *)
Definition event_ok ev e bks : Prop :=
  match ev with
  | Answer r => conforms (order_manager_ e) r
  | Update _ u => ∃ bk, bks !! Z.to_nat (upd_ticker_id_ u) = Some bk ∧ md_ok u bk ∧ quote_small (quote (spec_md u bk))
  end.

Fixpoint session_ok (evs : list te_event) e bks : Prop :=
  match evs with
  | [] => True
  | ev :: evs => event_ok ev e bks ∧ ∀ e', te_handle ev e = Ok (tt, e') → session_ok evs e' (books_after ev bks)
  end.

(** ** The invariant *)
Definition book_follows (b : MarketOrderBook) (bk : Book) : Prop :=
  implements (matching b) bk ∧ bbo_ b = quote bk.

Record engine_safe e bks : Prop := {
  es_algo : te_algo_ e = AlgoType_MAKER ∨ te_algo_ e = AlgoType_TAKER;
  es_risk : risk_manager_ e = RiskManager_new (te_ticker_cfg_ e);
  es_limits : Forall limits_ok (risk_manager_ e);
  es_clips : Forall (λ c, 0 ≤ clip_ c) (te_ticker_cfg_ e);
  es_tickers : length (te_ticker_order_book_ e) = length (te_ticker_cfg_ e);
  es_keeper : keeper_ok (position_keeper_ e);
  es_orders : orders_safe (risk_manager_ e) (position_keeper_ e) (order_manager_ e);
  es_books : Forall2 book_follows (te_ticker_order_book_ e) bks
}.

Lemma list_insert_alter_eq {A} (l : list A) i x (f : A → A) : l !! i = Some x → <[i := f x]> l = alter f i l.
Proof.
  revert i. induction l as [|y l IH]; intros [|i]; cbn; try done; [by intros [= ->]|]. intros E. f_equal. by apply IH.
Qed.

(** A call of the algorithm. *)
Lemma wp_algo f e bks :
  engine_safe e bks →
  wp (f (te_client_id_ e) (checkPreTradeRisk (risk_manager_ e) (position_keeper_ e)))
    (order_manager_ e, outgoing_ogw_requests_ e)
    (λ _ st, orders_safe (risk_manager_ e) (position_keeper_ e) st.1) →
  wp (algo f) e (λ _ e', engine_safe e' bks).
Proof.
  intros [] Hf. unfold algo. apply wp_bind, wp_gets. unfold id. apply wp_bind.
  apply wp_Ok in Hf as ([] & st & Hst & Hs). eapply wp_lift; [exact Hst|]. apply wp_modify.
  by constructor; cbn [te_set_orders te_algo_ risk_manager_ te_ticker_cfg_ te_ticker_order_book_
    position_keeper_ order_manager_ snd].
Qed.

Lemma wp_algo_idle f e bks :
  engine_safe e bks → (∀ c risk, f c risk = mret tt) → wp (algo f) e (λ _ e', engine_safe e' bks).
Proof.
  intros Hs Hf. eapply wp_algo; [exact Hs|]. rewrite Hf. apply wp_ret. apply Hs.
Qed.

(** The configuration of a ticker. *)
Lemma safe_cfg e bks t :
  engine_safe e bks → (Z.to_nat t < length (te_ticker_order_book_ e))%nat →
  ∃ c, te_ticker_cfg_ e !! Z.to_nat t = Some c ∧ 0 ≤ clip_ c ∧ (Z.to_nat t < length (risk_manager_ e))%nat.
Proof.
  intros [] Ht. destruct (lookup_lt_is_Some_2 (te_ticker_cfg_ e) (Z.to_nat t)) as [c Hc]; [lia|].
  exists c. split_and!; [done| |].
  - rewrite Forall_lookup in es_clips0. by eapply es_clips0.
  - rewrite es_risk0. unfold RiskManager_new. rewrite length_fmap. lia.
Qed.

Lemma both_sides_inv bbo :
  both_sides bbo = true → bid_price_ bbo ≠ Price_INVALID ∧ ask_price_ bbo ≠ Price_INVALID.
Proof. unfold both_sides. intros [E1 E2]%andb_prop. apply negb_true_iff, Z.eqb_neq in E1, E2. done. Qed.

Lemma fe_onOrderBookUpdate_ok bbo fe : quote_small bbo → ∃ fe', fe_onOrderBookUpdate bbo fe = Ok fe'.
Proof.
  intros (Hb & Ha & Hbq & Haq). unfold fe_onOrderBookUpdate. destruct (both_sides bbo) eqn:E; [|by eexists].
  apply both_sides_inv in E as [E1 E2]. specialize (Hb E1). specialize (Ha E2). unfold is_u32 in *.
  rewrite (int64_ok (bid_price_ bbo * _)) by nia. cbn [mbind result_bind].
  rewrite (int64_ok (ask_price_ bbo * _)) by nia. cbn [mbind result_bind].
  rewrite int64_ok by nia. by eexists.
Qed.

(** The market maker's call. *)
Lemma wp_maker e bks fe t bbo :
  engine_safe e bks → (Z.to_nat t < length (te_ticker_order_book_ e))%nat → quote_small bbo →
  wp (mm_onOrderBookUpdate (te_client_id_ e) (checkPreTradeRisk (risk_manager_ e) (position_keeper_ e))
        (te_ticker_cfg_ e) fe t bbo) (order_manager_ e, outgoing_ogw_requests_ e)
    (λ _ st, orders_safe (risk_manager_ e) (position_keeper_ e) st.1).
Proof.
  intros Hs Ht (Hb & Ha & _). destruct (safe_cfg _ _ _ Hs Ht) as (c & Hc & Hclip & Hlen).
  unfold mm_onOrderBookUpdate. destruct (both_sides bbo) eqn:E; [|by apply wp_ret, Hs].
  apply both_sides_inv in E as [E1 E2]. specialize (Hb E1). specialize (Ha E2).
  destruct (is_feature _); cbn [andb]; [|by apply wp_ret, Hs].
  apply wp_bind. unfold cfg_at. rewrite Hc. apply wp_ret.
  apply wp_bind. eapply wp_lift; [apply int64_ok; destruct (dgeb _ _); lia|].
  apply wp_bind. eapply wp_lift; [apply int64_ok; destruct (dgeb _ _); lia|].
  by apply wp_moveOrders; [apply Hs|apply Hs|..].
Qed.

(** The liquidity taker's call. *)
Lemma wp_taker e bks fe u bbo :
  engine_safe e bks → (Z.to_nat (upd_ticker_id_ u) < length (te_ticker_order_book_ e))%nat →
  wp (lt_onTradeUpdate (te_client_id_ e) (checkPreTradeRisk (risk_manager_ e) (position_keeper_ e))
        (te_ticker_cfg_ e) fe u bbo) (order_manager_ e, outgoing_ogw_requests_ e)
    (λ _ st, orders_safe (risk_manager_ e) (position_keeper_ e) st.1).
Proof.
  intros Hs Ht. destruct (safe_cfg _ _ _ Hs Ht) as (c & Hc & Hclip & Hlen).
  unfold lt_onTradeUpdate. destruct (_ && _); [|by apply wp_ret, Hs].
  apply wp_bind. unfold cfg_at. rewrite Hc. apply wp_ret.
  destruct (dgeb _ _); [|by apply wp_ret, Hs].
  case_decide; by apply wp_moveOrders; [apply Hs|apply Hs|..].
Qed.

(** ** Every event keeps the invariant *)
Lemma safe_set_features x e bks : engine_safe e bks → engine_safe (te_set_features x e) bks.
Proof. by intros []; constructor. Qed.
Lemma safe_set_time x e bks : engine_safe e bks → engine_safe (te_set_time x e) bks.
Proof. by intros []; constructor. Qed.
Lemma safe_set_responses x e bks : engine_safe e bks → engine_safe (te_set_responses x e) bks.
Proof. by intros []; constructor. Qed.
Lemma safe_set_updates x e bks : engine_safe e bks → engine_safe (te_set_updates x e) bks.
Proof. by intros []; constructor. Qed.
Lemma safe_set_run x e bks : engine_safe e bks → engine_safe (te_set_run x e) bks.
Proof. by intros []; constructor. Qed.

(** The keeper changes no position. *)
Lemma safe_set_positions k' e bks :
  engine_safe e bks → keeper_ok k' → position_ <$> k' = position_ <$> position_keeper_ e →
  engine_safe (te_set_positions k' e) bks.
Proof.
  intros [] Hk Hp. constructor; try done. cbn [te_set_positions risk_manager_ position_keeper_ order_manager_].
  destruct es_orders0 as (S1 & S2 & S3). split_and!; [|done|].
  - by rewrite <- S1, <- (length_fmap position_ k'), Hp, length_fmap.
  - intros i cfg p l Hc Hp' Hl. assert ((position_ <$> position_keeper_ e) !! i = Some (position_ p)) as E
      by (by rewrite <- Hp, list_lookup_fmap, Hp').
    rewrite list_lookup_fmap in E. destruct (position_keeper_ e !! i) as [p0|] eqn:E0; [|done].
    cbn in E. injection E as <-. by eapply S3.
Qed.

Lemma position_small e bks i p :
  engine_safe e bks → position_keeper_ e !! i = Some p → Z.abs (position_ p) < 2 ^ 31.
Proof.
  intros [] Hp. pose proof es_orders0 as (S1 & _).
  destruct (safe_ticker (risk_manager_ e) (position_keeper_ e) es_limits0 (order_manager_ e) i)
    as (cfg & p' & l & _ & Hp' & _ & [(C1 & C2 & C3) _] & Ht); [done|by rewrite <- S1; apply lookup_lt_Some in Hp|].
  assert (p' = p) as -> by congruence. pose proof (safe_position _ _ _ Ht). lia.
Qed.

Lemma pk_updateBBO_ok e bks t book bbo :
  engine_safe e bks → (Z.to_nat t < length (te_ticker_order_book_ e))%nat → quote_small bbo →
  ∃ k', pk_updateBBO t book bbo (position_keeper_ e) = Ok k' ∧ keeper_ok k' ∧
    position_ <$> k' = position_ <$> position_keeper_ e.
Proof.
  intros Hs Ht (Hb & Ha & _). pose proof (es_orders _ _ Hs) as (S1 & _).
  destruct (safe_cfg _ _ _ Hs Ht) as (c & _ & _ & Hlen).
  destruct (lookup_lt_is_Some_2 (position_keeper_ e) (Z.to_nat t)) as [p Hp]; [lia|].
  pose proof (es_keeper _ _ Hs) as Hk. unfold keeper_ok in *. rewrite Forall_lookup in Hk.
  destruct (pi_updateBBO_ok book bbo p) as (p' & Hp' & Hpos & Hv).
  - by eapply position_small.
  - by eapply Hk.
  - intros E1 E2. specialize (Hb E1). specialize (Ha E2). lia.
  - exists (<[Z.to_nat t := p']> (position_keeper_ e)). unfold pk_updateBBO, on_ticker. rewrite Hp.
    cbn [mbind result_bind]. rewrite Hp'. split_and!; [done| |].
    + apply Forall_lookup. intros i p2 [(_ & <- & _)|[_ Hi]]%list_lookup_insert_Some; [|by eapply Hk].
      rewrite Hv. by eapply Hk.
    + rewrite list_fmap_insert, Hpos. apply list_insert_id. by rewrite list_lookup_fmap, Hp.
Qed.

Lemma wp_answer e bks r :
  engine_safe e bks → conforms (order_manager_ e) r → wp (te_onOrderUpdate r) e (λ _ e', engine_safe e' bks).
Proof.
  intros Hs Hc.
  destruct (wp_response (risk_manager_ e) (position_keeper_ e) (order_manager_ e) (outgoing_ogw_requests_ e) r)
    as (k' & Hk' & Hkok & Hwp); try apply Hs; [done|].
  assert (∀ e1, te_algo_ e1 = te_algo_ e → risk_manager_ e1 = risk_manager_ e → te_ticker_cfg_ e1 = te_ticker_cfg_ e →
    te_ticker_order_book_ e1 = te_ticker_order_book_ e → position_keeper_ e1 = k' →
    order_manager_ e1 = order_manager_ e → outgoing_ogw_requests_ e1 = outgoing_ogw_requests_ e →
    wp (algo (λ _ _, om_onOrderUpdate r)) e1 (λ _ e', engine_safe e' bks)) as Halgo.
  { intros e1 E1 E2 E3 E4 E5 E6 E7. unfold algo. apply wp_bind, wp_gets. unfold id. rewrite E6, E7.
    apply wp_bind. apply wp_Ok in Hwp as ([] & st & Hst & Hsafe & _). eapply wp_lift; [exact Hst|].
    apply wp_modify. destruct Hs. constructor; cbn [te_set_orders te_algo_ risk_manager_ te_ticker_cfg_
      te_ticker_order_book_ position_keeper_ order_manager_ snd]; rewrite ?E1, ?E2, ?E3, ?E4, ?E5; done. }
  unfold te_onOrderUpdate. apply wp_bind, wp_gets. unfold id. apply wp_bind.
  case_decide as Hf.
  - apply wp_bind. eapply wp_lift; [exact Hk'|]. apply wp_modify.
    destruct (es_algo _ _ Hs) as [-> | ->]; by apply Halgo.
  - apply wp_ret. injection Hk' as Hk'. destruct (es_algo _ _ Hs) as [-> | ->]; by apply Halgo.
Qed.

Lemma wp_notify e bks u b n :
  engine_safe e bks → (Z.to_nat (upd_ticker_id_ u) < length (te_ticker_order_book_ e))%nat →
  quote_small (bbo_ b) →
  n = (if decide (upd_type_ u = MarketUpdateType_TRADE) then TradeUpdate
       else BookUpdate (upd_ticker_id_ u) (upd_price_ u) (upd_side_ u)) →
  wp (notify u n (Z.to_nat (upd_ticker_id_ u)) b) e (λ _ e', engine_safe e' bks).
Proof.
  intros Hs Ht Hq ->. case_decide; cbn [notify].
  - unfold te_onTradeUpdate. apply wp_bind, wp_gets. unfold id. apply wp_bind, wp_modify.
    set (fe := fe_onTradeUpdate _ _ _).
    pose proof (safe_set_features fe e bks Hs) as Hs1.
    destruct (es_algo _ _ Hs) as [-> | ->]; [by apply wp_algo_idle|].
    eapply wp_algo; [exact Hs1|]. by apply (wp_taker (te_set_features fe e) bks).
  - unfold te_onOrderBookUpdate. apply wp_bind, wp_gets. unfold id.
    destruct (pk_updateBBO_ok e bks (upd_ticker_id_ u) (Z.to_nat (upd_ticker_id_ u)) (bbo_ b) Hs Ht Hq)
      as (k' & Hk' & Hkok & Hpos).
    destruct (fe_onOrderBookUpdate_ok (bbo_ b) (feature_engine_ e) Hq) as (fe & Hfe).
    apply wp_bind. eapply wp_lift; [exact Hk'|]. apply wp_bind, wp_modify.
    apply wp_bind. eapply wp_lift; [exact Hfe|]. apply wp_bind, wp_modify.
    pose proof (safe_set_features fe _ _ (safe_set_positions k' e bks Hs Hkok Hpos)) as Hs1.
    destruct (es_algo _ _ Hs) as [-> | ->]; [|by apply wp_algo_idle].
    eapply wp_algo; [exact Hs1|]. by apply (wp_maker (te_set_features fe (te_set_positions k' e)) bks).
Qed.

Lemma wp_update e bks now u :
  engine_safe e bks → 0 < ME_MAX_NUM_CLIENTS → event_ok (Update now u) e bks →
  wp (processMarketUpdate now u) e (λ _ e', engine_safe e' (books_after (Update now u) bks)).
Proof.
  intros Hs Hcl (bk & Hbk & Hmd & Hq). cbn [books_after]. set (i := Z.to_nat (upd_ticker_id_ u)) in *.
  destruct (Forall2_lookup_r _ _ _ _ _ (es_books _ _ Hs) Hbk) as (b & Hb & Himp & Hbbo).
  pose proof (wp_onMarketUpdate b bk u Himp Hbbo Hmd Hcl) as Hwp.
  apply wp_Ok in Hwp as (n & b' & Hu & Hn & Himp' & Hbbo').
  unfold processMarketUpdate. apply wp_bind, wp_gets. unfold id. fold i. rewrite Hb.
  apply wp_bind. eapply wp_lift; [exact Hu|]. apply wp_bind, wp_modify. cbn [fst snd].
  assert (engine_safe (te_set_books (<[i := b']> (te_ticker_order_book_ e)) e) (alter (spec_md u) i bks)) as Hs1.
  { destruct Hs. constructor; try done; cbn [te_set_books te_ticker_order_book_ te_ticker_cfg_].
    - by rewrite length_insert.
    - rewrite <- (list_insert_alter_eq bks i bk) by done. by apply Forall2_insert. }
  apply wp_bind. eapply wp_mono; [apply wp_notify; [exact Hs1| |by rewrite Hbbo'|exact Hn]|].
  - cbn [te_set_books te_ticker_order_book_]. rewrite length_insert. by apply lookup_lt_Some in Hb.
  - intros [] e' He'. cbn beta in He'. apply wp_modify. by apply safe_set_time.
Qed.

Lemma wp_handle ev e bks :
  engine_safe e bks → 0 < ME_MAX_NUM_CLIENTS → event_ok ev e bks →
  wp (te_handle ev) e (λ _ e', engine_safe e' (books_after ev bks)).
Proof. destruct ev; cbn [te_handle]; intros Hs Hc He; [by apply wp_answer|by apply wp_update]. Qed.

Lemma wp_handles evs e bks :
  engine_safe e bks → 0 < ME_MAX_NUM_CLIENTS → session_ok evs e bks →
  wp (te_handles evs) e (λ _ e', ∃ bks', engine_safe e' bks').
Proof.
  intros Hs Hc. revert e bks Hs. induction evs as [|ev evs IH]; intros e bks Hs; cbn [te_handles session_ok].
  { intros _. apply wp_ret. by exists bks. }
  intros [He Hrest]. apply wp_bind. pose proof (wp_handle ev e bks Hs Hc He) as Hwp.
  apply wp_Ok in Hwp as ([] & e1 & He1 & Hs1). apply wp_Ok. exists tt, e1. split; [done|].
  eapply IH; [exact Hs1|]. by apply Hrest.
Qed.

(** ** What the position limits mean *)
Definition exposures_kept e : Prop :=
  ∀ i cfg p l, risk_manager_ e !! i = Some cfg → position_keeper_ e !! i = Some p →
    ticker_side_order_ (order_manager_ e) !! i = Some l →
    Z.abs (position_ p) ≤ max_position_ cfg ∧
    ∀ s, trading_side s → ∃ o, l !! side_index s = Some o ∧
      0 ≤ open_qty o ≤ max_order_size_ cfg ∧ sideToValue s * position_ p + open_qty o ≤ max_position_ cfg.

Lemma safe_exposures e bks : engine_safe e bks → exposures_kept e.
Proof.
  intros [] i cfg p l Hc Hp Hl. destruct es_orders0 as (_ & _ & S3). specialize (S3 _ _ _ _ Hc Hp Hl).
  split; [by eapply safe_position|]. destruct S3 as [_ S3]. intros s Hs. destruct (S3 s Hs) as (o & Ho & Hw & Hw').
  by exists o.
Qed.

(** The tickers of a new engine. *)
Definition configured (ticker_cfg : list TradeEngineCfg) (garbage : nat → list double) : Prop :=
  length ticker_cfg = Z.to_nat ME_MAX_TICKERS ∧ Forall (λ c, limits_ok (risk_cfg_ c) ∧ 0 ≤ clip_ c) ticker_cfg ∧
  ∀ i, length (garbage i) = S (side_index Side_MAX).

Definition empty_books : list Book := replicate (Z.to_nat ME_MAX_TICKERS) empty_market_book.

Lemma new_engine_safe client_id algo_type ticker_cfg requests responses updates garbage :
  algo_type = AlgoType_MAKER ∨ algo_type = AlgoType_TAKER → configured ticker_cfg garbage →
  0 < ME_MAX_PRICE_LEVELS → 0 < ME_MAX_ORDER_IDS →
  engine_safe (TradeEngine_new client_id algo_type ticker_cfg requests responses updates garbage) empty_books.
Proof.
  intros Ha (Hlen & Hcfg & Hg) Hl Ho. unfold TradeEngine_new. constructor; try done;
    cbn [risk_manager_ te_ticker_cfg_ te_ticker_order_book_ position_keeper_ order_manager_].
  - apply Forall_fmap. eapply Forall_impl; [exact Hcfg|]. by intros c [? _].
  - eapply Forall_impl; [exact Hcfg|]. by intros c [_ ?].
  - by rewrite length_fmap, length_seq.
  - apply Forall_fmap, Forall_forall. intros i _. apply Hg.
  - split_and!; [by unfold PositionKeeper_new, RiskManager_new; rewrite !length_fmap, length_seq| |].
    { unfold OrderManager_new. cbn [ticker_side_order_]. unfold RiskManager_new. by rewrite length_fmap, length_replicate. }
    intros i cfg p l Hc Hp Hlk. cbn [OrderManager_new ticker_side_order_] in Hlk.
    apply lookup_replicate in Hlk as [-> _].
    apply list_lookup_fmap_Some in Hp as (j & -> & _). cbn [PositionInfo_new position_].
    apply list_lookup_fmap_Some in Hc as (c & -> & Hc).
    rewrite Forall_lookup in Hcfg. destruct (Hcfg _ _ Hc) as [[(C1 & C2 & C3) _] _].
    split; [by rewrite length_replicate|]. intros s Hs. exists OMOrder_default. split.
    + apply lookup_replicate. split; [done|]. pose proof (sideToIndex_range s). unfold side_index. lia.
    + unfold within, open_qty. cbn [OMOrder_default om_order_state_ active]. lia.
  - unfold empty_books. apply Forall2_same_length_lookup. split.
    + by rewrite length_fmap, length_seq, length_replicate.
    + intros i b bk Hb Hbk. apply lookup_replicate in Hbk as [-> _].
      apply list_lookup_fmap_Some in Hb as (j & -> & _).
      destruct (market_new_implements (Z.of_nat j)) as (? & ? & _); [done|done|]. by split.
Qed.

(** C5: no interleaving of prices, answers and executions takes a trading engine over its limits.
    From its construction on, an engine with one of the algorithms handles every sequence of
    updates that fit its books and of answers of a conforming exchange without a fault, and then for
    every ticker the position, and the position that it would have if the open order of a side
    executed in full, are within the position limit, and no open order is larger than allowed. *)
Theorem position_limits_kept client_id algo_type ticker_cfg requests responses updates garbage evs :
  algo_type = AlgoType_MAKER ∨ algo_type = AlgoType_TAKER → configured ticker_cfg garbage →
  0 < ME_MAX_PRICE_LEVELS → 0 < ME_MAX_ORDER_IDS → 0 < ME_MAX_NUM_CLIENTS →
  let e := TradeEngine_new client_id algo_type ticker_cfg requests responses updates garbage in
  session_ok evs e empty_books → ∃ e', te_handles evs e = Ok (tt, e') ∧ exposures_kept e'.
Proof.
  intros Ha Hcfg Hl Ho Hc e Hok.
  pose proof (wp_handles evs e empty_books) as Hwp. apply wp_Ok in Hwp as ([] & e' & He' & bks' & Hs); try done.
  - exists e'. split; [done|]. by eapply safe_exposures.
  - by apply new_engine_safe.
Qed.
End TradingSafety.
