(* ===== verification/TradingLoop.v ===== *)
(** * The loop of the trade engine's thread

    A round drains the queue of answers and then the queue of updates; it does to the engine what
    the events one by one do, because no handler looks at the queues or at the time. *)
From S2P Require Import Prelude Types MemPool LFQueue CircList EngineSink BookSpec BookSweep.
From S2P Require Import MEOrderBook BookRep BookRefine MarketOrderBook MarketBookSim MarketBookSpec.
From S2P Require Import MarketBookTheorems Double PositionKeeper RiskManager OrderManager.
From S2P Require Import FeatureEngine Algorithms TradeEngine OrderSafety TradingSafety.
Section TradingLoop.
Context `{Limits}.
Implicit Types (e : TradeEngine) (ev : te_event) (bks : list Book).

Definition with_inputs (rs : LFQueue MEClientResponse) (us : LFQueue MEMarketUpdate) (t : Z) e : TradeEngine :=
  te_set_responses rs (te_set_updates us (te_set_time t e)).

(** Engines that differ at most in what is still to be read and in the time of the last event. *)
Definition same_core e1 e2 : Prop := ∃ rs us t, e2 = with_inputs rs us t e1.

Definition same_inputs e1 e2 : Prop :=
  incoming_ogw_responses_ e2 = incoming_ogw_responses_ e1 ∧ incoming_md_updates_ e2 = incoming_md_updates_ e1 ∧
  te_run_ e2 = te_run_ e1.

#[export] Instance same_core_equivalence : Equivalence same_core.
Proof.
  split.
  - intros []. by eexists _, _, _.
  - intros [] e2 (rs & us & t & ->). by eexists _, _, _.
  - intros [] e2 e3 (rs & us & t & ->) (rs' & us' & t' & ->). by eexists _, _, _.
Qed.

(** The events do not look at the inputs. *)
Definition agree (m1 m2 : result (unit * TradeEngine)) e2 : Prop :=
  match m1, m2 with
  | Ok (_, e1'), Ok (_, e2') => same_core e1' e2' ∧ same_inputs e2 e2'
  | Err x, Err y => x = y
  | _, _ => False
  end.

Lemma algo_agree f e1 e2 e0 : same_core e1 e2 → same_inputs e0 e2 → agree (algo f e1) (algo f e2) e0.
Proof.
  intros (rs & us & t & ->) Hi. unfold algo, agree, gets, lift, modify, mbind, M_bind, id;
    cbn [with_inputs te_set_responses te_set_updates te_set_time te_client_id_ risk_manager_ position_keeper_
         order_manager_ outgoing_ogw_requests_].
  destruct (f _ _ _) as [[[] st]|]; [|done]. split; [by eexists _, _, _|exact Hi].
Qed.

Lemma mret_agree e1 e2 e0 :
  same_core e1 e2 → same_inputs e0 e2 → agree ((mret tt : TE unit) e1) ((mret tt : TE unit) e2) e0.
Proof. by split. Qed.

Lemma core_set_features x e1 e2 : same_core e1 e2 → same_core (te_set_features x e1) (te_set_features x e2).
Proof. intros (rs & us & t & ->). by exists rs, us, t. Qed.
Lemma core_set_positions x e1 e2 : same_core e1 e2 → same_core (te_set_positions x e1) (te_set_positions x e2).
Proof. intros (rs & us & t & ->). by exists rs, us, t. Qed.
Lemma core_set_books x e1 e2 : same_core e1 e2 → same_core (te_set_books x e1) (te_set_books x e2).
Proof. intros (rs & us & t & ->). by exists rs, us, t. Qed.
Lemma core_set_time x e1 e2 : same_core e1 e2 → same_core (te_set_time x e1) (te_set_time x e2).
Proof. intros (rs & us & t & ->). by exists rs, us, x. Qed.

(** The members that the handlers read. *)
Lemma core_reads e1 e2 :
  same_core e1 e2 →
  te_client_id_ e2 = te_client_id_ e1 ∧ te_algo_ e2 = te_algo_ e1 ∧ te_ticker_cfg_ e2 = te_ticker_cfg_ e1 ∧
  te_ticker_order_book_ e2 = te_ticker_order_book_ e1 ∧ feature_engine_ e2 = feature_engine_ e1 ∧
  position_keeper_ e2 = position_keeper_ e1 ∧ order_manager_ e2 = order_manager_ e1.
Proof. by intros (rs & us & t & ->). Qed.

Lemma trade_agree u bbo e1 e2 e0 :
  same_core e1 e2 → same_inputs e0 e2 → agree (te_onTradeUpdate u bbo e1) (te_onTradeUpdate u bbo e2) e0.
Proof.
  intros Hc Hi. destruct (core_reads _ _ Hc) as (_ & Ea & Et & _ & Ef & _).
  unfold te_onTradeUpdate, gets, modify, mbind, M_bind, id. rewrite Ea, Et, Ef.
  pose proof (core_set_features (fe_onTradeUpdate u bbo (feature_engine_ e1)) _ _ Hc) as Hc'.
  destruct (te_algo_ e1); first [by apply mret_agree|by apply algo_agree].
Qed.

Lemma book_agree t price s book bbo e1 e2 e0 :
  same_core e1 e2 → same_inputs e0 e2 →
  agree (te_onOrderBookUpdate t price s book bbo e1) (te_onOrderBookUpdate t price s book bbo e2) e0.
Proof.
  intros Hc Hi. destruct (core_reads _ _ Hc) as (_ & Ea & Et & _ & Ef & Ep & _).
  unfold te_onOrderBookUpdate, gets, modify, lift, mbind, M_bind, id. rewrite Ea, Et, Ef, Ep.
  destruct (pk_updateBBO _ _ _ _) as [k'|]; [|done]. destruct (fe_onOrderBookUpdate _ _) as [fe|]; [|done].
  pose proof (core_set_features fe _ _ (core_set_positions k' _ _ Hc)) as Hc'.
  destruct (te_algo_ e1); first [by apply mret_agree|by apply algo_agree].
Qed.

Lemma handle_agree ev e1 e2 : same_core e1 e2 → agree (te_handle ev e1) (te_handle ev e2) e2.
Proof.
  intros Hc. destruct (core_reads _ _ Hc) as (_ & Ea & _ & Eb & _ & Ep & _). destruct ev as [r|now u]; cbn [te_handle].
  - unfold te_onOrderUpdate, gets, modify, lift, mbind, M_bind, id. rewrite Ea, Ep.
    case_decide.
    + destruct (pk_addFill r _) as [k'|]; [|done]. pose proof (core_set_positions k' _ _ Hc) as Hc'.
      destruct (te_algo_ e1); first [by apply mret_agree|by apply algo_agree].
    + destruct (te_algo_ e1); first [by apply mret_agree|by apply algo_agree].
  - unfold processMarketUpdate, gets, modify, lift, mbind, M_bind, id. rewrite Eb.
    destruct (te_ticker_order_book_ e1 !! _) as [b|]; [|done].
    destruct (onMarketUpdate u b) as [[n b']|]; [|done]. cbn [fst snd].
    pose proof (core_set_books (<[Z.to_nat (upd_ticker_id_ u) := b']> (te_ticker_order_book_ e1)) _ _ Hc) as Hc'.
    assert (agree (notify u n (Z.to_nat (upd_ticker_id_ u)) b'
                     (te_set_books (<[Z.to_nat (upd_ticker_id_ u) := b']> (te_ticker_order_book_ e1)) e1))
              (notify u n (Z.to_nat (upd_ticker_id_ u)) b'
                     (te_set_books (<[Z.to_nat (upd_ticker_id_ u) := b']> (te_ticker_order_book_ e1)) e2)) e2) as Hn
      by (destruct n; cbn [notify]; [by apply trade_agree|by apply book_agree]).
    destruct (notify _ _ _ _ _) as [[[] x1]|], (notify _ _ _ _ _) as [[[] x2]|]; try done.
    destruct Hn as [Hn1 Hn2]. split; [by apply core_set_time|done].
Qed.

Lemma handle_core ev e1 e2 e1' :
  same_core e1 e2 → te_handle ev e1 = Ok (tt, e1') →
  ∃ e2', te_handle ev e2 = Ok (tt, e2') ∧ same_core e1' e2' ∧ same_inputs e2 e2'.
Proof.
  intros Hc E. pose proof (handle_agree ev e1 e2 Hc) as Ha. rewrite E in Ha.
  destruct (te_handle ev e2) as [[[] e2']|]; [|done]. by exists e2'.
Qed.

Lemma session_core evs e1 e2 bks : same_core e1 e2 → session_ok evs e1 bks → session_ok evs e2 bks.
Proof.
  revert e1 e2 bks. induction evs as [|ev evs IH]; intros e1 e2 bks Hc; cbn [session_ok]; [done|].
  intros [He Hrest]. split.
  - destruct ev; cbn [event_ok] in *; [|done]. by destruct (core_reads _ _ Hc) as (_ & _ & _ & _ & _ & _ & ->).
  - intros e2' E. assert (same_core e2 e1) as Hc' by done. destruct (handle_core ev e2 e1 e2' Hc' E) as (e1' & E1 & Hc1 & _).
    eapply IH; [|by apply Hrest]. done.
Qed.

Lemma safe_core e1 e2 bks : same_core e1 e2 → engine_safe e1 bks → engine_safe e2 bks.
Proof. intros (rs & us & t & ->) Hs. by apply safe_set_responses, safe_set_updates, safe_set_time. Qed.

Fixpoint books_end (evs : list te_event) bks : list Book :=
  match evs with [] => bks | ev :: evs => books_end evs (books_after ev bks) end.

Lemma books_end_app evs1 evs2 bks : books_end (evs1 ++ evs2) bks = books_end evs2 (books_end evs1 bks).
Proof. revert bks. induction evs1; intros bks; cbn; auto. Qed.

(** What the engine is after the events [evs], and what is still to come. *)
Definition reached (evs rest : list te_event) e bks e' : Prop :=
  ∃ e2, te_handles evs e = Ok (tt, e2) ∧ same_core e2 e' ∧ engine_safe e' (books_end evs bks) ∧
    session_ok rest e' (books_end evs bks).

Lemma handles_core evs a b y :
  same_core b a → te_handles evs a = Ok (tt, y) → ∃ z, te_handles evs b = Ok (tt, z) ∧ same_core z y.
Proof.
  revert a b. induction evs as [|ev evs IH]; intros a b Hc; cbn [te_handles].
  - intros [= <-]. by exists b.
  - unfold mbind, M_bind. destruct (te_handle ev a) as [[[] a']|] eqn:Ea; [|done]. intros Hy.
    assert (same_core a b) as Hc' by done. destruct (handle_core ev a b a' Hc' Ea) as (b' & -> & Hb & _).
    eapply IH; [|exact Hy]. done.
Qed.

Lemma handles_app evs1 evs2 e e1 e2 :
  te_handles evs1 e = Ok (tt, e1) → te_handles evs2 e1 = Ok (tt, e2) → te_handles (evs1 ++ evs2) e = Ok (tt, e2).
Proof.
  revert e. induction evs1 as [|ev evs1 IH]; intros e; cbn [te_handles app].
  - by intros [= ->].
  - unfold mbind, M_bind. destruct (te_handle ev e) as [[[] a]|]; [|done]. apply IH.
Qed.

Lemma reached_app evs1 evs2 rest e e1 bks e' :
  reached evs1 (evs2 ++ rest) e bks e1 → reached evs2 rest e1 (books_end evs1 bks) e' →
  reached (evs1 ++ evs2) rest e bks e'.
Proof.
  intros (x & Hx & Hc & _) (y & Hy & Hc2 & Hs & Hr). destruct (handles_core evs2 e1 x y Hc Hy) as (z & Hz & Hzy).
  exists z. split_and!; [by eapply handles_app|by etransitivity|by rewrite books_end_app|by rewrite books_end_app].
Qed.

Lemma reached_step ev evs rest e e1 e2 bks e' :
  te_handle ev e = Ok (tt, e1) → same_core e1 e2 → reached evs rest e2 (books_after ev bks) e' →
  reached (ev :: evs) rest e bks e'.
Proof.
  intros E Hc (x & Hx & Hc2 & Hs & Hr). destruct (handles_core evs e2 e1 x Hc Hx) as (z & Hz & Hzx).
  exists z. split_and!; [|by etransitivity|done|done].
  cbn [te_handles]. unfold mbind, M_bind. rewrite E. done.
Qed.

Lemma wp_drain_responses rs rest clock e bks :
  engine_safe e bks → 0 < ME_MAX_NUM_CLIENTS → holds (incoming_ogw_responses_ e) rs →
  session_ok ((Answer <$> rs) ++ rest) e bks →
  wp (te_drain_responses (length rs) clock) e (λ _ e', reached (Answer <$> rs) rest e bks e' ∧
    holds (incoming_ogw_responses_ e') [] ∧ incoming_md_updates_ e' = incoming_md_updates_ e ∧ te_run_ e' = te_run_ e).
Proof.
  revert e. induction rs as [|r rs IH]; intros e Hs Hc Hq Hok; cbn [length te_drain_responses].
  { apply wp_bind, wp_gets. unfold id. apply wp_bind. eapply wp_lift; [by apply holds_pop_nil|]. apply wp_ret.
    split_and!; try done. by exists e. }
  destruct (holds_pop_cons _ _ _ Hq) as (q & Hpop & Hq' & _). destruct Hok as [He Hrest].
  apply wp_bind, wp_gets. unfold id. apply wp_bind. eapply wp_lift; [exact Hpop|].
  pose proof (wp_handle (Answer r) e bks Hs Hc He) as Hwp. apply wp_Ok in Hwp as ([] & e1 & E & Hs1).
  apply wp_bind, wp_Ok. exists tt, e1. split; [exact E|]. apply wp_bind, wp_modify, wp_bind, wp_modify.
  set (e2 := te_set_time _ _).
  assert (same_core e1 e2) as Hc2 by (by eexists q, (incoming_md_updates_ e1), _).
  destruct (handle_core (Answer r) e e e1) as (? & E' & _ & Hin & Hrun); [done..|].
  rewrite E in E'. injection E' as <-.
  eapply wp_mono; [apply IH|].
  - by eapply safe_core.
  - done.
  - exact Hq'.
  - eapply session_core; [exact Hc2|]. by apply Hrest.
  - intros [] e' (Hr & Hq2 & Hu & Hr2). split_and!; [by eapply reached_step|done| |].
    + rewrite Hu. apply Hrun.
    + rewrite Hr2. apply Hrun.
Qed.

(** The updates in the queue, each with the time at which it is handled. *)
Fixpoint updates_at (clock : nat → Z) (us : list MEMarketUpdate) : list te_event :=
  match us with [] => [] | u :: us => Update (clock (length us)) u :: updates_at clock us end.

Lemma wp_drain_updates us clock e bks :
  engine_safe e bks → 0 < ME_MAX_NUM_CLIENTS → holds (incoming_md_updates_ e) us →
  session_ok (updates_at clock us) e bks →
  wp (te_drain_updates (length us) clock) e (λ _ e', reached (updates_at clock us) [] e bks e' ∧
    holds (incoming_md_updates_ e') [] ∧ incoming_ogw_responses_ e' = incoming_ogw_responses_ e ∧ te_run_ e' = te_run_ e).
Proof.
  revert e bks. induction us as [|u us IH]; intros e bks Hs Hc Hq Hok; cbn [length te_drain_updates].
  { apply wp_bind, wp_gets. unfold id. apply wp_bind. eapply wp_lift; [by apply holds_pop_nil|]. apply wp_ret.
    split_and!; try done. by exists e. }
  destruct (holds_pop_cons _ _ _ Hq) as (q & Hpop & Hq' & _). destruct Hok as [He Hrest].
  apply wp_bind, wp_gets. unfold id. apply wp_bind. eapply wp_lift; [exact Hpop|].
  pose proof (wp_handle (Update (clock (length us)) u) e bks Hs Hc He) as Hwp. apply wp_Ok in Hwp as ([] & e1 & E & Hs1).
  apply wp_bind, wp_Ok. exists tt, e1. split; [exact E|]. apply wp_bind, wp_modify.
  set (e2 := te_set_updates _ _).
  assert (same_core e1 e2) as Hc2 by (by eexists (incoming_ogw_responses_ e1), q, (last_event_time_ e1)).
  destruct (handle_core (Update (clock (length us)) u) e e e1) as (? & E' & _ & Hin & _ & Hrun); [done..|].
  rewrite E in E'. injection E' as <-.
  eapply wp_mono; [apply IH|].
  - by eapply safe_core.
  - done.
  - exact Hq'.
  - eapply session_core; [exact Hc2|]. by apply Hrest.
  - intros [] e' (Hr & Hq2 & Hu & Hr2). split_and!; [by eapply reached_step|done| |].
    + rewrite Hu. exact Hin.
    + rewrite Hr2. exact Hrun.
Qed.

Lemma wp_run_round clock clock' e bks rs us :
  engine_safe e bks → 0 < ME_MAX_NUM_CLIENTS → te_run_ e = true →
  holds (incoming_ogw_responses_ e) rs → holds (incoming_md_updates_ e) us →
  session_ok ((Answer <$> rs) ++ updates_at clock' us) e bks →
  wp (te_run_round clock clock') e (λ _ e', reached ((Answer <$> rs) ++ updates_at clock' us) [] e bks e' ∧
    holds (incoming_ogw_responses_ e') [] ∧ holds (incoming_md_updates_ e') [] ∧ te_run_ e' = true).
Proof.
  intros Hs Hc Hrun Hrs Hus Hok. unfold te_run_round. apply wp_bind, wp_gets. unfold id. rewrite Hrun.
  apply wp_bind. rewrite (holds_size _ _ Hrs), (holds_size _ _ Hus).
  eapply wp_mono; [by apply (wp_drain_responses rs (updates_at clock' us))|].
  intros [] e1 (Hr1 & Hq1 & Hu1 & Hrun1). pose proof Hr1 as (_ & _ & _ & Hs1 & Hok1).
  eapply wp_mono; [apply (wp_drain_updates us clock' e1 (books_end (Answer <$> rs) bks)); try done; by rewrite Hu1|].
  intros [] e2 (He2 & Hq2 & Hr2 & Hrun2). split_and!; [|by rewrite Hr2|done|congruence].
  eapply reached_app; [|exact He2]. by rewrite app_nil_r.
Qed.

(** C22: a round of the engine's thread handles everything that was queued: first the answers, in
    order, then the updates, in order, as the same events handled one by one; both queues are
    empty afterwards, and the limits are kept. *)
Theorem engine_round clock clock' e bks rs us :
  engine_safe e bks → 0 < ME_MAX_NUM_CLIENTS → te_run_ e = true →
  holds (incoming_ogw_responses_ e) rs → holds (incoming_md_updates_ e) us →
  let evs := (Answer <$> rs) ++ updates_at clock' us in
  session_ok evs e bks →
  ∃ e' e2, te_run_round clock clock' e = Ok (tt, e') ∧ te_handles evs e = Ok (tt, e2) ∧ same_core e2 e' ∧
    engine_safe e' (books_end evs bks) ∧ exposures_kept e' ∧
    holds (incoming_ogw_responses_ e') [] ∧ holds (incoming_md_updates_ e') [].
Proof.
  intros Hs Hc Hrun Hrs Hus evs Hok. pose proof (wp_run_round clock clock' e bks rs us Hs Hc Hrun Hrs Hus Hok) as Hwp.
  apply wp_Ok in Hwp as ([] & e' & E & (e2 & He2 & Hc2 & Hs2 & _) & Hq1 & Hq2 & _).
  exists e', e2. split_and!; try done. by eapply safe_exposures.
Qed.
End TradingLoop.
