(* ===== verification/OrderTraffic.v ===== *)
(** * The requests of the order manager

    All that the order manager does to its orders, other than on an answer of the exchange, are the
    two moves below: each is one request.  Every handler of the trade engine sends the requests of a
    sequence of moves and nothing else. *)
From S2P Require Import Prelude Types MemPool LFQueue CircList EngineSink BookSpec BookSweep.
From S2P Require Import MEOrderBook BookRep BookRefine MarketOrderBook MarketBookSim MarketBookSpec.
From S2P Require Import MarketBookTheorems Double PositionKeeper RiskManager OrderManager.
From S2P Require Import FeatureEngine Algorithms TradeEngine OrderSafety TradingSafety.
(** The request for a new order, and for a cancel. *)
Definition new_request (client_id t id price qty : Z) (s : Side) : MEClientRequest :=
  mkMEClientRequest ClientRequestType_NEW client_id t id s price qty.
Definition cancel_request (client_id : Z) (o : OMOrder) : MEClientRequest :=
  mkMEClientRequest ClientRequestType_CANCEL client_id (om_ticker_id_ o) (om_order_id_ o) (om_side_ o)
    (om_price_ o) (om_qty_ o).

Definition inactive (s : OMOrderState) : Prop := s = OMOrderState_INVALID ∨ s = OMOrderState_DEAD.

Inductive om_move (c : Z) : OrderManager → MEClientRequest → OrderManager → Prop :=
  | move_new m t s o price qty :
      0 ≤ t → trading_side s → om_lookup (Z.to_nat t, side_index s) m = Some o → inactive (om_order_state_ o) →
      Z.abs price < 2 ^ 31 → is_u32 qty →
      om_move c m (new_request c t (next_order_id_ m) price qty s)
        (mkOrderManager
           (ticker_side_order_ (om_store (Z.to_nat t, side_index s)
              (mkOMOrder t (next_order_id_ m) s price qty OMOrderState_PENDING_NEW) m))
           (u64 (next_order_id_ m + 1)))
  | move_cancel m t s o :
      0 ≤ t → trading_side s → om_lookup (Z.to_nat t, side_index s) m = Some o →
      om_order_state_ o = OMOrderState_LIVE →
      om_move c m (cancel_request c o)
        (om_store (Z.to_nat t, side_index s) (om_set_state OMOrderState_PENDING_CANCEL o) m).

Inductive om_moves (c : Z) : OrderManager → list MEClientRequest → OrderManager → Prop :=
  | moves_nil m : om_moves c m [] m
  | moves_cons m1 r m2 rs m3 : om_move c m1 r m2 → om_moves c m2 rs m3 → om_moves c m1 (r :: rs) m3.

Lemma om_moves_app c m1 rs m2 rs' m3 : om_moves c m1 rs m2 → om_moves c m2 rs' m3 → om_moves c m1 (rs ++ rs') m3.
Proof. induction 1; [done|]. intros Hm. cbn. eapply moves_cons; eauto. Qed.

Section manager.
Context {T : Type} `{RequestSink T} (c : Z) (risk : Z → Side → Z → result RiskCheckResult).
Implicit Types (m : OrderManager) (q : T) (st : OrderManager * T).

(** The risk check lets only quantities of 32 bits pass. *)
Hypothesis Hrisk : ∀ t s qty, risk t s qty = Ok RiskCheckResult_ALLOWED → qty < 2 ^ 32.

Definition sends (rs : list MEClientRequest) q : T := foldl (λ q r, sendClientRequest r q) q rs.

(** At most [n] moves, whose requests were sent. *)
Definition moved (n : nat) st0 st : Prop :=
  ∃ rs, (length rs ≤ n)%nat ∧ om_moves c st0.1 rs st.1 ∧ st.2 = sends rs st0.2.

Lemma moved_refl n st : moved n st st.
Proof. exists []. split_and!; [cbn; lia|constructor|done]. Qed.

Lemma moved_trans n n' st1 st2 st3 : moved n st1 st2 → moved n' st2 st3 → moved (n + n') st1 st3.
Proof.
  intros (rs & Hn & Hm & E) (rs' & Hn' & Hm' & E'). exists (rs ++ rs').
  split_and!; [rewrite length_app; lia|by eapply om_moves_app|]. unfold sends in *. by rewrite foldl_app, <- E.
Qed.

Lemma wlp_om_read a st (Q : OMOrder → OrderManager * T → Prop) :
  (∀ o, om_lookup a st.1 = Some o → Q o st) → wlp (om_read a) st Q.
Proof.
  intros HQ. unfold om_read. apply wlp_bind, wlp_gets. destruct (om_lookup a st.1) as [o|]; [|apply wlp_throw].
  apply wlp_ret. by apply HQ.
Qed.

Lemma wlp_om_at t s st (Q : order_ptr → OrderManager * T → Prop) :
  Q (Z.to_nat t, side_index s) st → wlp (om_at t s) st Q.
Proof.
  intros HQ. unfold om_at. apply wlp_bind, wlp_gets. destruct (om_lookup _ st.1); [|apply wlp_throw]. by apply wlp_ret.
Qed.

Lemma wlp_moveOrder t price s qty st :
  0 ≤ t → trading_side s → 0 ≤ qty → (price ≠ Price_INVALID → Z.abs price < 2 ^ 31) →
  wlp (moveOrder c risk (Z.to_nat t, side_index s) t price s qty) st (λ _ st', moved 1 st st').
Proof.
  intros Ht Hs Hq Hp. destruct st as [m q]. unfold moveOrder. apply wlp_bind, wlp_om_read. cbn [fst]. intros o Ho.
  destruct (om_order_state_ o) eqn:Est; try (apply wlp_ret, moved_refl).
  2: { destruct (negb _); [|apply wlp_ret, moved_refl]. unfold cancelOrder. apply wlp_bind, wlp_om_read.
       cbn [fst]. intros o' Ho'. assert (o' = o) as -> by congruence.
       apply wlp_bind, wlp_modify, wlp_modify. cbn [fst snd]. exists [cancel_request c o]. split_and!; [done| |done].
       eapply moves_cons; [|constructor]. by apply move_cancel. }
  all: destruct (negb (price =? Price_INVALID)) eqn:Ep; [|apply wlp_ret, moved_refl];
    apply negb_true_iff, Z.eqb_neq in Ep;
    apply wlp_bind, wlp_lift; intros rr Hrr; case_decide as Ha; [|apply wlp_ret, moved_refl]; subst rr;
    unfold newOrder; apply wlp_bind, wlp_gets; apply wlp_bind, wlp_modify; apply wlp_bind, wlp_modify;
    apply wlp_modify; cbn [fst snd]; exists [new_request c t (next_order_id_ m) price qty s]; split_and!; [done| |done];
    (eapply moves_cons; [|constructor]); eapply move_new; try done; try (by apply Hp);
    first [by rewrite Est; left|by rewrite Est; right|by split; [|eapply Hrisk]].
Qed.

Lemma wlp_moveOrders t bid ask clip st :
  0 ≤ t → 0 ≤ clip → (bid ≠ Price_INVALID → Z.abs bid < 2 ^ 31) → (ask ≠ Price_INVALID → Z.abs ask < 2 ^ 31) →
  wlp (moveOrders c risk t bid ask clip) st (λ _ st', moved 2 st st').
Proof.
  intros Ht Hc Hb Ha. unfold moveOrders. apply wlp_bind, wlp_om_at, wlp_bind.
  eapply wlp_mono; [apply wlp_moveOrder; try done; by left|]. intros [] st1 H1. cbn beta in H1.
  apply wlp_bind, wlp_om_at. eapply wlp_mono; [apply wlp_moveOrder; try done; by right|].
  intros [] st2 H2. by apply (moved_trans 1 1 _ st1).
Qed.
End manager.

(** Sending to the engine is writing to its queue. *)
Lemma sends_push_all (q : LFQueue MEClientRequest) reqs : sends reqs q = push_all reqs q.
Proof. revert q. induction reqs as [|req reqs IH]; intros q; [done|]. apply IH. Qed.

(** ** The handlers of the trade engine *)
Section engine.
Context `{Limits}.
Implicit Types (e : TradeEngine) (bks : list Book).

Definition te_moved e e' : Prop :=
  te_client_id_ e' = te_client_id_ e ∧
  moved (te_client_id_ e) 2 (order_manager_ e, outgoing_ogw_requests_ e) (order_manager_ e', outgoing_ogw_requests_ e').

(** The members that moves concern. *)
Definition same_orders e e' : Prop :=
  te_client_id_ e' = te_client_id_ e ∧ order_manager_ e' = order_manager_ e ∧
  outgoing_ogw_requests_ e' = outgoing_ogw_requests_ e.

Lemma moved_same e e1 e' : same_orders e e1 → te_moved e1 e' → te_moved e e'.
Proof. intros (E1 & E2 & E3) [M1 M2]. unfold te_moved. rewrite E1, E2, E3 in *. by split. Qed.

Lemma risk_small e bks t s qty :
  engine_safe e bks →
  checkPreTradeRisk (risk_manager_ e) (position_keeper_ e) t s qty = Ok RiskCheckResult_ALLOWED → qty < 2 ^ 32.
Proof.
  intros Hs. unfold checkPreTradeRisk. destruct (risk_manager_ e !! _) as [cfg|] eqn:Hc; [|done].
  destruct (position_keeper_ e !! _) as [p|]; [|done]. unfold info_checkPreTradeRisk.
  destruct (max_order_size_ cfg <? qty) eqn:Eq; [done|]. intros _. apply Z.ltb_ge in Eq.
  pose proof (es_limits _ _ Hs) as Hl. rewrite Forall_lookup in Hl. destruct (Hl _ _ Hc) as [(? & ? & ?) _]. lia.
Qed.

Lemma wlp_algo f e1 e2 :
  same_orders e1 e2 →
  wlp (f (te_client_id_ e2) (checkPreTradeRisk (risk_manager_ e2) (position_keeper_ e2)))
    (order_manager_ e2, outgoing_ogw_requests_ e2)
    (λ _ st, moved (te_client_id_ e2) 2 (order_manager_ e2, outgoing_ogw_requests_ e2) st) →
  wlp (algo f) e2 (λ _ e', te_moved e1 e').
Proof.
  intros Hsame Hf. unfold algo. apply wlp_bind, wlp_gets. unfold id. apply wlp_bind, wlp_lift.
  intros [[] [m q]] E. apply (wlp_Ok _ _ _ _ _ Hf) in E. apply wlp_modify.
  eapply moved_same; [exact Hsame|]. by split.
Qed.

Lemma wlp_algo_idle f e1 e2 :
  same_orders e1 e2 → (∀ c risk, f c risk = mret tt) → wlp (algo f) e2 (λ _ e', te_moved e1 e').
Proof. intros Hs Hf. apply wlp_algo; [done|]. rewrite Hf. apply wlp_ret, moved_refl. Qed.

Lemma wlp_maker e bks fe t bbo st :
  engine_safe e bks → 0 ≤ t → quote_small bbo →
  wlp (mm_onOrderBookUpdate (te_client_id_ e) (checkPreTradeRisk (risk_manager_ e) (position_keeper_ e))
         (te_ticker_cfg_ e) fe t bbo) st (λ _ st', moved (te_client_id_ e) 2 st st').
Proof.
  intros Hs Ht (Hb & Ha & _). unfold mm_onOrderBookUpdate.
  destruct (both_sides bbo) eqn:E; [|apply wlp_ret, moved_refl].
  apply both_sides_inv in E as [E1 E2]. specialize (Hb E1). specialize (Ha E2).
  destruct (is_feature _); cbn [andb]; [|apply wlp_ret, moved_refl].
  apply wlp_bind. unfold cfg_at. destruct (te_ticker_cfg_ e !! _) as [cfg|] eqn:Hc; [|apply wlp_throw].
  apply wlp_ret, wlp_bind, wlp_lift. intros bid Hbid. apply wlp_bind, wlp_lift. intros ask Hask.
  set (d1 := dgeb _ _) in Hbid. set (d2 := dgeb _ _) in Hask. clearbody d1 d2.
  rewrite int64_ok in Hbid by (destruct d1; lia). rewrite int64_ok in Hask by (destruct d2; lia).
  injection Hbid as <-. injection Hask as <-. pose proof (es_clips _ _ Hs) as Hcl. rewrite Forall_lookup in Hcl.
  apply wlp_moveOrders; [intros ? ? ?; by eapply risk_small|done|by eapply Hcl| |];
    intros _; [destruct d1|destruct d2]; lia.
Qed.

Lemma wlp_taker e bks fe u bbo st :
  engine_safe e bks → 0 ≤ upd_ticker_id_ u → quote_small bbo →
  wlp (lt_onTradeUpdate (te_client_id_ e) (checkPreTradeRisk (risk_manager_ e) (position_keeper_ e))
         (te_ticker_cfg_ e) fe u bbo) st (λ _ st', moved (te_client_id_ e) 2 st st').
Proof.
  intros Hs Ht (Hb & Ha & _). unfold lt_onTradeUpdate.
  destruct (both_sides bbo) eqn:E; [|apply wlp_ret, moved_refl].
  apply both_sides_inv in E as [E1 E2]. specialize (Hb E1). specialize (Ha E2).
  destruct (is_feature _); cbn [andb]; [|apply wlp_ret, moved_refl].
  apply wlp_bind. unfold cfg_at. destruct (te_ticker_cfg_ e !! _) as [cfg|] eqn:Hc; [|apply wlp_throw].
  apply wlp_ret. destruct (dgeb _ _); [|apply wlp_ret, moved_refl].
  pose proof (es_clips _ _ Hs) as Hcl. rewrite Forall_lookup in Hcl.
  case_decide; apply wlp_moveOrders; try done; try (intros ? ? ?; by eapply risk_small);
    try (by eapply Hcl); intros Hp; first [by destruct Hp|lia].
Qed.

Lemma wlp_notify u n i b e bks :
  engine_safe e bks → (Z.to_nat (upd_ticker_id_ u) < length (te_ticker_order_book_ e))%nat →
  0 ≤ upd_ticker_id_ u → quote_small (bbo_ b) →
  n = (if decide (upd_type_ u = MarketUpdateType_TRADE) then TradeUpdate
       else BookUpdate (upd_ticker_id_ u) (upd_price_ u) (upd_side_ u)) →
  wlp (notify u n i b) e (λ _ e', te_moved e e').
Proof.
  intros Hs Hi Ht Hq ->. case_decide; cbn [notify].
  - unfold te_onTradeUpdate. apply wlp_bind, wlp_gets. unfold id. apply wlp_bind, wlp_modify.
    destruct (es_algo _ _ Hs) as [-> | ->]; [by apply wlp_algo_idle|]. apply wlp_algo; [done|].
    by apply (wlp_taker e bks).
  - unfold te_onOrderBookUpdate. apply wlp_bind, wlp_gets. unfold id.
    apply wlp_bind, wlp_lift. intros k Hk. apply wlp_bind, wlp_modify.
    apply wlp_bind, wlp_lift. intros fe _. apply wlp_bind, wlp_modify.
    destruct (es_algo _ _ Hs) as [-> | ->]; [|by apply wlp_algo_idle]. apply wlp_algo; [done|].
    destruct (pk_updateBBO_ok e bks (upd_ticker_id_ u) i (bbo_ b) Hs Hi Hq) as (k' & Hk' & Hkok & Hpos).
    assert (k' = k) as -> by congruence.
    pose proof (safe_set_features fe _ _ (safe_set_positions k e bks Hs Hkok Hpos)) as Hs1.
    by apply (wlp_maker (te_set_features fe (te_set_positions k e)) bks).
Qed.

(** An update that fits its book: the requests that the algorithm sends are moves of its orders. *)
Lemma update_moves now u e e' bks :
  engine_safe e bks → 0 < ME_MAX_NUM_CLIENTS → 0 ≤ upd_ticker_id_ u → event_ok (Update now u) e bks →
  processMarketUpdate now u e = Ok (tt, e') → te_moved e e'.
Proof.
  intros Hs Hcl Ht (bk & Hbk & Hmd & Hq) Hp. revert Hp. apply (wlp_Ok _ _ _ tt (λ _ e', te_moved e e')).
  set (i := Z.to_nat (upd_ticker_id_ u)) in *.
  destruct (Forall2_lookup_r _ _ _ _ _ (es_books _ _ Hs) Hbk) as (b & Hb & Himp & Hbbo).
  pose proof (wp_onMarketUpdate b bk u Himp Hbbo Hmd Hcl) as Hwp.
  apply wp_Ok in Hwp as (n & b' & Hu & Hn & Himp' & Hbbo').
  unfold processMarketUpdate. apply wlp_bind, wlp_gets. unfold id. fold i. rewrite Hb.
  apply wlp_bind, wlp_lift. intros x Hx. assert (x = (n, b')) as -> by congruence.
  apply wlp_bind, wlp_modify. cbn [fst snd].
  assert (engine_safe (te_set_books (<[i := b']> (te_ticker_order_book_ e)) e) (alter (spec_md u) i bks)) as Hs1.
  { destruct Hs. constructor; try done; cbn [te_set_books te_ticker_order_book_ te_ticker_cfg_].
    - by rewrite length_insert.
    - rewrite <- (list_insert_alter_eq bks i bk) by done. by apply Forall2_insert. }
  apply wlp_bind. eapply wlp_mono; [eapply (wlp_notify _ _ _ _ _ _ Hs1); [|done|by rewrite Hbbo'|exact Hn]|].
  - cbn [te_set_books te_ticker_order_book_]. rewrite length_insert. by apply lookup_lt_Some in Hb.
  - intros [] e1 He1. cbn beta in He1. apply wlp_modify. eapply moved_same; [|exact He1]. done.
Qed.

(** An answer moves nothing: it changes the order that it is about. *)
Lemma answer_order r e e' :
  te_algo_ e = AlgoType_MAKER ∨ te_algo_ e = AlgoType_TAKER → te_onOrderUpdate r e = Ok (tt, e') →
  te_client_id_ e' = te_client_id_ e ∧
  om_onOrderUpdate (T := LFQueue MEClientRequest) r (order_manager_ e, outgoing_ogw_requests_ e)
    = Ok (tt, (order_manager_ e', outgoing_ogw_requests_ e')).
Proof.
  intros Ha. set (Q := λ e', te_client_id_ e' = te_client_id_ e ∧
    om_onOrderUpdate (T := LFQueue MEClientRequest) r (order_manager_ e, outgoing_ogw_requests_ e)
      = Ok (tt, (order_manager_ e', outgoing_ogw_requests_ e'))).
  apply (wlp_Ok _ _ _ tt (λ _, Q)).
  assert (∀ e1, same_orders e e1 → wlp (algo (λ _ _, om_onOrderUpdate r)) e1 (λ _, Q)) as Halgo.
  { intros e1 (S1 & S2 & S3). unfold algo. apply wlp_bind, wlp_gets. unfold id. apply wlp_bind, wlp_lift.
    intros [[] [m q]] E. apply wlp_modify. split; [done|]. by rewrite <- S2, <- S3. }
  unfold te_onOrderUpdate. apply wlp_bind, wlp_gets. unfold id. apply wlp_bind.
  case_decide.
  - apply wlp_bind, wlp_lift. intros k _. apply wlp_modify. by destruct Ha as [-> | ->]; apply Halgo.
  - apply wlp_ret. by destruct Ha as [-> | ->]; apply Halgo.
Qed.
End engine.
