(* ===== verification/OrderProtocol.v ===== *)
(** * The protocol of one order

    For each ticker and side a client has one order, and at any time answers about it are on their
    way to the client and requests about it on their way to the exchange.  The protocol relates the
    four: the order as the client knows it, the answers, the client's order in the book, and the
    requests.  Each step of either end keeps it. *)
From S2P Require Import Prelude Types EngineSink BookSpec BookSweep MatchingEngine ClientView.
From S2P Require Import ClientRequests PositionKeeper OrderManager OrderSafety OrderTraffic.
Implicit Types (o : OMOrder) (x : Order) (xs : list Order) (s : Side) (bk : Book)
  (r : MEClientResponse) (rs : list MEClientResponse) (req : MEClientRequest) (reqs : list MEClientRequest).

(** ** Answers *)

(** What onOrderUpdate does to the order. *)
Definition om_apply r o : OMOrder :=
  match rsp_type_ r with
  | ClientResponseType_ACCEPTED => om_set_state OMOrderState_LIVE o
  | ClientResponseType_CANCELED => om_set_state OMOrderState_DEAD o
  | ClientResponseType_FILLED =>
      let o := om_set_qty (rsp_leaves_qty_ r) o in
      if om_qty_ o =? 0 then om_set_state OMOrderState_DEAD o else o
  | ClientResponseType_CANCEL_REJECTED | ClientResponseType_INVALID => o
  end.

(** An answer that conforms to the state of the order. *)
Definition answer_ok r o : Prop :=
  match rsp_type_ r with
  | ClientResponseType_ACCEPTED => om_order_state_ o = OMOrderState_PENDING_NEW
  | ClientResponseType_CANCELED => om_order_state_ o = OMOrderState_PENDING_CANCEL
  | ClientResponseType_FILLED =>
      (om_order_state_ o = OMOrderState_LIVE ∨ om_order_state_ o = OMOrderState_PENDING_CANCEL) ∧
      0 ≤ rsp_exec_qty_ r ∧ 0 ≤ rsp_leaves_qty_ r ∧ rsp_exec_qty_ r + rsp_leaves_qty_ r = om_qty_ o ∧
      Z.abs (rsp_price_ r) < 2 ^ 31
  | ClientResponseType_CANCEL_REJECTED | ClientResponseType_INVALID => False
  end.

(** The answers on the way conform one after the other and lead from [o] to [o']. *)
Fixpoint answered o rs o' : Prop :=
  match rs with [] => o' = o | r :: rs => answer_ok r o ∧ answered (om_apply r o) rs o' end.

Lemma answered_app o rs o1 rs' o2 : answered o rs o1 → answered o1 rs' o2 → answered o (rs ++ rs') o2.
Proof.
  revert o. induction rs as [|r rs IH]; intros o; cbn; [by intros ->|]. intros [? ?] ?. split; [done|by apply IH].
Qed.

(** Answers change the state and the quantity only. *)
Definition same_order o o' : Prop :=
  om_ticker_id_ o' = om_ticker_id_ o ∧ om_order_id_ o' = om_order_id_ o ∧ om_side_ o' = om_side_ o.

Lemma apply_same r o : same_order o (om_apply r o).
Proof. unfold om_apply. destruct (rsp_type_ r); try done. cbn zeta. by destruct (_ =? 0). Qed.

Lemma answered_same o rs o' : answered o rs o' → same_order o o'.
Proof.
  revert o. induction rs as [|r rs IH]; intros o; cbn; [by intros ->|]. intros [_ Ha%IH].
  destruct Ha as (E1 & E2 & E3), (apply_same r o) as (F1 & F2 & F3). unfold same_order. by rewrite E1, E2, E3.
Qed.

(** No answer conforms to an order that is not at the exchange. *)
Lemma answered_inactive o rs o' : inactive (om_order_state_ o) → answered o rs o' → rs = [] ∧ o' = o.
Proof.
  intros Hi. destruct rs as [|r rs]; [done|]. intros [Ha _]. unfold answer_ok in Ha.
  destruct (rsp_type_ r); try done; destruct Hi as [E|E]; rewrite E in Ha; naive_solver.
Qed.

Lemma apply_filled r o :
  rsp_type_ r = ClientResponseType_FILLED →
  om_apply r o = if rsp_leaves_qty_ r =? 0 then om_set_state OMOrderState_DEAD (om_set_qty (rsp_leaves_qty_ r) o)
                 else om_set_qty (rsp_leaves_qty_ r) o.
Proof. unfold om_apply. by intros ->. Qed.

Lemma fills_zero rs q' : fills 0 rs q' → rs = [] ∧ q' = 0.
Proof. destruct rs as [|r rs]; cbn; [done|]. intros (_ & ? & ? & ? & _). lia. Qed.

(** Executions are conforming answers to an order at the exchange; the last one may end it. *)
Lemma fills_answered o rs q' :
  om_order_state_ o = OMOrderState_LIVE ∨ om_order_state_ o = OMOrderState_PENDING_CANCEL →
  fills (om_qty_ o) rs q' →
  ∃ o', answered o rs o' ∧
    (om_order_state_ o' = om_order_state_ o ∧ om_qty_ o' = q' ∧ (q' = 0 → rs = []) ∨
     om_order_state_ o' = OMOrderState_DEAD ∧ q' = 0 ∧ rs ≠ []).
Proof.
  revert o. induction rs as [|r rs IH]; intros o Hst; cbn [fills answered].
  { intros <-. exists o. split; [done|]. by left. }
  intros (Hty & He & Hl & Hsum & Hp & Hf).
  assert (answer_ok r o) as Hok by (unfold answer_ok; rewrite Hty; split_and!; [done|lia|done..]).
  rewrite (apply_filled r o Hty). destruct (rsp_leaves_qty_ r =? 0) eqn:E.
  - apply Z.eqb_eq in E. rewrite E in Hf |- *. apply fills_zero in Hf as [-> ->].
    eexists. split; [by split|]. by right.
  - destruct (IH (om_set_qty (rsp_leaves_qty_ r) o)) as (o' & Ho' & Hcase); [done|done|].
    exists o'. split; [done|]. cbn [om_set_qty om_order_state_] in Hcase.
    destruct Hcase as [(E1 & E2 & E3)|(E1 & E2 & E3)]; [|by right].
    destruct (decide (q' = 0)) as [Hz|]; [|by left]. exfalso. specialize (E3 Hz). subst rs. cbn in Hf. lia.
Qed.

(** A client that asks for a cancel can still be told of executions. *)
Lemma answered_cancel o rs o' :
  om_order_state_ o = OMOrderState_LIVE → answered o rs o' →
  let o1 := om_set_state OMOrderState_PENDING_CANCEL o in
  om_order_state_ o' = OMOrderState_LIVE ∧ answered o1 rs (om_set_state OMOrderState_PENDING_CANCEL o') ∨
  om_order_state_ o' = OMOrderState_DEAD ∧ answered o1 rs o'.
Proof.
  revert o. induction rs as [|r rs IH]; intros o Hst; cbn [answered]; [by intros ->; left|].
  intros [Hok Ha]. unfold answer_ok in Hok. destruct (rsp_type_ r) eqn:Hty; try done; try (rewrite Hst in Hok; done).
  destruct Hok as (_ & He). assert (answer_ok r (om_set_state OMOrderState_PENDING_CANCEL o)) as Hok'.
  { unfold answer_ok. rewrite Hty. split; [by right|exact He]. }
  rewrite (apply_filled r o Hty) in Ha. rewrite (apply_filled r _ Hty). destruct (rsp_leaves_qty_ r =? 0).
  - apply answered_inactive in Ha as [-> ->]; [|by right]. right. by split_and!.
  - destruct (IH (om_set_qty (rsp_leaves_qty_ r) o) Hst Ha) as [[? ?]|[? ?]]; [left|right]; by split_and!.
Qed.

(** ** The order at the exchange *)
Definition rests o xs : Prop :=
  match xs with
  | [] => om_qty_ o = 0
  | [x] => s_coid x = om_order_id_ o ∧ s_qty x = om_qty_ o
  | _ => False
  end.

Definition is_new o req : Prop :=
  req_type_ req = ClientRequestType_NEW ∧ req_order_id_ req = om_order_id_ o ∧ req_qty_ req = om_qty_ o ∧
  is_u32 (req_qty_ req) ∧ Z.abs (req_price_ req) < 2 ^ 31.
Definition is_cancel req : Prop := req_type_ req = ClientRequestType_CANCEL.

(** The order that the answers on their way lead to, the book, and the requests on their way.  A
    cancel may reach the exchange late, when the order is executed already. *)
Inductive synced o : list Order → list MEClientRequest → Prop :=
  | synced_idle : inactive (om_order_state_ o) → synced o [] []
  | synced_late req : inactive (om_order_state_ o) → is_cancel req → synced o [] [req]
  | synced_new req : om_order_state_ o = OMOrderState_PENDING_NEW → is_new o req → synced o [] [req]
  | synced_late_new req req' :
      om_order_state_ o = OMOrderState_PENDING_NEW → is_cancel req → is_new o req' → synced o [] [req; req']
  | synced_live xs : om_order_state_ o = OMOrderState_LIVE → rests o xs → synced o xs []
  | synced_cancel xs req :
      om_order_state_ o = OMOrderState_PENDING_CANCEL → rests o xs → is_cancel req →
      req_order_id_ req = om_order_id_ o → synced o xs [req]
  | synced_stuck : om_order_state_ o = OMOrderState_PENDING_CANCEL → om_qty_ o = 0 → synced o [] [].

Lemma synced_length o xs reqs : synced o xs reqs → (length reqs ≤ 2)%nat.
Proof. destruct 1; cbn; lia. Qed.

(** Everything about the order of side [s] of ticker [t]; [own] says which order an id was given
    to, of the ids before [next]. *)
Record protocol (own : Z → Z * Side) (next c t : Z) s o rs xs reqs : Prop := {
  pr_order : om_order_state_ o ≠ OMOrderState_INVALID →
    om_ticker_id_ o = t ∧ om_side_ o = s ∧ om_order_id_ o < next ∧ own (om_order_id_ o) = (t, s);
  pr_requests : Forall (λ req, req_client_id_ req = c ∧ req_ticker_id_ req = t ∧ req_side_ req = s ∧
    req_order_id_ req < next ∧ own (req_order_id_ req) = (t, s)) reqs;
  pr_quiet : om_order_state_ o = OMOrderState_LIVE ∨ om_order_state_ o = OMOrderState_PENDING_NEW ∧ rs ≠ [] →
    reqs = [];
  pr_synced : ∃ o', answered o rs o' ∧ synced o' xs reqs
}.

Section protocol.
Context (own : Z → Z * Side) (next c t : Z) (s : Side).

(** The order at the exchange has the id that the client gave it. *)
Lemma protocol_id o rs xs reqs x :
  protocol own next c t s o rs xs reqs → x ∈ xs → own (s_coid x) = (t, s) ∧ s_coid x < next.
Proof.
  intros [Ho _ _ (o' & Ha & Hs)] Hx.
  assert (om_order_state_ o ≠ OMOrderState_INVALID) as Hne.
  { intros E. apply answered_inactive in Ha as [_ ->]; [|by left].
    destruct Hs as [| | | |? Hst|? ? Hst|]; try (by apply not_elem_of_nil in Hx); by rewrite E in Hst. }
  destruct (Ho Hne) as (_ & _ & Hlt & Hown). destruct (answered_same _ _ _ Ha) as (_ & Hid & _).
  assert (rests o' xs) as Hr by (destruct Hs; try done; by apply not_elem_of_nil in Hx).
  destruct xs as [|x' [|]]; try done; [by apply not_elem_of_nil in Hx|].
  apply list_elem_of_singleton in Hx as ->. destruct Hr as [-> _]. by rewrite Hid.
Qed.

(** Ids given to other orders change nothing. *)
Lemma protocol_own own' next' o rs xs reqs :
  (∀ id, id < next → own' id = own id) → next ≤ next' →
  protocol own next c t s o rs xs reqs → protocol own' next' c t s o rs xs reqs.
Proof.
  intros Hown Hn [Ho Hr Hq Hs]. constructor; [| |done|done].
  - intros Hne. destruct (Ho Hne) as (? & ? & ? & ?). rewrite Hown by done. split_and!; (done || lia).
  - eapply Forall_impl; [exact Hr|]. intros req (? & ? & ? & ? & ?). rewrite Hown by done. split_and!; (done || lia).
Qed.

(** ** The client's steps *)

(** The client sends a new order. *)
Lemma protocol_new_order own' o rs xs reqs price qty :
  (∀ id, id < next → own' id = own id) → own' next = (t, s) → trading_side s → Z.abs price < 2 ^ 31 → is_u32 qty →
  inactive (om_order_state_ o) → protocol own next c t s o rs xs reqs →
  protocol own' (next + 1) c t s (mkOMOrder t next s price qty OMOrderState_PENDING_NEW) rs xs
    (reqs ++ [new_request c t next price qty s]).
Proof.
  intros Hold Hnew Hs Hp Hq Hi Hpr. pose proof Hpr as [_ _ _ (o' & Ha & Hsy)].
  apply answered_inactive in Ha as [-> ->]; [|done].
  destruct (protocol_own own' (next + 1) _ _ _ _ Hold ltac:(lia) Hpr) as [_ Hreq _ _]. constructor.
  - intros _. cbn. split_and!; (done || lia).
  - apply Forall_app. split; [done|]. constructor; [|done]. cbn. split_and!; (done || lia).
  - intros [?|[_ ?]]; done.
  - eexists. split; [done|]. assert (∃ st, om_order_state_ o = st ∧ inactive st) as (st & Est & Hst) by eauto.
    destruct Hsy as [| | | |? E|? ? E|E]; try (rewrite Est in *; destruct Hst; congruence).
    + by apply synced_new.
    + by apply synced_late_new.
Qed.

(** The client asks to cancel its order. *)
Lemma protocol_ask_cancel o rs xs reqs :
  om_order_state_ o = OMOrderState_LIVE → protocol own next c t s o rs xs reqs →
  protocol own next c t s (om_set_state OMOrderState_PENDING_CANCEL o) rs xs (reqs ++ [cancel_request c o]).
Proof.
  intros Hst [Ho Hreq Hq (o' & Ha & Hsy)]. rewrite Hq in * by (by left).
  destruct Ho as (Et & Es & Hlt & Hown); [by rewrite Hst|]. constructor.
  - intros _. by split_and!.
  - constructor; [|done]. by split_and!.
  - intros [?|[? _]]; done.
  - destruct (answered_same _ _ _ Ha) as (_ & Hid & _).
    destruct (answered_cancel o rs o' Hst Ha) as [[E Ha']|[E Ha']]; eexists; (split; [exact Ha'|]).
    + inversion Hsy as [Hi|Hi|Hi|Hi|xs' Hi Hr|Hi|Hi]; subst; try (rewrite E in Hi; destruct Hi; done); try congruence.
      by apply synced_cancel.
    + inversion Hsy as [Hi|Hi|Hi|Hi|xs' Hi Hr|Hi|Hi]; subst; try congruence. by apply synced_late.
Qed.

(** The client reads an answer: it conforms. *)
Lemma protocol_answer o r rs xs reqs :
  protocol own next c t s o (r :: rs) xs reqs →
  answer_ok r o ∧ protocol own next c t s (om_apply r o) rs xs reqs.
Proof.
  intros [Ho Hreq Hq (o' & [Hok Ha] & Hsy)]. split; [done|].
  destruct (apply_same r o) as (E1 & E2 & E3). constructor; [|done| |by exists o'].
  - rewrite E1, E2, E3. intros _. apply Ho. intros E. unfold answer_ok in Hok. rewrite E in Hok.
    destruct (rsp_type_ r); naive_solver.
  - intros Hst. apply Hq. unfold answer_ok, om_apply in *. destruct (rsp_type_ r); try done; cbn zeta in Hst.
    + by right.
    + destruct Hst as [?|[? _]]; done.
    + destruct Hok as [[Hok|Hok] _]; [by left|]. cbn [om_set_qty om_qty_] in Hst.
      destruct (_ =? 0); cbn [om_set_qty om_set_state om_order_state_] in Hst; rewrite ?Hok in Hst;
        by destruct Hst as [?|[? _]].
Qed.

(** ** The steps of the exchange *)

Lemma rests_inv o xs : rests o xs → xs = [] ∧ om_qty_ o = 0 ∨ ∃ x, xs = [x] ∧ s_coid x = om_order_id_ o ∧ s_qty x = om_qty_ o.
Proof. destruct xs as [|x [|]]; [by left| |done]. right. by exists x. Qed.

(** The order [o'] is executed and rests with what is left, or is gone. *)
Lemma synced_fills o' x reqs rs q :
  synced o' [x] reqs → 0 < s_qty x → 0 ≤ q → fills (s_qty x) rs q →
  ∃ o'', answered o' rs o'' ∧ synced o'' (keep q x) reqs.
Proof.
  intros Hsy Hx Hq Hf.
  assert ((om_order_state_ o' = OMOrderState_LIVE ∨ om_order_state_ o' = OMOrderState_PENDING_CANCEL) ∧
    s_coid x = om_order_id_ o' ∧ s_qty x = om_qty_ o') as (Hst & Hid & Hqty)
    by (inversion Hsy as [| | | |? ? Hr|? ? ? Hr|]; subst; destruct Hr; split_and!; try done; by (left + right)).
  rewrite Hqty in Hf. destruct (fills_answered o' rs q Hst Hf) as (o'' & Ha & Hcase).
  destruct (answered_same _ _ _ Ha) as (_ & Hid' & _). exists o''. split; [done|]. unfold keep.
  destruct Hcase as [(E1 & E2 & E3)|(E1 & -> & _)].
  - destruct (q =? 0) eqn:Ez.
    { exfalso. apply Z.eqb_eq in Ez. specialize (E3 Ez). subst. cbn in Hf. lia. }
    assert (rests o'' [with_qty q x]) as Hr by (split; cbn; congruence).
    inversion Hsy; subst; [apply synced_live|apply synced_cancel]; congruence.
  - cbn [Z.eqb]. inversion Hsy; subst; [apply synced_idle|apply synced_late]; try done; by right.
Qed.

(** Others trade with the client's order. *)
Lemma protocol_executed o rs xs reqs rs' xs' :
  (xs = [] → rs' = [] ∧ xs' = []) →
  (∀ x, xs = [x] → 0 < s_qty x ∧ ∃ q, 0 ≤ q ≤ s_qty x ∧ fills (s_qty x) rs' q ∧ xs' = keep q x) →
  protocol own next c t s o rs xs reqs → protocol own next c t s o (rs ++ rs') xs' reqs.
Proof.
  intros Hnil Hone Hpr. destruct (decide (xs = [])) as [->|Hne].
  { destruct Hnil as [-> ->]; [done|]. by rewrite app_nil_r. }
  destruct Hpr as [Ho Hreq Hq (o' & Ha & Hsy)].
  assert (∃ x, xs = [x]) as [x ->].
  { inversion Hsy as [| | | |? ? Hr|? ? ? Hr|]; subst; try done; apply rests_inv in Hr as [[? _]|(x & -> & _)];
      try done; by exists x. }
  destruct (Hone x eq_refl) as (Hx & q & [Hq0 _] & Hf & ->).
  destruct (synced_fills o' x reqs rs' q Hsy Hx Hq0 Hf) as (o'' & Ha' & Hsy').
  constructor; [done|done| |exists o''; split; [by eapply answered_app|done]].
  intros [Hst|[Hst Hrs]]; [by apply Hq; left|]. apply Hq. right. split; [done|]. intros ->. cbn in Ha. subst o'.
  inversion Hsy; congruence.
Qed.

Lemma protocol_tail_quiet o rs xs req reqs :
  protocol own next c t s o rs xs (req :: reqs) →
  ¬ (om_order_state_ o = OMOrderState_LIVE ∨ om_order_state_ o = OMOrderState_PENDING_NEW ∧ rs ≠ []).
Proof. intros [_ _ Hq _] Hst. by specialize (Hq Hst). Qed.

(** The request that the exchange reads next. *)
Lemma protocol_head o rs xs req reqs :
  protocol own next c t s o rs xs (req :: reqs) →
  req_client_id_ req = c ∧ own (req_order_id_ req) = (t, s) ∧
  (req_type_ req = ClientRequestType_NEW ∨ req_type_ req = ClientRequestType_CANCEL).
Proof.
  intros [_ Hreq _ (o' & _ & Hsy)]. apply Forall_cons in Hreq as [(Hc & _ & _ & _ & Ho) _]. split_and!; [done|done|].
  inversion Hsy as [|? ? Hx|? ? [Hx _]|? ? ? Hx|?|? ? ? ? Hx|]; subst; by (left + right).
Qed.

(** The exchange reads a request for a new order. *)
Lemma protocol_new_inv o rs xs req reqs :
  protocol own next c t s o rs xs (req :: reqs) → req_type_ req = ClientRequestType_NEW →
  xs = [] ∧ is_u32 (req_qty_ req) ∧ Z.abs (req_price_ req) < 2 ^ 31.
Proof.
  intros [_ _ _ (o' & _ & Hsy)] Hty.
  inversion Hsy as [|? ? Hc|? ? (? & ? & ? & ? & ?)|? ? ? Hc|?|? ? ? ? Hc|]; subst;
    try done; unfold is_cancel in Hc; congruence.
Qed.

Lemma protocol_accepted o rs req reqs r rs' leaves xs' :
  protocol own next c t s o rs [] (req :: reqs) → req_type_ req = ClientRequestType_NEW →
  rsp_type_ r = ClientResponseType_ACCEPTED → fills (req_qty_ req) rs' leaves →
  (leaves = 0 ∧ xs' = [] ∨ 0 < leaves ∧ ∃ x, xs' = [x] ∧ s_coid x = req_order_id_ req ∧ s_qty x = leaves) →
  protocol own next c t s o (rs ++ r :: rs') xs' reqs.
Proof.
  intros Hpr Hty Hr Hf Hx. pose proof (protocol_tail_quiet _ _ _ _ _ Hpr) as Hnq.
  destruct Hpr as [Ho Hreq Hq (o' & Ha & Hsy)].
  assert (reqs = [] ∧ om_order_state_ o' = OMOrderState_PENDING_NEW ∧ is_new o' req) as (-> & Hst & Hn).
  { inversion Hsy as [|? ? Hc|? ? Hn|? ? ? Hc|?|? ? ? ? Hc|]; subst; try done; unfold is_cancel in Hc; congruence. }
  destruct Hn as (_ & Hid & Hqty & _). set (o1 := om_set_state OMOrderState_LIVE o').
  assert (answered o' [r] o1) as Hacc by (cbn; unfold answer_ok, om_apply; by rewrite Hr).
  rewrite Hqty in Hf. destruct (fills_answered o1 rs' leaves (or_introl eq_refl) Hf) as (o2 & Ha2 & Hcase).
  destruct (answered_same _ _ _ Ha2) as (_ & Hid2 & _). cbn in Hid2. constructor; [done|constructor|done|].
  exists o2. split.
  { eapply answered_app; [exact Ha|]. change (r :: rs') with ([r] ++ rs'). by eapply answered_app. }
  destruct Hcase as [(E1 & E2 & E3)|(E1 & -> & _)].
  - apply synced_live; [done|]. destruct Hx as [[? ->]|(? & x & -> & Hc & Hq')]; [cbn; congruence|].
    split; congruence.
  - destruct Hx as [[_ ->]|[? _]]; [|lia]. apply synced_idle. by right.
Qed.

(** The exchange reads a cancel. *)
Lemma protocol_cancel_inv o rs xs req reqs :
  protocol own next c t s o rs xs (req :: reqs) → req_type_ req = ClientRequestType_CANCEL →
  xs = [] ∨ ∃ x, xs = [x] ∧ s_coid x = req_order_id_ req.
Proof.
  intros [_ _ _ (o' & _ & Hsy)] Hty.
  inversion Hsy as [|? ? Hc|? ? Hn|? ? ? Hc|?|? ? ? Hr Hc Hid|]; subst; try (by left).
  apply rests_inv in Hr as [[-> _]|(x & -> & ? & _)]; [by left|]. right. exists x. split; congruence.
Qed.

Lemma protocol_cancel_late o rs req reqs :
  protocol own next c t s o rs [] (req :: reqs) → req_type_ req = ClientRequestType_CANCEL →
  protocol own next c t s o rs [] reqs.
Proof.
  intros Hpr Hty. pose proof (protocol_tail_quiet _ _ _ _ _ Hpr) as Hnq.
  destruct Hpr as [Ho Hreq Hq (o' & Ha & Hsy)]. apply Forall_cons in Hreq as [_ Hreq].
  constructor; [done|done|done|]. exists o'. split; [done|].
  inversion Hsy as [|? ? Hc|? ? [Hn _]|? ? ? Hc|?|? ? ? Hr Hc Hid|]; subst; try congruence.
  - by apply synced_idle.
  - by apply synced_new.
  - by apply synced_stuck.
Qed.

Lemma protocol_cancelled o rs x req reqs r :
  protocol own next c t s o rs [x] (req :: reqs) → rsp_type_ r = ClientResponseType_CANCELED →
  protocol own next c t s o (rs ++ [r]) [] reqs.
Proof.
  intros Hpr Hr. pose proof (protocol_tail_quiet _ _ _ _ _ Hpr) as Hnq.
  destruct Hpr as [Ho Hreq Hq (o' & Ha & Hsy)]. apply Forall_cons in Hreq as [_ Hreq].
  assert (reqs = [] ∧ om_order_state_ o' = OMOrderState_PENDING_CANCEL) as [-> Hst] by (by inversion Hsy; subst).
  assert (answered o' [r] (om_set_state OMOrderState_DEAD o')) as Hcan by (cbn; unfold answer_ok, om_apply; by rewrite Hr).
  constructor; [done|done|done|].
  eexists. split; [by eapply answered_app|]. apply synced_idle. by right.
Qed.
End protocol.
