(* ===== verification/ClientLink.v ===== *)
(** * The link between an order manager and the exchange

    The protocol of OrderProtocol.v for all orders of a client at once: how the moves of its order
    manager, the requests that the exchange reads, those of other participants, and the answers that
    the client reads, keep it. *)
From S2P Require Import Prelude Types EngineSink BookSpec BookSweep BookInv MEOrderBook.
From S2P Require Import BookRep BookRefine BookTheorems BookReplay MatchingEngine.
From S2P Require Import ClientView ClientRequests PositionKeeper RiskManager.
From S2P Require Import Double OrderManager OrderSafety OrderTraffic OrderProtocol.
Implicit Types (o : OMOrder) (x : Order) (s : Side) (bk : Book) (bks : list Book) (m : OrderManager)
  (r : MEClientResponse) (rs : list MEClientResponse) (req : MEClientRequest) (reqs : list MEClientRequest)
  (own : Z → Z * Side).

(** ** The orders of the manager *)
Definition shaped (n : nat) m : Prop :=
  length (ticker_side_order_ m) = n ∧ Forall (λ l, length l = S (side_index Side_MAX)) (ticker_side_order_ m).

Lemma shaped_lookup n m i s : shaped n m → (i < n)%nat → is_Some (om_lookup (i, side_index s) m).
Proof.
  intros [Hn Hf] Hi. unfold om_lookup. cbn. destruct (lookup_lt_is_Some_2 (ticker_side_order_ m) i) as [l Hl]; [lia|].
  rewrite Hl. cbn. apply lookup_lt_is_Some_2. rewrite Forall_lookup in Hf. rewrite (Hf _ _ Hl).
  pose proof (sideToIndex_range s). unfold side_index. lia.
Qed.

Lemma shaped_store n m a o : shaped n m → shaped n (om_store a o m).
Proof.
  intros [Hn Hf]. unfold shaped, om_store. cbn [ticker_side_order_]. rewrite length_alter. split; [done|].
  apply Forall_lookup. intros i l. rewrite Forall_lookup in Hf. destruct (decide (i = a.1)) as [->|Hne].
  - rewrite list_lookup_alter_eq. destruct (ticker_side_order_ m !! a.1) as [l'|] eqn:E; [|done].
    cbn. intros [= <-]. rewrite length_insert. by eapply Hf.
  - rewrite list_lookup_alter_ne by done. apply Hf.
Qed.

Lemma om_lookup_store a a' o m :
  is_Some (om_lookup a m) → om_lookup a' (om_store a o m) = if decide (a' = a) then Some o else om_lookup a' m.
Proof.
  intros [o0 Ho0]. destruct a as [i j], a' as [i' j']. unfold om_lookup, om_store in *. cbn [fst snd ticker_side_order_] in *.
  destruct (decide (i' = i)) as [->|Hne].
  - rewrite list_lookup_alter_eq. destruct (ticker_side_order_ m !! i) as [l|] eqn:E; [|done]. cbn in *.
    destruct (decide (j' = j)) as [->|Hne].
    + rewrite decide_True by done. apply list_lookup_insert_eq. by apply lookup_lt_Some in Ho0.
    + rewrite decide_False by congruence. by apply list_lookup_insert_ne.
  - rewrite list_lookup_alter_ne by done. rewrite decide_False by congruence. done.
Qed.

(** The keys of orders and their addresses. *)
Lemma address_inj t t' s s' :
  0 ≤ t → 0 ≤ t' → (Z.to_nat t, side_index s) = (Z.to_nat t', side_index s') → t = t' ∧ s = s'.
Proof. intros Ht Ht' [= E1 E2%side_index_inj]. split; [lia|done]. Qed.

(** Elements with few distinct keys, and few elements for each key. *)
Lemma length_filter_split {A} (P : A → Prop) `{∀ y, Decision (P y)} (l : list A) :
  length l = (length (filter P l) + length (filter (λ y, ¬ P y) l))%nat.
Proof. induction l as [|y l IH]; [done|]. rewrite !filter_cons. repeat case_decide; cbn; tauto || lia. Qed.

Lemma length_filter_le {A} (P Q : A → Prop) `{∀ y, Decision (P y), ∀ y, Decision (Q y)} (l : list A) :
  (length (filter P (filter Q l)) ≤ length (filter P l))%nat.
Proof. induction l as [|y l IH]; [done|]. rewrite !filter_cons. repeat case_decide; rewrite ?filter_cons; repeat case_decide; cbn; tauto || lia. Qed.

Lemma count_keys {A K} `{EqDecision K} (f : A → K) (keys : list K) (n : nat) (l : list A) :
  Forall (λ y, f y ∈ keys) l → Forall (λ k, (length (filter (λ y, f y = k) l) ≤ n)%nat) keys →
  (length l ≤ n * length keys)%nat.
Proof.
  revert l. induction keys as [|k keys IH]; intros l Hl Hk.
  { destruct l as [|y l]; [cbn; lia|]. apply Forall_cons in Hl as [Hx _]. by apply not_elem_of_nil in Hx. }
  apply Forall_cons in Hk as [Hk1 Hk2]. rewrite (length_filter_split (λ y, f y = k) l). cbn [length].
  specialize (IH (filter (λ y, f y ≠ k) l)). rewrite Nat.mul_succ_r. enough (length (filter (λ y, f y ≠ k) l) ≤ n * length keys)%nat by lia.
  apply IH.
  - apply Forall_forall. intros y [Hne Hx]%list_elem_of_filter. rewrite Forall_forall in Hl. specialize (Hl y Hx). set_solver.
  - eapply Forall_impl; [exact Hk2|]. intros k' Hle. etrans; [apply length_filter_le|done].
Qed.

(** ** The link *)
Section link.
Context (c : Z).

Record linked own m bks reqs rs : Prop := {
  lk_shape : shaped (length bks) m;
  lk_next : 0 ≤ next_order_id_ m;
  lk_books : Forall book_good bks;
  lk_requests : Forall (request_wf (length bks)) reqs;
  lk_answers : Forall (answer_wf (length bks)) rs;
  lk_protocol : ∀ t s o bk, 0 ≤ t → trading_side s → om_lookup (Z.to_nat t, side_index s) m = Some o →
    bks !! Z.to_nat t = Some bk →
    protocol own (next_order_id_ m) c t s o (answers_for t s rs) (mine_on c s bk) (requests_for t s reqs)
}.

Lemma linked_at own m bks reqs rs t s :
  linked own m bks reqs rs → 0 ≤ t → (Z.to_nat t < length bks)%nat → trading_side s →
  ∃ o bk, om_lookup (Z.to_nat t, side_index s) m = Some o ∧ bks !! Z.to_nat t = Some bk ∧ book_good bk ∧
    protocol own (next_order_id_ m) c t s o (answers_for t s rs) (mine_on c s bk) (requests_for t s reqs).
Proof.
  intros [Hsh _ Hb _ _ Hp] Ht Hlt Hs. destruct (shaped_lookup _ _ _ s Hsh Hlt) as [o Ho].
  destruct (lookup_lt_is_Some_2 _ _ Hlt) as [bk Hbk]. exists o, bk. split_and!; [done|done| |by apply Hp].
  by eapply Forall_lookup_1.
Qed.

(** ** The moves of the client *)
Lemma linked_move own m req m' bks reqs rs :
  om_move c m req m' → next_order_id_ m + 1 < 2 ^ 64 → linked own m bks reqs rs →
  ∃ own', linked own' m' bks (reqs ++ [req]) rs ∧ 0 ≤ next_order_id_ m' ≤ next_order_id_ m + 1.
Proof.
  intros Hmv Hn [Hsh Hnx Hb Hrq Han Hp].
  destruct Hmv as [m t s o price qty Ht Hs Ho Hi Hpr Hq|m t s o Ht Hs Ho Hst].
  all: assert (Z.to_nat t < length bks)%nat as Hlt by (destruct Hsh as [<- _]; unfold om_lookup in Ho; cbn in Ho;
    destruct (ticker_side_order_ m !! Z.to_nat t) eqn:E; [by apply lookup_lt_Some in E|done]).
  all: destruct (lookup_lt_is_Some_2 _ _ Hlt) as [bk0 Hbk0]; pose proof (Hp t s o bk0 Ht Hs Ho Hbk0) as Hp0.
  - rewrite u64_small by (unfold is_u64; lia).
    set (n := next_order_id_ m) in *. set (o1 := mkOMOrder _ _ _ _ _ _).
    exists (λ id, if decide (id = n) then (t, s) else own id). split; [|cbn; lia]. constructor; [|cbn; lia|done| |done|].
    + exact (shaped_store _ _ (Z.to_nat t, side_index s) o1 Hsh).
    + apply Forall_app. split; [done|]. by constructor.
    + intros t' s' o' bk' Ht' Hs' Ho' Hbk'. cbn [next_order_id_].
      change (om_lookup (Z.to_nat t', side_index s') (om_store (Z.to_nat t, side_index s) o1 m) = Some o') in Ho'.
      rewrite om_lookup_store in Ho' by (by eexists). rewrite requests_for_app, requests_for_cons.
      cbn [new_request req_ticker_id_ req_side_]. rewrite app_nil_r. case_decide as Ha.
      * apply address_inj in Ha as [-> ->]; [|done..]. injection Ho' as <-. rewrite decide_True by done.
        assert (bk' = bk0) as -> by congruence. eapply protocol_new_order; [|by rewrite decide_True|done..|exact Hp0].
        intros id Hid. by rewrite decide_False by lia.
      * rewrite decide_False, app_nil_r by (intros [-> ->]; by apply Ha). eapply protocol_own; [| |by apply Hp]; [|lia].
        intros id Hid. by rewrite decide_False by lia.
  - exists own. split; [|cbn; lia]. set (o1 := om_set_state OMOrderState_PENDING_CANCEL o) in *.
    destruct (pr_order _ _ _ _ _ _ _ _ _ Hp0) as (Et & Es & _); [by rewrite Hst|].
    constructor; [|done|done| |done|].
    + exact (shaped_store _ _ (Z.to_nat t, side_index s) o1 Hsh).
    + apply Forall_app. split; [done|]. constructor; [|done]. unfold request_wf. cbn. by rewrite Et, Es.
    + intros t' s' o' bk' Ht' Hs' Ho' Hbk'.
      change (next_order_id_ (om_store (Z.to_nat t, side_index s) o1 m)) with (next_order_id_ m).
      rewrite om_lookup_store in Ho' by (by eexists). rewrite requests_for_app, requests_for_cons.
      cbn [cancel_request req_ticker_id_ req_side_]. rewrite app_nil_r, Et, Es. case_decide as Ha.
      * apply address_inj in Ha as [-> ->]; [|done..]. injection Ho' as <-. rewrite decide_True by done.
        assert (bk' = bk0) as -> by congruence. by apply protocol_ask_cancel.
      * rewrite decide_False, app_nil_r by (intros [-> ->]; by apply Ha). by apply Hp.
Qed.

Lemma linked_moves own m reqs' m' bks reqs rs :
  om_moves c m reqs' m' → next_order_id_ m + Z.of_nat (length reqs') < 2 ^ 64 → linked own m bks reqs rs →
  ∃ own', linked own' m' bks (reqs ++ reqs') rs.
Proof.
  intros Hmv. revert own reqs. induction Hmv as [m|m1 req m2 reqs' m3 Hm Hms IH]; intros own reqs Hn Hl.
  { exists own. by rewrite app_nil_r. }
  cbn [length] in Hn. destruct (linked_move _ _ _ _ _ _ _ Hm ltac:(lia) Hl) as (own1 & Hl1 & Hn1).
  destruct (IH own1 (reqs ++ [req]) ltac:(lia) Hl1) as (own2 & Hl2). exists own2. by rewrite <- app_assoc in Hl2.
Qed.

(** ** The exchange handles a request *)

(** One book changes, with messages about its ticker: the orders of that ticker are to be checked. *)
Lemma linked_request own m bks reqs rs t bk y reqs' :
  linked own m bks reqs rs → 0 ≤ t → bks !! Z.to_nat t = Some bk → book_good y.1 → Forall (response_ok t) y.2 →
  Forall (request_wf (length bks)) reqs' →
  (∀ t' s', t' ≠ t → requests_for t' s' reqs' = requests_for t' s' reqs) →
  (∀ s' o, trading_side s' → protocol own (next_order_id_ m) c t s' o (answers_for t s' rs) (mine_on c s' bk) (requests_for t s' reqs) →
     protocol own (next_order_id_ m) c t s' o (answers_for t s' rs ++ answers c s' y.2) (mine_on c s' y.1) (requests_for t s' reqs')) →
  linked own m (<[Z.to_nat t := y.1]> bks) reqs' (rs ++ sent_to c y.2).
Proof.
  intros [Hsh Hnx Hb Hrq Han Hp] Ht Hbk Hy Hev Hrq' Hother Hsides.
  constructor; rewrite ?length_insert; try done.
  - by apply Forall_insert.
  - apply Forall_app. split; [done|]. apply (sent_wf c _ t); [done| |done]. by apply lookup_lt_Some in Hbk.
  - intros t' s' o bk' Ht' Hs' Ho Hbk'. rewrite answers_for_app. destruct (decide (t' = t)) as [->|Hne].
    + rewrite list_lookup_insert_eq in Hbk' by (by apply lookup_lt_Some in Hbk). injection Hbk' as <-.
      rewrite (sent_for c t) by done. apply Hsides; [done|]. by apply Hp.
    + rewrite list_lookup_insert_ne in Hbk' by lia. rewrite (sent_for_other c t t'), app_nil_r by done.
      rewrite Hother by done. by apply Hp.
Qed.

(** What others do to the client's orders. *)
Lemma protocol_accounted own next t s o rs bk reqs y :
  trading_side s → book_good bk → accounted c s bk y → protocol own next c t s o rs (mine_on c s bk) reqs →
  protocol own next c t s o (rs ++ answers c s y.2) (mine_on c s y.1) reqs.
Proof.
  intros Hs Hb [A1 A2] Hp. eapply protocol_executed; [| |exact Hp]; [exact A1|].
  intros x Hx. destruct (A2 x Hx) as (q & Hq & Hf & Hm). split; [|by exists q].
  pose proof (good_resting bk s Hs Hb) as Hr. rewrite Forall_forall in Hr. apply (Hr x).
  assert (x ∈ mine_on c s bk) as [_ Hin]%list_elem_of_filter by (rewrite Hx; set_solver). done.
Qed.

(** The requests of the other participants. *)
Definition other_request req bks : Prop :=
  ∃ bk, 0 ≤ req_ticker_id_ req ∧ bks !! Z.to_nat (req_ticker_id_ req) = Some bk ∧ req_client_id_ req ≠ c ∧
  match req_type_ req with
  | ClientRequestType_NEW =>
      trading_side (req_side_ req) ∧ is_u32 (req_qty_ req) ∧ Z.abs (req_price_ req) < 2 ^ 31 ∧
      fresh (req_client_id_ req) (req_order_id_ req) bk ∧ next_id bk < 2 ^ 64 - 1
  | ClientRequestType_CANCEL => True
  | ClientRequestType_INVALID => False
  end.

Lemma linked_mine own m bks reqs rs t bk s :
  linked own m bks reqs rs → 0 ≤ t → bks !! Z.to_nat t = Some bk → trading_side s → (length (mine_on c s bk) ≤ 1)%nat.
Proof.
  intros Hl Ht Hbk Hs. destruct (linked_at _ _ _ _ _ t s Hl Ht) as (o & bk' & _ & Hbk' & _ & Hp); [by apply lookup_lt_Some in Hbk|done|].
  assert (bk' = bk) as -> by congruence. destruct Hp as [_ _ _ (o' & _ & Hsy)].
  inversion Hsy as [| | | |? ? Hr|? ? ? Hr|]; subst; cbn; try lia;
    apply rests_inv in Hr as [[-> _]|(x & -> & _)]; cbn; lia.
Qed.

Lemma linked_other own m bks reqs rs req :
  linked own m bks reqs rs → other_request req bks →
  linked own m (spec_step req bks).1 reqs (rs ++ sent_to c (spec_step req bks).2).
Proof.
  intros Hl (bk & Ht & Hbk & Hc & Hreq). unfold spec_step. rewrite Hbk. cbn [fst snd].
  assert (book_good bk) as Hb by (destruct Hl as [_ _ Hb _ _ _]; by eapply Forall_lookup_1).
  eapply linked_request; try done; [| |apply Hl|].
  - unfold spec_request. destruct (req_type_ req); [done| |by apply good_cancel].
    destruct Hreq as (? & ? & ? & ? & ?). by apply good_add.
  - apply request_responses; [done|]. intros E. rewrite E in Hreq. apply Hreq.
  - intros s o Hs Hp. apply (protocol_accounted _ _ _ _ _ _ bk); [done|done| |done]. unfold spec_request.
    destruct (req_type_ req) eqn:Ety; [done| |].
    + destruct Hreq as (Hrs & [Hq _] & _). destruct (decide (s = req_side_ req)) as [->|Hne].
      * apply add_other; try done. by apply (linked_mine own m bks reqs rs (req_ticker_id_ req)).
      * assert (s = opp (req_side_ req)) as -> by (destruct Hs as [->| ->], Hrs as [E|E]; rewrite E in *; done).
        by apply add_opposite.
    + apply cancel_other; [done|done|]. apply Forall_forall. intros x [Hx _]%list_elem_of_filter [Hk _]. congruence.
Qed.

(** The client's own request. *)
Lemma protocol_own_request own next req reqs s o rs bk :
  trading_side s → book_good bk → req_side_ req = s → req_client_id_ req = c →
  protocol own next c (req_ticker_id_ req) s o rs (mine_on c s bk) (req :: reqs) →
  protocol own next c (req_ticker_id_ req) s o (rs ++ answers c s (spec_request req bk).2) (mine_on c s (spec_request req bk).1) reqs.
Proof.
  intros Hs Hb Hrs Hc Hp. destruct (protocol_head _ _ _ _ _ _ _ _ _ _ Hp) as (_ & _ & [Hty|Hty]);
    unfold spec_request; rewrite Hty, Hc, ?Hrs.
  - destruct (protocol_new_inv _ _ _ _ _ _ _ _ _ _ Hp Hty) as (Hm & [Hq _] & _).
    destruct (add_own c (req_order_id_ req) (req_ticker_id_ req) s (req_price_ req) (req_qty_ req) bk Hs Hq Hb Hm)
      as (r & rs' & leaves & -> & Hr & _ & Hf & Hx).
    rewrite Hm in Hp. eapply protocol_accepted; [exact Hp|done|done|exact Hf|].
    destruct Hx as [?|(? & x & ? & _ & ? & ?)]; [by left|right]. split; [done|]. by exists x.
  - destruct (protocol_cancel_inv _ _ _ _ _ _ _ _ _ _ Hp Hty) as [Hm|(x & Hm & Hid)].
    + destruct (cancel_other c c (req_order_id_ req) (req_ticker_id_ req) s bk Hs Hb) as [Hnil _]; [by rewrite Hm|].
      destruct (Hnil Hm) as [-> Hm']. change (mine_on c s (spec_cancel c (req_order_id_ req) (req_ticker_id_ req) bk).1 = []) in Hm'.
      rewrite app_nil_r, Hm'. rewrite Hm in Hp. by eapply protocol_cancel_late.
    + destruct (cancel_own c (req_ticker_id_ req) s bk x Hs Hb Hm) as (r & Ha & Hr & Hm'). rewrite Hid in Ha, Hm'. rewrite Ha, Hm'.
      rewrite Hm in Hp. by eapply protocol_cancelled.
Qed.

Lemma protocol_opposite_request own next req s o rs reqs bk :
  let t := req_ticker_id_ req in
  trading_side s → trading_side (req_side_ req) → book_good bk → s ≠ req_side_ req → req_client_id_ req = c →
  own (req_order_id_ req) = (t, req_side_ req) →
  (req_type_ req = ClientRequestType_NEW ∧ 0 ≤ req_qty_ req ∨ req_type_ req = ClientRequestType_CANCEL) →
  protocol own next c t s o rs (mine_on c s bk) reqs →
  protocol own next c t s o (rs ++ answers c s (spec_request req bk).2) (mine_on c s (spec_request req bk).1) reqs.
Proof.
  intros t Hs Hrs Hb Hne Hc Hown Hty Hp. apply (protocol_accounted _ _ _ _ _ _ bk); [done|done| |done].
  unfold spec_request. destruct Hty as [[-> Hq]| ->]; rewrite Hc.
  - assert (s = opp (req_side_ req)) as -> by (destruct Hs as [->| ->], Hrs as [E|E]; rewrite E in *; done).
    by apply add_opposite.
  - apply cancel_other; [done|done|]. apply Forall_forall. intros x Hx [_ Hk].
    destruct (protocol_id _ _ _ _ _ _ _ _ _ _ Hp Hx) as [Hid _]. rewrite Hk, Hown in Hid. congruence.
Qed.

(** The request that the exchange reads next: a cancel, or a new order under an id that the book does not have. *)
Lemma linked_head own m bks req reqs rs bk :
  linked own m bks (req :: reqs) rs → bks !! Z.to_nat (req_ticker_id_ req) = Some bk →
  req_client_id_ req = c ∧ own (req_order_id_ req) = (req_ticker_id_ req, req_side_ req) ∧
  (req_type_ req = ClientRequestType_NEW ∧ is_u32 (req_qty_ req) ∧ Z.abs (req_price_ req) < 2 ^ 31 ∧
     fresh c (req_order_id_ req) bk ∨
   req_type_ req = ClientRequestType_CANCEL).
Proof.
  intros Hl Hbk. pose proof (lk_requests _ _ _ _ _ Hl) as Hwf. apply Forall_cons in Hwf as [(Ht & Hlt & Hs) _].
  destruct (linked_at _ _ _ _ _ _ _ Hl Ht Hlt Hs) as (o & bk' & Ho & Hbk' & Hb & Hp).
  assert (bk' = bk) as -> by congruence. rewrite requests_for_cons, decide_True in Hp by done. cbn [app] in Hp.
  destruct (protocol_head _ _ _ _ _ _ _ _ _ _ Hp) as (Hc & Hown & [Hty|Hty]); split_and!; [done|done| |done|done|by right].
  left. destruct (protocol_new_inv _ _ _ _ _ _ _ _ _ _ Hp Hty) as (Hm & Hq & Hpr). split_and!; [done..|].
  intros x Hx [Hk1 Hk2]. destruct (order_side _ _ Hb Hx) as [Hsx Hin].
  assert (x ∈ mine_on c (s_side x) bk) as Hmx by (apply list_elem_of_filter; split; [congruence|done]).
  destruct (decide (s_side x = req_side_ req)) as [E|Hne]; [rewrite E, Hm in Hmx; by apply not_elem_of_nil in Hmx|].
  destruct (linked_at _ _ _ _ _ _ (s_side x) Hl Ht Hlt Hsx) as (o1 & bk1 & _ & Hbk1 & _ & Hp1).
  assert (bk1 = bk) as -> by congruence.
  destruct (protocol_id _ _ _ _ _ _ _ _ _ _ Hp1 Hmx) as [Hid _]. rewrite Hk2, Hown in Hid. congruence.
Qed.

Lemma linked_exchange own m bks req reqs rs bk :
  linked own m bks (req :: reqs) rs → bks !! Z.to_nat (req_ticker_id_ req) = Some bk → next_id bk < 2 ^ 64 - 1 →
  linked own m (spec_step req bks).1 reqs (rs ++ sent_to c (spec_step req bks).2).
Proof.
  intros Hl Hbk Hn. destruct (linked_head _ _ _ _ _ _ _ Hl Hbk) as (Hc & Hown & Hty).
  pose proof (lk_requests _ _ _ _ _ Hl) as Hwf. apply Forall_cons in Hwf as [(Ht & Hlt & Hs) Hwf].
  assert (book_good bk) as Hb by (eapply Forall_lookup_1; [apply (lk_books _ _ _ _ _ Hl)|done]).
  unfold spec_step. rewrite Hbk. cbn [fst snd].
  eapply linked_request; [exact Hl|done|done| | |done| |].
  - unfold spec_request. destruct Hty as [(Hty & Hq & Hp & Hf)|Hty]; rewrite Hty; [|by apply good_cancel].
    apply good_add; try done. by rewrite Hc.
  - apply request_responses; [done|]. by destruct Hty as [(Hty & _)|Hty]; rewrite Hty.
  - intros t' s' Hne. rewrite requests_for_cons. rewrite decide_False by naive_solver. done.
  - intros s' o' Hs' Hp'. rewrite requests_for_cons in Hp'. destruct (decide (s' = req_side_ req)) as [->|Hne].
    + rewrite decide_True in Hp' by done. by apply protocol_own_request.
    + rewrite decide_False in Hp' by naive_solver. cbn [app] in Hp'.
      apply protocol_opposite_request; try done. destruct Hty as [(Hty & [Hq _] & _)|Hty]; [by left|by right].
Qed.

(** ** The client reads an answer *)
Lemma order_update {T : Type} `{RequestSink T} r m (q : T) o :
  let a := (Z.to_nat (rsp_ticker_id_ r), side_index (rsp_side_ r)) in
  om_lookup a m = Some o →
  om_onOrderUpdate r (m, q) = Ok (tt, (if decide (rsp_type_ r = ClientResponseType_CANCEL_REJECTED ∨
    rsp_type_ r = ClientResponseType_INVALID) then m else om_store a (om_apply r o) m, q)).
Proof.
  intros a Ho. unfold om_onOrderUpdate, om_at, om_read, gets, mbind, M_bind. cbn [fst]. fold a.
  rewrite Ho. unfold mret, M_ret. cbn [fst]. rewrite Ho. unfold om_apply.
  destruct (rsp_type_ r); cbn [fst snd]; repeat case_decide; try done; naive_solver.
Qed.

Lemma linked_answer {T : Type} `{RequestSink T} own m bks reqs r rs (q : T) m' q' :
  linked own m bks reqs (r :: rs) → om_onOrderUpdate r (m, q) = Ok (tt, (m', q')) →
  linked own m' bks reqs rs ∧ q' = q.
Proof.
  intros Hl Hu. pose proof Hl as [Hsh Hnx Hb Hrq Han Hp]. apply Forall_cons in Han as [(Ht & Hlt & Hs) Han].
  destruct (shaped_lookup _ _ _ (rsp_side_ r) Hsh Hlt) as [o Ho].
  rewrite (order_update r m q o Ho) in Hu. injection Hu as <- <-. split; [|done].
  destruct Hs as [Hs|[Hty Hs]].
  2: { rewrite decide_True by (by left). constructor; try done. intros t s o' bk Ht' Hs' Ho' Hbk.
       specialize (Hp t s o' bk Ht' Hs' Ho' Hbk). rewrite answers_for_cons, decide_False in Hp; [done|].
       rewrite Hs. intros [_ <-]. by destruct Hs'. }
  destruct (linked_at _ _ _ _ _ _ _ Hl Ht Hlt Hs) as (o1 & bk & Ho1 & Hbk & _ & Hp1).
  assert (o1 = o) as -> by congruence. rewrite answers_for_cons, decide_True in Hp1 by done.
  destruct (protocol_answer _ _ _ _ _ _ _ _ _ _ Hp1) as [Hok Hp2].
  rewrite decide_False by (unfold answer_ok in Hok; intros [E|E]; by rewrite E in Hok).
  constructor; [by apply shaped_store|done|done|done|done|].
  intros t s o' bk' Ht' Hs' Ho' Hbk'. change (next_order_id_ (om_store ?a ?x m)) with (next_order_id_ m).
  rewrite om_lookup_store in Ho' by (by eexists). case_decide as Ha.
  - apply address_inj in Ha as [-> ->]; [|done..]. injection Ho' as <-. by assert (bk' = bk) as -> by congruence.
  - specialize (Hp t s o' bk' Ht' Hs' Ho' Hbk'). rewrite answers_for_cons, decide_False in Hp; [done|].
    intros [<- <-]. by apply Ha.
Qed.

(** The next answer is one that the client waits for. *)
Lemma linked_conforms own m bks reqs r rs : linked own m bks reqs (r :: rs) → conforms m r.
Proof.
  intros Hl. pose proof Hl as [Hsh Hnx Hb Hrq Han Hp]. apply Forall_cons in Han as [(Ht & Hlt & Hs) Han].
  destruct (shaped_lookup _ _ _ (rsp_side_ r) Hsh Hlt) as [o Ho]. exists o. split; [done|].
  destruct Hs as [Hs|[-> _]]; [|done].
  destruct (linked_at _ _ _ _ _ _ _ Hl Ht Hlt Hs) as (o1 & bk & Ho1 & Hbk & _ & Hp1).
  assert (o1 = o) as -> by congruence. rewrite answers_for_cons, decide_True in Hp1 by done.
  destruct (protocol_answer _ _ _ _ _ _ _ _ _ _ Hp1) as [Hok _]. unfold answer_ok in Hok.
  by destruct (rsp_type_ r).
Qed.

(** ** The requests on their way are few *)
Lemma linked_few own m bks reqs rs : linked own m bks reqs rs → (length reqs ≤ 4 * length bks)%nat.
Proof.
  intros Hl. pose proof (lk_requests _ _ _ _ _ Hl) as Hwf.
  set (keys_of := λ i : nat, [(Z.of_nat i, Side_BUY); (Z.of_nat i, Side_SELL)]).
  set (keys := seq 0 (length bks) ≫= keys_of).
  assert (∀ n i, length (seq i n ≫= keys_of) = 2 * n)%nat as Hk.
  { intros n. induction n as [|n IH]; intros i; [done|]. cbn. rewrite IH. lia. }
  specialize (Hk (length bks) 0%nat). fold keys in Hk.
  replace (4 * length bks)%nat with (2 * length keys)%nat by lia.
  apply (count_keys (λ req, (req_ticker_id_ req, req_side_ req))).
  - eapply Forall_impl; [exact Hwf|]. intros req (Ht & Hlt & Hs). apply list_elem_of_bind.
    exists (Z.to_nat (req_ticker_id_ req)). unfold keys_of. rewrite Z2Nat.id by done.
    split; [destruct Hs as [->| ->]; set_solver|]. apply elem_of_seq. lia.
  - apply Forall_forall. intros [t s] (i & Hi & Hin)%list_elem_of_bind. apply elem_of_seq in Hin. unfold keys_of in Hi.
    assert (t = Z.of_nat i ∧ trading_side s) as [-> Hs].
    { apply elem_of_cons in Hi as [E|E%list_elem_of_singleton]; injection E as -> ->.
      - split; [done|by left].
      - split; [done|by right]. }
    destruct (linked_at _ _ _ _ _ (Z.of_nat i) s Hl) as (o & bk & _ & _ & _ & [_ _ _ (o' & _ & Hsy)]); [lia|lia|done|].
    apply synced_length in Hsy. unfold requests_for in Hsy.
    erewrite list_filter_iff; [exact Hsy|]. intros req. cbn. split; [by intros [= -> ->]|by intros [-> ->]].
Qed.
End link.

(** ** Orders of quantity zero *)

(** With the default configuration of a ticker, whose clip is zero, the pre-trade check lets an order
    of quantity zero pass.  The exchange accepts it and keeps nothing, so that it can only reject the
    cancel; the order manager, which keeps the order in the state PENDING_CANCEL on a rejection,
    never sends an order for that ticker and side again. *)
Theorem zero_quantity_stuck c t s price id bk (r : MEClientResponse) o :
  (∀ p side, position_ p = 0 → total_pnl_ p = dzero → trading_side side →
     info_checkPreTradeRisk RiskCfg_default p side (clip_ TradeEngineCfg_default) = Ok RiskCheckResult_ALLOWED) ∧
  (∃ a, (spec_add c id t s price 0 bk).2 = [Response a] ∧ rsp_type_ a = ClientResponseType_ACCEPTED) ∧
  (fresh c id bk →
     ∃ a, (spec_cancel c id t (spec_add c id t s price 0 bk).1).2 = [Response a] ∧
          rsp_type_ a = ClientResponseType_CANCEL_REJECTED) ∧
  (rsp_type_ r = ClientResponseType_CANCEL_REJECTED → om_apply r o = o) ∧
  (om_order_state_ o = OMOrderState_PENDING_CANCEL →
     ∀ {T : Type} `{RequestSink T} risk (q : T) m a ticker p qty, om_lookup a m = Some o →
       moveOrder c risk a ticker p s qty (m, q) = Ok (tt, (m, q))).
Proof.
  assert (∀ a ls, sweep a 0 ls = ([], 0, ls)) as Hsw by (by intros a [|[p os] ls]).
  assert (∃ a, spec_add c id t s price 0 bk = (mkBook (levels bk) (u64 (next_id bk + 1)), [Response a]) ∧
    rsp_type_ a = ClientResponseType_ACCEPTED) as (a & Ha & Hty).
  { unfold spec_add. rewrite Hsw. cbn. rewrite upd_sel. by eexists. }
  split_and!.
  - intros p side Hp Hl Hs. unfold info_checkPreTradeRisk. rewrite Hp, Hl. by destruct Hs as [->| ->]; vm_compute.
  - exists a. by rewrite Ha.
  - intros Hf. rewrite Ha. cbn [fst]. unfold spec_cancel.
    destruct (find_order _ _ _) as [x|] eqn:E; [|by eexists].
    apply find_order_Some in E as [Hx Hk]. by destruct (Hf x).
  - unfold om_apply. by intros ->.
  - intros Ho T ? risk q m a' ticker p qty Hlk. unfold moveOrder, om_read, gets, mbind, M_bind. cbn [fst].
    rewrite Hlk. unfold mret, M_ret. by rewrite Ho.
Qed.
