(* ===== verification/ClosedLoop.v ===== *)
(** * A client and its exchange

    The closed loop: a trade engine, the requests on their way to the exchange, the exchange's books,
    and the answers on their way back, with other participants who send any requests that the books admit
    ([other_request] of ClientLink.v).  The protocol
    of OrderProtocol.v holds for every ticker and side, so that every answer conforms to what the
    client waits for and the limits of positions need no assumption on the exchange. *)
From S2P Require Import Prelude Types MemPool LFQueue CircList EngineSink BookSpec BookSweep BookInv.
From S2P Require Import MEOrderBook BookRep BookRefine BookTheorems BookReplay MatchingEngine.
From S2P Require Import ClientView ClientRequests ClientLink MarketOrderBook MarketBookSim MarketBookSpec.
From S2P Require Import MarketBookTheorems Double PositionKeeper RiskManager OrderManager FeatureEngine.
From S2P Require Import Algorithms TradeEngine OrderSafety TradingSafety OrderTraffic OrderProtocol.
Implicit Types (o : OMOrder) (x : Order) (s : Side) (bk : Book) (bks : list Book) (m : OrderManager)
  (r : MEClientResponse) (rs : list MEClientResponse) (req : MEClientRequest) (reqs : list MEClientRequest)
  (own : Z → Z * Side).

(** ** The world *)
Record World := mkWorld {
  w_engine : TradeEngine;
  w_market : list Book;                    (** what the market data has told the engine *)
  w_requests : list MEClientRequest;       (** between the gateway and the matching engine *)
  w_answers : list MEClientResponse;       (** between the matching engine and the trade engine *)
  w_exchange : list Book
}.

Section ClosedLoop.
Context `{Limits} (c : Z).
Implicit Types (e : TradeEngine) (W : World).

(** The ids of the client's orders, and of the orders of a book, are not used up. *)
Definition ids_left e : Prop := next_order_id_ (order_manager_ e) + 2 < 2 ^ 64.
Definition book_ids_left req bks : Prop :=
  ∃ bk, bks !! Z.to_nat (req_ticker_id_ req) = Some bk ∧ next_id bk < 2 ^ 64 - 1.

Inductive loop_step W : World → Prop :=
  | step_update now u e' :
      0 ≤ upd_ticker_id_ u → event_ok (Update now u) (w_engine W) (w_market W) → ids_left (w_engine W) →
      te_handle (Update now u) (w_engine W) = Ok (tt, e') →
      loop_step W (mkWorld e' (books_after (Update now u) (w_market W)) (w_requests W) (w_answers W) (w_exchange W))
  | step_answer r rs e' :
      w_answers W = r :: rs → te_handle (Answer r) (w_engine W) = Ok (tt, e') →
      loop_step W (mkWorld e' (w_market W) (w_requests W) rs (w_exchange W))
  | step_gateway req q :
      pop (outgoing_ogw_requests_ (w_engine W)) = Ok (Some (req, q)) →
      loop_step W (mkWorld (te_set_orders (order_manager_ (w_engine W), q) (w_engine W)) (w_market W)
                     (w_requests W ++ [req]) (w_answers W) (w_exchange W))
  | step_exchange req reqs :
      w_requests W = req :: reqs → book_ids_left req (w_exchange W) →
      let y := spec_step req (w_exchange W) in
      loop_step W (mkWorld (w_engine W) (w_market W) reqs (w_answers W ++ sent_to c y.2) y.1)
  | step_others req :
      other_request c req (w_exchange W) →
      let y := spec_step req (w_exchange W) in
      loop_step W (mkWorld (w_engine W) (w_market W) (w_requests W) (w_answers W ++ sent_to c y.2) y.1).

(** ** The invariant *)
Record loop_ok W : Prop := {
  lo_safe : engine_safe (w_engine W) (w_market W);
  lo_client : te_client_id_ (w_engine W) = c;
  lo_tickers : length (w_exchange W) = Z.to_nat ME_MAX_TICKERS;
  lo_room : (4 * Z.to_nat ME_MAX_TICKERS ≤ capacity (outgoing_ogw_requests_ (w_engine W)))%nat;
  lo_linked : ∃ own qs, holds (outgoing_ogw_requests_ (w_engine W)) qs ∧
    linked c own (order_manager_ (w_engine W)) (w_exchange W) (w_requests W ++ qs) (w_answers W)
}.

(** Requests that are on their way all fit the queue. *)
Lemma update_ok W now u :
  0 < ME_MAX_NUM_CLIENTS → loop_ok W → event_ok (Update now u) (w_engine W) (w_market W) →
  ∃ e', te_handle (Update now u) (w_engine W) = Ok (tt, e') ∧ engine_safe e' (books_after (Update now u) (w_market W)).
Proof.
  intros Hc Hok Hev. pose proof (wp_handle (Update now u) _ _ (lo_safe _ Hok) Hc Hev) as Hwp.
  apply wp_Ok in Hwp as ([] & e' & He' & Hs). by exists e'.
Qed.

Lemma answer_ok_next W r rs :
  0 < ME_MAX_NUM_CLIENTS → loop_ok W → w_answers W = r :: rs →
  conforms (order_manager_ (w_engine W)) r ∧
  ∃ e', te_handle (Answer r) (w_engine W) = Ok (tt, e') ∧ engine_safe e' (w_market W).
Proof.
  intros Hc Hok Hr. destruct (lo_linked _ Hok) as (own & qs & _ & Hl). rewrite Hr in Hl.
  pose proof (linked_conforms _ _ _ _ _ _ _ Hl) as Hconf. split; [done|].
  pose proof (wp_handle (Answer r) _ _ (lo_safe _ Hok) Hc Hconf) as Hwp.
  apply wp_Ok in Hwp as ([] & e' & He' & Hs). by exists e'.
Qed.

Lemma safe_set_orders q e bks : engine_safe e bks → engine_safe (te_set_orders (order_manager_ e, q) e) bks.
Proof. by intros []; constructor. Qed.

Lemma loop_ok_step W W' : 0 < ME_MAX_NUM_CLIENTS → loop_ok W → loop_step W W' → loop_ok W'.
Proof.
  intros Hc Hok Hstep. pose proof Hok as [Hsafe Hcl Htk Hroom (own & qs & Hq & Hl)].
  destruct Hstep as [now u e' Ht Hev Hids Hh|r rs e' Hr Hh|req q Hpop|req reqs Hreq Hids y|req Hreq y].
  - destruct (update_ok W now u Hc Hok Hev) as (e1 & He1 & Hs1). assert (e1 = e') as -> by congruence.
    destruct (update_moves now u _ e' _ Hsafe Hc Ht Hev Hh) as (Hcl' & reqs & Hlen & Hms & Hsent).
    rewrite Hcl in Hms. cbn [fst snd] in Hms, Hsent.
    destruct (linked_moves c own _ reqs _ _ _ _ Hms ltac:(unfold ids_left in Hids; lia) Hl) as (own' & Hl').
    rewrite <- app_assoc in Hl'. pose proof (linked_few _ _ _ _ _ _ Hl') as Hfew. rewrite Htk, length_app in Hfew.
    rewrite sends_push_all in Hsent. rewrite length_app in Hfew.
    pose proof (holds_push_all _ qs reqs Hq ltac:(lia)) as Hq'.
    pose proof (capacity_push_all reqs (outgoing_ogw_requests_ (w_engine W))) as Hcap.
    constructor; cbn [w_engine w_market w_requests w_answers w_exchange]; [done|congruence|done|by rewrite Hsent, Hcap|].
    exists own', (qs ++ reqs). by rewrite Hsent.
  - destruct (answer_ok_next W r rs Hc Hok Hr) as (_ & e1 & He1 & Hs1). assert (e1 = e') as -> by congruence.
    destruct (answer_order r _ e' (es_algo _ _ Hsafe) Hh) as [Hcl' Hu]. rewrite Hr in Hl.
    destruct (linked_answer c own _ _ _ r rs _ _ _ Hl Hu) as [Hl' Hq'].
    constructor; cbn [w_engine w_market w_requests w_answers w_exchange]; [done|congruence|done|by rewrite Hq'|].
    exists own, qs. by rewrite Hq'.
  - destruct qs as [|req' qs]; [by rewrite (holds_pop_nil _ Hq) in Hpop|].
    destruct (holds_pop_cons _ _ _ Hq) as (q' & Hpop' & Hq' & Hcap). assert (req' = req ∧ q' = q) as [-> ->] by (split; congruence).
    constructor; cbn [w_engine w_market w_requests w_answers w_exchange]; [by apply safe_set_orders|done|done| |].
    + cbn [te_set_orders outgoing_ogw_requests_ snd]. by rewrite Hcap.
    + exists own, qs. split; [done|]. rewrite <- app_assoc. exact Hl.
  - destruct Hids as (bk & Hbk & Hn). rewrite Hreq in Hl.
    pose proof (linked_exchange c own _ _ _ _ _ bk Hl Hbk Hn) as Hl'.
    constructor; cbn [w_engine w_market w_requests w_answers w_exchange]; try done.
    + unfold y, spec_step. rewrite Hbk. cbn [fst]. by rewrite length_insert.
    + by exists own, qs.
  - pose proof (linked_other c own _ _ _ _ req Hl Hreq) as Hl'.
    constructor; cbn [w_engine w_market w_requests w_answers w_exchange]; try done.
    + destruct Hreq as (bk & _ & Hbk & _). unfold y, spec_step. rewrite Hbk. cbn [fst]. by rewrite length_insert.
    + by exists own, qs.
Qed.

Lemma loop_ok_steps W W' : 0 < ME_MAX_NUM_CLIENTS → rtc loop_step W W' → loop_ok W → loop_ok W'.
Proof. intros Hc. induction 1; [done|]. intros Hok. by eauto using loop_ok_step. Qed.

(** What the invariant says. *)
Lemma loop_ok_facts W :
  0 < ME_MAX_NUM_CLIENTS → loop_ok W →
  exposures_kept (w_engine W) ∧
  (∀ r rs, w_answers W = r :: rs → conforms (order_manager_ (w_engine W)) r ∧
     ∃ e', te_handle (Answer r) (w_engine W) = Ok (tt, e')) ∧
  (∀ now u, event_ok (Update now u) (w_engine W) (w_market W) → ∃ e', te_handle (Update now u) (w_engine W) = Ok (tt, e')) ∧
  ∃ qs, holds (outgoing_ogw_requests_ (w_engine W)) qs ∧
    (length (w_requests W) + length qs ≤ 4 * Z.to_nat ME_MAX_TICKERS)%nat.
Proof.
  intros Hc Hok. split_and!.
  - eapply safe_exposures. apply (lo_safe _ Hok).
  - intros r rs Hr. destruct (answer_ok_next W r rs Hc Hok Hr) as (? & e' & ? & _). split; [done|by exists e'].
  - intros now u Hev. destruct (update_ok W now u Hc Hok Hev) as (e' & ? & _). by exists e'.
  - destruct (lo_linked _ Hok) as (own & qs & Hqs & Hlk). exists qs. split; [done|].
    pose proof (linked_few _ _ _ _ _ _ Hlk) as Hfew. by rewrite length_app, (lo_tickers _ Hok) in Hfew.
Qed.

(** ** The beginning *)
Definition loop_start (algo_type : AlgoType) (ticker_cfg : list TradeEngineCfg) (requests : LFQueue MEClientRequest)
    (responses : LFQueue MEClientResponse) (updates : LFQueue MEMarketUpdate) (garbage : nat → list double) : World :=
  mkWorld (TradeEngine_new c algo_type ticker_cfg requests responses updates garbage) empty_books [] []
    (replicate (Z.to_nat ME_MAX_TICKERS) empty_book).

Lemma loop_ok_start algo_type ticker_cfg requests responses updates garbage :
  algo_type = AlgoType_MAKER ∨ algo_type = AlgoType_TAKER → configured ticker_cfg garbage →
  0 < ME_MAX_PRICE_LEVELS → 0 < ME_MAX_ORDER_IDS →
  holds requests [] → (4 * Z.to_nat ME_MAX_TICKERS ≤ capacity requests)%nat →
  loop_ok (loop_start algo_type ticker_cfg requests responses updates garbage).
Proof.
  intros Ha Hcfg Hl Ho Hq Hcap. constructor; cbn [loop_start w_engine w_market w_requests w_answers w_exchange];
    [by apply new_engine_safe|done|by rewrite length_replicate|done|].
  exists (λ _, (0, Side_INVALID)), []. split; [done|].
  cbn [TradeEngine_new order_manager_]. constructor; [unfold OrderManager_new|..].
  - split; cbn [ticker_side_order_]; [by rewrite !length_replicate|]. apply Forall_forall.
    intros l [-> _]%elem_of_replicate. by rewrite length_replicate.
  - cbn. lia.
  - apply Forall_forall. intros bk [-> _]%elem_of_replicate. split; [apply wf_empty_book|]. intros x Hx.
    by apply not_elem_of_nil in Hx.
  - constructor.
  - constructor.
  - intros t s o bk Ht Hs Hlk Hbk. apply lookup_replicate in Hbk as [-> _].
    assert (o = OMOrder_default) as ->.
    { unfold om_lookup, OrderManager_new in Hlk. cbn [fst snd ticker_side_order_] in Hlk.
      destruct (replicate _ _ !! _) as [l|] eqn:E; [|done]. apply lookup_replicate in E as [-> _].
      cbn [mbind option_bind] in Hlk. by apply lookup_replicate in Hlk as [-> _]. }
    assert (mine_on c s empty_book = []) as -> by (by destruct Hs as [->| ->]).
    constructor; [done|constructor|intros [?|[? _]]; done|]. eexists. split; [done|]. apply synced_idle. by left.
Qed.

(** A trade engine connected to the exchange by channels that keep the order of the
    messages, on an exchange where others send requests that its books admit: in every state that the two can
    reach, the positions and what they would be with the open orders executed are within the limits,
    the next answer of the exchange is one that the order manager waits for and is handled without a
    fault, so is every market update that fits the engine's books, and the requests on their way are
    at most four per ticker, so that the queue to the gateway never overflows.  No conformance of
    the exchange is assumed. *)
Theorem closed_loop_limits algo_type ticker_cfg requests responses updates garbage W :
  algo_type = AlgoType_MAKER ∨ algo_type = AlgoType_TAKER → configured ticker_cfg garbage →
  0 < ME_MAX_PRICE_LEVELS → 0 < ME_MAX_ORDER_IDS → 0 < ME_MAX_NUM_CLIENTS →
  holds requests [] → (4 * Z.to_nat ME_MAX_TICKERS ≤ capacity requests)%nat →
  rtc loop_step (loop_start algo_type ticker_cfg requests responses updates garbage) W →
  exposures_kept (w_engine W) ∧
  (∀ r rs, w_answers W = r :: rs → conforms (order_manager_ (w_engine W)) r ∧
     ∃ e', te_handle (Answer r) (w_engine W) = Ok (tt, e')) ∧
  (∀ now u, event_ok (Update now u) (w_engine W) (w_market W) → ∃ e', te_handle (Update now u) (w_engine W) = Ok (tt, e')) ∧
  ∃ qs, holds (outgoing_ogw_requests_ (w_engine W)) qs ∧
    (length (w_requests W) + length qs ≤ 4 * Z.to_nat ME_MAX_TICKERS)%nat.
Proof.
  intros Ha Hcfg Hl Ho Hc Hq Hcap Hsteps. apply loop_ok_facts; [done|].
  exact (loop_ok_steps _ _ Hc Hsteps (loop_ok_start _ _ _ _ _ _ Ha Hcfg Hl Ho Hq Hcap)).
Qed.
End ClosedLoop.
