(* ===== verification/ClosedMarket.v ===== *)
(** * The closed loop with the exchange's own market data

    The loop of ClosedLoop.v where the market updates that the client reads are the ones that the
    exchange publishes, in order and without loss.  Every step is one of ClosedLoop.v, whose
    assumption on the updates becomes a part of the invariant. *)
From S2P Require Import Prelude Types MemPool LFQueue CircList EngineSink BookSpec BookSweep BookInv.
From S2P Require Import MEOrderBook BookRep BookRefine BookTheorems BookReplay MatchingEngine.
From S2P Require Import ClientView ClientRequests ClientLink MarketOrderBook MarketBookSim MarketBookSpec.
From S2P Require Import MarketBookTheorems MarketMirror TradingMirror Double PositionKeeper RiskManager OrderManager.
From S2P Require Import FeatureEngine Algorithms TradeEngine OrderSafety TradingSafety OrderTraffic OrderProtocol ClosedLoop.
Implicit Types (o : Order) (s : Side) (bk : Book) (bks : list Book) (r : MEClientResponse) (rs : list MEClientResponse)
  (req : MEClientRequest) (reqs : list MEClientRequest) (u : MEMarketUpdate) (us : list MEMarketUpdate) (W : World).

(** ** Small books *)
Definition small_book bk : Prop :=
  (∀ p, p ∈ prices bk → Z.abs p < 2 ^ 30) ∧ Forall (λ o, is_u32 (s_qty o)) (book_orders bk).
Definition small_update u : Prop := upd_type_ u = MarketUpdateType_ADD → Z.abs (upd_price_ u) < 2 ^ 30.
Definition small_request req : Prop := req_type_ req = ClientRequestType_NEW → Z.abs (req_price_ req) < 2 ^ 30.

Lemma level_qty_u32 (os : list Order) : Forall (λ o, is_u32 (s_qty o)) os → is_u32 (level_qty os).
Proof.
  destruct os as [|o os]; [done|]. intros [Ho _]%Forall_cons. cbn.
  assert (∀ n, is_u32 n → is_u32 (foldl (λ q o, u32 (q + s_qty o)) n os)) as Hf; [|by apply Hf].
  induction os as [|y os IH]; intros n Hn; [done|]. apply IH, u32_range.
Qed.

Lemma small_best s bk :
  trading_side s → small_book bk →
  ((best_quote (sel s (levels bk))).1 ≠ Price_INVALID → Z.abs (best_quote (sel s (levels bk))).1 < 2 ^ 30) ∧
  is_u32 (best_quote (sel s (levels bk))).2.
Proof.
  intros Hs [Hp Ho]. destruct (sel s (levels bk)) as [|[p os] ls] eqn:E; cbn; [done|]. split.
  - intros _. apply Hp. rewrite (prices_side s) by done. rewrite E. set_solver.
  - apply level_qty_u32. rewrite Forall_forall in Ho |- *. intros o Hin. apply Ho.
    apply (book_orders_side s); [done|left]. rewrite E, flat_cons. set_solver.
Qed.

Lemma small_quote bk : small_book bk → quote_small (quote bk).
Proof.
  intros Hs. destruct (small_best Side_BUY bk) as [? ?]; [by left|done|].
  destruct (small_best Side_SELL bk) as [? ?]; [by right|done|]. by split_and!.
Qed.

Lemma prices_set_qty oid q ls : (set_qty_in oid q ls).*1 = ls.*1.
Proof. unfold set_qty_in. by rewrite <- list_fmap_compose. Qed.

Lemma small_spec_md `{Limits} u bk : small_book bk → md_ok u bk → small_update u → small_book (spec_md u bk).
Proof.
  intros [Hp Ho] Hmd Hu. pose proof (spec_md_orders bk u Hmd) as Hos. unfold md_ok in Hmd. unfold small_update in Hu.
  destruct (upd_type_ u) eqn:Ht; try (split; [unfold spec_md; rewrite Ht; exact Hp|by rewrite Hos]).
  - destruct Hmd as (Hs & Hq & _). split.
    + intros p. unfold spec_md. rewrite Ht. rewrite (prices_side _ _ Hs). cbn [levels]. rewrite sel_upd, sel_opp_upd by done.
      intros [[->|Hin]%insert_order_prices|Hin]%elem_of_app; [by apply Hu|..]; apply Hp; rewrite (prices_side _ _ Hs); set_solver.
    + rewrite Hos. by constructor.
  - destruct Hmd as (Hq & _). split.
    + intros p. unfold spec_md, prices. rewrite Ht. cbn [levels fst snd]. rewrite !prices_set_qty. apply Hp.
    + rewrite Hos. apply Forall_fmap. eapply Forall_impl; [exact Ho|]. intros o Hqo. cbn. unfold requantify. by case_decide.
  - split.
    + intros p. unfold spec_md, prices. rewrite Ht. cbn [levels fst snd].
      intros [Hin%delete_order_prices|Hin%delete_order_prices]%elem_of_app; apply Hp; unfold prices; set_solver.
    + rewrite Hos. apply Forall_forall. intros o [_ Hin]%list_elem_of_filter. rewrite Forall_forall in Ho. by apply Ho.
Qed.

(** What a request publishes. *)
Definition small_event (ev : event) : Prop := match ev with EngineSink.Update u => small_update u | Response _ => True end.

Lemma request_small req bk : small_request req → Forall small_event (spec_request req bk).2.
Proof.
  intros Hr. unfold spec_request. unfold small_request in Hr. destruct (req_type_ req); [constructor| |].
  - unfold spec_add. set (a := mkAggressor _ _ _ _ _ _).
    assert (Forall small_event (sweep a (req_qty_ req) (sel (opp (req_side_ req)) (levels bk))).1.1) as Hs.
    { apply (sweep_events _ (λ _, True)); [|by apply Forall_forall]. intros l o _. cbn.
      repeat constructor; cbn; try done. unfold small_update. by destruct (_ =? 0). }
    destruct (sweep a _ _) as [[evs l] ls]. cbn [fst] in Hs. destruct (l =? 0); cbn [snd]; constructor; try done.
    apply Forall_app. split; [done|]. constructor; [|done]. cbn. unfold small_update. cbn. intros _. by apply Hr.
  - unfold spec_cancel. destruct (find_order _ _ _); repeat constructor; done.
Qed.

Lemma updates_Forall (P : event → Prop) (Q : MEMarketUpdate → Prop) evs :
  (∀ u, P (EngineSink.Update u) → Q u) → Forall P evs → Forall Q (updates evs).
Proof.
  intros HPQ. induction 1 as [|[r|u] evs Hev Hevs IH]; [constructor|exact IH|].
  change (updates (EngineSink.Update u :: evs)) with (u :: updates evs). constructor; [by apply HPQ|done].
Qed.

(** ** The world with market data *)
Record MarketWorld := mkMarketWorld {
  mw_world : World;
  mw_updates : list MEMarketUpdate     (** published and not yet read by the trade engine *)
}.

Section ClosedMarket.
Context `{Limits} (c : Z).
Implicit Types (V : MarketWorld).

(** What the exchange is asked: prices with room for the products of the feature engine, and orders
    that both ends have room for. *)
Definition market_request req bks : Prop :=
  small_request req ∧ ∃ bk, bks !! Z.to_nat (req_ticker_id_ req) = Some bk ∧ mirror_room req bk.

Inductive market_step V : MarketWorld → Prop :=
  | market_update now u us e' :
      mw_updates V = u :: us → ids_left (w_engine (mw_world V)) →
      te_handle (Update now u) (w_engine (mw_world V)) = Ok (tt, e') →
      let W := mw_world V in
      market_step V (mkMarketWorld
        (mkWorld e' (books_after (Update now u) (w_market W)) (w_requests W) (w_answers W) (w_exchange W)) us)
  | market_answer r rs e' :
      w_answers (mw_world V) = r :: rs → te_handle (Answer r) (w_engine (mw_world V)) = Ok (tt, e') →
      let W := mw_world V in
      market_step V (mkMarketWorld (mkWorld e' (w_market W) (w_requests W) rs (w_exchange W)) (mw_updates V))
  | market_gateway req q :
      pop (outgoing_ogw_requests_ (w_engine (mw_world V))) = Ok (Some (req, q)) →
      let W := mw_world V in
      market_step V (mkMarketWorld
        (mkWorld (te_set_orders (order_manager_ (w_engine W), q) (w_engine W)) (w_market W)
           (w_requests W ++ [req]) (w_answers W) (w_exchange W)) (mw_updates V))
  | market_exchange req reqs :
      w_requests (mw_world V) = req :: reqs → book_ids_left req (w_exchange (mw_world V)) →
      market_request req (w_exchange (mw_world V)) →
      let W := mw_world V in
      let y := spec_step req (w_exchange W) in
      market_step V (mkMarketWorld (mkWorld (w_engine W) (w_market W) reqs (w_answers W ++ sent_to c y.2) y.1)
                       (mw_updates V ++ updates y.2))
  | market_others req :
      other_request c req (w_exchange (mw_world V)) → market_request req (w_exchange (mw_world V)) →
      let W := mw_world V in
      let y := spec_step req (w_exchange W) in
      market_step V (mkMarketWorld (mkWorld (w_engine W) (w_market W) (w_requests W) (w_answers W ++ sent_to c y.2) y.1)
                       (mw_updates V ++ updates y.2)).

(** ** The invariant *)

(** The updates on their way lead from each of the client's books to the image of the exchange's. *)
Record market_ok V : Prop := {
  mo_loop : loop_ok c (mw_world V);
  mo_length : length (w_market (mw_world V)) = length (w_exchange (mw_world V));
  mo_small : Forall small_book (w_market (mw_world V));
  mo_updates : Forall (λ u, 0 ≤ upd_ticker_id_ u ∧ (Z.to_nat (upd_ticker_id_ u) < length (w_exchange (mw_world V)))%nat ∧
                            small_update u) (mw_updates V);
  mo_leads : ∀ t bkm bke, w_market (mw_world V) !! t = Some bkm → w_exchange (mw_world V) !! t = Some bke →
    md_leads (of_book t (mw_updates V)) bkm (mirror bke)
}.

Lemma of_book_cons_same t u us : upd_ticker_id_ u = Z.of_nat t → of_book t (u :: us) = u :: of_book t us.
Proof. intros E. unfold of_book. by rewrite filter_cons_True. Qed.
Lemma of_book_cons_other t u us : upd_ticker_id_ u ≠ Z.of_nat t → of_book t (u :: us) = of_book t us.
Proof. intros E. unfold of_book. by rewrite filter_cons_False. Qed.

(** The next update fits the book of its ticker. *)
Lemma next_update_ok V now u us :
  market_ok V → mw_updates V = u :: us →
  0 ≤ upd_ticker_id_ u ∧ event_ok (Update now u) (w_engine (mw_world V)) (w_market (mw_world V)).
Proof.
  intros [Hl Hlen Hsm Hu Hld] E. rewrite E in Hu, Hld. apply Forall_cons in Hu as [(Ht & Hlt & Hsu) _]. split; [done|].
  destruct (lookup_lt_is_Some_2 _ _ Hlt) as [bke Hbke].
  destruct (lookup_lt_is_Some_2 (w_market (mw_world V)) (Z.to_nat (upd_ticker_id_ u))) as [bkm Hbkm]; [lia|].
  destruct (Hld _ _ _ Hbkm Hbke) as [Hfit _]. rewrite of_book_cons_same in Hfit by lia. destruct Hfit as [Hmd _].
  exists bkm. split_and!; [done|done|]. apply small_quote, small_spec_md; [|done|done].
  exact (Forall_lookup_1 _ _ _ _ Hsm Hbkm).
Qed.

(** Every step is a step of the closed loop. *)
Lemma market_step_loop V V' : market_ok V → market_step V V' → loop_step c (mw_world V) (mw_world V').
Proof.
  intros Hok Hstep. destruct Hstep as [now u us e' E Hids Hh W|r rs e' Hr Hh W|req q Hpop W|req reqs Hr Hids Hm W y|req Ho Hm W y].
  - destruct (next_update_ok V now u us Hok E) as [Ht He]. by apply step_update.
  - by eapply step_answer.
  - by apply step_gateway.
  - by apply (step_exchange c _ req).
  - by apply (step_others c _ req).
Qed.

(** What a request does to the updates on their way. *)
Lemma exchange_leads us (bksm : list Book) bks req t bkm bke :
  Forall wf_book bks → 0 ≤ req_ticker_id_ req → market_request req bks →
  (∀ t bkm bke, bksm !! t = Some bkm → bks !! t = Some bke → md_leads (of_book t us) bkm (mirror bke)) →
  bksm !! t = Some bkm → (spec_step req bks).1 !! t = Some bke →
  md_leads (of_book t (us ++ updates (spec_step req bks).2)) bkm (mirror bke).
Proof.
  intros Hwf Ht (_ & bk & Hbk & Hroom) Hld Hm. unfold spec_step. rewrite Hbk. cbn [fst snd]. intros He.
  unfold of_book. rewrite filter_app. fold (of_book t us) (of_book t (updates (spec_request req bk).2)).
  pose proof (spec_request_ticker req bk) as Htk. rewrite of_book_updates.
  destruct (decide (Z.to_nat (req_ticker_id_ req) = t)) as [<-|Hne].
  - rewrite list_lookup_insert_eq in He by (by eapply lookup_lt_Some). injection He as <-.
    rewrite Z2Nat.id, filter_about_same by done.
    eapply md_leads_app; [by eapply Hld|]. apply request_mirror; [|done]. exact (Forall_lookup_1 _ _ _ _ Hwf Hbk).
  - rewrite list_lookup_insert_ne in He by done. rewrite (filter_about_other _ (req_ticker_id_ req)) by (done || lia).
    cbn. rewrite app_nil_r. by eapply Hld.
Qed.

Lemma exchange_updates us bks req :
  0 ≤ req_ticker_id_ req → market_request req bks →
  Forall (λ u, 0 ≤ upd_ticker_id_ u ∧ (Z.to_nat (upd_ticker_id_ u) < length bks)%nat ∧ small_update u) us →
  Forall (λ u, 0 ≤ upd_ticker_id_ u ∧ (Z.to_nat (upd_ticker_id_ u) < length (spec_step req bks).1)%nat ∧ small_update u)
    (us ++ updates (spec_step req bks).2) ∧ length (spec_step req bks).1 = length bks.
Proof.
  intros Ht (Hsm & bk & Hbk & _) Hus. unfold spec_step. rewrite Hbk. cbn [fst snd]. rewrite length_insert. split; [|done].
  apply Forall_app. split; [done|]. apply (updates_Forall (λ ev, of_ticker (req_ticker_id_ req) ev ∧ small_event ev)).
  - intros u [Ho Hs]. cbn in Ho, Hs. rewrite Ho. split_and!; [done|by eapply lookup_lt_Some|done].
  - apply Forall_and. split; [apply spec_request_ticker|by apply request_small].
Qed.

Lemma loop_wf W : loop_ok c W → Forall wf_book (w_exchange W).
Proof.
  intros Hl. destruct (lo_linked _ _ Hl) as (own & qs & _ & Hlk). eapply Forall_impl; [apply (lk_books _ _ _ _ _ _ Hlk)|].
  by intros bk [? _].
Qed.

Lemma market_ok_step V V' : 0 < ME_MAX_NUM_CLIENTS → market_ok V → market_step V V' → market_ok V'.
Proof.
  intros Hc Hok Hstep. pose proof (loop_ok_step c _ _ Hc (mo_loop _ Hok) (market_step_loop _ _ Hok Hstep)) as Hl'.
  pose proof Hok as [Hl Hlen Hsm Hu Hld]. pose proof (loop_wf _ Hl) as Hwf.
  destruct Hstep as [now u us e' E Hids Hh W|r rs e' Hr Hh W|req q Hpop W|req reqs Hr Hids Hm W y|req Ho Hm W y].
  - destruct (next_update_ok V now u us Hok E) as [Ht (bk & Hbk & Hmd & _)]. rewrite E in Hu, Hld.
    apply Forall_cons in Hu as [(_ & Hlt & Hsu) Hu].
    constructor; cbn [mw_world mw_updates w_market w_exchange books_after]; [done|by rewrite length_alter| |done|].
    + rewrite <- (list_insert_alter_eq _ _ bk) by done. apply Forall_insert; [done|].
      apply small_spec_md; [|done|done]. exact (Forall_lookup_1 _ _ _ _ Hsm Hbk).
    + intros t bkm bke Hbm Hbe. destruct (decide (Z.to_nat (upd_ticker_id_ u) = t)) as [<-|Hne].
      * rewrite list_lookup_alter_eq in Hbm. unfold W in Hbm. rewrite Hbk in Hbm. injection Hbm as <-.
        destruct (Hld _ _ _ Hbk Hbe) as [Hf Ha]. rewrite of_book_cons_same in Hf, Ha by lia. split; [apply Hf|exact Ha].
      * rewrite list_lookup_alter_ne in Hbm by done. pose proof (Hld _ _ _ Hbm Hbe) as Hx.
        by rewrite of_book_cons_other in Hx by lia.
  - by constructor.
  - by constructor.
  - assert (0 ≤ req_ticker_id_ req) as Ht.
    { destruct (lo_linked _ _ Hl) as (own & qs & _ & Hlk). pose proof (lk_requests _ _ _ _ _ _ Hlk) as Hrq.
      rewrite Hr in Hrq. apply Forall_cons in Hrq as [[? _] _]. done. }
    destruct (exchange_updates _ _ _ Ht Hm Hu) as [Hu' Hlen'].
    constructor; cbn [mw_world mw_updates w_market w_exchange]; [done|unfold y, W; by rewrite Hlen'|done|done|].
    intros t bkm bke Hbm Hbe. by eapply exchange_leads.
  - assert (0 ≤ req_ticker_id_ req) as Ht by by destruct Ho as (bk & ? & _).
    destruct (exchange_updates _ _ _ Ht Hm Hu) as [Hu' Hlen'].
    constructor; cbn [mw_world mw_updates w_market w_exchange]; [done|unfold y, W; by rewrite Hlen'|done|done|].
    intros t bkm bke Hbm Hbe. by eapply exchange_leads.
Qed.

Lemma market_ok_steps V V' : 0 < ME_MAX_NUM_CLIENTS → rtc market_step V V' → market_ok V → market_ok V'.
Proof. intros Hc. induction 1; [done|]. intros Hok. by eauto using market_ok_step. Qed.

(** ** The beginning *)
Definition market_start (algo_type : AlgoType) (ticker_cfg : list TradeEngineCfg) (requests : LFQueue MEClientRequest)
    (responses : LFQueue MEClientResponse) (updates : LFQueue MEMarketUpdate) (garbage : nat → list double) : MarketWorld :=
  mkMarketWorld (loop_start c algo_type ticker_cfg requests responses updates garbage) [].

Lemma market_ok_start algo_type ticker_cfg requests responses updates garbage :
  loop_ok c (loop_start c algo_type ticker_cfg requests responses updates garbage) →
  market_ok (market_start algo_type ticker_cfg requests responses updates garbage).
Proof.
  intros Hl. constructor; cbn [market_start mw_world mw_updates loop_start w_market w_exchange]; [done| | |done|].
  - unfold empty_books. by rewrite !length_replicate.
  - apply Forall_forall. intros bk [-> _]%elem_of_replicate. split; [intros p Hp; by apply not_elem_of_nil in Hp|constructor].
  - intros t bkm bke [-> _]%lookup_replicate [-> _]%lookup_replicate. apply md_leads_nil.
Qed.

(** C6: the closed loop.  A trade engine, the exchange that it trades on, and the requests, answers and
    market data on their way between them in order.  Other participants send any requests that the books admit:
    a NEW for a known ticker, with BUY or SELL and an order id that its owner has not got live, or a CANCEL; the
    requests of all that the exchange handles have prices below 2^30 in absolute value, no order at another price in the slot of
    theirs, and room in the tables of both ends for the orders and their ids; and 64-bit ids last.  In
    every state that they can then reach: the positions, and what they would be with the open orders
    executed, are within the limits; the next answer is one that the order manager waits for, and
    it and the next market update are handled without a fault; at most four requests per ticker
    are on their way, so that the queue to the gateway never overflows; and each of the client's books for
    which no update is on its way is the image of the exchange's book, with the exchange's best prices and
    quantities as its best bid and offer.  Nothing is assumed of the answers or the market data, which are the exchange's. *)
Theorem closed_loop_exchange algo_type ticker_cfg requests responses updates garbage V :
  algo_type = AlgoType_MAKER ∨ algo_type = AlgoType_TAKER → configured ticker_cfg garbage →
  0 < ME_MAX_PRICE_LEVELS → 0 < ME_MAX_ORDER_IDS → 0 < ME_MAX_NUM_CLIENTS →
  holds requests [] → (4 * Z.to_nat ME_MAX_TICKERS ≤ capacity requests)%nat →
  rtc market_step (market_start algo_type ticker_cfg requests responses updates garbage) V →
  let W := mw_world V in
  exposures_kept (w_engine W) ∧
  (∀ r rs, w_answers W = r :: rs → conforms (order_manager_ (w_engine W)) r ∧
     ∃ e', te_handle (Answer r) (w_engine W) = Ok (tt, e')) ∧
  (∀ now u us, mw_updates V = u :: us → ∃ e', te_handle (Update now u) (w_engine W) = Ok (tt, e')) ∧
  (∃ qs, holds (outgoing_ogw_requests_ (w_engine W)) qs ∧
     (length (w_requests W) + length qs ≤ 4 * Z.to_nat ME_MAX_TICKERS)%nat) ∧
  (∀ t b bk, te_ticker_order_book_ (w_engine W) !! t = Some b → w_exchange W !! t = Some bk →
     of_book t (mw_updates V) = [] → implements (matching b) (mirror bk) ∧ bbo_ b = quote bk).
Proof.
  intros Ha Hcfg Hl Ho Hc Hq Hcap Hsteps W.
  pose proof (market_ok_steps _ _ Hc Hsteps (market_ok_start _ _ _ _ _ _ (loop_ok_start c _ _ _ _ _ _ Ha Hcfg Hl Ho Hq Hcap))) as Hok.
  destruct (loop_ok_facts c _ Hc (mo_loop _ Hok)) as (F1 & F2 & F3 & F4). split_and!; [done|done| |done|].
  - intros now u us E. apply F3. by eapply next_update_ok.
  - intros t b bk Hb Hbk Hnil. destruct (Forall2_lookup_l _ _ _ _ _ (es_books _ _ (lo_safe _ _ (mo_loop _ Hok))) Hb)
      as (bkm & Hbkm & Himp & Hbbo).
    destruct (mo_leads _ Hok t bkm bk Hbkm Hbk) as [_ Hlead]. rewrite Hnil in Hlead. cbn in Hlead. subst bkm.
    split; [done|]. by rewrite Hbbo, mirror_quote.
Qed.
End ClosedMarket.
