(* ===== verification/MarketPipeline.v ===== *)
(** * From the matching engine to the trading algorithm

    The threads that the market data passes on its way, on a network that loses nothing: the matching
    engine handles its queue, the publisher sends what the engine has queued, the consumer's socket receives
    the datagram, and the trade engine handles what the consumer has queued.  Whatever requests the
    engine handles, every component ends the round in step with the others. *)
From S2P Require Import Prelude Types LFQueue EngineSink BookSpec BookSweep BookInv BookReplay MEOrderBook BookRep.
From S2P Require Import BookRefine BookTheorems MatchingEngine Wire Socket BookTypes RecvFrames MarketStream SnapshotSynthesizer.
From S2P Require Import MarketDataPublisher MarketDataConsumer MarketOrderBook MarketBookSim MarketBookSpec MarketBookTheorems.
From S2P Require Import MarketMirror TradingMirror Double PositionKeeper RiskManager OrderManager FeatureEngine Algorithms.
From S2P Require Import TradeEngine OrderSafety TradingSafety TradingLoop OrderTraffic ClosedMarket.

Implicit Types (bk : Book) (bks : list Book) (reqs : list MEClientRequest) (u : MEMarketUpdate) (us : list MEMarketUpdate)
  (p : MarketDataPublisher) (c : MarketDataConsumer) (e : TradeEngine) (clock : nat → Z) (t : nat).

(** ** The datagram *)
Section datagram.
Context `{BufferSizes}.

(** The datagrams that the network delivers, one for each call. *)
Fixpoint receive_all (ds : list (list Z)) (kernel_time : Z) c : result MarketDataConsumer :=
  match ds with
  | [] => Ok c
  | d :: ds => c ← poll_stream IncrementalSocket (RecvData d kernel_time) c; receive_all ds kernel_time c
  end.

(** The consumer waits for the update number [n] and has nothing half received. *)
Record consumer_ready (n : Z) c : Prop := {
  cr_recovery : in_recovery_ c = false;
  cr_next : next_exp_inc_seq_num_ c = n;
  cr_sockets : mc_socket_fd_ (incremental_mcast_socket_ c) ≠ mc_socket_fd_ (snapshot_mcast_socket_ c);
  cr_inbound : mc_inbound_data_ (incremental_mcast_socket_ c) = []
}.

Lemma receive_in_sequence n us (kernel_time : Z) c :
  consumer_ready n c → is_u64 n → holds (MarketDataConsumer.incoming_md_updates_ c) [] →
  (length us ≤ capacity (MarketDataConsumer.incoming_md_updates_ c))%nat →
  Forall in_range us → (42 * length us ≤ McastBufferSize)%nat →
  ∃ c', receive_all (match us with [] => [] | _ => [stream (numbered mkMDPMarketUpdate n us)] end) kernel_time c = Ok c' ∧
    consumer_ready (advance n us) c' ∧ holds (MarketDataConsumer.incoming_md_updates_ c') us.
Proof.
  intros [Hr Hn Hfd Hin] Hu64 Hq Hroom Hus Hbuf. destruct us as [|u0 us0]; [by exists c|].
  set (us := u0 :: us0) in *. subst n. set (ms := numbered mkMDPMarketUpdate (next_exp_inc_seq_num_ c) us).
  assert (length (stream ms) = (42 * length us)%nat) as Hlen.
  { rewrite length_stream. unfold ms. rewrite length_numbered. cbn [wire_size wire_mdp_update]. lia. }
  assert (0 < length us)%nat as Hpos by (cbn; lia). clearbody us.
  cbn [receive_all]. unfold poll_stream, mcast_sendAndRecv. cbn [socket_of]. rewrite Hin. cbn [length app].
  rewrite take_ge by lia. rewrite (proj2 (Nat.ltb_lt _ _)) by lia.
  unfold mdc_recvCallback. cbn [set_socket_of socket_of set_inc_socket incremental_mcast_socket_ snapshot_mcast_socket_
    mc_socket_fd_ mc_inbound_data_].
  rewrite (proj2 (Z.eqb_neq _ _) Hfd). cbn [andb].
  rewrite (proj2 (Nat.leb_le _ _)) by (cbn [wire_size wire_mdp_update]; lia).
  rewrite <- (app_nil_r (stream ms)), frames_stream; [|by apply (numbered_in_range mkMDPMarketUpdate)|cbn; lia].
  set (c1 := set_inc_socket _ c).
  destruct (on_messages_in_sequence us c1 []) as (c2 & E & Hr2 & Hq2 & Hn2 & Hi2 & Hs2); [done|done|done|].
  change (next_exp_inc_seq_num_ c1) with (next_exp_inc_seq_num_ c) in E, Hn2. fold ms in E. rewrite E.
  cbn [mbind result_bind mret result_ret]. eexists. split; [reflexivity|]. split; [|exact Hq2].
  constructor; cbn; [done|done| |done]. rewrite Hi2, Hs2. done.
Qed.
End datagram.

(** ** The updates of a run *)
Section updates.
Context `{Limits}.

Definition small_about (n : nat) u : Prop :=
  0 ≤ upd_ticker_id_ u ∧ (Z.to_nat (upd_ticker_id_ u) < n)%nat ∧ small_update u.

Lemma steps_updates reqs bks :
  admissible_steps reqs bks → Forall (λ r, 0 ≤ req_ticker_id_ r) reqs → Forall small_request reqs →
  Forall (small_about (length bks)) (updates (spec_steps reqs bks).2) ∧ length (spec_steps reqs bks).1 = length bks.
Proof.
  revert bks. induction reqs as [|r reqs IH]; intros bks Ha Ht Hs; cbn [spec_steps fst snd]; [done|].
  destruct Ha as [(bk & Hbk & _) Ha]. apply Forall_cons in Ht as [Ht Hts]. apply Forall_cons in Hs as [Hs Hss].
  unfold spec_step in *. rewrite Hbk in *. cbn [fst snd] in *.
  destruct (IH _ Ha Hts Hss) as [Hu Hlen]. rewrite length_insert in Hu, Hlen. split; [|done].
  rewrite updates_app. apply Forall_app. split; [|done].
  apply (updates_Forall (λ ev, of_ticker (req_ticker_id_ r) ev ∧ small_event ev)).
  - intros u [Ho Hsm]. cbn in Ho, Hsm. unfold small_about. rewrite Ho. split_and!; [done|by eapply lookup_lt_Some|done].
  - apply Forall_and. split; [apply spec_request_ticker|by apply request_small].
Qed.

Lemma books_end_lookup us clock bks t :
  Forall (λ u, 0 ≤ upd_ticker_id_ u) us →
  books_end (updates_at clock us) bks !! t = (md_after (of_book t us)) <$> (bks !! t).
Proof.
  intros Hus. revert bks. induction Hus as [|u us Hu Hus IH]; intros bks; cbn [updates_at books_end].
  { by destruct (bks !! t). }
  rewrite IH. cbn [books_after]. destruct (decide (Z.to_nat (upd_ticker_id_ u) = t)) as [<-|Hne].
  - rewrite list_lookup_alter_eq, of_book_cons_same by lia. by destruct (bks !! _).
  - rewrite list_lookup_alter_ne, of_book_cons_other by (done || lia). done.
Qed.

(** What is left of the updates fits what the first one makes of the books. *)
Lemma fits_tail u us bks bk :
  (∀ t bk, bks !! t = Some bk → md_fits (of_book t (u :: us)) bk) →
  0 ≤ upd_ticker_id_ u → bks !! Z.to_nat (upd_ticker_id_ u) = Some bk →
  ∀ t bk', alter (spec_md u) (Z.to_nat (upd_ticker_id_ u)) bks !! t = Some bk' → md_fits (of_book t us) bk'.
Proof.
  intros Hfit Ht Hbk t bk' Hbk'. destruct (decide (Z.to_nat (upd_ticker_id_ u) = t)) as [<-|Hne].
  - rewrite list_lookup_alter_eq, Hbk in Hbk'. injection Hbk' as <-. pose proof (Hfit _ _ Hbk) as Hf.
    rewrite of_book_cons_same in Hf by lia. apply Hf.
  - rewrite list_lookup_alter_ne in Hbk' by done. pose proof (Hfit _ _ Hbk') as Hf.
    by rewrite of_book_cons_other in Hf by lia.
Qed.

(** Updates that fit the books fit the trade engine. *)
Lemma updates_session us clock e bks :
  Forall small_book bks → Forall (small_about (length bks)) us →
  (∀ t bk, bks !! t = Some bk → md_fits (of_book t us) bk) →
  session_ok (updates_at clock us) e bks ∧ Forall small_book (books_end (updates_at clock us) bks).
Proof.
  revert e bks. induction us as [|u us IH]; intros e bks Hsm Hus Hfit; cbn [updates_at session_ok books_end]; [done|].
  apply Forall_cons in Hus as [(Ht & Hlt & Hsu) Hus].
  destruct (lookup_lt_is_Some_2 _ _ Hlt) as [bk Hbk]. pose proof (Hfit _ _ Hbk) as Hf.
  rewrite of_book_cons_same in Hf by lia. destruct Hf as [Hmd _].
  pose proof (Forall_lookup_1 _ _ _ _ Hsm Hbk) as Hsbk. pose proof (small_spec_md u bk Hsbk Hmd Hsu) as Hsbk'.
  assert (∀ e', session_ok (updates_at clock us) e' (books_after (Update (clock (length us)) u) bks) ∧
    Forall small_book (books_end (updates_at clock us) (books_after (Update (clock (length us)) u) bks))) as Hrest.
  { intros e'. apply IH; cbn [books_after].
    - rewrite <- (list_insert_alter_eq _ _ bk) by done. by apply Forall_insert.
    - by rewrite length_alter.
    - by apply (fits_tail u us bks bk). }
  split; [split|by apply (Hrest e)].
  - exists bk. split_and!; [done|done|by apply small_quote].
  - intros e' _. by apply Hrest.
Qed.

(** What a run publishes leads from the images of the books to the images of the new books. *)
Lemma run_leads reqs bks clock e :
  0 < ME_MAX_NUM_CLIENTS → Forall wf_book bks → admissible_steps reqs bks →
  Forall (λ r, 0 ≤ req_ticker_id_ r) reqs → Forall small_request reqs →
  Forall (λ bk, next_id bk ≤ ME_MAX_ORDER_IDS) (spec_steps reqs bks).1 → Forall small_book (mirror <$> bks) →
  let us := updates (spec_steps reqs bks).2 in
  session_ok (updates_at clock us) e (mirror <$> bks) ∧
  books_end (updates_at clock us) (mirror <$> bks) = mirror <$> (spec_steps reqs bks).1 ∧
  Forall small_book (mirror <$> (spec_steps reqs bks).1).
Proof.
  intros Hc Hwf Ha Ht Hsr Hids Hsm us. destruct (steps_updates reqs bks Ha Ht Hsr) as [Hus Hlen]. fold us in Hus.
  assert (∀ t bk, bks !! t = Some bk → ∃ bk', (spec_steps reqs bks).1 !! t = Some bk' ∧
            md_leads (of_book t us) (mirror bk) (mirror bk')) as Hlead.
  { intros t bk Hbk. destruct (steps_mirror reqs bks t bk Hc Hwf Ha Ht Hbk) as (bk' & Hbk' & _ & Hm).
    exists bk'. split; [done|]. apply Hm. exact (Forall_lookup_1 _ _ _ _ Hids Hbk'). }
  destruct (updates_session us clock e (mirror <$> bks)) as [Hses Hsm']; [done|by rewrite length_fmap| |].
  { intros t bk. rewrite list_lookup_fmap. destruct (bks !! t) as [bk0|] eqn:E; [|done]. intros [= <-].
    by destruct (Hlead t bk0 E) as (bk' & _ & [Hf _]). }
  assert (books_end (updates_at clock us) (mirror <$> bks) = mirror <$> (spec_steps reqs bks).1) as Hend.
  { apply list_eq. intros t. rewrite books_end_lookup by (eapply Forall_impl; [exact Hus|]; by intros u [? _]).
    rewrite !list_lookup_fmap. destruct (bks !! t) as [bk|] eqn:E.
    - destruct (Hlead t bk E) as (bk' & -> & [_ Hl]). cbn. by rewrite Hl.
    - apply lookup_ge_None in E. assert ((spec_steps reqs bks).1 !! t = None) as -> by (apply lookup_ge_None; lia). done. }
  split_and!; [done|done|by rewrite <- Hend].
Qed.

(** ** The snapshot of the books *)
Definition view_of bks : view := book_map <$> bks.

Lemma mirror_map bk : book_map (mirror bk) = book_map bk.
Proof. unfold book_map, shown_map. rewrite mirror_orders, <- list_fmap_compose. done. Qed.

Lemma mirror_view bks : view_of (mirror <$> bks) = view_of bks.
Proof. unfold view_of. rewrite <- list_fmap_compose. apply list_fmap_ext. intros i bk _. apply mirror_map. Qed.

(** The engine never clears a book, and publishes no mark of a snapshot. *)
Definition keeps_orders (ev : event) : Prop :=
  match ev with EngineSink.Update u => upd_type_ u ≠ MarketUpdateType_CLEAR ∧ is_mark u = false | Response _ => True end.

Lemma request_keeps req bk : Forall keeps_orders (spec_request req bk).2.
Proof.
  unfold spec_request. destruct (req_type_ req); [constructor| |].
  - unfold spec_add. set (a := mkAggressor _ _ _ _ _ _).
    assert (Forall keeps_orders (sweep a (req_qty_ req) (sel (opp (req_side_ req)) (levels bk))).1.1) as Hs.
    { apply (sweep_events _ (λ _, True)); [|by apply Forall_forall]. intros l o _. cbn.
      repeat constructor; cbn; try done; by destruct (_ =? 0). }
    destruct (sweep a _ _) as [[evs l] ls]. cbn [fst] in Hs. destruct (l =? 0); cbn [snd]; constructor; try done.
    apply Forall_app. split; [done|]. by repeat constructor.
  - unfold spec_cancel. destruct (find_order _ _ _); repeat constructor; done.
Qed.

Lemma steps_keep reqs bks : Forall (λ u, upd_type_ u ≠ MarketUpdateType_CLEAR ∧ is_mark u = false) (updates (spec_steps reqs bks).2).
Proof.
  apply (updates_Forall keeps_orders); [done|]. revert bks. induction reqs as [|req reqs IH]; intros bks; [constructor|].
  cbn [spec_steps snd]. apply Forall_app. split; [|apply IH]. unfold spec_step. destruct (bks !! _); [apply request_keeps|constructor].
Qed.

(** The orders that the updates bring. *)
Definition adds us : nat := length (filter (λ u, upd_type_ u = MarketUpdateType_ADD) us).

Lemma adds_cons u us : adds (u :: us) = (adds [u] + adds us)%nat.
Proof. unfold adds. rewrite !filter_cons. by case_decide. Qed.

Lemma size_apply_update u (m : gmap Z Shown) : (size (apply_update u m) ≤ size m + adds [u])%nat.
Proof.
  unfold apply_update, adds. rewrite filter_cons. destruct (upd_type_ u); case_decide; try done; cbn [length filter list_filter]; try lia.
  - rewrite map_size_empty. lia.
  - rewrite map_size_insert. destruct (m !! _); unfold id; lia.
  - rewrite <- (size_dom (D := gset Z)), dom_alter_L, size_dom. lia.
  - rewrite map_size_delete. destruct (m !! _); unfold id; lia.
Qed.

(** An update that fits a trading book fits the snapshot of the books. *)
Lemma snap_ok_fits n u bks bk :
  0 ≤ upd_ticker_id_ u → 0 ≤ upd_order_id_ u → bks !! Z.to_nat (upd_ticker_id_ u) = Some bk → market_book bk → md_ok u bk →
  upd_type_ u ≠ MarketUpdateType_CLEAR → (live_count (view_of bks) + adds [u] < n)%nat → snap_ok n u (view_of bks).
Proof.
  intros Ht Hi Hbk Hmk Hmd Hnc Hroom. split; [done|]. exists (book_map bk). split; [unfold view_of; by rewrite list_lookup_fmap, Hbk|].
  unfold md_ok in Hmd. assert (∀ o, find_order 0 (upd_order_id_ u) bk = Some o → s_side o = upd_side_ u →
    ∃ x, book_map bk !! upd_order_id_ u = Some x ∧ sh_side x = upd_side_ u) as Hfind.
  { intros o [Ho Hk]%find_order_Some Hs. apply (has_key_moid bk) in Hk; [|done..]. exists (shown o). split; [|done].
    apply book_map_lookup; [apply Hmk|]. by exists o. }
  assert (upd_type_ u = MarketUpdateType_ADD → (S (live_count (view_of bks)) < n)%nat) as Hadd.
  { intros E. unfold adds in Hroom. rewrite filter_cons, decide_True in Hroom by done. cbn [length filter list_filter] in Hroom. lia. }
  destruct (upd_type_ u); try done.
  - specialize (Hadd eq_refl). destruct Hmd as (_ & _ & _ & (Hfresh & _ & _ & _ & Hid)). split_and!; [|done|lia|done].
    apply shown_map_fresh. intros (o & Hm & Ho)%list_elem_of_fmap. apply (Hfresh o Ho). by apply (has_key_moid bk).
  - destruct Hmd as (_ & o & Ho & Hs & _). by eapply Hfind.
  - destruct Hmd as (o & Ho & Hs & _). by eapply Hfind.
Qed.

(** Updates that fit the books, and room for the orders that they may add. *)
Lemma snap_oks_fits n us clock bks :
  Forall market_book bks → Forall in_range us → Forall (small_about (length bks)) us →
  Forall (λ u, upd_type_ u ≠ MarketUpdateType_CLEAR) us →
  (∀ t bk, bks !! t = Some bk → md_fits (of_book t us) bk) → (live_count (view_of bks) + adds us < n)%nat →
  snap_oks n us (view_of bks) ∧ apply_mds us (view_of bks) = view_of (books_end (updates_at clock us) bks).
Proof.
  revert bks. induction us as [|u us IH]; intros bks Hmk Hr Hus Hnc Hfit Hroom; cbn [snap_oks updates_at books_end]; [done|].
  apply Forall_cons in Hr as [(Hi & _) Hr]. apply Forall_cons in Hus as [(Ht & Hlt & _) Hus]. apply Forall_cons in Hnc as [Hc Hnc]. rewrite adds_cons in Hroom.
  destruct (lookup_lt_is_Some_2 _ _ Hlt) as [bk Hbk]. pose proof (Hfit _ _ Hbk) as Hf.
  rewrite of_book_cons_same in Hf by lia. destruct Hf as [Hmd _].
  pose proof (Forall_lookup_1 _ _ _ _ Hmk Hbk) as Hmbk. cbn beta in Hmbk.
  assert (apply_md u (view_of bks) = view_of (books_after (Update (clock (length us)) u) bks)) as Hap.
  { unfold apply_md, view_of. cbn [books_after]. apply list_eq. intros t.
    destruct (decide (t = Z.to_nat (upd_ticker_id_ u))) as [->|Hne].
    - rewrite list_lookup_alter_eq, !list_lookup_fmap, list_lookup_alter_eq, Hbk. cbn. f_equal. symmetry. by apply spec_md_view.
    - by rewrite list_lookup_alter_ne, !list_lookup_fmap, list_lookup_alter_ne by done. }
  assert (live_count (apply_md u (view_of bks)) ≤ live_count (view_of bks) + adds [u])%nat as Hlive.
  { unfold apply_md. pose proof (size_apply_update u (book_map bk)).
    assert (view_of bks !! Z.to_nat (upd_ticker_id_ u) = Some (book_map bk)) as Hv by (unfold view_of; by rewrite list_lookup_fmap, Hbk).
    pose proof (live_count_alter _ _ _ _ (apply_update u) Hv eq_refl). lia. }
  rewrite Hap in Hlive. destruct (IH (books_after (Update (clock (length us)) u) bks)) as [Hok Hend]; cbn [books_after].
  - rewrite <- (list_insert_alter_eq _ _ bk) by done. apply Forall_insert; [done|]. by apply spec_md_market_book.
  - done.
  - by rewrite length_alter.
  - done.
  - intros t bk'. by apply (fits_tail u us bks bk).
  - cbn [books_after] in Hlive. lia.
  - cbn [books_after] in Hap. split; [split|].
    + apply (snap_ok_fits _ _ _ bk); try done; [apply Hi|lia].
    + by rewrite Hap.
    + change (apply_mds (u :: us) (view_of bks)) with (apply_mds us (apply_md u (view_of bks))). by rewrite Hap.
Qed.
End updates.

(** ** A round of all threads *)
Record Pipeline := mkPipeline {
  pl_engine : MatchingEngine;
  pl_publisher : MarketDataPublisher;
  pl_consumer : MarketDataConsumer;
  pl_trader : TradeEngine
}.

(** The components share their queues: each one goes on with the queue as the other end has left it. *)
Definition mdp_set_updates (q : LFQueue MEMarketUpdate) p : MarketDataPublisher :=
  mkMarketDataPublisher (next_inc_seq_num_ p) q (snapshot_md_updates_ p) (mdp_run_ p) (incremental_socket_ p).
Definition mdc_set_updates (q : LFQueue MEMarketUpdate) c : MarketDataConsumer :=
  mkMarketDataConsumer (next_exp_inc_seq_num_ c) q (mdc_run_ c) (incremental_mcast_socket_ c) (snapshot_mcast_socket_ c)
    (in_recovery_ c) (snapshot_queued_msgs_ c) (incremental_queued_msgs_ c) (kernel_ c).

Section pipeline.
Context `{Limits, BufferSizes}.
Implicit Types (P : Pipeline) (rs : list MEClientResponse).

(** The publisher and the trade engine do one iteration of their loops, and the consumer polls its socket
    once per datagram; [q] is the queue of updates as the matching engine has left it. *)
Definition market_round (q : LFQueue MEMarketUpdate) (kernel_time : Z) clock clock' p c e :
    result (MarketDataPublisher * MarketDataConsumer * TradeEngine) :=
  y ← mdp_run_round (mdp_set_updates q p);
  c ← receive_all y.2 kernel_time (mdc_set_updates (TradeEngine.incoming_md_updates_ e) c);
  x ← te_run_round clock clock' (te_set_updates (MarketDataConsumer.incoming_md_updates_ c) e);
  mret (y.1, mdc_set_updates (TradeEngine.incoming_md_updates_ x.2) c, x.2).

(** The publisher is ready to publish and the consumer to receive its next datagram. *)
Record market_ready p c : Prop := {
  mr_running : mdp_run_ p = true;
  mr_number : is_u64 (next_inc_seq_num_ p);
  mr_outbound : mc_outbound_data_ (incremental_socket_ p) = [];
  mr_snapshot : ∃ l, holds (snapshot_md_updates_ p) l;
  mr_consumer : consumer_ready (next_inc_seq_num_ p) c
}.

(** Room for [n] updates. *)
Definition market_room (n : nat) p e : Prop :=
  (q_size (snapshot_md_updates_ p) + n ≤ capacity (snapshot_md_updates_ p))%nat ∧
  (n ≤ capacity (TradeEngine.incoming_md_updates_ e))%nat ∧ (42 * n < McastBufferSize)%nat.

(** A round hands the updates [us] to the trade engine, which handles its answers [rs] and then them. *)
Lemma market_round_spec q us rs kernel_time clock clock' p c e bks :
  holds q us → Forall in_range us → market_ready p c → market_room (length us) p e →
  engine_safe e bks → 0 < ME_MAX_NUM_CLIENTS → te_run_ e = true →
  holds (incoming_ogw_responses_ e) rs → holds (TradeEngine.incoming_md_updates_ e) [] →
  session_ok ((Answer <$> rs) ++ updates_at clock' us) e bks →
  ∃ p' c' e' e2, market_round q kernel_time clock clock' p c e = Ok (p', c', e') ∧ market_ready p' c' ∧
    next_inc_seq_num_ p' = advance (next_inc_seq_num_ p) us ∧ holds (mdp_outgoing_md_updates_ p') [] ∧
    holds (snapshot_md_updates_ p')
      (contents (snapshot_md_updates_ p) ++ numbered mkMDPMarketUpdate (next_inc_seq_num_ p) us) ∧
    te_handles ((Answer <$> rs) ++ updates_at clock' us) e = Ok (tt, e2) ∧ same_core e2 e' ∧
    engine_safe e' (books_end ((Answer <$> rs) ++ updates_at clock' us) bks) ∧
    holds (incoming_ogw_responses_ e') [] ∧ holds (TradeEngine.incoming_md_updates_ e') [] ∧ te_run_ e' = true.
Proof.
  intros Hq Hus [Hprun Hn Hout (l & Hl) Hcr] (R1 & R2 & R3) Hs Hc Hrun Hans Hinc Hses. rewrite (holds_contents _ _ Hl).
  destruct (mdp_round us (mdp_set_updates q p) l) as (p' & Ep & Hq' & Hl' & Hn' & Hout' & Hprun'); [done|done|done| |done|done|].
  { cbn. rewrite <- (holds_size _ _ Hl). exact R1. }
  unfold market_round. rewrite Ep. cbn [mbind result_bind fst snd].
  destruct (receive_in_sequence (next_inc_seq_num_ p) us kernel_time (mdc_set_updates (TradeEngine.incoming_md_updates_ e) c))
    as (c' & Ec & Hcr' & Hcq); [by destruct Hcr; constructor|done|done|done|done|lia|].
  cbn [mdp_set_updates next_inc_seq_num_] in Ep, Hn' |- *. rewrite Ec. cbn [mbind result_bind].
  set (e0 := te_set_updates (MarketDataConsumer.incoming_md_updates_ c') e).
  assert (same_core e e0) as Hce by (by eexists (incoming_ogw_responses_ e), _, (last_event_time_ e)).
  pose proof (wp_run_round clock clock' e0 bks rs us (safe_set_updates _ _ _ Hs) Hc Hrun Hans Hcq
    (session_core _ _ _ _ Hce Hses)) as Hwp.
  apply wp_Ok in Hwp as ([] & e' & Ee & (x & Hx & Hxe & Hs' & _) & Hans' & Hq2 & Hrun').
  destruct (handles_core _ e0 e x Hce Hx) as (e2 & He2 & Hc2).
  rewrite Ee. cbn [mbind result_bind mret result_ret fst snd]. do 4 eexists. split; [reflexivity|].
  split_and!; try done; [|by etransitivity]. constructor; [done|rewrite Hn'; by apply advance_u64|done|by eexists|].
  rewrite Hn'. by destruct Hcr'; constructor.
Qed.

(** The engine finds the requests [reqs] in its queue and handles them, and the others do their part. *)
Definition pipeline_round reqs (kernel_time : Z) clock clock' P : result Pipeline :=
  let m := pl_engine P in
  m ← run (length reqs) (me_set_requests (push_all reqs (incoming_requests_ m)) m);
  z ← market_round (outgoing_md_updates_ (outgoing_ m.2)) kernel_time clock clock' (pl_publisher P) (pl_consumer P) (pl_trader P);
  mret (mkPipeline (me_set_updates (mdp_outgoing_md_updates_ z.1.1) m.2) z.1.1 z.1.2 z.2).

(** The exchange's books are [bks]; the trade engine's are their images; nothing is under way; the
    responses [rs] wait for the order server. *)
Record in_step P bks rs : Prop := {
  in_engine : engine_ok (pl_engine P) bks [] rs [] [];
  in_running : run_ (pl_engine P) = true ∧ te_run_ (pl_trader P) = true;
  in_books : Forall wf_book bks ∧ Forall book_typed bks ∧ Forall small_book (mirror <$> bks);
  in_market : market_ready (pl_publisher P) (pl_consumer P);
  in_trader : engine_safe (pl_trader P) (mirror <$> bks) ∧ holds (incoming_ogw_responses_ (pl_trader P)) [] ∧
    holds (TradeEngine.incoming_md_updates_ (pl_trader P)) []
}.

(** What the clients may send: requests that the books have room for, with fields of their types. *)
Definition round_input reqs bks : Prop :=
  admissible_steps reqs bks ∧ Forall in_range reqs ∧ Forall small_request reqs ∧
  Forall (λ bk, next_id bk ≤ ME_MAX_ORDER_IDS) (spec_steps reqs bks).1.

(** The queues and the datagram have room for the round. *)
Definition round_room reqs P bks rs : Prop :=
  let evs := (spec_steps reqs bks).2 in
  let n := length (updates evs) in
  (length reqs ≤ capacity (incoming_requests_ (pl_engine P)))%nat ∧
  (length rs + length (responses evs) ≤ capacity (outgoing_ogw_responses_ (outgoing_ (pl_engine P))))%nat ∧
  (n ≤ capacity (outgoing_md_updates_ (outgoing_ (pl_engine P))))%nat ∧
  market_room n (pl_publisher P) (pl_trader P).

(** C7: from the matching engine to the trading algorithm.  Whatever admissible requests the matching
    engine handles, a round of all threads ends without a fault in step: the engine's queue has the
    responses of the abstract books, the publisher's numbers are the ones that the consumer waits for, no update is left
    on the way, every book of the trade engine is the image of the exchange's book with its best bid
    and offer, and the algorithm, which has seen every update, has kept the limits. *)
Theorem market_data_round reqs (kernel_time : Z) clock clock' P bks rs :
  in_step P bks rs → round_input reqs bks → round_room reqs P bks rs → 0 < ME_MAX_NUM_CLIENTS →
  let x := spec_steps reqs bks in
  ∃ P', pipeline_round reqs kernel_time clock clock' P = Ok P' ∧ in_step P' x.1 (rs ++ responses x.2) ∧
    next_inc_seq_num_ (pl_publisher P') = advance (next_inc_seq_num_ (pl_publisher P)) (updates x.2) ∧
    exposures_kept (pl_trader P') ∧
    Forall2 (λ b bk, implements (matching b) (mirror bk) ∧ bbo_ b = quote bk) (te_ticker_order_book_ (pl_trader P')) x.1.
Proof.
  intros [(Hbs & Hreq & Hrs & Hmd & _) (Hrun & Hterun) (Hwf & Hty & Hsm) Hmr (Hs & Hans & Hinc)]
    (Ha & Hr & Hsr & Hids) (R1 & R2 & R3 & R4) Hc x. fold x in R2, R3, R4.
  assert (Forall (λ r, 0 ≤ req_ticker_id_ r) reqs) as Ht by (eapply Forall_impl; [exact Hr|]; by intros r (_ & [? _] & _)).
  destruct (steps_typed reqs bks Hr Ha Hty) as [He Hty']. destruct (responses_typed _ He) as [_ Hus].
  destruct (run_leads reqs bks clock' (pl_trader P) Hc Hwf Ha Ht Hsr Hids Hsm) as (Hses & Hend & Hsm'). fold x in Hses, Hend, Hsm'.
  destruct (run_spec reqs (me_set_requests (push_all reqs (incoming_requests_ (pl_engine P))) (pl_engine P)) bks rs [])
    as (m' & Em & Hrun' & Hok'); [|done|done|].
  { split_and!; [done|by apply (holds_push_all _ [])|done..]. }
  destruct Hok' as (Hbs' & Hreq' & Hrs' & Hmd' & _). cbn [app] in Hmd'. fold x in Hbs', Hrs', Hmd'.
  destruct (market_round_spec _ _ [] kernel_time clock clock' (pl_publisher P) (pl_consumer P) (pl_trader P) (mirror <$> bks)
    Hmd' Hus Hmr R4 Hs Hc Hterun Hans Hinc Hses) as (p' & c' & e' & e2 & Em2 & Hmr' & Hn' & Hq' & _ & _ & _ & Hs' & Hans' & Hq2 & Hterun').
  cbn [fmap list_fmap app] in Hs'. rewrite Hend in Hs'.
  unfold pipeline_round. cbv zeta. rewrite Em. cbn [mbind result_bind fst snd]. rewrite Em2.
  cbn [mbind result_bind mret result_ret fst snd]. eexists. split; [reflexivity|].
  cbn [pl_engine pl_publisher pl_consumer pl_trader]. split; [|split; [exact Hn'|split; [by eapply safe_exposures|]]].
  - constructor; cbn [pl_engine pl_publisher pl_consumer pl_trader].
    + split; [done|]. split; [done|]. split; [done|]. split; [done|]. cbn. rewrite Nat.add_0_r. split; [apply Hrs'|lia].
    + done.
    + split_and!; [by apply wf_spec_steps|done|done].
    + done.
    + done.
  - pose proof (es_books _ _ Hs') as Hb. apply (Forall2_fmap_r mirror) in Hb. eapply Forall2_impl; [exact Hb|].
    intros b bk [Hi Hq]. split; [done|]. by rewrite Hq, mirror_quote.
Qed.
End pipeline.
