(* ===== verification/OrderPath.v ===== *)
(** * The way of an order and of its answers

    The threads that a client's requests pass on their way to the matching engine, and that the answers
    pass on their way back: the order gateway, the client's TCP connection, the order server with its
    sequencer, and the matching engine.  The network cuts the bytes as it likes. *)
From S2P Require Import Prelude Types LFQueue EngineSink BookSpec BookSweep BookInv MEOrderBook BookRep BookRefine BookTheorems.
From S2P Require Import MatchingEngine ClientRequests Wire Socket TcpServer BookTypes RecvFrames OrderServer OrderGateway.

Implicit Types (bks : list Book) (reqs : list MEClientRequest) (rs l : list MEClientResponse) (us : list MEMarketUpdate)
  (o : OrderServer) (g : OrderGateway) (m : MatchingEngine) (s : TCPSocket) (c p : nat).

(** What the network makes of the bytes of one direction: chunks, each with the time of its arrival. *)
Definition network : Type := list Z → list (list Z * Z).

Record OrderPath := mkOrderPath {
  op_gateway : OrderGateway;
  op_link : TCPSocket;                  (** the gateway's end of the connection *)
  op_server : OrderServer;
  op_sockets : gmap nat TCPSocket;      (** the sockets of the order server *)
  op_engine : MatchingEngine
}.

Definition os_set_queues (requests : LFQueue MEClientRequest) (responses : LFQueue MEClientResponse) o : OrderServer :=
  mkOrderServer responses (os_run_ o) (cid_next_outgoing_seq_num_ o) (cid_next_exp_seq_num_ o) (cid_tcp_socket_ o)
    (mkFIFOSequencer requests (pending_client_requests_ (fifo_sequencer_ o))).

Section OrderPath.
Context `{Limits, BufferSizes, StdSortSpec}.

(** A call of sendAndRecv in which nothing has arrived and the kernel takes everything. *)
Definition tcp_flush s : result (TCPSocket * list Z) :=
  x ← tcp_sendAndRecv (λ s _ (st : unit), Ok (s, st)) [] [Sent (length (pending s))] s tt;
  mret (x.1.1.1, x.2).

Definition socket_at (p : nat) (socks : gmap nat TCPSocket) : result TCPSocket :=
  match socks !! p with Some s => Ok s | None => Err WildDeref end.

Lemma socket_at_Some p socks s : socks !! p = Some s → socket_at p socks = Ok s.
Proof. unfold socket_at. by intros ->. Qed.

(** One pass: the gateway writes the requests of its trade engine to its socket, the server reads them from
    the client's connection [p] and sequences them, the engine handles them, the server writes
    the responses to the sockets of their clients, and the gateway reads what comes on its own. *)
Definition order_round p (out back : network) (P : OrderPath) : result OrderPath :=
  x ← send_requests (q_size (og_outgoing_requests_ (op_gateway P))) (op_link P) (op_gateway P);
  y ← tcp_flush x.1;
  s ← socket_at p (op_sockets P);
  z ← tcp_sendAndRecv (os_recvCallback p) (recv_chunk <$> out y.2) [] s (op_server P);
  let s := z.1.1.1 in
  let o := if (z.1.2 : bool) then recvFinishedCallback z.1.1.2 else z.1.1.2 in
  let m := me_set_responses (outgoing_responses_ o)
             (me_set_requests (fifo_incoming_requests_ (fifo_sequencer_ o)) (op_engine P)) in
  m ← run (q_size (incoming_requests_ m)) m;
  let o := os_set_queues (incoming_requests_ m.2) (outgoing_ogw_responses_ (outgoing_ m.2)) o in
  w ← send_responses (q_size (outgoing_responses_ o)) (<[p := s]> (op_sockets P)) o;
  s ← socket_at p w.1;
  v ← tcp_flush s;
  u ← tcp_sendAndRecv og_recvCallback (recv_chunk <$> back v.2) [] y.1 x.2;
  mret (mkOrderPath u.1.1.2 u.1.1.1 w.2 (<[p := v.1]> w.1) m.2).

(** The requests in the order in which the sequencer publishes them. *)
Definition sequenced (chunks : list (list Z * Z)) reqs : list MEClientRequest :=
  request_ <$> std_sort (zip_with mkRecvTime (arrival_times (B := OMClientRequest) chunks) reqs).

(** ** Sockets *)

(** Nothing is under way in either direction. *)
Record sock_idle s : Prop := {
  si_open : closed_ s = false;
  si_fd : 0 ≤ socket_fd_ s;
  si_out : outbound_data_ s = [];
  si_sent : next_send_index_ s = 0%nat;
  si_in : inbound_data_ s = []
}.

Lemma tcp_flush_spec s :
  closed_ s = false → 0 ≤ socket_fd_ s → tcp_wf s → (length (inbound_data_ s) < TCPBufferSize)%nat →
  tcp_flush s = Ok (set_outbound [] 0 s, pending s).
Proof.
  intros Hc Hfd [Hi Hlen] Hin. unfold tcp_flush, tcp_sendAndRecv. rewrite Hc, (proj2 (Z.ltb_ge _ _) Hfd).
  cbn [orb recv_loop]. rewrite Hc. rewrite (proj2 (Nat.eqb_neq _ _)) by lia. cbn [orb].
  cbn [send_loop]. rewrite Hc. cbn [negb andb]. unfold pending. rewrite length_drop.
  destruct (Nat.ltb_spec (next_send_index_ s) (length (outbound_data_ s))) as [Hlt|Hge].
  - rewrite Nat.min_id. rewrite (proj2 (Nat.ltb_lt 0 _)) by lia.
    cbn [set_outbound next_send_index_ outbound_data_ closed_]. 
    rewrite Hc, (proj2 (Nat.ltb_ge (next_send_index_ s + (length (outbound_data_ s) - next_send_index_ s)) _)) by lia.
    cbn. replace (next_send_index_ s + (length (outbound_data_ s) - next_send_index_ s))%nat with (length (outbound_data_ s)) by lia.
    rewrite Nat.eqb_refl. cbn. by rewrite app_nil_r, take_ge by (rewrite length_drop; lia).
  - rewrite (proj2 (Nat.eqb_eq _ _)) by lia. cbn. by rewrite drop_ge by lia.
Qed.

Lemma idle_flushed s s' :
  closed_ s' = false → sock_idle s → inbound_data_ s' = inbound_data_ s → socket_fd_ s' = socket_fd_ s →
  sock_idle (set_outbound [] 0 s').
Proof. intros Hc [] Hi Hf. constructor; cbn; congruence. Qed.

(** A call of sendAndRecv that only receives. *)
Lemma receive_only {St} (f : TCPSocket → Z → St → result (TCPSocket * St)) (rs : list recv_result) s (st st' : St) (r : bool) :
  sock_idle s → recv_loop f rs s st false = Ok (s, st', r) →
  tcp_sendAndRecv f rs [] s st = Ok (s, st', r, []).
Proof.
  intros [Hc Hfd Ho Hn Hi] Hr. unfold tcp_sendAndRecv. rewrite Hc, (proj2 (Z.ltb_ge _ _) Hfd). cbn [orb]. rewrite Hr.
  cbn [send_loop]. rewrite Ho, Hn, Hc. cbn. destruct s; cbn in *; subst. done.
Qed.

(** ** Between two passes *)

(** The connection is the client's, or will be with the client's first request. *)
Definition owner_ok c p o : Prop :=
  (cid_tcp_socket_ o !! c = Some None ∨ cid_tcp_socket_ o !! c = Some (Some p)) ∧
  ∀ d, cid_tcp_socket_ o !! d = Some (Some p) → d = c.

(** The requests [pre] of other clients have been published before. *)
Record path_ok c p bks (pre reqs : list MEClientRequest) l us (P : OrderPath) : Prop := {
  po_client : og_client_id_ (op_gateway P) = Z.of_nat c;
  po_link : sock_idle (op_link P);
  po_requests : holds (og_outgoing_requests_ (op_gateway P)) reqs;
  po_answers : holds (og_incoming_responses_ (op_gateway P)) l;
  po_socket : ∃ s, op_sockets P !! p = Some s ∧ sock_idle s;
  po_owner : owner_ok c p (op_server P);
  po_expected : cid_next_exp_seq_num_ (op_server P) !! c = Some (next_outgoing_seq_num_ (op_gateway P));
  po_next : cid_next_outgoing_seq_num_ (op_server P) !! c = Some (next_exp_seq_num_ (op_gateway P));
  po_numbers : is_u64 (next_outgoing_seq_num_ (op_gateway P)) ∧ is_u64 (next_exp_seq_num_ (op_gateway P));
  po_pending : pending_client_requests_ (fifo_sequencer_ (op_server P)) = [];
  po_queue : holds (fifo_incoming_requests_ (fifo_sequencer_ (op_server P))) pre;
  po_responses : holds (outgoing_responses_ (op_server P)) [];
  po_books : Forall2 implements (ticker_order_book_ (op_engine P)) bks ∧ Forall book_typed bks;
  po_run : run_ (op_engine P) = true;
  po_updates : holds (outgoing_md_updates_ (outgoing_ (op_engine P))) us
}.

(** The network loses, repeats and reorders nothing, and a chunk fits behind a part of a message. *)
Definition network_ok (A : Type) `{Wire A} (cut : network) : Prop :=
  ∀ bs, concat (cut bs).*1 = bs ∧ Forall (chunk_ok (A := A)) (cut bs).

(** Buffers and queues have room for the pass. *)
Definition path_room c p (pre reqs : list MEClientRequest) l us (x : list Book * list event) (P : OrderPath) : Prop :=
  (length reqs ≤ ME_MAX_PENDING_REQUESTS)%nat ∧
  (length pre + length reqs ≤ capacity (fifo_incoming_requests_ (fifo_sequencer_ (op_server P))))%nat ∧
  (length reqs * wire_size (A := OMClientRequest) ≤ TCPBufferSize)%nat ∧
  (length (responses x.2) ≤ capacity (outgoing_responses_ (op_server P)))%nat ∧
  (length us + length (updates x.2) ≤ capacity (outgoing_md_updates_ (outgoing_ (op_engine P))))%nat ∧
  (length l + length (sent_to (Z.of_nat c) x.2) ≤ capacity (og_incoming_responses_ (op_gateway P)))%nat ∧
  responses_ok (owner_after p c reqs (op_server P)) (op_sockets P) (responses x.2).

Lemma sequenced_perm chunks reqs :
  length (arrival_times (B := OMClientRequest) chunks) = length reqs → sequenced chunks reqs ≡ₚ reqs.
Proof. intros Hlen. unfold sequenced. by rewrite std_sort_perm, request_zip. Qed.

(** Requests that arrive one after the other stay in order. *)
Lemma sequenced_in_order chunks reqs :
  length (arrival_times (B := OMClientRequest) chunks) = length reqs →
  StronglySorted Z.lt (arrival_times (B := OMClientRequest) chunks) → sequenced chunks reqs = reqs.
Proof.
  intros Hlen Hs. unfold sequenced. rewrite sort_strict; [by apply request_zip|].
  revert reqs Hlen. induction Hs as [|t ts Hs IH Ht]; intros [|r reqs] Hlen; try done; [constructor..|].
  cbn. constructor; [apply IH; by injection Hlen|]. apply Forall_forall. intros y Hy.
  rewrite Forall_forall in Ht. apply elem_of_lookup_zip_with in Hy as (i & t' & r' & -> & Ht' & _).
  cbn. apply Ht. by eapply list_elem_of_lookup_2.
Qed.

(** The server's reading of the client's connection. *)
Lemma server_receives c p n pre reqs chunks s o :
  Forall (λ q, req_client_id_ q = Z.of_nat c) reqs → Forall in_range reqs → is_u64 n → sock_idle s →
  concat chunks.*1 = stream (numbered mkOMClientRequest n reqs) → Forall (chunk_ok (A := OMClientRequest)) chunks →
  (wire_size (A := OMClientRequest) ≤ TCPBufferSize)%nat →
  owner_ok c p o → cid_next_exp_seq_num_ o !! c = Some n →
  pending_client_requests_ (fifo_sequencer_ o) = [] → (length reqs ≤ ME_MAX_PENDING_REQUESTS)%nat →
  holds (fifo_incoming_requests_ (fifo_sequencer_ o)) pre →
  (length pre + length reqs ≤ capacity (fifo_incoming_requests_ (fifo_sequencer_ o)))%nat →
  ∃ o' r f, tcp_sendAndRecv (os_recvCallback p) (recv_chunk <$> chunks) [] s o = Ok (s, o', r, []) ∧
    (if r then recvFinishedCallback o' else o') = set_sequencer f (set_next_exp c (advance n reqs) (owner_after p c reqs o)) ∧
    holds (fifo_incoming_requests_ f) (pre ++ sequenced chunks reqs) ∧ pending_client_requests_ f = [] ∧
    length (arrival_times (B := OMClientRequest) chunks) = length reqs.
Proof.
  intros Hc Hr Hn Hs Hcat Hch Hbuf [Ho _] He Hp Hmax Hq Hroom.
  assert (Forall in_range (numbered mkOMClientRequest n reqs)) as Hrn by by apply numbered_in_range.
  pose proof (length_arrival_times (A := MEClientRequest) mkOMClientRequest n reqs chunks Hrn Hcat) as Hlen.
  pose proof (handle_requests_from p c (arrival_times (B := OMClientRequest) chunks) reqs n o) as Hh.
  rewrite Hp in Hh. cbn [app length Nat.add] in Hh. specialize (λ Hc', Hh Hc' Hlen Ho He Hmax).
  set (f1 := mkFIFOSequencer _ _) in Hh.
  pose proof (recv_numbered mkOMClientRequest (recv_request p) n reqs chunks s o _ Hrn Hcat (si_open _ Hs) (si_in _ Hs) Hch Hbuf
    (Hh ltac:(eapply Forall_impl; [exact Hc|]; intros q E; cbn in E; by rewrite E, Nat2Z.id))) as Hrl.
  apply receive_only in Hrl; [|done]. destruct chunks as [|ch chunks].
  - eexists _, _, f1. split; [exact Hrl|]. split; [done|]. assert (reqs = []) as -> by (by apply nil_length_inv; cbn in Hlen).
    split_and!; [|done|done]. unfold sequenced. cbn. rewrite (proj1 (Permutation_nil_r _) (std_sort_perm [])). by rewrite app_nil_r.
  - eexists _, _, (sequenceAndPublish f1). split; [exact Hrl|]. split; [done|].
    destruct (sequence_spec f1 pre Hq) as [Hs1 Hs2]; [cbn; rewrite length_zip_with; lia|]. by split_and!.
Qed.

Lemma owner_after_spec c p reqs o :
  owner_ok c p o → owner_ok c p (owner_after p c reqs o) ∧
  outgoing_responses_ (owner_after p c reqs o) = outgoing_responses_ o ∧
  cid_next_outgoing_seq_num_ (owner_after p c reqs o) = cid_next_outgoing_seq_num_ o ∧
  cid_next_exp_seq_num_ (owner_after p c reqs o) = cid_next_exp_seq_num_ o.
Proof.
  intros [Ho Hu]. destruct reqs as [|q reqs]; [done|]. split_and!; [|done..].
  assert (c < length (cid_tcp_socket_ o))%nat as Hlt by (destruct Ho; by eapply lookup_lt_Some).
  split; cbn; [right; by apply list_lookup_insert_eq|]. intros d. destruct (decide (c = d)) as [<-|Hne]; [done|].
  rewrite list_lookup_insert_ne by done. apply Hu.
Qed.

Lemma numbered_responses seqs rs : me_client_response_ <$> number_responses seqs rs = rs.
Proof. revert seqs. induction rs as [|r rs IH]; intros seqs; [done|]. cbn. f_equal. apply IH. Qed.

(** What goes out on the client's connection is what is for the client. *)
Lemma outgoing_on_client c p o rs n :
  owner_ok c p o → Forall (λ r, ∃ q, cid_tcp_socket_ o !! rsp_client r = Some (Some q)) rs →
  cid_next_outgoing_seq_num_ o !! c = Some n →
  outgoing_on o rs p = numbered mkOMClientResponse n (filter (λ r, rsp_client r = c) rs).
Proof.
  intros [Ho Hu] Hrs Hn. rewrite <- (number_client c _ _ _ Hn). unfold outgoing_on.
  rewrite <- (numbered_responses (cid_next_outgoing_seq_num_ o) rs), Forall_fmap in Hrs.
  induction Hrs as [|m ms [q Hq] Hms IH]; [done|]. rewrite !filter_cons, IH. cbn in Hq.
  assert (to_socket (cid_tcp_socket_ o) p m ↔ rsp_client (me_client_response_ m) = c) as Hiff; [|repeat case_decide; tauto].
  unfold to_socket. split; [apply Hu|]. intros E. rewrite E in Hq |- *. destruct Ho as [Ho|Ho]; congruence.
Qed.

Lemma sent_to_client c evs :
  Forall in_range (responses evs) → filter (λ r, rsp_client r = c) (responses evs) = sent_to (Z.of_nat c) evs.
Proof.
  unfold sent_to. induction 1 as [|r rs Hr Hrs IH]; [done|]. destruct Hr as [[Hr _] _]. unfold rsp_client in *.
  rewrite !filter_cons, IH. do 2 case_decide; done || lia.
Qed.

(** The gateway's reading of what the server has sent. *)
Lemma gateway_receives rs chunks s g l :
  Forall (λ r, rsp_client_id_ r = og_client_id_ g) rs → Forall in_range rs → is_u64 (next_exp_seq_num_ g) → sock_idle s →
  concat chunks.*1 = stream (numbered mkOMClientResponse (next_exp_seq_num_ g) rs) →
  Forall (chunk_ok (A := OMClientResponse)) chunks → (wire_size (A := OMClientResponse) ≤ TCPBufferSize)%nat →
  holds (og_incoming_responses_ g) l → (length l + length rs ≤ capacity (og_incoming_responses_ g))%nat →
  ∃ g' r, tcp_sendAndRecv og_recvCallback (recv_chunk <$> chunks) [] s g = Ok (s, g', r, []) ∧
    holds (og_incoming_responses_ g') (l ++ rs) ∧ og_outgoing_requests_ g' = og_outgoing_requests_ g ∧
    next_outgoing_seq_num_ g' = next_outgoing_seq_num_ g ∧ og_client_id_ g' = og_client_id_ g ∧
    next_exp_seq_num_ g' = advance (next_exp_seq_num_ g) rs.
Proof.
  intros Hc Hr Hn Hs Hcat Hch Hbuf Hq Hroom.
  assert (Forall in_range (numbered mkOMClientResponse (next_exp_seq_num_ g) rs)) as Hrn by by apply numbered_in_range.
  pose proof (length_arrival_times (A := MEClientResponse) mkOMClientResponse _ _ chunks Hrn Hcat) as Hlen.
  destruct (handle_responses (arrival_times (B := OMClientResponse) chunks) rs g l Hq Hroom Hc Hlen) as (g' & Hh & Hrest).
  pose proof (recv_numbered mkOMClientResponse recv_response (next_exp_seq_num_ g) rs chunks s g g' Hrn Hcat (si_open _ Hs)
    (si_in _ Hs) Hch Hbuf Hh) as Hrl.
  apply receive_only in Hrl; [|done]. by exists g', (match chunks with [] => false | _ => true end).
Qed.

(** A pass; the queue from the trade engine keeps its capacity. *)
Lemma order_round_spec c p out back bks pre reqs l us P :
  path_ok c p bks pre reqs l us P → network_ok OMClientRequest out → network_ok OMClientResponse back →
  (wire_size (A := OMClientRequest) ≤ TCPBufferSize)%nat → (wire_size (A := OMClientResponse) ≤ TCPBufferSize)%nat →
  Forall (λ q, req_client_id_ q = Z.of_nat c) reqs → Forall in_range reqs →
  let n := next_outgoing_seq_num_ (op_gateway P) in
  let reqs' := sequenced (out (stream (numbered mkOMClientRequest n reqs))) reqs in
  let x := spec_steps (pre ++ reqs') bks in
  Forall in_range pre → admissible_steps (pre ++ reqs') bks → path_room c p pre reqs l us x P →
  reqs' ≡ₚ reqs ∧
  ∃ P', order_round p out back P = Ok P' ∧ path_ok c p x.1 [] [] (l ++ sent_to (Z.of_nat c) x.2) (us ++ updates x.2) P' ∧
    capacity (og_outgoing_requests_ (op_gateway P')) = capacity (og_outgoing_requests_ (op_gateway P)).
Proof.
  intros [Hcid Hlink Hreqs Hans (s & Hsock & Hsi) Hown Hexp Hnext [Hn1 Hn2] Hpend Hfifo Hresp [Hbks Hty] Hrun Hupd]
    Hout Hback Hb1 Hb2 Hc Hr n reqs' x Hpr Ha (R1 & R2 & R3 & R4 & R5 & R6 & R7).
  pose proof (wire_size_pos (A := OMClientRequest)) as Hpos.
  assert (∀ s, sock_idle s → tcp_wf s) as Hidle by (intros s0 []; unfold tcp_wf; rewrite si_out0, si_sent0; cbn; lia).
  destruct (send_requests_spec reqs (length reqs) (op_link P) (op_gateway P) Hreqs (Hidle _ Hlink) (si_open _ Hlink))
    as (sg & g1 & E1 & Hq1 & Hp1 & Hwf1 & Hcl1 & Hg1 & Hg2 & Hg3 & Hg4 & Hg5 & Hg6 & Hg7); [done| |].
  { unfold pending. rewrite (si_out _ Hlink), drop_nil, length_stream, length_numbered. exact R3. }
  assert (pending sg = stream (numbered mkOMClientRequest n reqs)) as Hp1'.
  { rewrite Hp1. unfold pending. by rewrite (si_out _ Hlink), drop_nil. }
  assert (tcp_flush sg = Ok (set_outbound [] 0 sg, stream (numbered mkOMClientRequest n reqs))) as E2.
  { rewrite <- Hp1'. apply tcp_flush_spec; [done|rewrite Hg6; apply (si_fd _ Hlink)|done|]. rewrite Hg5, (si_in _ Hlink). cbn. lia. }
  destruct (Hout (stream (numbered mkOMClientRequest n reqs))) as [Hcat Hch].
  destruct (server_receives c p n pre reqs (out (stream (numbered mkOMClientRequest n reqs))) s (op_server P))
    as (o1 & r1 & f & E3 & Ho1 & Hf & Hfp & Hlen); try done.
  split; [by apply sequenced_perm|]. fold reqs' in Hf.
  destruct (owner_after_spec c p reqs _ Hown) as (Hown' & Eor & Eon & Eoe).
  set (o2 := set_sequencer f (set_next_exp c (advance n reqs) (owner_after p c reqs (op_server P)))) in *.
  assert (outgoing_responses_ o2 = outgoing_responses_ (op_server P)) as Er2 by exact Eor.
  set (m0 := me_set_responses (outgoing_responses_ o2) (me_set_requests (fifo_incoming_requests_ (fifo_sequencer_ o2)) (op_engine P))).
  destruct (run_spec (pre ++ reqs') m0 bks [] us) as (m' & E4 & Hrun' & Hbks' & Hreq' & Hresp' & Hupd' & _); [|done|done|].
  { split_and!; [done|exact Hf|]. rewrite <- Er2 in Hresp, R4. by split_and!. }
  fold x in Hbks', Hresp', Hupd'. cbn [app] in Hresp'.
  destruct (steps_typed (pre ++ reqs') bks) as [Hev Hty']; [apply Forall_app; split; [done|]; unfold reqs'; by rewrite sequenced_perm|done|done|].
  destruct (responses_typed _ Hev) as [Hrt _]. fold x in Hrt, Hty'.
  set (o3 := os_set_queues (incoming_requests_ m') (outgoing_ogw_responses_ (outgoing_ m')) o2).
  assert (cid_next_outgoing_seq_num_ o3 = cid_next_outgoing_seq_num_ (op_server P)) as En3 by exact Eon.
  rewrite <- En3 in Hnext. assert (Forall (λ r, ∃ q, cid_tcp_socket_ o3 !! rsp_client r = Some (Some q)) (responses x.2)) as Hall.
  { destruct R7 as [R7 _]. eapply Forall_impl; [exact R7|]. intros r (q & Hq & _). by exists q. }
  assert (<[p:=s]> (op_sockets P) = op_sockets P) as Hins by by apply insert_id.
  destruct (send_responses_spec (responses x.2) (length (responses x.2)) (op_sockets P) o3 Hresp' R7)
    as (socks' & o' & E5 & Hoq & _ & Hot & Hof & Hoe & _ & _ & Hon & Hps); [done|].
  destruct (Hps p s Hsock) as (s' & Hs' & Hpend' & Hw' & Hc' & Hi' & Hfd').
  rewrite (outgoing_on_client c p o3 _ _ Hown' Hall Hnext), (sent_to_client c _ Hrt) in Hpend'.
  unfold pending in Hpend' at 2. rewrite (si_out _ Hsi), drop_nil in Hpend'. cbn [app] in Hpend'.
  set (bytes := stream (numbered mkOMClientResponse (next_exp_seq_num_ (op_gateway P)) (sent_to (Z.of_nat c) x.2))) in *.
  assert (tcp_flush s' = Ok (set_outbound [] 0 s', bytes)) as E6.
  { rewrite <- Hpend'. apply tcp_flush_spec; [by rewrite Hc'; apply Hsi|rewrite Hfd'; apply Hsi|by apply Hw', Hidle|].
    rewrite Hi', (si_in _ Hsi). cbn. lia. }
  destruct (Hback bytes) as [Hcat' Hch'].
  destruct (gateway_receives (sent_to (Z.of_nat c) x.2) (back bytes) (set_outbound [] 0 sg) g1 l)
    as (g' & r2 & E7 & Hg'l & Hg'q & Hg'n & Hg'c & Hg'e); try done.
  { rewrite Hg4, Hcid. apply Forall_forall. by intros r [? _]%list_elem_of_filter. }
  { apply Forall_forall. intros r [_ Hin]%list_elem_of_filter. rewrite Forall_forall in Hrt. by apply Hrt. }
  { by rewrite Hg2. }
  { by apply (idle_flushed (op_link P)). }
  { rewrite Hcat'. unfold bytes. by rewrite Hg2. }
  { by rewrite Hg1. }
  { by rewrite Hg1. }
  eexists. split.
  { unfold order_round. rewrite (holds_size _ _ Hreqs), E1. cbn [mbind result_bind fst snd]. rewrite E2.
    cbn [mbind result_bind fst snd]. rewrite (socket_at_Some _ _ _ Hsock). cbn [mbind result_bind]. rewrite E3.
    cbn [mbind result_bind fst snd]. rewrite Ho1. fold o2 m0.
    assert (q_size (incoming_requests_ m0) = length (pre ++ reqs')) as -> by exact (holds_size _ _ Hf). rewrite E4.
    cbn [mbind result_bind fst snd]. fold o3.
    assert (q_size (outgoing_responses_ o3) = length (responses x.2)) as -> by exact (holds_size _ _ Hresp').
    rewrite Hins, E5. cbn [mbind result_bind fst snd]. rewrite (socket_at_Some _ _ _ Hs'). cbn [mbind result_bind]. rewrite E6.
    cbn [mbind result_bind fst snd]. rewrite E7. reflexivity. }
  split; [|cbn [op_gateway fst snd]; by rewrite Hg'q].
  constructor; cbn [op_gateway op_link op_server op_sockets op_engine fst snd].
  - by rewrite Hg'c, Hg4.
  - by apply (idle_flushed (op_link P)).
  - by rewrite Hg'q.
  - done.
  - exists (set_outbound [] 0 s'). split; [by rewrite lookup_insert_eq|]. apply (idle_flushed s); [by rewrite Hc'; apply Hsi|exact Hsi|done|done].
  - unfold owner_ok. rewrite Hot. exact Hown'.
  - rewrite Hoe, Hg'n, Hg3. apply list_lookup_insert_eq. rewrite Eoe. by eapply lookup_lt_Some.
  - rewrite (Hon c _ Hnext), Hg'e, Hg2, (sent_to_client c _ Hrt). done.
  - rewrite Hg'n, Hg3, Hg'e, Hg2. split; by apply advance_u64.
  - by rewrite Hof.
  - rewrite Hof. exact Hreq'.
  - done.
  - done.
  - done.
  - done.
Qed.
(** C8: the way of an order.  After the requests [pre] of others, a client's requests, taken from its trade engine by the gateway, cut up by the
    network in any way, read and sequenced by the order server and handled by the matching engine, have
    the effect on the books that the abstract books say; and exactly the answers for the client, in
    the order of the matching engine and cut up in any way, end in the queue to its trade
    engine, while nothing of them stays on the way, so that the next pass begins as this one did.
    The order in which the engine handles the requests is the one of their arrival times. *)
Theorem order_path c p out back bks pre reqs l us P :
  path_ok c p bks pre reqs l us P → network_ok OMClientRequest out → network_ok OMClientResponse back →
  (wire_size (A := OMClientRequest) ≤ TCPBufferSize)%nat → (wire_size (A := OMClientResponse) ≤ TCPBufferSize)%nat →
  Forall (λ q, req_client_id_ q = Z.of_nat c) reqs → Forall in_range reqs →
  let n := next_outgoing_seq_num_ (op_gateway P) in
  let reqs' := sequenced (out (stream (numbered mkOMClientRequest n reqs))) reqs in
  let x := spec_steps (pre ++ reqs') bks in
  Forall in_range pre → admissible_steps (pre ++ reqs') bks → path_room c p pre reqs l us x P →
  reqs' ≡ₚ reqs ∧
  ∃ P', order_round p out back P = Ok P' ∧ path_ok c p x.1 [] [] (l ++ sent_to (Z.of_nat c) x.2) (us ++ updates x.2) P'.
Proof.
  intros Hp Ho Hb Hw1 Hw2 Hc Hr n reqs' x Hpr Ha Hroom.
  destruct (order_round_spec c p out back bks pre reqs l us P Hp Ho Hb Hw1 Hw2 Hc Hr Hpr Ha Hroom) as (? & P' & ? & ? & _).
  split; [done|]. by exists P'.
Qed.
End OrderPath.
