(* ===== verification/System.v ===== *)
(** * A participant and the exchange, in one system

    All threads of a participant and of the exchange, with the code of every component and the queues
    between them: the trade engine, the order gateway, the connection, the order server with its
    sequencer, the matching engine, the market data publisher with its snapshot synthesizer, and the
    market data consumer.  Other clients send any requests that the books admit and have room for, TCP cuts the bytes as it likes, and the multicast loses nothing.  A round
    of all threads is a sequence of steps of ClosedMarket.v, so that what holds there holds of
    the code. *)
From S2P Require Import Prelude Types MemPool LFQueue CircList EngineSink BookSpec BookSweep BookInv BookReplay.
From S2P Require Import MEOrderBook BookRep BookRefine BookTheorems MatchingEngine ClientView ClientRequests.
From S2P Require Import Wire Socket TcpServer BookTypes RecvFrames OrderServer OrderGateway MarketStream SnapshotSynthesizer.
From S2P Require Import MarketDataPublisher MarketDataConsumer MarketOrderBook MarketBookSim MarketBookSpec MarketBookTheorems.
From S2P Require Import MarketMirror TradingMirror Double PositionKeeper RiskManager OrderManager FeatureEngine Algorithms.
From S2P Require Import TradeEngine OrderSafety TradingSafety TradingLoop OrderTraffic OrderProtocol ClientLink.
From S2P Require Import ClosedLoop ClosedMarket MarketPipeline OrderPath.

Implicit Types (bk : Book) (bks : list Book) (r : MEClientResponse) (rs : list MEClientResponse) (req : MEClientRequest)
  (reqs pre : list MEClientRequest) (u : MEMarketUpdate) (us : list MEMarketUpdate) (e : TradeEngine) (V : MarketWorld)
  (evs : list event).

(** ** Runs of the closed loop *)
Section runs.
Context `{Limits} (c : Z).
Hypothesis Hclients : 0 < ME_MAX_NUM_CLIENTS.
Hypothesis Hids : ME_MAX_ORDER_IDS < 2 ^ 64 - 1.

Definition world e (wm : list Book) reqs rs bks us : MarketWorld := mkMarketWorld (mkWorld e wm reqs rs bks) us.

Lemma sent_to_app evs1 evs2 : sent_to c (evs1 ++ evs2) = sent_to c evs1 ++ sent_to c evs2.
Proof. unfold sent_to. by rewrite responses_app, filter_app. Qed.

(** The room that the exchange needs for requests of a client: ids, slots of the arrays, places in the tables. *)
Fixpoint fits reqs bks : Prop :=
  match reqs with
  | [] => True
  | req :: reqs =>
      (∀ bk, bks !! Z.to_nat (req_ticker_id_ req) = Some bk →
         req_order_id_ req < ME_MAX_ORDER_IDS ∧
         (req_type_ req = ClientRequestType_NEW → next_id bk < ME_MAX_ORDER_IDS ∧ slot_free (req_price_ req) bk ∧ room bk)) ∧
      fits reqs (spec_step req bks).1
  end.

(** What a request needs of the books, from what a run needs. *)
Definition ids_within bks : Prop := Forall (λ bk, next_id bk ≤ ME_MAX_ORDER_IDS) bks.

Lemma ids_within_step req bks :
  Forall wf_book bks → admissible_step req bks → ids_within (spec_step req bks).1 → ids_within bks.
Proof.
  intros Hwf (bk & Hbk & Ha). unfold spec_step. rewrite Hbk. cbn [fst]. intros Hw.
  apply Forall_lookup. intros i bk' Hi. destruct (decide (Z.to_nat (req_ticker_id_ req) = i)) as [<-|Hne].
  - assert (bk' = bk) as -> by congruence.
    destruct (request_next_id req bk (Forall_lookup_1 _ _ _ _ Hwf Hbk) Ha) as [Hle _].
    assert (next_id (spec_request req bk).1 ≤ ME_MAX_ORDER_IDS); [|lia].
    eapply (Forall_lookup_1 _ _ _ _ Hw). apply list_lookup_insert_eq. by eapply lookup_lt_Some.
  - eapply (Forall_lookup_1 _ _ _ _ Hw). by rewrite list_lookup_insert_ne.
Qed.

Lemma ids_within_steps reqs bks :
  Forall wf_book bks → admissible_steps reqs bks → ids_within (spec_steps reqs bks).1 → ids_within bks.
Proof.
  revert bks. induction reqs as [|req reqs IH]; intros bks Hwf; [done|]. intros [Ha1 Ha2] Hw.
  eapply ids_within_step; [done|exact Ha1|]. apply IH; [by apply wf_spec_step|done|exact Hw].
Qed.

Lemma request_market req bks :
  Forall wf_book bks → admissible_step req bks → small_request req → ids_within (spec_step req bks).1 → market_request req bks.
Proof.
  intros Hwf (bk & Hbk & Ha) Hs Hw. split; [done|]. exists bk. split; [done|]. apply admissible_room; [done|done|].
  intros E. destruct (request_next_id req bk (Forall_lookup_1 _ _ _ _ Hwf Hbk) Ha) as [_ Hlt]. specialize (Hlt E).
  assert (next_id (spec_request req bk).1 ≤ ME_MAX_ORDER_IDS); [|lia]. unfold spec_step in Hw. rewrite Hbk in Hw.
  eapply (Forall_lookup_1 _ _ _ _ Hw). apply list_lookup_insert_eq. by eapply lookup_lt_Some.
Qed.

Lemma request_others req bks :
  admissible_step req bks → 0 ≤ req_ticker_id_ req → small_request req → req_client_id_ req ≠ c → other_request c req bks.
Proof.
  intros (bk & Hbk & Ha) Ht Hs Hc. exists bk. split_and!; [done|done|done|]. unfold admissible in Ha. unfold small_request in Hs.
  destruct (req_type_ req); [done| |done]. destruct Ha as (? & ? & ? & ? & _). specialize (Hs eq_refl). split_and!; try done. lia.
Qed.

(** The other participants, one request after the other. *)
Lemma run_others pre e wm reqs rs bks us :
  market_ok c (world e wm reqs rs bks us) → admissible_steps pre bks → Forall (λ q, 0 ≤ req_ticker_id_ q) pre →
  Forall small_request pre → Forall (λ q, req_client_id_ q ≠ c) pre → ids_within (spec_steps pre bks).1 →
  let x := spec_steps pre bks in
  market_ok c (world e wm reqs (rs ++ sent_to c x.2) x.1 (us ++ updates x.2)).
Proof.
  revert rs bks us. induction pre as [|req pre IH]; intros rs bks us Hok; cbn [spec_steps fst snd].
  { intros _ _ _ _ _. by rewrite !app_nil_r. }
  intros [Ha1 Ha2] [Ht Hts]%Forall_cons [Hs Hss]%Forall_cons [Hc Hcs]%Forall_cons Hw.
  pose proof (loop_wf c _ (mo_loop _ _ Hok)) as Hwf. cbn [world mw_world w_exchange] in Hwf.
  pose proof (ids_within_steps pre _ (wf_spec_step _ _ Hwf Ha1) Ha2 Hw) as Hw1.
  rewrite sent_to_app, updates_app, !app_assoc. apply IH; try done.
  eapply (market_ok_step c); [done|exact Hok|]. apply (market_others c (world e wm reqs rs bks us) req); [by apply request_others|by apply request_market].
Qed.

(** The client's requests, one after the other. *)
Lemma run_exchange reqs e wm rs bks us :
  market_ok c (world e wm reqs rs bks us) → admissible_steps reqs bks → Forall small_request reqs →
  ids_within (spec_steps reqs bks).1 →
  let x := spec_steps reqs bks in
  market_ok c (world e wm [] (rs ++ sent_to c x.2) x.1 (us ++ updates x.2)).
Proof.
  revert rs bks us. induction reqs as [|req reqs IH]; intros rs bks us Hok; cbn [spec_steps fst snd].
  { intros _ _ _. by rewrite !app_nil_r. }
  intros [Ha1 Ha2] [Hs Hss]%Forall_cons Hw.
  pose proof (loop_wf c _ (mo_loop _ _ Hok)) as Hwf. cbn [world mw_world w_exchange] in Hwf.
  pose proof (ids_within_steps reqs _ (wf_spec_step _ _ Hwf Ha1) Ha2 Hw) as Hw1.
  rewrite sent_to_app, updates_app, !app_assoc. apply IH; try done.
  eapply (market_ok_step c); [done|exact Hok|]. apply (market_exchange c (world e wm (req :: reqs) rs bks us) req reqs); [done| |by apply request_market].
  pose proof (ids_within_step _ _ Hwf Ha1 Hw1) as Hw0. destruct Ha1 as (bk & Hbk & _). exists bk. split; [done|].
  pose proof (Forall_lookup_1 _ _ _ _ Hw0 Hbk). cbn beta in *. lia.
Qed.

(** The gateway takes the requests from their queue. *)
Lemma run_gateway e wm reqs rs bks us qs q :
  market_ok c (world e wm reqs rs bks us) → holds (outgoing_ogw_requests_ e) qs → holds q [] →
  capacity q = capacity (outgoing_ogw_requests_ e) →
  market_ok c (world (te_set_orders (order_manager_ e, q) e) wm (reqs ++ qs) rs bks us).
Proof.
  intros [[Hs Hc Ht Hr (own & qs' & Hqs' & Hl)] Hlen Hsm Hu Hld] Hqs Hq Hcap. cbn [world mw_world w_engine] in Hqs', Hr.
  assert (qs' = qs) as -> by (by rewrite <- (holds_contents _ _ Hqs), (holds_contents _ _ Hqs')).
  constructor; try done. constructor; cbn [world mw_world w_engine w_market w_requests w_answers w_exchange]; try done.
  - by apply safe_set_orders.
  - cbn [te_set_orders outgoing_ogw_requests_ snd]. by rewrite Hcap.
  - exists own, []. split; [done|]. by rewrite app_nil_r.
Qed.

Lemma request_id_step req bk :
  wf_book bk → (req_type_ req = ClientRequestType_NEW → next_id bk < ME_MAX_ORDER_IDS) → next_id bk ≤ ME_MAX_ORDER_IDS →
  next_id (spec_request req bk).1 ≤ ME_MAX_ORDER_IDS.
Proof.
  intros Hwf Hn Hle. pose proof (wf_next _ Hwf). unfold spec_request. destruct (req_type_ req); [done| |].
  - specialize (Hn eq_refl). unfold spec_add. destruct (sweep _ _ _) as [[evs l] ls].
    destruct (l =? 0); cbn [fst next_id]; rewrite u64_small by (unfold is_u64; lia); lia.
  - unfold spec_cancel. by destruct (find_order _ _ _).
Qed.

(** The client's requests are admissible: nothing is assumed of them but that there is room. *)
Lemma own_admissible own m bks reqs tail rs :
  c < ME_MAX_NUM_CLIENTS → linked c own m bks (reqs ++ tail) rs → ids_within bks → fits reqs bks →
  admissible_steps reqs bks ∧ ids_within (spec_steps reqs bks).1.
Proof.
  intros Hc. revert bks rs. induction reqs as [|req reqs IH]; intros bks rs Hl Hw; [done|]. cbn [app fits] in *.
  intros [Hf Hfs]. pose proof (lk_requests _ _ _ _ _ _ Hl) as Hwf. apply Forall_cons in Hwf as [(Ht & Hlt & Hs) _].
  destruct (lookup_lt_is_Some_2 _ _ Hlt) as [bk Hbk]. destruct (linked_head _ _ _ _ _ _ _ _ Hl Hbk) as (Hcl & _ & Hty).
  destruct (Hf bk Hbk) as [Hid Hnew]. pose proof (Forall_lookup_1 _ _ _ _ Hw Hbk) as Hn. cbn beta in Hn.
  pose proof (Forall_lookup_1 _ _ _ _ (lk_books _ _ _ _ _ _ Hl) Hbk) as [Hgood _].
  assert (ids_within (spec_step req bks).1) as Hw1.
  { unfold spec_step. rewrite Hbk. apply Forall_insert; [done|]. apply request_id_step; [done|apply Hnew|done]. }
  pose proof (linked_exchange c own m bks req (reqs ++ tail) rs bk Hl Hbk ltac:(lia)) as Hl1.
  destruct (IH _ _ Hl1 Hw1 Hfs) as [Has Hws]. split; [|exact Hws]. split; [|done]. exists bk. split; [done|]. unfold admissible.
  destruct Hty as [(Hty & Hq & _ & Hfr)|Hty]; rewrite Hty; [|done].
  destruct (Hnew Hty) as (? & ? & ?). rewrite Hcl. do 2 (split; [done|]). split; [lia|by split_and!].
Qed.

(** The invariant does not look at what the engine has still to read. *)
Lemma market_core e e' wm reqs rs bks us :
  same_core e e' → market_ok c (world e wm reqs rs bks us) → market_ok c (world e' wm reqs rs bks us).
Proof.
  intros Hc [[Hs] Hlen Hsm Hu Hld]. constructor; try done. apply (safe_core _ _ _ Hc) in Hs.
  destruct Hc as (rq & uq & t & ->). by constructor.
Qed.

(** ** The trade engine's round *)
Lemma answer_next r e e' :
  te_algo_ e = AlgoType_MAKER ∨ te_algo_ e = AlgoType_TAKER → te_handle (Answer r) e = Ok (tt, e') →
  next_order_id_ (order_manager_ e') = next_order_id_ (order_manager_ e).
Proof.
  intros Ha Hh. destruct (answer_order r e e' Ha Hh) as [_ Ho].
  destruct (om_lookup (Z.to_nat (rsp_ticker_id_ r), side_index (rsp_side_ r)) (order_manager_ e)) as [o|] eqn:Hl.
  - rewrite (order_update r _ _ o Hl) in Ho. injection Ho as <-. by case_decide.
  - unfold om_onOrderUpdate, om_at, gets, mbind, M_bind in Ho. cbn [fst] in Ho. by rewrite Hl in Ho.
Qed.

Lemma moves_next m reqs m' :
  om_moves c m reqs m' → 0 ≤ next_order_id_ m → next_order_id_ m' ≤ next_order_id_ m + Z.of_nat (length reqs).
Proof.
  induction 1 as [m|m1 req m2 reqs m3 Hm Hms IH]; intros Hn; [cbn; lia|]. cbn [length].
  assert (0 ≤ next_order_id_ m2 ≤ next_order_id_ m1 + 1) as Hm2; [|specialize (IH ltac:(lia)); lia].
  destruct Hm; cbn [next_order_id_ om_store]; [|lia]. pose proof (u64_range (next_order_id_ m + 1)) as [? ?].
  split; [done|]. apply Z.mod_le; lia.
Qed.

Definition ids_for (n : nat) e : Prop := next_order_id_ (order_manager_ e) + 2 * Z.of_nat n < 2 ^ 64.

(** The events of a round are as the trade engine expects them, and end the run. *)
Lemma run_updates us clock e wm reqs bks :
  market_ok c (world e wm reqs [] bks us) → ids_for (length us) e →
  session_ok (updates_at clock us) e wm ∧
  ∀ e', te_handles (updates_at clock us) e = Ok (tt, e') →
    market_ok c (world e' (books_end (updates_at clock us) wm) reqs [] bks []).
Proof.
  revert e wm. induction us as [|u us IH]; intros e wm Hok Hid; cbn [updates_at session_ok te_handles books_end].
  { split; [done|]. by intros e' [= <-]. }
  unfold ids_for in Hid. cbn [length] in Hid.
  destruct (next_update_ok c _ (clock (length us)) u us Hok eq_refl) as [Ht Hev]. cbn [world mw_world w_engine w_market] in Hev.
  assert (∀ e1, te_handle (Update (clock (length us)) u) e = Ok (tt, e1) →
    market_ok c (world e1 (books_after (Update (clock (length us)) u) wm) reqs [] bks us) ∧ ids_for (length us) e1) as Hstep.
  { intros e1 Hh. split.
    - eapply (market_ok_step c); [done|exact Hok|].
      apply (market_update c (world e wm reqs [] bks (u :: us)) (clock (length us)) u us e1); [done| |done].
      unfold ids_left. cbn [world mw_world w_engine]. lia.
    - destruct (mo_loop _ _ Hok) as [Hs Hc _ _ (own & qs & _ & Hl)]. cbn [world mw_world w_engine w_market] in Hs, Hc, Hl.
      destruct (update_moves _ u e e1 wm Hs Hclients Ht Hev Hh) as (_ & reqs' & Hlen & Hms & _).
      rewrite Hc in Hms. cbn [fst] in Hms. apply moves_next in Hms; [|by eapply lk_next]. unfold ids_for. lia. }
  split.
  - split; [done|]. intros e1 Hh. destruct (Hstep e1 Hh) as [Hok1 Hid1]. by apply IH.
  - intros e'. unfold mbind, M_bind. destruct (te_handle _ e) as [[[] e1]|] eqn:Hh; [|done].
    destruct (Hstep e1 eq_refl) as [Hok1 Hid1]. by apply IH.
Qed.

Lemma run_events rs us clock e wm reqs bks :
  market_ok c (world e wm reqs rs bks us) → ids_for (length us) e →
  session_ok ((Answer <$> rs) ++ updates_at clock us) e wm ∧
  ∀ e', te_handles ((Answer <$> rs) ++ updates_at clock us) e = Ok (tt, e') →
    market_ok c (world e' (books_end ((Answer <$> rs) ++ updates_at clock us) wm) reqs [] bks []).
Proof.
  revert e. induction rs as [|r rs IH]; intros e Hok Hid; [by apply run_updates|].
  cbn [fmap list_fmap app session_ok te_handles books_end books_after].
  destruct (answer_ok_next c _ r rs Hclients (mo_loop _ _ Hok) eq_refl) as [Hconf _]. cbn [world mw_world w_engine] in Hconf.
  assert (∀ e1, te_handle (Answer r) e = Ok (tt, e1) → market_ok c (world e1 wm reqs rs bks us) ∧ ids_for (length us) e1) as Hstep.
  { intros e1 Hh. split.
    - eapply (market_ok_step c); [done|exact Hok|]. by apply (market_answer c (world e wm reqs (r :: rs) bks us) r rs e1).
    - unfold ids_for. rewrite (answer_next r e e1); [exact Hid| |done]. exact (es_algo _ _ (lo_safe _ _ (mo_loop _ _ Hok))). }
  split.
  - split; [exact Hconf|]. intros e1 Hh. destruct (Hstep e1 Hh) as [Hok1 Hid1]. by apply IH.
  - intros e'. unfold mbind, M_bind. destruct (te_handle _ e) as [[[] e1]|] eqn:Hh; [|done].
    destruct (Hstep e1 eq_refl) as [Hok1 Hid1]. by apply IH.
Qed.

(** With nothing on its way the client's books are the images of the exchange's. *)
Lemma run_end e wm reqs rs bks : market_ok c (world e wm reqs rs bks []) → wm = mirror <$> bks.
Proof.
  intros [_ Hlen _ _ Hld]. cbn [world mw_world w_market w_exchange mw_updates] in *. apply list_eq. intros t.
  rewrite list_lookup_fmap. destruct (bks !! t) as [bk|] eqn:Hb.
  - destruct (lookup_lt_is_Some_2 wm t) as [bkm Hm]; [apply lookup_lt_Some in Hb; lia|]. rewrite Hm. cbn. f_equal.
    by destruct (Hld t bkm bk Hm Hb) as [_ <-].
  - apply lookup_ge_None in Hb. apply lookup_ge_None. lia.
Qed.

(** The updates on their way fit the snapshot of the books. *)
Lemma run_snapshot n e reqs rs bks bks' us :
  market_ok c (world e (mirror <$> bks) reqs rs bks' us) → Forall wf_book bks → Forall in_range us →
  Forall (λ u, upd_type_ u ≠ MarketUpdateType_CLEAR ∧ is_mark u = false) us → (live_count (view_of bks) + adds us < n)%nat →
  snap_oks n us (view_of bks) ∧ apply_mds us (view_of bks) = view_of bks'.
Proof.
  intros [_ Hlen _ Hu Hld] Hwf Hr Hnc Hroom. cbn [world mw_world w_market w_exchange mw_updates] in *. rewrite length_fmap in Hlen.
  assert (∀ t bk, bks !! t = Some bk → ∃ bk', bks' !! t = Some bk' ∧ md_leads (of_book t us) (mirror bk) (mirror bk')) as Hlead.
  { intros t bk Hbk. destruct (lookup_lt_is_Some_2 bks' t) as [bk' Hbk']; [apply lookup_lt_Some in Hbk; lia|].
    exists bk'. split; [done|]. apply Hld; [by rewrite list_lookup_fmap, Hbk|done]. }
  rewrite <- (mirror_view bks) in Hroom |- *. rewrite <- (mirror_view bks').
  destruct (snap_oks_fits n us (λ _, 0) (mirror <$> bks)) as [Hok Hend]; [|done| |by eapply Forall_impl; [exact Hnc|]; intros u []| |done|].
  - apply Forall_fmap. eapply Forall_impl; [exact Hwf|]. intros bk Hb. apply mirror_market_book, Hb.
  - rewrite length_fmap, Hlen. exact Hu.
  - intros t bk. rewrite list_lookup_fmap. destruct (bks !! t) as [bk0|] eqn:E; [|done]. intros [= <-].
    by destruct (Hlead t bk0 E) as (bk' & _ & [Hf _]).
  - split; [exact Hok|]. rewrite Hend. f_equal. apply list_eq. intros t.
    rewrite books_end_lookup by (eapply Forall_impl; [exact Hu|]; by intros u [? _]).
    rewrite !list_lookup_fmap. destruct (bks !! t) as [bk|] eqn:E.
    + destruct (Hlead t bk E) as (bk' & -> & [_ Hl]). cbn. by rewrite Hl.
    + apply lookup_ge_None in E. assert (bks' !! t = None) as -> by (apply lookup_ge_None; lia). done.
Qed.

(** The client's own requests carry its id. *)
Lemma run_clients e wm reqs rs bks us qs :
  market_ok c (world e wm reqs rs bks us) → holds (outgoing_ogw_requests_ e) qs →
  Forall (λ q, req_client_id_ q = c) (reqs ++ qs).
Proof.
  intros [[_ _ _ _ (own & qs' & Hqs' & Hl)] _ _ _ _] Hqs. cbn [world mw_world w_engine w_requests w_answers w_exchange] in *.
  assert (qs' = qs) as -> by (by rewrite <- (holds_contents _ _ Hqs), (holds_contents _ _ Hqs')).
  pose proof (lk_requests _ _ _ _ _ _ Hl) as Hwf. apply Forall_forall. intros q Hq.
  rewrite Forall_forall in Hwf. destruct (Hwf q Hq) as (Ht & Hlt & Hs).
  destruct (linked_at _ _ _ _ _ _ _ _ Hl Ht Hlt Hs) as (o & bk & _ & _ & _ & [_ Hreqs _ _]).
  rewrite Forall_forall in Hreqs. assert (q ∈ requests_for (req_ticker_id_ q) (req_side_ q) (reqs ++ qs)) as Hin.
  { apply list_elem_of_filter. done. }
  by destruct (Hreqs q Hin).
Qed.
End runs.

(** ** The system *)
Record System := mkSystem {
  sy_path : OrderPath;
  sy_publisher : MarketDataPublisher;
  sy_synthesizer : SnapshotSynthesizer;
  sy_consumer : MarketDataConsumer;
  sy_trader : TradeEngine
}.

(** What is not the system's in a round: the requests of other clients that the sequencer publishes, which
    connections are theirs and in which state, what TCP makes of the bytes in both directions, and the
    times. *)
Record Environment := mkEnvironment {
  env_requests : list MEClientRequest;
  env_sockets : gmap nat TCPSocket;
  env_owners : list (option nat);
  env_out : network;
  env_back : network;
  env_snapshot_clock : Z * Z;
  env_kernel_time : Z;
  env_clock : nat → Z;
  env_clock' : nat → Z
}.

Definition og_set_queues (requests : LFQueue MEClientRequest) (responses : LFQueue MEClientResponse) (g : OrderGateway) :
    OrderGateway :=
  mkOrderGateway (og_client_id_ g) requests responses (og_run_ g) (next_outgoing_seq_num_ g) (next_exp_seq_num_ g).
Definition os_set_owners (owners : list (option nat)) (o : OrderServer) : OrderServer :=
  mkOrderServer (outgoing_responses_ o) (os_run_ o) (cid_next_outgoing_seq_num_ o) (cid_next_exp_seq_num_ o) owners (fifo_sequencer_ o).
Definition mdp_set_snapshots (q : LFQueue MDPMarketUpdate) (x : MarketDataPublisher) : MarketDataPublisher :=
  mkMarketDataPublisher (next_inc_seq_num_ x) (mdp_outgoing_md_updates_ x) q (mdp_run_ x) (incremental_socket_ x).

Section System.
Context `{Limits, BufferSizes, StdSortSpec}.
Implicit Types (c p : nat) (v : Environment) (S : System).

(** The components share their queues, others have connected, and the sequencer has published what they have
    sent; the connection [p] of the client [c] is as it was. *)
Definition enter v c p S : OrderPath :=
  let P := sy_path S in
  let o := os_set_owners (match cid_tcp_socket_ (op_server P) !! c with
                          | Some w => <[c := w]> (env_owners v) | None => env_owners v end) (op_server P) in
  mkOrderPath
    (og_set_queues (outgoing_ogw_requests_ (sy_trader S)) (incoming_ogw_responses_ (sy_trader S)) (op_gateway P))
    (op_link P)
    (os_set_queues (push_all (env_requests v) (fifo_incoming_requests_ (fifo_sequencer_ o))) (outgoing_responses_ o) o)
    (match op_sockets P !! p with Some s => <[p := s]> (env_sockets v) | None => env_sockets v end)
    (me_set_updates (mdp_outgoing_md_updates_ (sy_publisher S)) (op_engine P)).

(** A round of all threads: the gateway's requests go to the matching engine and the answers come
    back, the updates go to the consumer, and the trade engine handles both; then the synthesizer reads what
    the publisher has queued for it.  Its datagrams go to a group that only a recovering consumer joins. *)
Definition system_round c p v S : result System :=
  P ← order_round p (env_out v) (env_back v) (enter v c p S);
  let e := te_set_responses (og_incoming_responses_ (op_gateway P))
             (te_set_orders (order_manager_ (sy_trader S), og_outgoing_requests_ (op_gateway P)) (sy_trader S)) in
  z ← market_round (outgoing_md_updates_ (outgoing_ (op_engine P))) (env_kernel_time v) (env_clock v) (env_clock' v)
        (sy_publisher S) (sy_consumer S) e;
  w ← ss_run_round (env_snapshot_clock v).1 (env_snapshot_clock v).2 (snapshot_md_updates_ z.1.1) (sy_synthesizer S);
  mret (mkSystem P (mdp_set_snapshots w.1.1 z.1.1) w.1.2 z.1.2 z.2).

Fixpoint system_rounds c p (vs : list Environment) S : result System :=
  match vs with [] => Ok S | v :: vs => S ← system_round c p v S; system_rounds c p vs S end.

(** ** Between two rounds *)

(** The exchange's books are [bks]; nothing is under way but the requests in the trade engine's queue. *)
Record system_ok c p bks S : Prop := {
  so_client : Z.of_nat c < ME_MAX_NUM_CLIENTS;
  so_path : ∃ l us, path_ok c p bks [] [] l us (sy_path S);
  so_market : market_ready (sy_publisher S) (sy_consumer S);
  so_updates : holds (mdp_outgoing_md_updates_ (sy_publisher S)) [];
  so_snapshots : holds (snapshot_md_updates_ (sy_publisher S)) [];
  so_synthesizer : synthesizer_ready (next_inc_seq_num_ (sy_publisher S)) (sy_synthesizer S) (view_of bks);
  so_running : te_run_ (sy_trader S) = true;
  so_answers : holds (incoming_ogw_responses_ (sy_trader S)) [];
  so_inputs : holds (TradeEngine.incoming_md_updates_ (sy_trader S)) [];
  so_world : market_ok (Z.of_nat c) (world (sy_trader S) (mirror <$> bks) [] [] bks []);
  so_ids : ids_within bks
}.

(** The requests that the gateway sends in the next round, and all that the engine handles. *)
Definition own_requests S : list MEClientRequest := contents (outgoing_ogw_requests_ (sy_trader S)).
Definition all_requests v S : list MEClientRequest := env_requests v ++ own_requests S.

(** What a round needs.  The others send requests that the engine has room for, under their own ids; for
    the requests of this client there is room, and their prices leave room for the products of the feature
    engine; the synthesizer's pool has room for all orders; the network delivers, the requests one after the other; and queues, buffers and the client's
    64-bit order ids last. *)
Record round_ok c p v S bks : Prop := {
  ro_others : Forall (λ q, req_client_id_ q ≠ Z.of_nat c) (env_requests v);
  ro_input : round_input (env_requests v) bks;
  ro_own : Forall in_range (own_requests S) ∧ Forall small_request (own_requests S) ∧
    fits (own_requests S) (spec_steps (env_requests v) bks).1;
  ro_out : network_ok OMClientRequest (env_out v);
  ro_back : network_ok OMClientResponse (env_back v);
  ro_order : StronglySorted Z.lt (arrival_times (B := OMClientRequest)
    (env_out v (stream (numbered mkOMClientRequest (next_outgoing_seq_num_ (op_gateway (sy_path S))) (own_requests S)))));
  ro_owners : length (env_owners v) = length (cid_tcp_socket_ (op_server (sy_path S))) ∧
    ∀ d, env_owners v !! d = Some (Some p) → d = c;
  ro_published : (length (env_requests v) ≤ capacity (fifo_incoming_requests_ (fifo_sequencer_ (op_server (sy_path S)))))%nat;
  ro_path : path_room c p (env_requests v) (own_requests S) [] [] (spec_steps (all_requests v S) bks) (enter v c p S);
  ro_snapshots : (live_count (view_of bks) + adds (updates (spec_steps (all_requests v S) bks).2)
    < Z.to_nat ME_MAX_ORDER_IDS)%nat;
  ro_market : market_room (length (updates (spec_steps (all_requests v S) bks).2)) (sy_publisher S) (sy_trader S);
  ro_ids : ids_for (length (updates (spec_steps (all_requests v S) bks).2)) (sy_trader S)
}.

Lemma admissible_steps_app reqs1 reqs2 bks :
  admissible_steps (reqs1 ++ reqs2) bks ↔ admissible_steps reqs1 bks ∧ admissible_steps reqs2 (spec_steps reqs1 bks).1.
Proof. revert bks. induction reqs1 as [|q reqs1 IH]; intros bks; cbn; [tauto|]. rewrite IH. tauto. Qed.

Hypothesis Hclients : 0 < ME_MAX_NUM_CLIENTS.
Hypothesis Hids : ME_MAX_ORDER_IDS < 2 ^ 64 - 1.
Hypothesis Hrequest : (wire_size (A := OMClientRequest) ≤ TCPBufferSize)%nat.
Hypothesis Hresponse : (wire_size (A := OMClientResponse) ≤ TCPBufferSize)%nat.
Hypothesis Hcycle : (42 * (2 + Z.to_nat ME_MAX_TICKERS) < McastBufferSize)%nat.

Lemma own_requests_held c p bks S : system_ok c p bks S → holds (outgoing_ogw_requests_ (sy_trader S)) (own_requests S).
Proof.
  intros Hok. destruct (lo_linked _ _ (mo_loop _ _ (so_world _ _ _ _ Hok))) as (own & qs & Hqs & _).
  unfold own_requests. cbn [world mw_world w_engine] in Hqs. by rewrite (holds_contents _ _ Hqs).
Qed.

(** What the order path begins with. *)
Lemma enter_ok c p v bks S :
  system_ok c p bks S → round_ok c p v S bks →
  path_ok c p bks (env_requests v) (own_requests S) [] [] (enter v c p S).
Proof.
  intros Hok [_ _ _ _ _ _ [Hlen Huniq] Hroom _ _ _ _]. pose proof (own_requests_held _ _ _ _ Hok) as Hown. destruct Hok as [_ (l & us & Hp) _ Hu _ _ _ Ha _ _ _].
  destruct Hp as [P1 P2 _ _ (s & Hs & Hi) [P6 P6'] P7 P8 P9 P10 P11 P12 P13 P14 _].
  constructor; cbn [enter op_gateway op_link op_server op_sockets op_engine og_set_queues og_client_id_ og_outgoing_requests_
    og_incoming_responses_ next_outgoing_seq_num_ next_exp_seq_num_]; try done.
  - rewrite Hs. exists s. split; [apply lookup_insert_eq|done].
  - assert (c < length (env_owners v))%nat as Hlt by (rewrite Hlen; destruct P6; by eapply lookup_lt_Some).
    assert (∃ w, cid_tcp_socket_ (op_server (sy_path S)) !! c = Some w ∧ (w = None ∨ w = Some p)) as (w & Hw & Hor)
      by (destruct P6; by eauto).
    unfold owner_ok. cbn [os_set_queues os_set_owners cid_tcp_socket_]. rewrite Hw. split.
    + rewrite list_lookup_insert_eq by done. destruct Hor as [-> | ->]; [by left|by right].
    + intros d. destruct (decide (c = d)) as [<-|Hne]; [done|]. rewrite list_lookup_insert_ne by done. apply Huniq.
  - by apply (holds_push_all _ []).
Qed.

(** All requests of a round are as the engine expects them. *)
Lemma all_input c p v bks S : system_ok c p bks S → round_ok c p v S bks → round_input (all_requests v S) bks.
Proof.
  intros Hok Hr. pose proof (own_requests_held _ _ _ _ Hok) as Hown. destruct Hok as [Hcl _ _ _ _ _ _ _ _ Hw _].
  destruct Hr as [Hoth (Ha & Hrange & Hsm & Hmax) (Hrange' & Hsm' & Hfit) _ _ _ _ _ _ _ _ _]. unfold all_requests.
  assert (Forall (λ q, 0 ≤ req_ticker_id_ q) (env_requests v)) as Ht.
  { eapply Forall_impl; [exact Hrange|]. by intros y (_ & [? _] & _). }
  pose proof (run_others _ Hclients (env_requests v) _ _ [] [] bks [] Hw Ha Ht Hsm Hoth Hmax) as Hw1. cbv zeta in Hw1.
  destruct (lo_linked _ _ (mo_loop _ _ Hw1)) as (own & qs & Hqs & Hl). cbn [world mw_world w_engine w_requests w_exchange app] in Hqs, Hl.
  assert (qs = own_requests S) as -> by (by rewrite <- (holds_contents _ _ Hqs), (holds_contents _ _ Hown)).
  rewrite <- (app_nil_r (own_requests S)) in Hl.
  destruct (own_admissible _ Hids _ _ _ _ _ _ Hcl Hl Hmax Hfit) as [Ha' Hmax'].
  split_and!; [by apply admissible_steps_app|by apply Forall_app|by apply Forall_app|]. by rewrite spec_steps_app.
Qed.

(** The events of a round. *)
Lemma round_world c p v S bks q :
  system_ok c p bks S → round_ok c p v S bks → holds q [] → capacity q = capacity (outgoing_ogw_requests_ (sy_trader S)) →
  let x := spec_steps (all_requests v S) bks in
  market_ok (Z.of_nat c) (world (te_set_orders (order_manager_ (sy_trader S), q) (sy_trader S)) (mirror <$> bks) []
    (sent_to (Z.of_nat c) x.2) x.1 (updates x.2)).
Proof.
  intros Hok Hr Hq Hcap x. pose proof (own_requests_held _ _ _ _ Hok) as Hown. pose proof (ro_others _ _ _ _ _ Hr) as Hoth.
  destruct (all_input _ _ _ _ _ Hok Hr) as (Ha & Hrange & Hsm & Hmax). pose proof (so_world _ _ _ _ Hok) as Hw.
  unfold x, all_requests in *.
  apply admissible_steps_app in Ha as [Ha1 Ha2]. apply Forall_app in Hsm as [Hsm1 Hsm2].
  apply Forall_app in Hrange as [Hr1 _]. rewrite spec_steps_app in Hmax |- *. cbn [fst snd] in Hmax |- *.
  pose proof (loop_wf _ _ (mo_loop _ _ Hw)) as Hwf. cbn [world mw_world w_exchange] in Hwf.
  pose proof (ids_within_steps _ _ (wf_spec_steps _ _ Hwf Ha1) Ha2 Hmax) as Hmax1.
  rewrite sent_to_app, updates_app.
  apply (run_exchange _ Hclients Hids (own_requests S)); [|done..].
  apply (run_gateway _ _ _ [] _ _ _ _ _); [|done..].
  apply (run_others _ Hclients (env_requests v) _ _ [] [] bks []); [done|done| |done|done|done].
  eapply Forall_impl; [exact Hr1|]. by intros y (_ & [? _] & _).
Qed.

(** A round of the system. *)
Lemma system_round_ok c p v S bks :
  system_ok c p bks S → round_ok c p v S bks →
  ∃ S', system_round c p v S = Ok S' ∧ system_ok c p (spec_steps (all_requests v S) bks).1 S'.
Proof.
  intros Hok Hr. pose proof (own_requests_held _ _ _ _ Hok) as Hown.
  pose proof (enter_ok c p v bks S Hok Hr) as Hen.
  pose proof (run_clients _ _ _ [] _ _ _ _ (so_world _ _ _ _ Hok) Hown) as Hcl. cbn [app] in Hcl.
  destruct (all_input _ _ _ _ _ Hok Hr) as (Ha & Hrange & _ & Hmax). unfold all_requests in Hrange.
  apply Forall_app in Hrange as [Hr1 Hr2]. pose proof (po_numbers _ _ _ _ _ _ _ _ Hen) as [Hn _].
  set (n := next_outgoing_seq_num_ (op_gateway (sy_path S))) in *.
  change (next_outgoing_seq_num_ (op_gateway (enter v c p S))) with n in Hn.
  set (bytes := stream (numbered mkOMClientRequest n (own_requests S))).
  assert (sequenced (env_out v bytes) (own_requests S) = own_requests S) as Hseq.
  { apply sequenced_in_order; [|exact (ro_order _ _ _ _ _ Hr)].
    apply (length_arrival_times (A := MEClientRequest) mkOMClientRequest n); [by apply numbered_in_range|].
    apply (ro_out _ _ _ _ _ Hr). }
  destruct (order_round_spec c p (env_out v) (env_back v) bks (env_requests v) (own_requests S) [] [] (enter v c p S) Hen
    (ro_out _ _ _ _ _ Hr) (ro_back _ _ _ _ _ Hr) Hrequest Hresponse Hcl Hr2) as (_ & P & EP & HP & Hcap); [done|..].
  { change (next_outgoing_seq_num_ (op_gateway (enter v c p S))) with n. fold bytes. by rewrite Hseq. }
  { change (next_outgoing_seq_num_ (op_gateway (enter v c p S))) with n. fold bytes. rewrite Hseq. apply (ro_path _ _ _ _ _ Hr). }
  change (next_outgoing_seq_num_ (op_gateway (enter v c p S))) with n in HP. fold bytes in HP. rewrite Hseq in HP.
  fold (all_requests v S) in HP. cbn [app] in HP.
  set (x := spec_steps (all_requests v S) bks) in *. unfold system_round. rewrite EP. cbn [mbind result_bind]. cbv zeta.
  set (e := te_set_responses _ _).
  pose proof (round_world c p v S bks _ Hok Hr (po_requests _ _ _ _ _ _ _ _ HP) Hcap) as Hw. fold x in Hw.
  apply (market_core _ _ e) in Hw; [|by eexists _, (TradeEngine.incoming_md_updates_ (sy_trader S)), (last_event_time_ (sy_trader S))].
  destruct (run_events _ Hclients _ _ (env_clock' v) _ _ _ _ Hw (ro_ids _ _ _ _ _ Hr)) as [Hses Hend].
  destruct (po_books _ _ _ _ _ _ _ _ Hen) as [_ Hty]. destruct (steps_typed (all_requests v S) bks) as [Hev _]; [by apply Forall_app|done|done|].
  destruct (responses_typed _ Hev) as [_ Hus]. fold x in Hus.
  destruct (market_round_spec _ (updates x.2) (sent_to (Z.of_nat c) x.2) (env_kernel_time v) (env_clock v) (env_clock' v)
    (sy_publisher S) (sy_consumer S) e (mirror <$> bks)
    (po_updates _ _ _ _ _ _ _ _ HP) Hus) as (p' & c' & e' & e2 & Em & Hmr' & Hnext' & Hq' & Hsq' & Hh & Hcore & _ & Hans' & Hin' & Hrun');
    try done.
  { exact (so_market _ _ _ _ Hok). }
  { exact (ro_market _ _ _ _ _ Hr). }
  { exact (lo_safe _ _ (mo_loop _ _ Hw)). }
  { exact (so_running _ _ _ _ Hok). }
  { exact (po_answers _ _ _ _ _ _ _ _ HP). }
  { exact (so_inputs _ _ _ _ Hok). }
  rewrite Em. cbn [mbind result_bind fst snd].
  pose proof (loop_wf _ _ (mo_loop _ _ (so_world _ _ _ _ Hok))) as Hwf. cbn [world mw_world w_exchange] in Hwf.
  destruct (run_snapshot _ _ _ _ _ _ _ _ Hw Hwf Hus (steps_keep _ _) (ro_snapshots _ _ _ _ _ Hr)) as [Hsnap Hview].
  rewrite (holds_contents _ _ (so_snapshots _ _ _ _ Hok)) in Hsq'. cbn [app] in Hsq'.
  destruct (ss_round (updates x.2) _ _ _ _ (env_snapshot_clock v).1 (env_snapshot_clock v).2 (so_synthesizer _ _ _ _ Hok) Hsq' Hsnap)
    as (q' & ss' & out & Es & Hsq'' & Hss').
  { unfold view_of. rewrite length_fmap. pose proof (lo_tickers _ _ (mo_loop _ _ (so_world _ _ _ _ Hok))) as Hl.
    cbn [world mw_world w_exchange] in Hl. by rewrite Hl. }
  rewrite Es. cbn [mbind result_bind mret result_ret fst snd]. eexists. split; [reflexivity|]. rewrite Hview, <- Hnext' in Hss'.
  specialize (Hend _ Hh). pose proof (run_end _ _ _ _ _ _ Hend) as Hmir. rewrite Hmir in Hend.
  constructor; cbn [sy_path sy_publisher sy_synthesizer sy_consumer sy_trader]; try done;
    [by apply (so_client _ _ _ _ Hok)|by eexists _, _| |].
  { destruct Hmr'. constructor; try done. by eexists. }
  by apply (market_core _ e2).
Qed.

(** ** Round after round *)
Fixpoint rounds_ok c p (vs : list Environment) S bks : Prop :=
  match vs with
  | [] => True
  | v :: vs => round_ok c p v S bks ∧
      ∀ S', system_round c p v S = Ok S' → rounds_ok c p vs S' (spec_steps (all_requests v S) bks).1
  end.

(** All the requests that the matching engine handles, in order. *)
Fixpoint handled c p (vs : list Environment) S : list MEClientRequest :=
  match vs with
  | [] => []
  | v :: vs => all_requests v S ++ match system_round c p v S with Ok S' => handled c p vs S' | Err _ => [] end
  end.

Lemma system_rounds_ok c p vs S bks :
  system_ok c p bks S → rounds_ok c p vs S bks →
  ∃ S', system_rounds c p vs S = Ok S' ∧ system_ok c p (spec_steps (handled c p vs S) bks).1 S'.
Proof.
  revert S bks. induction vs as [|v vs IH]; intros S bks Hok; cbn [rounds_ok system_rounds handled].
  { intros _. by exists S. }
  intros [Hr Hrest]. destruct (system_round_ok c p v S bks Hok Hr) as (S1 & E1 & Hok1). rewrite E1. cbn [mbind result_bind].
  destruct (IH S1 _ Hok1 (Hrest S1 E1)) as (S2 & E2 & Hok2). exists S2. split; [done|]. by rewrite spec_steps_app.
Qed.

(** What the invariant says of the two sides. *)
Lemma system_facts c p bks S :
  system_ok c p bks S →
  exposures_kept (sy_trader S) ∧ Forall wf_book bks ∧
  Forall2 implements (ticker_order_book_ (op_engine (sy_path S))) bks ∧ snap_rep (sy_synthesizer S) (view_of bks) ∧
  Forall2 (λ b bk, implements (matching b) (mirror bk) ∧ bbo_ b = quote bk) (te_ticker_order_book_ (sy_trader S)) bks.
Proof.
  intros [_ (l & us & Hp) _ _ _ Hss _ _ _ Hw _]. pose proof (lo_safe _ _ (mo_loop _ _ Hw)) as Hs. split_and!.
  - by eapply safe_exposures.
  - exact (loop_wf _ _ (mo_loop _ _ Hw)).
  - apply (po_books _ _ _ _ _ _ _ _ Hp).
  - apply (sy_shows _ _ _ Hss).
  - pose proof (es_books _ _ Hs) as Hb. apply (Forall2_fmap_r mirror) in Hb. eapply Forall2_impl; [exact Hb|].
    intros b bk [Hi Hq]. split; [done|]. by rewrite Hq, mirror_quote.
Qed.
End System.
