(* ===== verification/LateJoin.v ===== *)
(** * A participant that joins later

    The snapshot of a book rebuilds the book: cleared, and told its orders by ascending id, the trading book
    is the image of the exchange's, queues of the levels included.  So a participant whose consumer recovers
    through a snapshot is in step with an exchange that has been running. *)
From S2P Require Import Prelude Types EngineSink BookSpec BookSweep BookInv BookReplay MEOrderBook BookRep BookRefine.
From S2P Require Import BookTheorems MatchingEngine MarketStream MarketOrderBook MarketBookSim MarketBookSpec MarketBookTheorems.
From S2P Require Import MarketMirror TradingMirror Wire Socket SnapshotSynthesizer MarketDataPublisher MarketDataConsumer LFQueue.
From S2P Require Import Double PositionKeeper RiskManager OrderManager FeatureEngine Algorithms TradeEngine OrderSafety TradingSafety.
From S2P Require Import BookTypes RecvFrames TradingLoop OrderTraffic ClosedMarket MarketPipeline.

Implicit Types (o : Order) (os : list Order) (ls : list Level) (s : Side) (bk : Book) (u : MEMarketUpdate) (us : list MEMarketUpdate).

(** ** Levels and the orders at a price *)
Definition at_price (p : Z) os : list Order := filter (λ o, s_price o = p) os.
Definition rest_all ls os : list Level := foldl (λ ls o, insert_order o ls) ls os.

Lemma at_price_app p os1 os2 : at_price p (os1 ++ os2) = at_price p os1 ++ at_price p os2.
Proof. apply filter_app. Qed.

Lemma at_price_level s p q os : Forall (order_ok s p) os → at_price q os = if decide (q = p) then os else [].
Proof.
  intros Hos. unfold at_price. case_decide as Hq.
  - apply filter_all. intros o Ho. rewrite Forall_forall in Hos. destruct (Hos o Ho) as (_ & -> & _). done.
  - induction Hos as [|o os (_ & Ho & _) _ IH]; [done|]. rewrite filter_cons_False by congruence. exact IH.
Qed.

Lemma at_price_none s q ls : side_ok s ls → q ∉ ls.*1 → at_price q (flat ls) = [].
Proof.
  induction ls as [|[p os] ls IH]; [done|]. intros ([_ Hf] & Hok & _)%side_ok_cons Hq. cbn in Hf, Hq.
  rewrite flat_cons, at_price_app, (at_price_level s p), decide_False, IH by (done || set_solver). done.
Qed.

Lemma at_price_cons s p os ls q :
  side_ok s ((p, os) :: ls) → at_price q (flat ((p, os) :: ls)) = if decide (q = p) then os else at_price q (flat ls).
Proof.
  intros ([_ Hf] & Hok & Hb)%side_ok_cons. cbn in Hf. rewrite flat_cons, at_price_app, (at_price_level s p) by done.
  case_decide as Hq; [|done]. subst q. rewrite (at_price_none s), app_nil_r; [done|done|].
  intros Hp. rewrite Forall_forall in Hb. specialize (Hb p Hp). by rewrite before_irrefl in Hb.
Qed.

(** A side is determined by its orders at each price. *)
Lemma side_ok_unique s ls ls' :
  side_ok s ls → side_ok s ls' → (∀ p, at_price p (flat ls) = at_price p (flat ls')) → ls = ls'.
Proof.
  assert (∀ p os ls p' os' ls', side_ok s ((p, os) :: ls) → side_ok s ((p', os') :: ls') →
    at_price p (flat ((p, os) :: ls)) = at_price p (flat ((p', os') :: ls')) → before s p p' = false) as Hhead.
  { intros p os l p' os' l' H1 H2 E. destruct (before s p p') eqn:Hb; [|done]. exfalso.
    rewrite (at_price_cons s p os), decide_True in E by done.
    rewrite (at_price_none s p ((p', os') :: l')) in E; [|done|].
    - apply side_ok_cons in H1 as ([Hne _] & _). by apply Hne.
    - apply side_ok_cons in H2 as (_ & _ & Hf). cbn. intros [->|Hp]%elem_of_cons; [by rewrite before_irrefl in Hb|].
      rewrite Forall_forall in Hf. specialize (Hf p Hp). apply before_asym in Hf. congruence. }
  revert ls'. induction ls as [|[p os] ls IH]; intros [|[p' os'] ls'] H1 H2 E; [done| | |].
  - specialize (E p'). rewrite (at_price_cons s), decide_True in E by done. apply side_ok_cons in H2 as ([Hne _] & _). by destruct Hne.
  - specialize (E p). rewrite (at_price_cons s), decide_True in E by done. apply side_ok_cons in H1 as ([Hne _] & _). by destruct Hne.
  - assert (p = p') as <-.
    { destruct (decide (p = p')) as [|Hne]; [done|].
      pose proof (Hhead _ _ _ _ _ _ H1 H2 (E p)) as Hb. apply before_total in Hb; [|done].
      by rewrite (Hhead _ _ _ _ _ _ H2 H1 (eq_sym (E p'))) in Hb. }
    assert (os = os') as <-.
    { specialize (E p). by rewrite !(at_price_cons s), !decide_True in E by done. }
    f_equal. pose proof H1 as (_ & Hok & Hf)%side_ok_cons. pose proof H2 as (_ & Hok' & Hf')%side_ok_cons.
    apply IH; [done|done|]. intros q. destruct (decide (q = p)) as [->|Hq].
    + rewrite !(at_price_none s); [done|done| |done|]; intros Hp; rewrite Forall_forall in Hf, Hf';
        [specialize (Hf' p Hp)|specialize (Hf p Hp)]; by rewrite before_irrefl in *.
    + specialize (E q). by rewrite !(at_price_cons s), !decide_False in E by done.
Qed.

(** Resting an order puts it behind the orders at its price. *)
Lemma at_price_insert s o ls q :
  side_ok s ls → order_ok s (s_price o) o → at_price q (flat (insert_order o ls)) = at_price q (flat ls) ++ at_price q [o].
Proof.
  intros Hok Ho. induction ls as [|[p os] ls IH]; [by cbn [insert_order flat mbind list_bind]; rewrite ?flat_cons, app_nil_r|].
  pose proof (insert_order_side_ok s o _ Hok Ho) as Hins. pose proof Hok as (_ & Hok' & Hf)%side_ok_cons. cbn [insert_order] in Hins |- *.
  rewrite (at_price_level s (s_price o) q [o]) by (by constructor).
  destruct (p =? s_price o) eqn:Ep; [|destruct (before (s_side o) p (s_price o)) eqn:Eb].
  - apply Z.eqb_eq in Ep as ->. rewrite !(at_price_cons s) by done. case_decide; [done|]. by rewrite app_nil_r.
  - apply Z.eqb_neq in Ep. rewrite !(at_price_cons s) by done. case_decide as Hq; [rewrite decide_False by congruence; by rewrite app_nil_r|].
    rewrite IH by done. by rewrite (at_price_level s (s_price o) q [o]) by (by constructor).
  - rewrite (at_price_cons s _ _ ((p, os) :: ls)) by done. case_decide as Hq; [|by rewrite app_nil_r]. subst q.
    rewrite (at_price_none s); [done|done|]. apply side_ok_cons in Hins as (_ & _ & Hb). intros Hp. rewrite Forall_forall in Hb.
    specialize (Hb _ Hp). by rewrite before_irrefl in Hb.
Qed.

Lemma rest_all_ok s os ls :
  side_ok s ls → Forall (λ o, order_ok s (s_price o) o) os →
  side_ok s (rest_all ls os) ∧ ∀ q, at_price q (flat (rest_all ls os)) = at_price q (flat ls) ++ at_price q os.
Proof.
  revert ls. induction os as [|o os IH]; intros ls Hok Hos; [split; [done|intros q; by rewrite app_nil_r]|].
  apply Forall_cons in Hos as [Ho Hos]. cbn [rest_all foldl]. fold (rest_all (insert_order o ls) os).
  destruct (IH (insert_order o ls) (insert_order_side_ok s o ls Hok Ho) Hos) as [Hs Hq]. split; [done|]. intros q.
  rewrite Hq, (at_price_insert s), <- app_assoc by done. f_equal. by rewrite <- at_price_app.
Qed.

(** Orders by ascending id are in one order only. *)
Lemma by_id_unique os os' : by_id os → by_id os' → os ≡ₚ os' → os = os'.
Proof.
  unfold by_id. revert os'. induction os as [|o os IH]; intros os' H1 H2 Hp; [by apply Permutation_nil_l in Hp|].
  destruct os' as [|x os']; [by apply Permutation_nil_r in Hp|]. rewrite fmap_cons in H1, H2.
  apply StronglySorted_inv in H1 as [H1 F1], H2 as [H2 F2]. rewrite Forall_forall in F1, F2.
  assert (o = x) as <-; [|f_equal; by apply IH, (Permutation_cons_inv (a := o))].
  assert (o ∈ x :: os') as [->|Ho]%elem_of_cons by (rewrite <- Hp; set_solver); [done|].
  assert (x ∈ o :: os) as [->|Hx]%elem_of_cons by (rewrite Hp; set_solver); [done|].
  assert (s_moid x < s_moid o) by (apply F2, list_elem_of_fmap; eauto).
  assert (s_moid o < s_moid x) by (apply F1, list_elem_of_fmap; eauto). lia.
Qed.

#[export] Instance at_price_proper p : Proper ((≡ₚ) ==> (≡ₚ)) (at_price p).
Proof. unfold at_price. by intros os os' ->. Qed.

(** Resting the orders of a side by ascending id rebuilds the side. *)
Lemma rest_all_rebuilds s ls os :
  side_ok s ls → levels_by_id ls → by_id os → os ≡ₚ flat ls → rest_all [] os = ls.
Proof.
  intros Hok Hid Hos Hp.
  assert (Forall (λ o, order_ok s (s_price o) o) os) as Hf.
  { apply Forall_forall. intros o Ho. rewrite Hp in Ho. clear -Hok Ho. induction ls as [|[p os'] ls IH]; [by apply not_elem_of_nil in Ho|].
    rewrite flat_cons in Ho. apply side_ok_cons in Hok as ([_ Hf] & Hok & _). apply elem_of_app in Ho as [Ho|Ho]; [|by apply IH].
    rewrite Forall_forall in Hf. destruct (Hf o Ho) as (H1 & H2 & H3). split; [done|by split]. }
  destruct (rest_all_ok s os [] ltac:(split; constructor) Hf) as [Hok' Hat]. apply (side_ok_unique s); [done|done|].
  intros p. rewrite Hat. change (at_price p (flat [])) with (@nil Order). cbn [app].
  apply by_id_unique; [unfold at_price; by apply by_id_filter| |by rewrite Hp].
  clear -Hok Hid. induction ls as [|[q os'] ls IH]; [constructor|]. apply Forall_cons in Hid as [Hq Hid].
  rewrite (at_price_cons s) by done. case_decide; [done|]. apply side_ok_cons in Hok as (_ & Hok & _). by apply IH.
Qed.

Lemma rest_all_flat os ls : flat (rest_all ls os) ≡ₚ os ++ flat ls.
Proof.
  revert ls. induction os as [|o os IH]; intros ls; [done|]. cbn [rest_all foldl]. fold (rest_all (insert_order o ls) os).
  by rewrite IH, insert_order_flat, <- Permutation_middle.
Qed.

Lemma rest_all_prices os ls p : p ∈ (rest_all ls os).*1 ↔ p ∈ ls.*1 ∨ p ∈ (s_price <$> os).
Proof.
  revert ls. induction os as [|o os IH]; intros ls; [set_solver|]. cbn [rest_all foldl]. fold (rest_all (insert_order o ls) os).
  rewrite IH, insert_order_prices. set_solver.
Qed.

(** ** The snapshot of a book *)
Definition of_side s os : list Order := filter (λ o, s_side o = s) os.

#[export] Instance of_side_proper s : Proper ((≡ₚ) ==> (≡ₚ)) (of_side s).
Proof. unfold of_side. by intros os os' ->. Qed.

Lemma of_side_app s os1 os2 : of_side s (os1 ++ os2) = of_side s os1 ++ of_side s os2.
Proof. apply filter_app. Qed.

Lemma sides_perm os : Forall (λ o, trading_side (s_side o)) os → of_side Side_BUY os ++ of_side Side_SELL os ≡ₚ os.
Proof.
  induction 1 as [|o os [Ho|Ho] _ IH]; [done| |]; unfold of_side in *; rewrite !filter_cons, Ho;
    [rewrite decide_True, decide_False by done|rewrite decide_False, decide_True by done]; cbn [app].
  - by rewrite IH.
  - by rewrite <- Permutation_middle, IH.
Qed.

(** Updates that only bring orders. *)
Definition brings u : Prop := upd_type_ u = MarketUpdateType_ADD ∧ trading_side (upd_side_ u).

Lemma md_after_adds us bk s :
  Forall brings us → trading_side s →
  sel s (levels (md_after us bk)) = rest_all (sel s (levels bk)) (of_side s (order_of_update <$> us)) ∧
  next_id (md_after us bk) = next_id bk.
Proof.
  intros Hus Hs. revert bk. induction Hus as [|u us [Ht Hu] _ IH]; intros bk; [done|].
  change (md_after (u :: us) bk) with (md_after us (spec_md u bk)). destruct (IH (spec_md u bk)) as [-> ->].
  unfold spec_md. rewrite Ht. cbn [levels next_id]. split; [|done]. unfold of_side. rewrite fmap_cons, filter_cons. cbn [order_of_update s_side].
  case_decide as E.
  - subst s. by rewrite sel_upd.
  - assert (s = opp (upd_side_ u)) as -> by (destruct Hs as [->| ->], Hu as [E'|E']; rewrite E' in *; done).
    by rewrite sel_opp_upd.
Qed.

Lemma mask_update t o : order_of_update (order_update t (s_moid o) (shown o)) = mask o.
Proof. done. Qed.

Lemma snapshot_by_id (m : gmap Z Shown) t k n :
  let os := order_of_update <$> omap (λ i, order_update t (Z.of_nat i) <$> m !! Z.of_nat i) (seq k n) in
  by_id os ∧ Forall (λ o, Z.of_nat k ≤ s_moid o) os.
Proof.
  revert k. induction n as [|n IH]; intros k; [split; constructor|]. destruct (IH (S k)) as [Hs Hf]. cbn [seq omap list_omap].
  assert (Forall (λ o, Z.of_nat k ≤ s_moid o)
    (order_of_update <$> omap (λ i, order_update t (Z.of_nat i) <$> m !! Z.of_nat i) (seq (S k) n))) as Hf'
    by (eapply Forall_impl; [exact Hf|]; intros o Ho; cbn in Ho; lia).
  destruct (m !! Z.of_nat k) as [x|]; [|done]. cbn [fmap option_fmap option_map list_fmap]. split.
  - unfold by_id. rewrite fmap_cons. constructor; [done|]. apply Forall_fmap. eapply Forall_impl; [exact Hf|].
    intros o Ho. cbn in Ho |- *. lia.
  - by constructor.
Qed.

Lemma by_id_NoDup os : by_id os → NoDup (s_moid <$> os).
Proof.
  unfold by_id. induction (s_moid <$> os) as [|i l IH]; [constructor|]. intros [Hs Hf]%StronglySorted_inv.
  constructor; [|by apply IH]. intros Hi. rewrite Forall_forall in Hf. specialize (Hf i Hi). lia.
Qed.

Section snapshot.
Context (bk : Book) (t n : nat) (Hwf : wf_book bk) (Hn : next_id bk ≤ Z.of_nat n).

Definition snapshot_updates : list MEMarketUpdate := ticker_updates n t (book_map bk).
Definition snapshot_orders : list Order := order_of_update <$> snapshot_updates.

Lemma snapshot_orders_by_id : by_id snapshot_orders.
Proof. apply snapshot_by_id. Qed.

Lemma snapshot_orders_perm : snapshot_orders ≡ₚ mask <$> book_orders bk.
Proof.
  apply NoDup_Permutation.
  - eapply NoDup_fmap_1, by_id_NoDup, snapshot_orders_by_id.
  - apply (NoDup_fmap_1 s_moid). rewrite <- list_fmap_compose. apply Hwf.
  - intros o. unfold snapshot_orders, snapshot_updates, ticker_updates. rewrite !list_elem_of_fmap. split.
    + intros (u & -> & (i & Hi & Hu)%list_elem_of_omap). apply fmap_Some in Hu as (x & Hx & ->).
      apply book_map_lookup in Hx as (o' & Ho' & Hm & <-); [|apply Hwf]. exists o'. split; [|done]. by rewrite <- Hm.
    + intros (o' & -> & Ho'). exists (order_update t (s_moid o') (shown o')). split; [done|]. pose proof (wf_old _ Hwf o' Ho') as Hid.
      apply list_elem_of_omap. exists (Z.to_nat (s_moid o')). split; [apply elem_of_seq; lia|]. rewrite Z2Nat.id by lia.
      assert (book_map bk !! s_moid o' = Some (shown o')) as -> by (apply book_map_lookup; [apply Hwf|eauto]). done.
Qed.

(** Part of the snapshot. *)
Lemma snapshot_brings : Forall brings (snapshot_updates).
Proof.
  apply Forall_forall. intros u Hu. assert (order_of_update u ∈ snapshot_orders) as Ho by (apply list_elem_of_fmap; eauto).
  rewrite snapshot_orders_perm in Ho. apply list_elem_of_fmap in Ho as (o & Ho & Hin).
  apply list_elem_of_omap in Hu as (i & _ & (x & _ & ->)%fmap_Some). split; [done|].
  assert (upd_side_ (order_update t (Z.of_nat i) x) = s_side o) as -> by (by injection Ho).
  destruct (wf_bids _ Hwf) as [Hb _], (wf_asks _ Hwf) as [Ha _].
  apply elem_of_app in Hin as [Hin|Hin]; [left|right]; apply list_elem_of_bind in Hin as (l & Hin & Hl);
    [rewrite Forall_forall in Hb; destruct (Hb l Hl) as [_ Hf]|rewrite Forall_forall in Ha; destruct (Ha l Hl) as [_ Hf]];
    rewrite Forall_forall in Hf; by destruct (Hf o Hin).
Qed.
End snapshot.

Lemma mask_ok s p o : order_ok s p o → order_ok s p (mask o).
Proof. done. Qed.

Lemma mirror_side_ok s ls : side_ok s ls → side_ok s (mirror_levels ls).
Proof.
  intros [Hl Hs]. split; [|by rewrite mirror_fst]. apply Forall_fmap. eapply Forall_impl; [exact Hl|].
  intros [p os] [Hne Hf]. split; [by destruct os|]. cbn in *. apply Forall_fmap. eapply Forall_impl; [exact Hf|]. by intros o ?%mask_ok.
Qed.

Lemma mirror_by_id ls : levels_by_id ls → levels_by_id (mirror_levels ls).
Proof.
  intros Hl. apply Forall_fmap. eapply Forall_impl; [exact Hl|]. intros [p os] Ho. unfold by_id in *. cbn in *.
  rewrite <- list_fmap_compose. exact Ho.
Qed.

Lemma side_orders s ls : side_ok s ls → Forall (λ o, order_ok s (s_price o) o) (flat ls) ∧ ∀ o, o ∈ flat ls → s_price o ∈ ls.*1.
Proof.
  induction ls as [|[p os] ls IH]; [split; [constructor|by intros o Ho%not_elem_of_nil]|].
  intros ([_ Hf] & Hok & _)%side_ok_cons. cbn in Hf. destruct (IH Hok) as [Ho Hp]. rewrite flat_cons. split.
  - apply Forall_app. split; [|done]. eapply Forall_impl; [exact Hf|]. intros o (H1 & H2 & H3). split; [done|]. by split.
  - intros o [Hin|Hin]%elem_of_app; cbn; [|right; by apply Hp]. rewrite Forall_forall in Hf. destruct (Hf o Hin) as (_ & -> & _). by left.
Qed.

Lemma of_side_all s os : (∀ o, o ∈ os → s_side o = s) → of_side s os = os.
Proof. apply filter_all. Qed.
Lemma of_side_none s os : (∀ o, o ∈ os → s_side o ≠ s) → of_side s os = [].
Proof.
  unfold of_side. induction os as [|o os IH]; intros Ho; [done|]. rewrite filter_cons_False by (apply Ho; set_solver). apply IH. set_solver.
Qed.

(** The orders of a side of the snapshot. *)
Lemma mirror_of_side s bk :
  wf_book bk → trading_side s → of_side s (mask <$> book_orders bk) ≡ₚ flat (sel s (levels (mirror bk))).
Proof.
  intros Hwf Hs. pose proof (proj1 (wf_book_side s bk Hs) Hwf) as (Hok1 & Hok2 & _).
  rewrite (book_orders_perm s bk Hs), fmap_app, of_side_app, sel_mirror, flat_mirror.
  pose proof (proj1 (side_orders _ _ Hok1)) as F1. pose proof (proj1 (side_orders _ _ Hok2)) as F2. rewrite Forall_forall in F1, F2.
  rewrite of_side_all, of_side_none, app_nil_r; [done| |].
  - intros o (o' & -> & Ho')%list_elem_of_fmap. destruct (F2 o' Ho') as (E & _). cbn. rewrite E. by destruct Hs as [->| ->].
  - intros o (o' & -> & Ho')%list_elem_of_fmap. by destruct (F1 o' Ho').
Qed.

(** A cleared book that is told the orders is the image of the book. *)
Lemma snapshot_rebuilds bk t n :
  wf_book bk → book_by_id bk → next_id bk ≤ Z.of_nat n → md_after (snapshot_updates bk t n) empty_market_book = mirror bk.
Proof.
  intros Hwf Hid Hn. assert (∀ s, trading_side s → sel s (levels (md_after (snapshot_updates bk t n) empty_market_book)) = sel s (levels (mirror bk)) ∧
    next_id (md_after (snapshot_updates bk t n) empty_market_book) = 0) as Hs.
  { intros s Hs. destruct (md_after_adds _ empty_market_book s (snapshot_brings bk t n Hwf Hn) Hs) as [-> ->]. split; [|done].
    pose proof (proj1 (wf_book_side s bk Hs) Hwf) as (Hok & _). apply (book_by_id_side s) in Hid as [Hid _]; [|done].
    assert (sel s (levels empty_market_book) = []) as -> by (by destruct Hs as [->| ->]). fold (snapshot_orders bk t n).
    apply (rest_all_rebuilds s).
    - rewrite sel_mirror. by apply mirror_side_ok.
    - rewrite sel_mirror. by apply mirror_by_id.
    - unfold of_side. apply by_id_filter. apply snapshot_orders_by_id.
    - rewrite <- (mirror_of_side s bk Hwf Hs). unfold of_side. by rewrite (snapshot_orders_perm bk t n Hwf Hn). }
  destruct (Hs Side_BUY (or_introl eq_refl)) as [H1 H3], (Hs Side_SELL (or_intror eq_refl)) as [H2 _].
  destruct (md_after _ _) as [[b a] i]. change (b = mirror_levels (levels bk).1) in H1.
  change (a = mirror_levels (levels bk).2) in H2. cbn in H3. by subst.
Qed.

(** ** The snapshot fits an empty book *)
Section fits.
Context `{Limits}.

Definition distinct_slots bk : Prop :=
  ∀ p q, p ∈ prices bk → q ∈ prices bk → priceToIndex p = priceToIndex q → p = q.

Lemma md_fits_all us bk : (∀ us1 u us2, us = us1 ++ u :: us2 → md_ok u (md_after us1 bk)) → md_fits us bk.
Proof.
  revert bk. induction us as [|u us IH]; intros bk Hok; [done|]. split; [by apply (Hok [] u us)|].
  apply IH. intros us1 u' us2 ->. by apply (Hok (u :: us1) u' us2).
Qed.

Lemma price_in_side s bk p : trading_side s → p ∈ prices bk ↔ p ∈ (sel s (levels bk)).*1 ∨ p ∈ (sel (opp s) (levels bk)).*1.
Proof. unfold prices. rewrite elem_of_app. intros [->| ->]; cbn; tauto. Qed.

(** What part of the snapshot has made of the book. *)
Lemma snapshot_part bk t n us1 us2 :
  wf_book bk → next_id bk ≤ Z.of_nat n → snapshot_updates bk t n = us1 ++ us2 →
  let P := md_after us1 empty_market_book in
  book_orders P ≡ₚ order_of_update <$> us1 ∧
  (∀ s, trading_side s → side_ok s (sel s (levels P)) ∧ ∀ p, p ∈ (sel s (levels P)).*1 → p ∈ (sel s (levels bk)).*1).
Proof.
  intros Hwf Hn E P. pose proof (snapshot_brings bk t n Hwf Hn) as Hb. rewrite E in Hb. apply Forall_app in Hb as [Hb _].
  assert (∀ o, o ∈ (order_of_update <$> us1) → ∃ o', o' ∈ book_orders bk ∧ o = mask o') as Hin.
  { intros o Ho. assert (o ∈ snapshot_orders bk t n) as Hs by (unfold snapshot_orders; rewrite E, fmap_app; set_solver).
    rewrite (snapshot_orders_perm bk t n Hwf Hn) in Hs. apply list_elem_of_fmap in Hs as (o' & -> & ?). by exists o'. }
  assert (∀ s, trading_side s → sel s (levels P) = rest_all [] (of_side s (order_of_update <$> us1))) as Hsel.
  { intros s Hs. unfold P. rewrite (proj1 (md_after_adds us1 empty_market_book s Hb Hs)). by destruct Hs as [->| ->]. }
  split.
  - unfold book_orders. pose proof (Hsel Side_BUY (or_introl eq_refl)) as H1. pose proof (Hsel Side_SELL (or_intror eq_refl)) as H2.
    change (sel Side_BUY (levels P)) with (levels P).1 in H1. change (sel Side_SELL (levels P)) with (levels P).2 in H2.
    rewrite H1, H2, !rest_all_flat. cbn [flat mbind list_bind]. rewrite !app_nil_r. apply sides_perm.
    apply Forall_fmap. eapply Forall_impl; [exact Hb|]. by intros u [_ Hu].
  - intros s Hs. rewrite (Hsel s Hs). pose proof (proj1 (wf_book_side s bk Hs) Hwf) as (Hok1 & Hok2 & _).
    assert (∀ o, o ∈ of_side s (order_of_update <$> us1) → order_ok s (s_price o) o ∧ s_price o ∈ (sel s (levels bk)).*1) as Hf.
    { intros o [Ho Hin']%list_elem_of_filter. destruct (Hin o Hin') as (o' & Ho' & ->). apply (book_orders_side s) in Ho' as [Ho'|Ho']; [| |done].
      - destruct (side_orders _ _ Hok1) as [F1 F2]. rewrite Forall_forall in F1. split; [exact (F1 o' Ho')|exact (F2 o' Ho')].
      - destruct (side_orders _ _ Hok2) as [F1 _]. rewrite Forall_forall in F1. destruct (F1 o' Ho') as (Hs' & _).
        cbn in Ho. rewrite Ho in Hs'. by destruct Hs as [->| ->]. }
    split.
    + apply (rest_all_ok s); [split; constructor|]. apply Forall_forall. intros o Ho. by apply Hf.
    + intros p [Hp|(o & -> & Ho)%list_elem_of_fmap]%rest_all_prices; [by apply not_elem_of_nil in Hp|]. by apply Hf.
Qed.

Lemma side_NoDup s ls : side_ok s ls → NoDup ls.*1.
Proof.
  intros [_ Hs]. induction ls.*1 as [|p l IH]; [constructor|]. apply StronglySorted_inv in Hs as [Hs Hf]. constructor; [|by apply IH].
  intros Hp. rewrite Forall_forall in Hf. specialize (Hf p Hp). by rewrite before_irrefl in Hf.
Qed.

Lemma part_prices_few (P bk : Book) :
  wf_book bk → (∀ s, trading_side s → side_ok s (sel s (levels P)) ∧ ∀ p, p ∈ (sel s (levels P)).*1 → p ∈ (sel s (levels bk)).*1) →
  (length (prices P) ≤ length (prices bk))%nat.
Proof.
  intros Hwf HP. destruct (HP Side_BUY (or_introl eq_refl)) as [B1 B2], (HP Side_SELL (or_intror eq_refl)) as [A1 A2].
  apply submseteq_length, NoDup_submseteq.
  - apply NoDup_app. split_and!; [by eapply side_NoDup| |by eapply side_NoDup].
    intros p Hb Ha. pose proof (wf_uncrossed _ Hwf p p (B2 p Hb) (A2 p Ha)). lia.
  - intros p. unfold prices. rewrite !elem_of_app. intros [Hp|Hp]; [left; by apply B2|right; by apply A2].
Qed.

Lemma snapshot_fits bk t n :
  wf_book bk → next_id bk ≤ Z.of_nat n → next_id bk ≤ ME_MAX_ORDER_IDS → 0 < ME_MAX_NUM_CLIENTS → distinct_slots bk → room bk →
  md_fits (snapshot_updates bk t n) empty_market_book.
Proof.
  intros Hwf Hn Hid Hc Hslots [Hr1 Hr2]. apply md_fits_all. intros us1 u us2 E.
  destruct (snapshot_part bk t n us1 (u :: us2) Hwf Hn E) as [Ho HP]. set (P := md_after us1 empty_market_book) in *.
  pose proof (snapshot_brings bk t n Hwf Hn) as Hb. rewrite E in Hb. apply Forall_app in Hb as [_ [[Ht Hs] _]%Forall_cons].
  pose proof (snapshot_orders_perm bk t n Hwf Hn) as Hp. pose proof (snapshot_orders_by_id bk t n) as Hbi.
  unfold snapshot_orders in Hp, Hbi. rewrite E, fmap_app, fmap_cons in Hp, Hbi.
  assert (order_of_update u ∈ mask <$> book_orders bk) as (o & Hu & Hin)%list_elem_of_fmap by (rewrite <- Hp; set_solver).
  assert (upd_side_ u = s_side o ∧ upd_price_ u = s_price o ∧ upd_qty_ u = s_qty o ∧ upd_order_id_ u = s_moid o) as (Es & Ep & Eq & Ei)
    by (unfold order_of_update, mask in Hu; by injection Hu).
  rewrite Es in Hs. pose proof (proj1 (wf_book_side _ bk Hs) Hwf) as (Hok1 & Hok2 & _).
  assert (order_ok (s_side o) (s_price o) o ∧ s_price o ∈ (sel (s_side o) (levels bk)).*1) as [(_ & _ & Hq) Hpr].
  { apply (book_orders_side (s_side o)) in Hin as [Hin|Hin]; [| |done].
    - destruct (side_orders _ _ Hok1) as [F1 F2]. rewrite Forall_forall in F1. split; [by apply F1|by apply F2].
    - destruct (side_orders _ _ Hok2) as [F1 _]. rewrite Forall_forall in F1. destruct (F1 o Hin) as (Hs' & _).
      by destruct Hs as [E'|E']; rewrite E' in Hs'. }
  unfold md_ok. rewrite Ht, Es, Ep, Eq, Ei. split; [done|]. split; [unfold is_u32; lia|]. split.
  - intros Hopp. apply (proj2 (HP _ (opp_trading _ Hs))) in Hopp. pose proof (wf_uncrossed _ Hwf) as Hun.
    destruct Hs as [E'|E']; rewrite E' in Hpr, Hopp; [specialize (Hun _ _ Hpr Hopp)|specialize (Hun _ _ Hopp Hpr)]; lia.
  - split_and!.
    + intros x Hx [_ Hk]. rewrite Ho in Hx. apply by_id_NoDup in Hbi. rewrite fmap_app, fmap_cons in Hbi.
      apply NoDup_app in Hbi as (_ & Hd & _). apply (Hd (s_moid o)); [|cbn; rewrite Ei; by left].
      apply list_elem_of_fmap in Hx as (u' & -> & Hu'). apply list_elem_of_fmap. exists (order_of_update u'). split; [by rewrite <- Hk|].
      apply list_elem_of_fmap. eauto.
    + intros q Hq'. apply Hslots; [|by apply (price_in_side _ _ _ Hs); left]. apply (price_in_side _ _ _ Hs) in Hq'.
      apply (price_in_side _ _ _ Hs). destruct Hq' as [Hq'|Hq']; [left; by apply (HP _ Hs)|right; by apply (HP _ (opp_trading _ Hs))].
    + split; [|pose proof (part_prices_few P bk Hwf HP); lia]. rewrite Ho, length_fmap. apply Permutation_length in Hp.
      rewrite length_app in Hp. cbn [length] in Hp. rewrite !length_fmap in Hp. lia.
    + lia.
    + pose proof (wf_old _ Hwf o Hin). lia.
Qed.

(** A CLEAR and the orders lead from an empty book to the image of the exchange's. *)
Lemma snapshot_leads bk t n :
  wf_book bk → book_by_id bk → next_id bk ≤ Z.of_nat n → next_id bk ≤ ME_MAX_ORDER_IDS → 0 < ME_MAX_NUM_CLIENTS →
  distinct_slots bk → room bk → md_leads (clear_update t :: snapshot_updates bk t n) empty_market_book (mirror bk).
Proof.
  intros Hwf Hbi Hn Hid Hc Hsl Hr. split; [split; [done|by apply snapshot_fits]|].
  change (md_after (snapshot_updates bk t n) empty_market_book = mirror bk). by apply snapshot_rebuilds.
Qed.
End fits.

(** ** The exchange's books as they run *)
Section exchange.
Context `{Limits}.

(** What of an exchange's book makes its snapshot fit. *)
Record shows bk : Prop := {
  sb_wf : wf_book bk;
  sb_ids : book_by_id bk;
  sb_slots : distinct_slots bk
}.

Lemma request_prices req bk p :
  wf_book bk → admissible req bk → p ∈ prices (spec_request req bk).1 →
  p ∈ prices bk ∨ (req_type_ req = ClientRequestType_NEW ∧ p = req_price_ req).
Proof.
  intros Hwf Ha. unfold spec_request. unfold admissible in Ha. destruct (req_type_ req); [done| |].
  - destruct Ha as (Hs & Hq & _). unfold spec_add. set (a := mkAggressor _ _ _ _ _ _). set (s := req_side_ req) in *.
    pose proof (proj1 (wf_book_side s bk Hs) Hwf) as (_ & Hok & _).
    destruct (sweep_remains a (req_qty_ req) _ ltac:(unfold is_u32 in Hq; lia) (side_ok_wf_levels _ _ Hok)) as (_ & Hr & _).
    destruct (remains_prices _ _ Hr) as [pre Hpre].
    destruct (sweep a _ _) as [[evs leaves] passive]. cbn [fst snd] in *.
    assert (∀ q, q ∈ passive.*1 → q ∈ (sel (opp s) (levels bk)).*1) as Hin by (intros q Hq'; rewrite Hpre; set_solver).
    rewrite (price_in_side _ bk _ Hs).
    destruct (leaves =? 0); cbn [fst]; rewrite (price_in_side _ _ _ Hs); cbn [levels].
    + rewrite sel_upd_opp, sel_upd by done. intros [?|?]; eauto.
    + rewrite !sel_upd, sel_opp_upd, sel_upd_opp, sel_upd by done. intros [[->|?]%insert_order_prices|?]; cbn; eauto.
  - intros Hp. left. revert Hp. unfold spec_cancel. destruct (find_order _ _ _); [|done]. unfold prices. cbn.
    rewrite !elem_of_app. intros [?%delete_order_prices|?%delete_order_prices]; eauto.
Qed.

Lemma shows_request req bk : shows bk → admissible req bk → shows (spec_request req bk).1.
Proof.
  intros [Hwf Hid Hsl] Ha. constructor.
  - by apply wf_spec_request.
  - unfold spec_request. unfold admissible in Ha. destruct (req_type_ req); [done| |by apply by_id_spec_cancel].
    destruct Ha as (? & Hq & _). apply by_id_spec_add; [done|done|unfold is_u32 in Hq; lia|done].
  - assert (req_type_ req = ClientRequestType_NEW → slot_free (req_price_ req) bk) as Hfree.
    { intros E. unfold admissible in Ha. rewrite E in Ha. destruct Ha as (_ & _ & _ & Hcr). apply Hcr. }
    intros p q [Hp|[E ->]]%request_prices [Hq|[E' ->]]%request_prices Hk; try done; [by apply Hsl|by apply Hfree|].
    symmetry. by apply Hfree.
Qed.

Lemma shows_steps reqs bks : Forall shows bks → admissible_steps reqs bks → Forall shows (spec_steps reqs bks).1.
Proof.
  revert bks. induction reqs as [|req reqs IH]; intros bks Hs; [done|]. intros [(bk & Hbk & Ha) Has]. cbn [spec_steps fst].
  apply IH; [|done]. unfold spec_step. rewrite Hbk. apply Forall_insert; [done|]. apply shows_request; [|done].
  exact (Forall_lookup_1 _ _ _ _ Hs Hbk).
Qed.

(** ** The snapshot of all books *)
Lemma of_book_app t us1 us2 : of_book t (us1 ++ us2) = of_book t us1 ++ of_book t us2.
Proof. apply filter_app. Qed.

Lemma of_book_ticker t t' us :
  Forall (λ u, upd_ticker_id_ u = Z.of_nat t') us → of_book t us = if decide (t = t') then us else [].
Proof.
  unfold of_book. induction 1 as [|u us Hu _ IH]; [by case_decide|]. case_decide as E.
  - subst t'. rewrite filter_cons_True, IH by done. done.
  - rewrite filter_cons_False by lia. exact IH.
Qed.

Lemma ticker_part n t (m : gmap Z Shown) : Forall (λ u, upd_ticker_id_ u = Z.of_nat t) (clear_update t :: ticker_updates n t m).
Proof.
  constructor; [done|]. apply Forall_forall. intros u (i & _ & Hu)%list_elem_of_omap. by apply fmap_Some in Hu as (x & _ & ->).
Qed.

Lemma of_book_body n k v t m :
  v !! t = Some m → of_book (k + t) (snapshot_body n k v) = clear_update (k + t) :: ticker_updates n (k + t) m.
Proof.
  revert k t. induction v as [|m' v IH]; intros k t; [done|]. cbn [snapshot_body]. rewrite of_book_app, (of_book_ticker _ k) by apply ticker_part.
  destruct t as [|t]; cbn [lookup list_lookup].
  - intros [= ->]. rewrite Nat.add_0_r, decide_True by done.
    assert (∀ w j, (k < j)%nat → of_book k (snapshot_body n j w) = []) as Hnil; [|rewrite Hnil by lia; by rewrite app_nil_r].
    clear. intros w. induction w as [|m w IH]; intros j Hj; [done|]. cbn [snapshot_body].
    rewrite of_book_app, (of_book_ticker _ j) by apply ticker_part. rewrite decide_False by lia. apply IH. lia.
  - intros Hm. rewrite decide_False by lia. cbn [app]. replace (k + S t)%nat with (S k + t)%nat by lia. by apply IH.
Qed.

Lemma body_member n k v u :
  u ∈ snapshot_body n k v → ∃ t m, v !! t = Some m ∧ u ∈ clear_update (k + t) :: ticker_updates n (k + t) m.
Proof.
  revert k. induction v as [|m v IH]; intros k; [by intros ?%not_elem_of_nil|]. cbn [snapshot_body].
  intros [Hu|Hu]%elem_of_app; [exists 0%nat, m; by rewrite Nat.add_0_r|].
  destruct (IH _ Hu) as (t & m' & Hm & Hu'). exists (S t), m'. split; [done|]. by replace (k + S t)%nat with (S k + t)%nat by lia.
Qed.

Lemma small_about_body n bks :
  Forall wf_book bks → Forall (λ bk, next_id bk ≤ Z.of_nat n) bks → Forall small_book (mirror <$> bks) →
  Forall (small_about (length bks)) (snapshot_body n 0 (view_of bks)).
Proof.
  intros Hwf Hn Hsm. apply Forall_forall. intros u (t & m & Hm & Hu)%body_member. cbn [plus] in Hu.
  unfold view_of in Hm. rewrite list_lookup_fmap in Hm. apply fmap_Some in Hm as (bk & Hbk & ->).
  pose proof (Forall_lookup_1 _ _ _ _ Hwf Hbk) as Hw. pose proof (Forall_lookup_1 _ _ _ _ Hn Hbk) as Hi. cbn beta in Hi.
  assert (small_book (mirror bk)) as [Hp _] by (eapply (Forall_lookup_1 _ _ _ _ Hsm); by rewrite list_lookup_fmap, Hbk).
  pose proof (ticker_part n t (book_map bk)) as Ht. rewrite Forall_forall in Ht. specialize (Ht u Hu). unfold small_about. rewrite Ht.
  split_and!; [lia|rewrite Nat2Z.id; by eapply lookup_lt_Some|]. unfold small_update.
  apply elem_of_cons in Hu as [->|Hu]; [done|]. intros _. apply Hp.
  assert (order_of_update u ∈ mask <$> book_orders bk) as (o & Ho & Hin)%list_elem_of_fmap.
  { rewrite <- (snapshot_orders_perm bk t n Hw Hi). apply list_elem_of_fmap. by exists u. }
  assert (upd_price_ u = s_price o) as -> by (by injection Ho).
  unfold prices. cbn [mirror levels fst snd]. rewrite !mirror_fst. apply elem_of_app.
  apply elem_of_app in Hin as [Hin|Hin]; [left; by apply (side_orders _ _ (wf_bids _ Hw))|right; by apply (side_orders _ _ (wf_asks _ Hw))].
Qed.

(** The snapshot and what the exchange has published since lead from empty books to the images of the exchange's. *)
Lemma join_leads n bks reqs t :
  0 < ME_MAX_NUM_CLIENTS → Forall shows bks → Forall room bks → admissible_steps reqs bks → Forall (λ r, 0 ≤ req_ticker_id_ r) reqs →
  Forall (λ bk, next_id bk ≤ ME_MAX_ORDER_IDS) (spec_steps reqs bks).1 → ME_MAX_ORDER_IDS ≤ Z.of_nat n → is_Some (bks !! t) →
  ∃ bk', (spec_steps reqs bks).1 !! t = Some bk' ∧
    md_leads (of_book t (snapshot_body n 0 (view_of bks) ++ updates (spec_steps reqs bks).2)) empty_market_book (mirror bk').
Proof.
  intros Hc Hs Hr Ha Ht Hids Hn [bk Hbk].
  assert (Forall wf_book bks) as Hwf by (eapply Forall_impl; [exact Hs|]; by intros b []).
  destruct (steps_mirror reqs bks t bk Hc Hwf Ha Ht Hbk) as (bk' & Hbk' & Hle & Hl). exists bk'. split; [done|].
  pose proof (Forall_lookup_1 _ _ _ _ Hids Hbk') as Hid. cbn beta in Hid. rewrite of_book_app.
  assert (view_of bks !! t = Some (book_map bk)) as Hv by (unfold view_of; by rewrite list_lookup_fmap, Hbk).
  pose proof (of_book_body n 0 _ t _ Hv) as Hb. cbn [plus] in Hb. rewrite Hb.
  eapply md_leads_app; [|by apply Hl]. destruct (Forall_lookup_1 _ _ _ _ Hs Hbk).
  apply snapshot_leads; try done; [lia|lia|exact (Forall_lookup_1 _ _ _ _ Hr Hbk)].
Qed.
End exchange.

(** ** The participant *)
Section join.
Context `{Limits, BufferSizes}.
Implicit Types (c : MarketDataConsumer) (e : TradeEngine) (clock : nat → Z).

(** A participant as it is constructed and started, and the kernel opens the snapshot socket when asked to. *)
Record newcomer c e : Prop := {
  nc_ready : consumer_ready 1 c;
  nc_socket : 0 ≤ mc_socket_fd_ (incremental_mcast_socket_ c);
  nc_kernel : ∃ (fd : Z) ks, 0 ≤ fd ∧ kernel_ c = (fd, true) :: ks;
  nc_trader : engine_safe e empty_books;
  nc_running : te_run_ e = true;
  nc_queues : holds (incoming_ogw_responses_ e) [] ∧ holds (TradeEngine.incoming_md_updates_ e) []
}.

(** The consumer polls its sockets for the messages [ms], and the trade engine does an iteration of its loop. *)
Definition join_round (ms : list (bool * MDPMarketUpdate)) clock clock' c e : result (MarketDataConsumer * TradeEngine) :=
  c ← deliver ms (mdc_set_updates (TradeEngine.incoming_md_updates_ e) c);
  x ← te_run_round clock clock' (te_set_updates (MarketDataConsumer.incoming_md_updates_ c) e);
  mret (mdc_set_updates (TradeEngine.incoming_md_updates_ x.2) c, x.2).

(** The exchange since it started, from books without orders: the requests before the snapshot and those after it. *)
Definition opened : list Book := replicate (Z.to_nat ME_MAX_TICKERS) empty_book.

Lemma opened_ok : Forall shows opened ∧ Forall book_typed opened ∧ Forall small_book (mirror <$> opened).
Proof.
  unfold opened. rewrite fmap_replicate. split_and!; apply Forall_replicate.
  - constructor; [apply wf_empty_book|split; constructor|by intros p q ?%not_elem_of_nil].
  - by split; [constructor|].
  - split; [by intros p ?%not_elem_of_nil|constructor].
Qed.

(** The books that the exchange's updates show are the exchange's. *)
Lemma opened_shown reqs e :
  0 < ME_MAX_NUM_CLIENTS → round_input reqs opened →
  let x := spec_steps reqs opened in
  Forall shows x.1 ∧ Forall book_typed x.1 ∧ Forall small_book (mirror <$> x.1) ∧ length x.1 = Z.to_nat ME_MAX_TICKERS ∧
  apply_mds (updates x.2) (view_of opened) = view_of x.1.
Proof.
  intros Hc (Ha & Hr & Hs & Hids) x. destruct opened_ok as (Hsh & Hty & Hsm).
  assert (Forall wf_book opened) as Hwf by (eapply Forall_impl; [exact Hsh|]; by intros b []).
  assert (Forall (λ r, 0 ≤ req_ticker_id_ r) reqs) as Ht by (eapply Forall_impl; [exact Hr|]; by intros r (_ & [? _] & _)).
  destruct (steps_typed reqs opened Hr Ha Hty) as [He Hty']. destruct (responses_typed _ He) as [_ Hus].
  destruct (run_leads reqs opened (λ _, 0) e Hc Hwf Ha Ht Hs Hids Hsm) as (_ & Hend & Hsm').
  destruct (steps_updates reqs opened Ha Ht Hs) as [Hab Hlen]. fold x in Hab, Hlen, Hend, Hsm'.
  split; [by apply shows_steps|]. split; [done|]. split; [done|]. split; [rewrite Hlen; apply length_replicate|].
  rewrite <- (mirror_view opened), <- (mirror_view x.1), <- Hend.
  apply (snap_oks_fits (S (live_count (view_of (mirror <$> opened)) + adds (updates x.2)))); [|done|by rewrite length_fmap| | |lia].
  - apply Forall_fmap. eapply Forall_impl; [exact Hwf|]. intros bk Hb. apply mirror_market_book, Hb.
  - eapply Forall_impl; [apply steps_keep|]. by intros u [].
  - intros t bk. rewrite list_lookup_fmap. intros (bk0 & Hbk & ->)%fmap_Some.
    destruct (steps_mirror reqs opened t bk0 Hc Hwf Ha Ht Hbk) as (bk' & Hbk' & _ & Hm).
    apply Hm. exact (Forall_lookup_1 _ _ _ _ Hids Hbk').
Qed.

(** What the newcomer's trade engine is handed is as it expects. *)
Lemma join_session n bks reqs e clock :
  0 < ME_MAX_NUM_CLIENTS → ME_MAX_ORDER_IDS ≤ Z.of_nat n → Forall shows bks → Forall room bks → Forall small_book (mirror <$> bks) →
  length bks = Z.to_nat ME_MAX_TICKERS → round_input reqs bks → Forall (λ bk, next_id bk ≤ ME_MAX_ORDER_IDS) bks →
  let us := snapshot_body n 0 (view_of bks) ++ updates (spec_steps reqs bks).2 in
  session_ok (updates_at clock us) e empty_books ∧
  books_end (updates_at clock us) empty_books = mirror <$> (spec_steps reqs bks).1.
Proof.
  intros Hc Hn Hsh Hroom Hsm Hlen (Ha & Hr & Hs & Hids) Hids0 us.
  assert (Forall wf_book bks) as Hwf by (eapply Forall_impl; [exact Hsh|]; by intros b []).
  assert (Forall (λ r, 0 ≤ req_ticker_id_ r) reqs) as Ht by (eapply Forall_impl; [exact Hr|]; by intros r (_ & [? _] & _)).
  destruct (steps_updates reqs bks Ha Ht Hs) as [Hab Hlen'].
  assert (length empty_books = length bks) as Hle by (unfold empty_books; by rewrite length_replicate).
  assert (Forall (small_about (length empty_books)) us) as Hus.
  { rewrite Hle. apply Forall_app. split; [|done]. apply small_about_body; [done| |done].
    eapply Forall_impl; [exact Hids0|]. intros bk Hb. cbn in Hb. lia. }
  assert (∀ t bk, empty_books !! t = Some bk → ∃ bk', (spec_steps reqs bks).1 !! t = Some bk' ∧ md_leads (of_book t us) bk (mirror bk')) as Hlead.
  { intros t bk Hbk. assert (bk = empty_market_book) as -> by (by apply lookup_replicate in Hbk as [-> _]).
    apply join_leads; try done. apply lookup_lt_is_Some_2. apply lookup_lt_Some in Hbk. lia. }
  destruct (updates_session us clock e empty_books) as [Hses _]; [|done| |].
  - unfold empty_books. apply Forall_replicate. split; [by intros p ?%not_elem_of_nil|constructor].
  - intros t bk Hbk. by destruct (Hlead t bk Hbk) as (bk' & _ & [Hf _]).
  - split; [done|]. apply list_eq. intros t. rewrite books_end_lookup by (eapply Forall_impl; [exact Hus|]; by intros u [? _]).
    rewrite list_lookup_fmap. destruct (empty_books !! t) as [bk|] eqn:Hbk.
    + destruct (Hlead t bk Hbk) as (bk' & -> & [_ Hl]). cbn. by rewrite Hl.
    + apply lookup_ge_None in Hbk. assert ((spec_steps reqs bks).1 !! t = None) as -> by (apply lookup_ge_None; lia). done.
Qed.

(** The streams are as a consumer expects them. *)
Lemma join_streams n reqs0 reqs1 e :
  0 < ME_MAX_NUM_CLIENTS → ME_MAX_ORDER_IDS ≤ Z.of_nat n → round_input reqs0 opened →
  let x := spec_steps reqs0 opened in
  let us := updates x.2 ++ updates (spec_steps reqs1 x.1).2 in
  Z.of_nat (length us) + 1 < 2 ^ 64 → Z.of_nat (length (snapshot_cycle n (Z.of_nat (length (updates x.2))) (view_of x.1))) < 2 ^ 64 →
  stream_ok us ∧ state_at us (view_of opened) (length (updates x.2)) = view_of x.1 ∧
  cycle_ok us n (view_of opened) (length (updates x.2)).
Proof.
  intros Hc Hn Hx x us Hus Hcyc. destruct (opened_shown reqs0 e Hc Hx) as (Hsh & _ & _ & _ & Hv). fold x in Hsh, Hv.
  assert (state_at us (view_of opened) (length (updates x.2)) = view_of x.1) as Hst by (unfold state_at, us; by rewrite take_app_length).
  split; [split; [|done]|split; [done|]].
  - apply Forall_app. split; (eapply Forall_impl; [apply steps_keep|]; by intros u []).
  - split; [unfold us; rewrite length_app; lia|]. unfold cycle_of. rewrite Hst. split; [|done].
    destruct Hx as (_ & _ & _ & Hids). fold x in Hids. apply Forall_fmap, Forall_forall. intros bk Hbk i [y Hy].
    rewrite Forall_forall in Hsh, Hids. destruct (Hsh bk Hbk) as [Hwf _ _]. specialize (Hids bk Hbk). cbn in Hy.
    apply book_map_lookup in Hy as (o & Ho & <- & _); [|apply Hwf]. pose proof (wf_old _ Hwf o Ho). lia.
Qed.

(** Incremental messages that come after the recovery. *)
Lemma deliver_incremental ms c : deliver (pair false <$> ms) c = on_messages false ms c.
Proof. revert c. induction ms as [|m ms IH]; intros c; cbn; [done|]. by destruct (on_message false m c) as [c'|]; cbn. Qed.

(** A consumer recovers from the cycle [k] and the first [j] updates, of which it has missed [a], and then goes on
    with the updates that follow. *)
Lemma recovers_and_follows n us v0 k a j ms c (fd : Z) ks :
  stream_ok us → cycle_ok us n v0 k → (1 ≤ a ≤ k)%nat → (k ≤ j ≤ length us)%nat → consumer_ready 1 c →
  kernel_ c = (fd, true) :: ks → 0 ≤ fd → holds (MarketDataConsumer.incoming_md_updates_ c) [] →
  let handed := snapshot_body n 0 (state_at us v0 k) ++ drop k us in
  (length handed ≤ capacity (MarketDataConsumer.incoming_md_updates_ c))%nat →
  sent_on true ms = numbered mkMDPMarketUpdate 0 (cycle_of us n v0 k) → fst <$> last ms = Some true →
  sent_on false ms = numbered mkMDPMarketUpdate (Z.of_nat a + 1) (drop a (take j us)) →
  ∃ c', deliver (ms ++ (pair false <$> numbered mkMDPMarketUpdate (Z.of_nat j + 1) (drop j us))) c = Ok c' ∧
    in_recovery_ c' = false ∧ next_exp_inc_seq_num_ c' = Z.of_nat (length us) + 1 ∧
    holds (MarketDataConsumer.incoming_md_updates_ c') handed ∧
    incremental_mcast_socket_ c' = incremental_mcast_socket_ c ∧ mc_socket_fd_ (snapshot_mcast_socket_ c') = -1.
Proof.
  intros [Hm Hlen] (Hk & Hb & Hcyc) Ha Hj [Hr Hnx _ _] Hker Hfd Hq handed Hcap Hsnap Hlast Hupd.
  assert (state_at (take j us) v0 k = state_at us v0 k) as Est by (unfold state_at; by rewrite take_take, Nat.min_l by lia).
  assert (cycle_of (take j us) n v0 k = cycle_of us n v0 k) as Ecyc by (unfold cycle_of; by rewrite Est).
  assert (length (take j us) = j) as Hlj by (rewrite length_take; lia).
  assert (cycle_ok (take j us) n v0 k) as Hok by (unfold cycle_ok; rewrite Hlj, Est, Ecyc; split_and!; [lia|done|done]).
  rewrite <- Ecyc in Hsnap. destruct (cycle_last _ n _ k ms Hok Hsnap Hlast) as (ms' & -> & Hsnap' & Hfalse). rewrite Hfalse in Hupd.
  destruct (recovers (take j us) n v0 k a ms' c fd ks) as (c2 & E & Hr2 & Hn2 & Hq2 & Hi2 & Hf2); try done.
  { split; [by apply Forall_take|lia]. }
  rewrite Hlj in Hn2. rewrite Est in Hq2. set (first := snapshot_body n 0 (state_at us v0 k) ++ drop k (take j us)) in *.
  assert (handed = first ++ drop j us) as Ehand.
  { unfold handed, first. rewrite <- app_assoc. f_equal. rewrite <- (take_drop j us) at 1. by rewrite drop_app_le by lia. }
  rewrite Ehand, length_app in Hcap.
  assert (holds (MarketDataConsumer.incoming_md_updates_ c2) first) as Hh2 by (rewrite Hq2; apply (holds_push_all _ []); [done|cbn [length]; lia]).
  destruct (on_messages_in_sequence (drop j us) c2 first Hr2 Hh2) as (c3 & E3 & Hr3 & Hq3 & Hn3 & Hi3 & Hs3);
    [rewrite Hq2, capacity_push_all; lia|].
  exists c3. rewrite deliver_app, E. cbn [mbind result_bind]. rewrite deliver_incremental, <- Hn2, E3.
  split_and!; [done|done| |by rewrite Ehand|congruence|congruence].
  pose proof (length_drop us j). rewrite Hn3, Hn2, advance_small; lia.
Qed.

(** C10: a participant joins late.  The exchange has handled some requests, published a snapshot (the
    cycle that SnapshotSynthesizer.v sends) and handled more.  A participant whose consumer has missed
    the first updates recovers, if every update that the snapshot already shows arrives before the SNAPSHOT_END or not
    at all: up to the SNAPSHOT_END the messages of the cycle and the incremental ones, each stream in its order, are
    interleaved in whatever way, the first [j] updates having been sent by then, and the updates since follow.
    Its consumer expects the next update of the exchange, no update is left on the way, its algorithm
    has kept the limits, and every book of its trade engine, from the queues of the levels to the best bid
    and offer, is the image of the exchange's.  (An update that the snapshot shows and that arrives after the SNAPSHOT_END
    starts another recovery: ExamplesLoop.stale_update_restarts.) *)
Theorem late_join reqs0 reqs1 a j ms clock clock' c e :
  let n := Z.to_nat ME_MAX_ORDER_IDS in
  let x := spec_steps reqs0 opened in
  let y := spec_steps reqs1 x.1 in
  let k := length (updates x.2) in
  let cyc := snapshot_cycle n (Z.of_nat k) (view_of x.1) in
  let us := updates x.2 ++ updates y.2 in
  0 < ME_MAX_NUM_CLIENTS → round_input reqs0 opened → round_input reqs1 x.1 → Forall room x.1 →
  newcomer c e → (1 ≤ a ≤ k)%nat → (k ≤ j ≤ length us)%nat →
  sent_on true ms = numbered mkMDPMarketUpdate 0 cyc → fst <$> last ms = Some true →
  sent_on false ms = numbered mkMDPMarketUpdate (Z.of_nat a + 1) (drop a (take j us)) →
  Z.of_nat (length us) + 1 < 2 ^ 64 → Z.of_nat (length cyc) < 2 ^ 64 →
  (length cyc + length (updates y.2) ≤ S (S (capacity (TradeEngine.incoming_md_updates_ e))))%nat →
  let later := pair false <$> numbered mkMDPMarketUpdate (Z.of_nat j + 1) (drop j us) in
  ∃ c' e', join_round (ms ++ later) clock clock' c e = Ok (c', e') ∧ consumer_ready (Z.of_nat (length us) + 1) c' ∧
    engine_safe e' (mirror <$> y.1) ∧ exposures_kept e' ∧ te_run_ e' = true ∧
    holds (incoming_ogw_responses_ e') [] ∧ holds (TradeEngine.incoming_md_updates_ e') [] ∧
    Forall2 (λ b bk, implements (matching b) (mirror bk) ∧ bbo_ b = quote bk) (te_ticker_order_book_ e') y.1.
Proof.
  intros n x y k cyc us Hc Hx Hy Hroom [Hready Hfd (fd & ks & Hfd' & Hker) Hs Hrun [Hans Hinc]] Hak Hkj Hsnap Hlast Hupd Hus Hcyc Hcap later.
  pose proof Hready as [_ _ Hsock Hin].
  destruct (opened_shown reqs0 e Hc Hx) as (Hsh & _ & Hsm & Hlen & _). fold x in Hsh, Hsm, Hlen.
  destruct (join_streams n reqs0 reqs1 e Hc ltac:(lia) Hx Hus Hcyc) as (Hst & Hat & Hok). fold x y us k in Hst, Hat, Hok.
  assert (cyc = cycle_of us n (view_of opened) k) as Ecyc by (unfold cycle_of; by rewrite Hat).
  rewrite Ecyc in Hsnap.
  set (c1 := mdc_set_updates (TradeEngine.incoming_md_updates_ e) c).
  assert (drop k us = updates y.2) as Hd by (unfold us, k; apply drop_app_length).
  destruct (recovers_and_follows n us (view_of opened) k a j ms c1 fd ks) as (c2 & E & Hr2 & Hn2 & Hq & Hi2 & Hf2); try done.
  { by destruct Hready. }
  { rewrite Hat, Hd. unfold cyc, snapshot_cycle in Hcap.
    cbn [length] in Hcap |- *. rewrite !length_app in *. cbn [length] in Hcap. cbn [c1 mdc_set_updates MarketDataConsumer.incoming_md_updates_]. lia. }
  rewrite Hat, Hd in Hq. set (handed := snapshot_body n 0 (view_of x.1) ++ updates y.2) in *. fold later in E.
  destruct (join_session n x.1 reqs1 e clock' Hc ltac:(lia) Hsh Hroom Hsm Hlen Hy ltac:(apply Hx)) as [Hses Hend].
  set (e0 := te_set_updates (MarketDataConsumer.incoming_md_updates_ c2) e).
  assert (same_core e e0) as Hce by (by eexists (incoming_ogw_responses_ e), _, (last_event_time_ e)).
  pose proof (wp_run_round clock clock' e0 empty_books [] handed (safe_set_updates _ _ _ Hs) Hc Hrun Hans Hq
    (session_core _ _ _ _ Hce Hses)) as Hwp.
  apply wp_Ok in Hwp as ([] & e' & Ee & (z & _ & _ & Hs' & _) & Hans' & Hq' & Hrun'). cbn [fmap list_fmap app] in Hs'.
  fold y handed in Hend. rewrite Hend in Hs'.
  unfold join_round. fold c1. rewrite E. cbn [mbind result_bind]. fold e0. rewrite Ee. cbn [mbind result_bind mret result_ret snd].
  do 2 eexists. split; [reflexivity|]. split; [|split_and!; try done; [by eapply safe_exposures|]].
  - constructor; cbn; [done|done|rewrite Hi2; cbn; lia|by rewrite Hi2].
  - pose proof (es_books _ _ Hs') as Hb. apply (Forall2_fmap_r mirror) in Hb. eapply Forall2_impl; [exact Hb|].
    intros b bk [Hi Hqt]. split; [done|]. by rewrite Hqt, mirror_quote.
Qed.
End join.
