(* ===== verification/MainPrograms.v ===== *)
(** * The main programs (exchange/exchange_main.cpp and trading/trading_main.cpp)

    What the two programs construct and start, what they stop, the arguments of a participant's program,
    and the random trader: a participant whose algorithm is RANDOM sends random new orders, and after
    each a cancel of one of the orders it has sent.  What the kernel says of descriptors and threads, the
    results of rand(), which are not negative, so that % is [mod], and of silentSeconds() are
    arguments.  The last part puts the two programs together: they start the system of System.v. *)
From S2P Require Import Prelude Types MemPool LFQueue CircList EngineSink BookSpec BookSweep BookInv BookReplay.
From S2P Require Import MEOrderBook BookRep BookRefine BookTheorems MatchingEngine ClientView ClientRequests.
From S2P Require Import Wire Socket TcpServer BookTypes RecvFrames OrderServer OrderGateway MarketStream SnapshotSynthesizer.
From S2P Require Import MarketDataPublisher MarketDataConsumer MarketOrderBook MarketBookSim MarketBookSpec MarketBookTheorems.
From S2P Require Import MarketMirror TradingMirror Double PositionKeeper RiskManager OrderManager FeatureEngine Algorithms.
From S2P Require Import TradeEngine OrderSafety TradingSafety TradingLoop OrderTraffic OrderProtocol ClientLink.
From S2P Require Import ClosedLoop ClosedMarket MarketPipeline OrderPath System.
Record RandomTrader (T : Type) := mkRandomTrader {
  rt_draws : nat;                                 (** calls of rand() so far *)
  rt_order_id : Z;
  rt_client_requests_vec : list MEClientRequest;
  rt_out : T
}.
Arguments mkRandomTrader {T}.
Arguments rt_draws {T}.
Arguments rt_order_id {T}.
Arguments rt_client_requests_vec {T}.
Arguments rt_out {T}.

Definition set_type (type : ClientRequestType) (r : MEClientRequest) : MEClientRequest :=
  mkMEClientRequest type (req_client_id_ r) (req_ticker_id_ r) (req_order_id_ r) (req_side_ r) (req_price_ r) (req_qty_ r).

Section RandomTrader.
Context `{Limits} {T : Type} `{RequestSink T} (rand : nat → Z) (client_id : Z).
Implicit Types (st : RandomTrader T).

Definition ticker_base_price : list Z := (λ i, rand i `mod` 100 + 100) <$> seq 0 (Z.to_nat ME_MAX_TICKERS).

(** The variables before the loop; client_id is multiplied in its 32 bits. *)
Definition random_start (out : T) : RandomTrader T :=
  mkRandomTrader (Z.to_nat ME_MAX_TICKERS) (u32 (client_id * 1000)) [] out.

(** The body of the loop up to the test of silentSeconds. *)
Definition random_round st : result (RandomTrader T) :=
  let k := rt_draws st in
  let ticker_id := rand k `mod` ME_MAX_TICKERS in
  match ticker_base_price !! Z.to_nat ticker_id with
  | None => Err WildDeref
  | Some base =>
      let price := base + rand (k + 1)%nat `mod` 10 + 1 in
      let qty := u32 (1 + rand (k + 2)%nat `mod` 100 + 1) in
      let side := if rand (k + 3)%nat `mod` 2 =? 0 then Side_SELL else Side_BUY in
      let new_request := mkMEClientRequest ClientRequestType_NEW client_id ticker_id (rt_order_id st) side price qty in
      let out := sendClientRequest new_request (rt_out st) in
      let vec := rt_client_requests_vec st ++ [new_request] in
      let cxl_index := rand (k + 4)%nat `mod` Z.of_nat (length vec) in
      match vec !! Z.to_nat cxl_index with
      | None => Err WildDeref
      | Some r =>
          mret (mkRandomTrader (k + 5) (u64 (rt_order_id st + 1)) vec
                  (sendClientRequest (set_type ClientRequestType_CANCEL r) out))
      end
  end.

(** The loop; [silent i] is silentSeconds() at the end of round [i]. *)
Fixpoint random_loop (rounds i : nat) (silent : nat → Z) st : result (RandomTrader T) :=
  match rounds with
  | O => mret st
  | S rounds =>
      st ← random_round st;
      if 60 <=? silent i then mret st else random_loop rounds (S i) silent st
  end.

Definition random_trader (silent : nat → Z) (out : T) : result (RandomTrader T) :=
  random_loop (Z.to_nat 10000) 0 silent (random_start out).

(** ** What is sent *)
Definition random_order (r : MEClientRequest) : Prop :=
  req_type_ r = ClientRequestType_NEW ∧ req_client_id_ r = client_id ∧ 0 ≤ req_ticker_id_ r < ME_MAX_TICKERS ∧
  trading_side (req_side_ r) ∧ 101 ≤ req_price_ r ≤ 209 ∧ 2 ≤ req_qty_ r ≤ 101.

(** The orders [vec], numbered from [first], and after each of them one of [cancels]. *)
Record random_session (first : Z) (vec cancels : list MEClientRequest) : Prop := {
  rs_orders : Forall random_order vec;
  rs_ids : ∀ j r, vec !! j = Some r → req_order_id_ r = first + Z.of_nat j;
  rs_cancels : length cancels = length vec;
  rs_earlier : ∀ j x, cancels !! j = Some x →
    ∃ i r, (i ≤ j)%nat ∧ vec !! i = Some r ∧ x = set_type ClientRequestType_CANCEL r
}.

Definition interleaved (vec cancels : list MEClientRequest) : list MEClientRequest :=
  mjoin (zip_with (λ r x, [r; x]) vec cancels).

Definition random_ok first q st : Prop :=
  ∃ cancels, random_session first (rt_client_requests_vec st) cancels ∧
    rt_order_id st = first + Z.of_nat (length (rt_client_requests_vec st)) ∧
    rt_out st = sends (interleaved (rt_client_requests_vec st) cancels) q.

Hypothesis Htickers : 0 < ME_MAX_TICKERS.

Lemma interleaved_snoc vec cancels r x :
  length cancels = length vec → interleaved (vec ++ [r]) (cancels ++ [x]) = interleaved vec cancels ++ [r; x].
Proof. intros Hl. unfold interleaved. rewrite zip_with_app by done. by rewrite join_app. Qed.

Lemma random_round_ok first q st :
  0 ≤ first → rt_order_id st < 2 ^ 64 - 1 → random_ok first q st →
  ∃ st', random_round st = Ok st' ∧ random_ok first q st' ∧
    length (rt_client_requests_vec st') = S (length (rt_client_requests_vec st)).
Proof.
  intros Hf Hid (cancels & [Hord Hids Hlen Hear] & Hnext & Hout). unfold random_round. set (k := rt_draws st).
  pose proof (Z.mod_pos_bound (rand k) ME_MAX_TICKERS Htickers) as Ht. set (t := rand k `mod` _) in *.
  destruct (lookup_lt_is_Some_2 ticker_base_price (Z.to_nat t)) as [base Hbase].
  { unfold ticker_base_price. rewrite length_fmap, length_seq. lia. }
  rewrite Hbase. unfold ticker_base_price in Hbase. apply list_lookup_fmap_Some in Hbase as (i & -> & _).
  pose proof (Z.mod_pos_bound (rand i) 100 eq_refl) as Hb. pose proof (Z.mod_pos_bound (rand (k + 1)%nat) 10 eq_refl) as Hp.
  pose proof (Z.mod_pos_bound (rand (k + 2)%nat) 100 eq_refl) as Hq. rewrite u32_small by (unfold is_u32; lia).
  set (r := mkMEClientRequest _ _ _ _ _ _ _). set (vec := rt_client_requests_vec st) in *.
  assert (random_order r) as Hr.
  { unfold r, random_order. cbn. split_and!; try done; try lia. destruct (_ =? 0); [by right|by left]. }
  assert (0 < Z.of_nat (length (vec ++ [r]))) as Hpos by (rewrite length_app; cbn; lia).
  pose proof (Z.mod_pos_bound (rand (k + 4)%nat) _ Hpos) as Hc.
  destruct (lookup_lt_is_Some_2 (vec ++ [r]) (Z.to_nat (rand (k + 4)%nat `mod` Z.of_nat (length (vec ++ [r]))))) as [x Hx]; [lia|].
  rewrite Hx. eexists. split; [done|]. cbn [rt_client_requests_vec]. split; [|by rewrite length_app, Nat.add_comm].
  exists (cancels ++ [set_type ClientRequestType_CANCEL x]). cbn [rt_client_requests_vec rt_order_id rt_out]. split_and!.
  - constructor.
    + apply Forall_app. split; [done|]. by constructor.
    + intros j y [Hj|[Hj Hy]]%lookup_app_Some; [by apply Hids|]. apply list_lookup_singleton_Some in Hy as [Hj' <-].
      cbn. rewrite Hnext. f_equal. f_equal. lia.
    + rewrite !length_app, Hlen. done.
    + intros j y [Hj|[Hj Hy]]%lookup_app_Some.
      * destruct (Hear j y Hj) as (i' & r' & Hle & Hi' & ->). exists i', r'. split_and!; [done| |done].
        by apply lookup_app_l_Some.
      * apply list_lookup_singleton_Some in Hy as [Hj' <-]. eexists _, x. split; [|split; [exact Hx|done]].
        assert (length (vec ++ [r]) = S (length vec)) as Hn by (rewrite length_app; cbn; lia). lia.
  - rewrite u64_small by (unfold is_u64; lia). rewrite Hnext, length_app. cbn. lia.
  - rewrite interleaved_snoc by done. unfold sends. rewrite foldl_app, Hout. done.
Qed.

Lemma random_loop_ok first q silent rounds i st :
  0 ≤ first → rt_order_id st + Z.of_nat rounds < 2 ^ 64 → random_ok first q st →
  ∃ st', random_loop rounds i silent st = Ok st' ∧ random_ok first q st' ∧
    (length (rt_client_requests_vec st') ≤ length (rt_client_requests_vec st) + rounds)%nat.
Proof.
  intros Hf. revert i st. induction rounds as [|n IH]; intros i st Hid Hok; cbn [random_loop].
  { exists st. split_and!; [done|done|lia]. }
  destruct (random_round_ok first q st Hf ltac:(lia) Hok) as (st1 & -> & Hok1 & Hl1). cbn [mbind result_bind].
  destruct (60 <=? silent i); [exists st1; split_and!; [done|done|lia]|].
  assert (rt_order_id st1 = rt_order_id st + 1) as Hn.
  { destruct Hok as (? & _ & -> & _), Hok1 as (? & _ & -> & _). lia. }
  destruct (IH (S i) st1 ltac:(lia) Hok1) as (st2 & Hst2 & Hok2 & Hl2). exists st2. split_and!; [done|done|lia].
Qed.

(** The random trader ends without a fault, and what it sends is well formed whatever rand()
    returns: new orders for existing tickers with small prices and quantities, numbered one after the
    other from client_id * 1000 within the ids that the exchange can keep, and after each order a
    cancel of an order that was sent before. *)
Theorem random_trader_sends silent q :
  0 ≤ client_id < ME_MAX_NUM_CLIENTS → ME_MAX_NUM_CLIENTS * 1000 + 10000 ≤ ME_MAX_ORDER_IDS → ME_MAX_ORDER_IDS ≤ 2 ^ 32 →
  ∃ st vec cancels, random_trader silent q = Ok st ∧ random_session (client_id * 1000) vec cancels ∧
    rt_out st = sends (interleaved vec cancels) q ∧ Z.of_nat (length vec) ≤ 10000 ∧
    Forall (λ r, 0 ≤ req_order_id_ r < ME_MAX_ORDER_IDS) vec.
Proof.
  intros Hc Hids H32. unfold random_trader. set (first := client_id * 1000).
  assert (rt_order_id (random_start q) = first) as Hfirst by (cbn; rewrite u32_small; unfold is_u32, first; lia).
  destruct (random_loop_ok first q silent (Z.to_nat 10000) 0 (random_start q)) as (st & Hst & (cancels & Hs & _ & Ho) & Hl).
  - unfold first. lia.
  - rewrite Hfirst. unfold first. lia.
  - exists []. cbn [random_start rt_client_requests_vec]. split_and!; [|by rewrite Z.add_0_r|done].
    constructor; [constructor|intros j r ?; by rewrite lookup_nil in *|done|intros j r ?; by rewrite lookup_nil in *].
  - exists st, (rt_client_requests_vec st), cancels. cbn [random_start rt_client_requests_vec length] in Hl.
    split_and!; [done|done|done|lia|]. apply Forall_lookup. intros j r Hj.
    rewrite (rs_ids _ _ _ Hs j r Hj). apply lookup_lt_Some in Hj. unfold first. lia.
Qed.
End RandomTrader.

(** ** The arguments of the program *)
Section arguments.
Context (atoi : string → Z) (atof : string → double).
Implicit Types (args : list string) (cfg : list TradeEngineCfg).

(** The five arguments of a ticker. *)
Definition cfg_of (clip thresh max_order_size max_pos max_loss : string) : TradeEngineCfg :=
  mkTradeEngineCfg (u32 (atoi clip)) (atof thresh)
    (mkRiskCfg (u32 (atoi max_order_size)) (u32 (atoi max_pos)) (atof max_loss)).

(** The loop over argv from the third argument on; an incomplete group reads past the arguments. *)
Fixpoint parse_cfg (next_ticker_id : nat) args cfg : result (list TradeEngineCfg) :=
  match args with
  | [] => mret cfg
  | a :: b :: c :: d :: e :: rest =>
      if decide (next_ticker_id < length cfg)%nat
      then parse_cfg (S next_ticker_id) rest (<[next_ticker_id := cfg_of a b c d e]> cfg)
      else Err OutOfRange
  | _ => Err WildDeref
  end.

Definition group (x : string * string * string * string * string) : list string :=
  let '(a, b, c, d, e) := x in [a; b; c; d; e].

(** Whole groups for at most as many tickers as there are configure the first tickers, and the others
    keep the default, which trades with a clip of zero. *)
Theorem parse_cfg_groups `{Limits} (groups : list (string * string * string * string * string)) :
  (length groups ≤ Z.to_nat ME_MAX_TICKERS)%nat →
  parse_cfg 0 (groups ≫= group) (replicate (Z.to_nat ME_MAX_TICKERS) TradeEngineCfg_default)
  = Ok (((λ x, let '(a, b, c, d, e) := x in cfg_of a b c d e) <$> groups)
          ++ replicate (Z.to_nat ME_MAX_TICKERS - length groups) TradeEngineCfg_default).
Proof.
  set (f := λ x : string * string * string * string * string, let '(a, b, c, d, e) := x in cfg_of a b c d e).
  assert (∀ done n, (length groups ≤ n)%nat →
    parse_cfg (length done) (groups ≫= group) (done ++ replicate n TradeEngineCfg_default)
    = Ok (done ++ (f <$> groups) ++ replicate (n - length groups) TradeEngineCfg_default)) as Hgen; [|apply (Hgen [])].
  induction groups as [|[[[[a b] c] d] e] groups IH]; intros done n Hn; cbn [length] in Hn.
  { cbn. by rewrite Nat.sub_0_r. }
  destruct n as [|n]; [lia|]. cbn [mbind list_bind group app parse_cfg].
  change (group (a, b, c, d, e) ++ (groups ≫= group)) with (a :: b :: c :: d :: e :: (groups ≫= group)).
  cbn [parse_cfg]. rewrite decide_True by (rewrite length_app, length_replicate; lia).
  replace (<[length done := cfg_of a b c d e]> (done ++ replicate (S n) TradeEngineCfg_default))
    with ((done ++ [cfg_of a b c d e]) ++ replicate n TradeEngineCfg_default).
  2: { rewrite <- app_assoc. cbn. rewrite insert_app_r_alt, Nat.sub_diag by done. done. }
  replace (S (length done)) with (length (done ++ [cfg_of a b c d e])) by (rewrite length_app; cbn; lia).
  rewrite IH by lia. cbn [fmap list_fmap length]. rewrite <- app_assoc. done.
Qed.
End arguments.

(** ** The exchange *)
Record Exchange := mkExchange {
  ex_engine : MatchingEngine;
  ex_publisher : MarketDataPublisher;
  ex_synthesizer : SnapshotSynthesizer;
  ex_server : OrderServer;
  ex_tcp : TCPServer
}.

(** What the kernel answers while the exchange starts: the descriptors of the two multicast sockets, of
    epoll and of the listener, and whether epoll_ctl and the threads succeed; and what the memory of each
    book's cid_oid_to_order_ holds when the book is allocated. *)
Record ExchangeKernel := mkExchangeKernel {
  ek_memory : nat → gmap (Z * Z) nat;
  ek_engine_thread : bool;
  ek_incremental_fd : Z;
  ek_snapshot_fd : Z;
  ek_publisher_thread : bool;
  ek_synthesizer_thread : bool;
  ek_epoll_fd : Z;
  ek_listener_fd : Z;
  ek_epoll_ok : bool;
  ek_server_thread : bool
}.

Section exchange.
Context `{Limits}.

(** The queues of the program. *)
Definition client_requests : LFQueue MEClientRequest := LFQueue_new (Z.to_nat ME_MAX_CLIENT_UPDATES) MEClientRequest_default.
Definition client_responses : LFQueue MEClientResponse := LFQueue_new (Z.to_nat ME_MAX_CLIENT_UPDATES) MEClientResponse_default.
Definition market_updates : LFQueue MEMarketUpdate := LFQueue_new (Z.to_nat ME_MAX_MARKET_UPDATES) MEMarketUpdate_default.

(** main, up to its idle loop.  A thread that has been started finds its queues empty until a client
    connects, so that the components still agree on the queues that they share. *)
Definition exchange_main (k : ExchangeKernel) : result Exchange :=
  matching_engine ← MatchingEngine_start (ek_engine_thread k) (MatchingEngine_new (ek_memory k) client_requests client_responses market_updates);
  x ← MarketDataPublisher_new market_updates (ek_incremental_fd k) (ek_snapshot_fd k);
  x ← mdp_start (ek_publisher_thread k) (ek_synthesizer_thread k) x.1 x.2;
  y ← os_start (ek_epoll_fd k) (ek_listener_fd k) (ek_epoll_ok k) (ek_server_thread k) TCPServer_new
        (OrderServer_new client_requests client_responses);
  mret (mkExchange matching_engine x.1 x.2 y.2 y.1).

(** The components as their destructors leave them, one after the other. *)
Definition signal_handler (X : Exchange) : Exchange :=
  let m := MatchingEngine_stop (ex_engine X) in
  let x := mdp_stop (ex_publisher X) (ex_synthesizer X) in
  let o := os_stop (ex_server X) in
  mkExchange m x.1 x.2 o (ex_tcp X).
End exchange.

(** ** A participant *)
Record Participant := mkParticipant {
  pa_trader : TradeEngine;
  pa_gateway : OrderGateway;
  pa_link : TCPSocket;
  pa_consumer : MarketDataConsumer
}.

(** What the kernel answers while the participant starts: threads, the descriptors of the connection and of
    the incremental multicast socket, what it will answer when the consumer joins the snapshots,
    the time, and what the memory of the position keeper holds. *)
Record ParticipantKernel := mkParticipantKernel {
  pk_engine_thread : bool;
  pk_gateway_fd : Z;
  pk_gateway_thread : bool;
  pk_incremental_fd : Z;
  pk_join_ok : bool;
  pk_snapshots : list (Z * bool);
  pk_consumer_thread : bool;
  pk_now : Z;
  pk_garbage : nat → list double
}.

Section participant.
Context `{Limits} (atoi : string → Z) (atof : string → double).
Implicit Types (k : ParticipantKernel) (A : Participant).

(** main up to initLastEventTime; [argv] are the arguments behind the name of the program. *)
Definition trading_start (argv : list string) k : result Participant :=
  match argv with
  | client :: algo_name :: rest =>
      let client_id := u32 (atoi client) in
      ticker_cfg ← parse_cfg atoi atof 0 rest (replicate (Z.to_nat ME_MAX_TICKERS) TradeEngineCfg_default);
      e ← te_start (pk_engine_thread k)
            (TradeEngine_new client_id (stringToAlgoType algo_name) ticker_cfg client_requests client_responses market_updates
               (pk_garbage k));
      g ← og_start (pk_gateway_fd k) (pk_gateway_thread k) TCPSocket_new (OrderGateway_new client_id client_requests client_responses);
      c ← MarketDataConsumer_new market_updates (pk_incremental_fd k) (pk_join_ok k) (pk_snapshots k);
      c ← mdc_start (pk_consumer_thread k) c;
      mret (mkParticipant (initLastEventTime (pk_now k) e) g.2 g.1 c)
  | _ => Err FatalExit
  end.

(** The random trader runs in the main thread and writes to the trade engine's queue. *)
Definition trading_random (rand : nat → Z) (silent : nat → Z) A : result Participant :=
  let e := pa_trader A in
  if decide (te_algo_ e = AlgoType_RANDOM) then
    st ← random_trader rand (te_client_id_ e) silent (outgoing_ogw_requests_ e);
    mret (mkParticipant (te_set_orders (order_manager_ e, rt_out st) e) (pa_gateway A) (pa_link A) (pa_consumer A))
  else mret A.

(** The test of the loop that waits for a minute of silence. *)
Definition trading_waits (now : Z) A : result bool :=
  s ← silentSeconds now (pa_trader A); mret (s <? 60).

(** The end: the trade engine's stop waits for its queues, so that it answers only when they are empty. *)
Definition trading_stop A : option Participant :=
  match te_stop true (pa_trader A) with
  | None => None
  | Some e => Some (mkParticipant e (og_stop (pa_gateway A)) (pa_link A) (mdc_stop (pa_consumer A)))
  end.
End participant.

(** ** The two programs together *)
Section programs.
Context `{Limits, BufferSizes, StdSortSpec} (atoi : string → Z) (atof : string → double).
Implicit Types (X : Exchange) (A : Participant).

(** The order server finds the participant's connection, the first one, in its next call of poll. *)
Definition connected (fd : Z) X A : result System :=
  t ← poll [mkEvent None true false false] [mkAccepted fd true true] (ex_tcp X);
  mret (mkSystem (mkOrderPath (pa_gateway A) (pa_link A) (ex_server X) (sockets_ t) (ex_engine X)) (ex_publisher X)
          (ex_synthesizer X) (pa_consumer A) (pa_trader A)).

Definition first_connection : nat := base.fresh (dom (∅ : gmap nat TCPSocket)).

(** The exchange is up, its books in memory that held [memory]. *)
Record exchange_up (memory : nat → gmap (Z * Z) nat) X : Prop := {
  eu_engine : ex_engine X = me_set_run true (MatchingEngine_new memory client_requests client_responses market_updates);
  eu_publisher : ∃ fd, ex_publisher X = mkMarketDataPublisher 1 market_updates
    (LFQueue_new (Z.to_nat ME_MAX_MARKET_UPDATES) MDPMarketUpdate_default) true (mkMcastSocket fd [] []);
  eu_synthesizer : ∃ fd ss, SnapshotSynthesizer_new fd = Ok ss ∧ ss_start true ss = Ok (ex_synthesizer X);
  eu_server : ∃ n, n = Z.to_nat ME_MAX_NUM_CLIENTS ∧ ex_server X = mkOrderServer client_responses true (replicate n 1)
    (replicate n 1) (replicate n None) (mkFIFOSequencer client_requests []);
  eu_tcp : sockets_ (ex_tcp X) = ∅ ∧ receive_sockets_ (ex_tcp X) = [] ∧ send_sockets_ (ex_tcp X) = []
}.

Definition kernel_ok (k : ExchangeKernel) : bool :=
  ek_engine_thread k && (0 <=? ek_incremental_fd k) && (0 <=? ek_snapshot_fd k) && ek_publisher_thread k &&
  ek_synthesizer_thread k && (0 <=? ek_epoll_fd k) && (0 <=? ek_listener_fd k) && ek_epoll_ok k && ek_server_thread k.

(** The exchange comes up when the kernel gives it what it asks for, and otherwise the process ends. *)
Lemma exchange_main_spec k :
  if kernel_ok k then ∃ X, exchange_main k = Ok X ∧ exchange_up (ek_memory k) X else exchange_main k = Err AssertFailed.
Proof.
  unfold kernel_ok, exchange_main, MatchingEngine_start, MarketDataPublisher_new, SnapshotSynthesizer_new, mdp_start, ss_start,
    os_start, listen.
  destruct (ek_engine_thread k); [|done]. cbn [andb mbind result_bind].
  destruct (0 <=? ek_incremental_fd k); [|done]. cbn [andb].
  destruct (0 <=? ek_snapshot_fd k) eqn:Hsnap; [|done]. cbn [andb mbind result_bind mret result_ret fst snd].
  destruct (ek_publisher_thread k); [|done]. cbn [andb].
  destruct (ek_synthesizer_thread k); [|done]. cbn [andb mbind result_bind mret result_ret fst snd].
  destruct (0 <=? ek_epoll_fd k); [|done]. cbn [andb].
  destruct (0 <=? ek_listener_fd k); [|done]. cbn [andb].
  destruct (ek_epoll_ok k); [|done]. cbn [andb mbind result_bind].
  destruct (ek_server_thread k); [|done]. eexists. split; [reflexivity|]. constructor; [done|by eexists| |by eexists|done].
  exists (ek_snapshot_fd k). eexists. split; [|reflexivity]. unfold SnapshotSynthesizer_new. by rewrite Hsnap.
Qed.

(** A participant is up. *)
Record participant_up cfg (garbage : nat → list double) A : Prop := {
  pu_length : length cfg = Z.to_nat ME_MAX_TICKERS;
  pu_clips : Forall (λ c, 0 ≤ clip_ c) cfg;
  pu_trader : ∃ client_id algo now, pa_trader A = initLastEventTime now (te_set_run true
    (TradeEngine_new client_id algo cfg client_requests client_responses market_updates garbage)) ∧
    pa_gateway A = mkOrderGateway client_id client_requests client_responses true 1 1 ∧ 0 ≤ client_id;
  pu_link : ∃ fd, 0 ≤ fd ∧ pa_link A = mkTCPSocket fd false [] 0 [];
  pu_consumer : ∃ fd ks, 0 ≤ fd ∧ pa_consumer A = mkMarketDataConsumer 1 market_updates true (mkMcastSocket fd [] [])
    McastSocket_new false [] [] ks
}.

Lemma parse_cfg_shape args i cfg cfg' :
  parse_cfg atoi atof i args cfg = Ok cfg' → Forall (λ c, 0 ≤ clip_ c) cfg →
  length cfg' = length cfg ∧ Forall (λ c, 0 ≤ clip_ c) cfg'.
Proof.
  revert i cfg. induction args as [args IH] using (induction_ltof1 _ (@length string)); unfold ltof in IH. intros i cfg.
  destruct args as [|a [|b [|c [|d [|e rest]]]]]; cbn [parse_cfg]; try done; [by intros [= <-]|].
  case_decide; [|done]. intros Hp Hc. destruct (IH rest ltac:(cbn; lia) _ _ Hp) as [-> ?].
  - apply Forall_insert; [done|]. cbn. apply u32_range.
  - by rewrite length_insert.
Qed.

Lemma trading_start_up argv k A :
  trading_start atoi atof argv k = Ok A → participant_up (te_ticker_cfg_ (pa_trader A)) (pk_garbage k) A.
Proof.
  unfold trading_start. destruct argv as [|client [|name rest]]; [done..|].
  destruct (parse_cfg _ _ _ _ _) as [cfg|] eqn:Hp; [|done]. cbn [mbind result_bind]. unfold te_start.
  destruct (pk_engine_thread k); [|done]. cbn [mbind result_bind]. unfold og_start.
  destruct (Z.leb_spec 0 (pk_gateway_fd k)) as [Hfd|]; [|done]. destruct (pk_gateway_thread k); [|done]. cbn [andb mbind result_bind].
  unfold MarketDataConsumer_new. destruct (Z.leb_spec 0 (pk_incremental_fd k)) as [Hfd'|]; [|done].
  destruct (pk_join_ok k); [|done]. cbn [andb mbind result_bind]. unfold mdc_start. destruct (pk_consumer_thread k); [|done].
  cbn [mbind result_bind mret result_ret]. intros [= <-].
  destruct (parse_cfg_shape _ _ _ _ Hp) as [Hl Hc]; [by apply Forall_replicate|]. rewrite length_replicate in Hl.
  constructor; cbn [pa_trader pa_gateway pa_link pa_consumer fst snd]; [done|done| | |by eexists _, _].
  - eexists _, _, _. split; [reflexivity|]. split; [done|]. apply u32_range.
  - exists (pk_gateway_fd k). split; [done|]. unfold tcp_connect. by rewrite (proj2 (Z.ltb_ge _ _) Hfd).
Qed.

(** The sizes of common/types.h and of the socket buffers. *)
Record buffers_fit : Prop := {
  bf_request : (wire_size (A := OMClientRequest) ≤ TCPBufferSize)%nat;
  bf_response : (wire_size (A := OMClientResponse) ≤ TCPBufferSize)%nat;
  bf_cycle : (42 * (2 + Z.to_nat ME_MAX_TICKERS) < McastBufferSize)%nat
}.
Record limits_fit : Prop := {
  lf_tickers : (4 * Z.to_nat ME_MAX_TICKERS ≤ Z.to_nat ME_MAX_CLIENT_UPDATES)%nat;
  lf_clients : 0 < ME_MAX_NUM_CLIENTS;
  lf_client_updates : 0 < ME_MAX_CLIENT_UPDATES;
  lf_market_updates : 0 < ME_MAX_MARKET_UPDATES;
  lf_levels : 0 < ME_MAX_PRICE_LEVELS;
  lf_orders : 0 < ME_MAX_ORDER_IDS < 2 ^ 64 - 1
}.

Definition no_orders : list Book := replicate (Z.to_nat ME_MAX_TICKERS) empty_book.

(** The settings of a participant that trades. *)
Definition trades (garbage : nat → list double) A : Prop :=
  (te_algo_ (pa_trader A) = AlgoType_MAKER ∨ te_algo_ (pa_trader A) = AlgoType_TAKER) ∧
  te_client_id_ (pa_trader A) < ME_MAX_NUM_CLIENTS ∧
  Forall (λ cfg, limits_ok (risk_cfg_ cfg)) (te_ticker_cfg_ (pa_trader A)) ∧
  ∀ i, length (garbage i) = S (side_index Side_MAX).

Lemma start_market c algo cfg garbage now :
  limits_fit → algo = AlgoType_MAKER ∨ algo = AlgoType_TAKER → configured cfg garbage →
  market_ok c (world (initLastEventTime now (te_set_run true
    (TradeEngine_new c algo cfg client_requests client_responses market_updates garbage))) (mirror <$> no_orders) [] [] no_orders []).
Proof.
  intros [F1 F2 F3 F4 F5 [F6 F7]] Ha Hcfg.
  assert (mirror <$> no_orders = empty_books) as -> by (unfold no_orders, empty_books; by rewrite fmap_replicate).
  assert (holds client_requests []) as Hq by (apply holds_new; lia).
  assert (4 * Z.to_nat ME_MAX_TICKERS ≤ capacity client_requests)%nat as Hcap
    by (unfold client_requests, capacity, LFQueue_new; cbn [q_store_]; by rewrite length_replicate).
  destruct (market_ok_start c algo cfg client_requests client_responses market_updates garbage
    (loop_ok_start c _ _ _ _ _ _ Ha Hcfg F5 F6 Hq Hcap)) as [[L1 L2 L3 L4 L5] M2 M3 M4 M5].
  constructor; try done. constructor; try done. by apply safe_set_time, safe_set_run.
Qed.

(** The books' memory is zeroed: new gets a block of the size of a book, which is above malloc's largest
    threshold, from mmap, whose pages the kernel hands out filled with zeros. *)
Definition zeroed (memory : nat → gmap (Z * Z) nat) : Prop := ∀ i, memory i = ∅.

Lemma fresh_engine_books memory :
  zeroed memory → limits_fit →
  Forall2 implements (ticker_order_book_ (MatchingEngine_new memory client_requests client_responses market_updates)) no_orders.
Proof.
  intros Hz [F1 F2 F3 F4 F5 [F6 _]]. apply Forall2_same_length_lookup. unfold no_orders, MatchingEngine_new. cbn [ticker_order_book_]. split.
  - by rewrite length_fmap, length_seq, length_replicate.
  - intros i b bk Hb [-> _]%lookup_replicate. apply list_lookup_fmap_Some in Hb as (j & -> & _). rewrite Hz. by apply new_implements.
Qed.

Lemma fresh_snapshot fd ss ss' :
  limits_fit → SnapshotSynthesizer_new fd = Ok ss → ss_start true ss = Ok ss' → synthesizer_ready 1 ss' (view_of no_orders).
Proof.
  intros [_ _ _ _ _ [F _]] Hnew [= <-]. destruct (snap_rep_new fd ss ltac:(lia) Hnew) as [Hr Hn].
  assert (view_of no_orders = replicate (Z.to_nat ME_MAX_TICKERS) ∅) as -> by (unfold view_of, no_orders; by rewrite fmap_replicate).
  constructor; cbn; [done|by destruct Hr; constructor|by rewrite Hn|..];
    unfold SnapshotSynthesizer_new in Hnew; destruct (0 <=? fd); try done; injection Hnew as <-; cbn; [done|].
  unfold pool_size, MemPool_new. cbn. by rewrite length_replicate.
Qed.

(** The two programs start the system. *)
Lemma programs_start memory fd X A cfg garbage :
  zeroed memory → exchange_up memory X → participant_up cfg garbage A → cfg = te_ticker_cfg_ (pa_trader A) → trades garbage A → limits_fit → 0 ≤ fd →
  ∃ S, connected fd X A = Ok S ∧ system_ok (Z.to_nat (te_client_id_ (pa_trader A))) first_connection no_orders S.
Proof.
  intros Hz [E1 (pfd & E2) (sfd & ss0 & Ess1 & Ess2) (n & -> & E3) (E4 & E5 & E6)] [U1 U2 (c & algo & now & U3 & U4 & Hc0) (lfd & Hlfd & U5) (cfd & ks & Hcfd & U6)]
    _ (Ha & Hc & Hlim & Hg) Hfit Hfd.
  assert (∀ T (d : T), holds (LFQueue_new (Z.to_nat ME_MAX_CLIENT_UPDATES) d) [] ∧ holds (LFQueue_new (Z.to_nat ME_MAX_MARKET_UPDATES) d) [])
    as Hq by (intros; destruct Hfit; split; apply holds_new; lia).
  assert (poll [mkEvent None true false false] [mkAccepted fd true true] (ex_tcp X)
    = Ok (add_connection fd (ex_tcp X))) as Hpoll.
  { unfold poll. rewrite E5, E6. cbn [length Nat.add take]. cbn [poll_events poll_event ev_socket ev_in orb accept_loop acc_fd].
    destruct (Z.eqb_spec fd (-1)); [lia|]. done. }
  unfold connected. rewrite Hpoll. cbn [mbind result_bind mret result_ret]. eexists. split; [reflexivity|].
  cbn [add_connection sockets_]. rewrite E4. fold first_connection.
  assert (te_client_id_ (pa_trader A) = c) as Ec by (by rewrite U3). rewrite Ec in Hc |- *.
  assert (length (te_ticker_cfg_ (pa_trader A)) = Z.to_nat ME_MAX_TICKERS ∧
    Forall (λ x, 0 ≤ clip_ x) (te_ticker_cfg_ (pa_trader A)) ∧ te_ticker_cfg_ (pa_trader A) = cfg ∧ te_algo_ (pa_trader A) = algo)
    as (_ & _ & Ecfg & Ealgo) by (by rewrite U3).
  rewrite Ecfg in Hlim. rewrite Ealgo in Ha. assert (configured cfg garbage) as Hcfg.
  { split; [done|]. split; [|done]. apply Forall_and. by split. }
  assert (∀ i x, replicate i (@None nat) !! Z.to_nat c = Some x → x = None) as Hnone by (by intros i x [-> _]%lookup_replicate).
  assert (Z.to_nat c < Z.to_nat ME_MAX_NUM_CLIENTS)%nat as Hlt by lia.
  constructor; cbn [sy_path sy_publisher sy_synthesizer sy_consumer sy_trader].
  - lia.
  - exists [], []. rewrite E1, E3, U4, U5. constructor; cbn [op_gateway op_link op_server op_sockets op_engine].
    + cbn. lia.
    + by constructor.
    + apply Hq.
    + apply Hq.
    + eexists. split; [apply lookup_insert_eq|by constructor].
    + split; [left; cbn; by apply lookup_replicate_2|]. by intros d [? _]%lookup_replicate.
    + cbn. by apply lookup_replicate_2.
    + cbn. by apply lookup_replicate_2.
    + done.
    + done.
    + apply Hq.
    + apply Hq.
    + split; [by apply fresh_engine_books|]. apply Forall_replicate. by constructor.
    + done.
    + apply Hq.
  - rewrite E2, U6. constructor; cbn; [done|done|done|exists []; apply Hq|]. constructor; cbn; [done|done|lia|done].
  - rewrite E2. apply Hq.
  - rewrite E2. apply Hq.
  - rewrite E2. by apply (fresh_snapshot sfd ss0).
  - by rewrite U3.
  - rewrite U3. apply Hq.
  - rewrite U3. apply Hq.
  - rewrite U3, Z2Nat.id by done. by apply start_market.
  - apply Forall_replicate. cbn. destruct Hfit. lia.
Qed.

(** C9: the whole program.  The exchange and a participant with one of the algorithms, as their main
    programs construct and start them, run round after round of all their threads without a fault, if the
    memory of the exchange's books is zeroed when they are allocated, which the constructor relies on
    (Examples.unknown_cancel_faults shows what can happen otherwise), and each round is as [round_ok] says: TCP cuts
    the bytes in any way that leaves the requests of one read at increasing times, the multicast loses nothing; other
    clients send requests that the books admit, a NEW with BUY or SELL for a known ticker under an id that is not live, or
    a CANCEL; the prices of all requests are below 2^30 in absolute value with no order at another price in their slot; and
    ids, tables, buffers and queues have room for the round.  After the rounds the matching engine's books are those of
    the specification after all requests
    of all clients, the snapshot synthesizer shows exactly their orders, the books of the trade engine are
    their images with the exchange's best bid and offer, and positions, open orders counted, are within the
    limits. *)
Theorem programs_run k argv tk fd X A vs :
  zeroed (ek_memory k) → exchange_main k = Ok X → trading_start atoi atof argv tk = Ok A → trades (pk_garbage tk) A → limits_fit → buffers_fit →
  0 ≤ fd →
  let c := Z.to_nat (te_client_id_ (pa_trader A)) in
  ∃ S, connected fd X A = Ok S ∧
    (rounds_ok c first_connection vs S no_orders →
     ∃ S', system_rounds c first_connection vs S = Ok S' ∧
       let bks := (spec_steps (handled c first_connection vs S) no_orders).1 in
       Forall wf_book bks ∧ Forall2 implements (ticker_order_book_ (op_engine (sy_path S'))) bks ∧
       snap_rep (sy_synthesizer S') (view_of bks) ∧
       Forall2 (λ b bk, implements (matching b) (mirror bk) ∧ bbo_ b = quote bk) (te_ticker_order_book_ (sy_trader S')) bks ∧
       exposures_kept (sy_trader S')).
Proof.
  intros Hz Hx Ht Htr Hfit [Hb1 Hb2 Hb3] Hfd c. pose proof (exchange_main_spec k) as Hk. destruct (kernel_ok k); [|congruence].
  destruct Hk as (X' & HX & Hup). assert (X' = X) as -> by congruence. pose proof (trading_start_up _ _ _ Ht) as Hpu.
  destruct (programs_start _ fd X A _ _ Hz Hup Hpu eq_refl Htr Hfit Hfd) as (S & HS & Hok). exists S. split; [done|]. intros Hr.
  destruct Hfit as [_ F2 _ _ _ [_ F7]]. destruct (system_rounds_ok F2 F7 Hb1 Hb2 Hb3 c first_connection vs S no_orders Hok Hr) as (S' & HS' & Hok').
  exists S'. split; [done|]. by destruct (system_facts _ _ _ _ Hok') as (? & ? & ? & ? & ?).
Qed.
End programs.

(** The sizes that the programs are built with. *)
Lemma default_limits_fit : @limits_fit default_limits.
Proof. constructor; unfold default_limits; cbn -[Z.to_nat]; lia. Qed.
