(* ===== verification/UnorderedBook.v ===== *)
(** * The order book on unordered maps, as written

    exchange/matcher/unordered_map_me_order_book.h and unordered_map_me_order_book.cpp: the methods
    of MEOrderBook.v over std::unordered_map instead of arrays.  The maps hold the keys that were
    ever written, some with nullptr; operator[] inserts a key that is absent. *)
From S2P Require Import Prelude Types MemPool EngineSink MEOrderBook.
Record UnorderedMapMEOrderBook := mkUnorderedMapMEOrderBook {
  um_ticker_id_ : Z;
  um_cid_oid_to_order_ : gmap Z (gmap Z ptr);
  um_orders_at_price_pool_ : MemPool MEOrdersAtPrice;
  um_bids_by_price_ : ptr;
  um_asks_by_price_ : ptr;
  um_price_orders_at_price_ : gmap Z ptr;
  um_order_pool_ : MemPool MEOrder;
  um_next_market_order_id_ : Z
}.

Definition um_set_cid_oid_to_order (x : gmap Z (gmap Z ptr)) (b : UnorderedMapMEOrderBook) : UnorderedMapMEOrderBook :=
  mkUnorderedMapMEOrderBook (um_ticker_id_ b) x (um_orders_at_price_pool_ b) (um_bids_by_price_ b)
    (um_asks_by_price_ b) (um_price_orders_at_price_ b) (um_order_pool_ b) (um_next_market_order_id_ b).
Definition um_set_orders_at_price_pool (x : MemPool MEOrdersAtPrice) (b : UnorderedMapMEOrderBook) : UnorderedMapMEOrderBook :=
  mkUnorderedMapMEOrderBook (um_ticker_id_ b) (um_cid_oid_to_order_ b) x (um_bids_by_price_ b)
    (um_asks_by_price_ b) (um_price_orders_at_price_ b) (um_order_pool_ b) (um_next_market_order_id_ b).
Definition um_set_bids_by_price (x : ptr) (b : UnorderedMapMEOrderBook) : UnorderedMapMEOrderBook :=
  mkUnorderedMapMEOrderBook (um_ticker_id_ b) (um_cid_oid_to_order_ b) (um_orders_at_price_pool_ b) x
    (um_asks_by_price_ b) (um_price_orders_at_price_ b) (um_order_pool_ b) (um_next_market_order_id_ b).
Definition um_set_asks_by_price (x : ptr) (b : UnorderedMapMEOrderBook) : UnorderedMapMEOrderBook :=
  mkUnorderedMapMEOrderBook (um_ticker_id_ b) (um_cid_oid_to_order_ b) (um_orders_at_price_pool_ b) (um_bids_by_price_ b)
    x (um_price_orders_at_price_ b) (um_order_pool_ b) (um_next_market_order_id_ b).
Definition um_set_price_orders_at_price (x : gmap Z ptr) (b : UnorderedMapMEOrderBook) : UnorderedMapMEOrderBook :=
  mkUnorderedMapMEOrderBook (um_ticker_id_ b) (um_cid_oid_to_order_ b) (um_orders_at_price_pool_ b) (um_bids_by_price_ b)
    (um_asks_by_price_ b) x (um_order_pool_ b) (um_next_market_order_id_ b).
Definition um_set_order_pool (x : MemPool MEOrder) (b : UnorderedMapMEOrderBook) : UnorderedMapMEOrderBook :=
  mkUnorderedMapMEOrderBook (um_ticker_id_ b) (um_cid_oid_to_order_ b) (um_orders_at_price_pool_ b) (um_bids_by_price_ b)
    (um_asks_by_price_ b) (um_price_orders_at_price_ b) x (um_next_market_order_id_ b).
Definition um_set_next_market_order_id (x : Z) (b : UnorderedMapMEOrderBook) : UnorderedMapMEOrderBook :=
  mkUnorderedMapMEOrderBook (um_ticker_id_ b) (um_cid_oid_to_order_ b) (um_orders_at_price_pool_ b) (um_bids_by_price_ b)
    (um_asks_by_price_ b) (um_price_orders_at_price_ b) (um_order_pool_ b) x.

Section UnorderedMapMEOrderBook.
Context `{Limits} {E : Type} `{EngineSink E}.

(** A method of the book: it may fault, and it changes the book and the engine. *)
Definition UM (A : Type) : Type := M (UnorderedMapMEOrderBook * E) A.

Definition UnorderedMapMEOrderBook_new (ticker_id : Z) : UnorderedMapMEOrderBook :=
  mkUnorderedMapMEOrderBook ticker_id ∅
    (MemPool_new (Z.to_nat ME_MAX_PRICE_LEVELS) MEOrdersAtPrice_default) None None ∅
    (MemPool_new (Z.to_nat ME_MAX_ORDER_IDS) MEOrder_default) 1.

Definition um_gets {A} (f : UnorderedMapMEOrderBook → A) : UM A := gets (f ∘ fst).
Definition um_modify (f : UnorderedMapMEOrderBook → UnorderedMapMEOrderBook) : UM unit :=
  modify (λ s, (f s.1, s.2)).
Definition um_send_response (r : MEClientResponse) : UM unit :=
  modify (λ s, (s.1, sendClientResponse r s.2)).
Definition um_send_update (u : MEMarketUpdate) : UM unit :=
  modify (λ s, (s.1, sendMarketUpdate u s.2)).

(** Reads and writes through pointers to orders and to price levels. *)
Definition um_rd_order (x : ptr) : UM MEOrder :=
  p ← um_gets um_order_pool_; lift (deref x p).
Definition um_wr_order (x : ptr) (f : MEOrder → MEOrder) : UM unit :=
  p ← um_gets um_order_pool_; p' ← lift (update x f p); um_modify (um_set_order_pool p').
Definition um_rd_level (x : ptr) : UM MEOrdersAtPrice :=
  p ← um_gets um_orders_at_price_pool_; lift (deref x p).
Definition um_wr_level (x : ptr) (f : MEOrdersAtPrice → MEOrdersAtPrice) : UM unit :=
  p ← um_gets um_orders_at_price_pool_; p' ← lift (update x f p);
  um_modify (um_set_orders_at_price_pool p').

Definition um_alloc_order (o : MEOrder) : UM ptr :=
  p ← um_gets um_order_pool_; r ← lift (allocate o p);
  um_modify (um_set_order_pool r.2);; mret (Some r.1).
Definition um_free_order (x : ptr) : UM unit :=
  p ← um_gets um_order_pool_; p' ← lift (deallocate x p); um_modify (um_set_order_pool p').
Definition um_alloc_level (l : MEOrdersAtPrice) : UM ptr :=
  p ← um_gets um_orders_at_price_pool_; r ← lift (allocate l p);
  um_modify (um_set_orders_at_price_pool r.2);; mret (Some r.1).
Definition um_free_level (x : ptr) : UM unit :=
  p ← um_gets um_orders_at_price_pool_; p' ← lift (deallocate x p);
  um_modify (um_set_orders_at_price_pool p').

(** [(side == Side::BUY ? bids_by_price_ : asks_by_price_)], read and assigned. *)
Definition um_by_price (side : Side) (b : UnorderedMapMEOrderBook) : ptr :=
  if decide (side = Side_BUY) then um_bids_by_price_ b else um_asks_by_price_ b.
Definition um_set_by_price (side : Side) (x : ptr) (b : UnorderedMapMEOrderBook) : UnorderedMapMEOrderBook :=
  if decide (side = Side_BUY) then um_set_bids_by_price x b else um_set_asks_by_price x b.

Definition um_generateNewMarketOrderId : UM Z :=
  id ← um_gets um_next_market_order_id_;
  um_modify (um_set_next_market_order_id (u64 (id + 1)));;
  mret id.

(** [price % ME_MAX_PRICE_LEVELS]: the price is converted to the unsigned size_t. *)
Definition um_priceToIndex (price : Z) : Z := u64 price `mod` ME_MAX_PRICE_LEVELS.

Definition um_getOrdersAtPrice (price : Z) : UM ptr :=
  um_gets (λ b, match um_price_orders_at_price_ b !! um_priceToIndex price with None => None | Some x => x end).

Definition um_set_orders_at_price_slot (price : Z) (x : ptr) : UM unit :=
  um_modify (λ b, um_set_price_orders_at_price
    (<[um_priceToIndex price := x]> (um_price_orders_at_price_ b)) b).

(** The condition [add_after]: [n] is less aggressive than [t]. *)
Definition um_goes_after (n t : MEOrdersAtPrice) : bool :=
  (bool_decide (l_side_ n = Side_SELL) && (l_price_ t <? l_price_ n)) ||
  (bool_decide (l_side_ n = Side_BUY) && (l_price_ n <? l_price_ t)).

(** The loop [while (add_after && target != best_orders_by_price)]. *)
Fixpoint um_find_target (fuel : nat) (n : MEOrdersAtPrice) (best target : ptr)
    (add_after : bool) : UM (ptr * bool) :=
  if add_after && bool_decide (target ≠ best) then
    match fuel with
    | O => throw Diverges
    | S fuel =>
        t ← um_rd_level target;
        if um_goes_after n t then um_find_target fuel n best (next_entry_ t) true
        else mret (target, false)
    end
  else mret (target, add_after).

(** The um_position of the new level: [add_after] false means in front of [target]. *)
Definition um_position (fuel : nat) (n : MEOrdersAtPrice) (best : ptr) : UM (ptr * bool) :=
  t ← um_rd_level best;
  if um_goes_after n t then
    t' ← um_rd_level (next_entry_ t);
    um_find_target fuel n best (next_entry_ t) (um_goes_after n t')
  else um_find_target fuel n best best false.

Definition um_link_after (new target : ptr) : UM unit :=
  um_wr_level new (set_prev_entry target);;
  t ← um_rd_level target; um_wr_level (next_entry_ t) (set_prev_entry new);;
  t ← um_rd_level target; um_wr_level new (set_next_entry (next_entry_ t));;
  um_wr_level target (set_next_entry new).

Definition um_link_before (new target : ptr) : UM unit :=
  t ← um_rd_level target; um_wr_level new (set_prev_entry (prev_entry_ t));;
  um_wr_level new (set_next_entry target);;
  t ← um_rd_level target; um_wr_level (prev_entry_ t) (set_next_entry new);;
  um_wr_level target (set_prev_entry new).

Definition um_addOrdersAtPrice (new : ptr) : UM unit :=
  n ← um_rd_level new;
  um_set_orders_at_price_slot (l_price_ n) new;;
  best ← um_gets (um_by_price (l_side_ n));
  match best with
  | None =>
      um_modify (um_set_by_price (l_side_ n) new);;
      um_wr_level new (set_next_entry new);;
      um_wr_level new (set_prev_entry new)
  | Some _ =>
      fuel ← um_gets (λ b, pool_size (um_orders_at_price_pool_ b));
      r ← um_position fuel n best;
      let target := r.1 in
      if (r.2 : bool) then
        b ← um_rd_level best;
        um_link_after new (if decide (target = best) then prev_entry_ b else target)
      else
        um_link_before new target;;
        b ← um_rd_level best;
        if (bool_decide (l_side_ n = Side_BUY) && (l_price_ b <? l_price_ n)) ||
           (bool_decide (l_side_ n = Side_SELL) && (l_price_ n <? l_price_ b)) then
          t ← um_rd_level target;
          um_wr_level target (set_next_entry
            (if decide (next_entry_ t = best) then new else next_entry_ t));;
          um_modify (um_set_by_price (l_side_ n) new)
        else mret tt
  end.

Definition um_removeOrdersAtPrice (side : Side) (price : Z) : UM unit :=
  best ← um_gets (um_by_price side);
  x ← um_getOrdersAtPrice price;
  l ← um_rd_level x;
  (if decide (next_entry_ l = x) then um_modify (um_set_by_price side None)
   else
     l ← um_rd_level x; um_wr_level (prev_entry_ l) (set_next_entry (next_entry_ l));;
     l ← um_rd_level x; um_wr_level (next_entry_ l) (set_prev_entry (prev_entry_ l));;
     (if decide (x = best) then
        l ← um_rd_level x; um_modify (um_set_by_price side (next_entry_ l))
      else mret tt);;
     um_wr_level x (set_next_entry None);;
     um_wr_level x (set_prev_entry None));;
  um_set_orders_at_price_slot price None;;
  um_free_level x.

Definition um_getNextPriority (price : Z) : UM Z :=
  x ← um_getOrdersAtPrice price;
  match x with
  | None => mret 1
  | Some _ =>
      l ← um_rd_level x;
      first ← um_rd_order (first_me_order_ l);
      last ← um_rd_order (prev_order_ first);
      mret (u64 (o_priority_ last + 1))
  end.

(** [cid_oid_to_order_[c]] and then [[o]]: a key that is absent is inserted. *)
Definition client_orders (c : Z) (m : gmap Z (gmap Z ptr)) : gmap Z ptr := default ∅ (m !! c).

Definition um_set_cid_oid (c o : Z) (x : ptr) : UM unit :=
  um_modify (λ b, um_set_cid_oid_to_order
    (<[c := <[o := x]> (client_orders c (um_cid_oid_to_order_ b))]> (um_cid_oid_to_order_ b)) b).

(** The read of cancel, which inserts nullptr for an absent order. *)
Definition um_get_cid_oid (c o : Z) : UM ptr :=
  x ← um_gets (λ b, default None (client_orders c (um_cid_oid_to_order_ b) !! o));
  um_set_cid_oid c o x;;
  mret x.

Definition um_removeOrder (order : ptr) : UM unit :=
  o ← um_rd_order order;
  orders_at_price ← um_getOrdersAtPrice (o_price_ o);
  (if decide (prev_order_ o = order) then um_removeOrdersAtPrice (o_side_ o) (o_price_ o)
   else
     let order_before := prev_order_ o in
     let order_after := next_order_ o in
     um_wr_order order_before (set_next_order order_after);;
     um_wr_order order_after (set_prev_order order_before);;
     l ← um_rd_level orders_at_price;
     (if decide (first_me_order_ l = order) then
        um_wr_level orders_at_price (set_first_me_order order_after)
      else mret tt);;
     um_wr_order order (set_next_order None);;
     um_wr_order order (set_prev_order None));;
  um_set_cid_oid (o_client_id_ o) (o_client_order_id_ o) None;;
  um_free_order order.

Definition um_addOrder (order : ptr) : UM unit :=
  o ← um_rd_order order;
  orders_at_price ← um_getOrdersAtPrice (o_price_ o);
  match orders_at_price with
  | None =>
      um_wr_order order (set_prev_order order);;
      um_wr_order order (set_next_order order);;
      new ← um_alloc_level (mkMEOrdersAtPrice (o_side_ o) (o_price_ o) order None None);
      um_addOrdersAtPrice new
  | Some _ =>
      l ← um_rd_level orders_at_price;
      let first := first_me_order_ l in
      f ← um_rd_order first; um_wr_order (prev_order_ f) (set_next_order order);;
      f ← um_rd_order first; um_wr_order order (set_prev_order (prev_order_ f));;
      um_wr_order order (set_next_order first);;
      um_wr_order first (set_prev_order order)
  end;;
  um_set_cid_oid (o_client_id_ o) (o_client_order_id_ o) order.

(** One execution of the aggressive order against [itr]; the result is the
    new value of [*leaves_qty]. *)
Definition um_match_order (ticker_id client_id : Z) (side : Side) (client_order_id new_market_order_id : Z)
    (itr : ptr) (leaves_qty : Z) : UM Z :=
  o ← um_rd_order itr;
  let order_qty := o_qty_ o in
  let fill_qty := Z.min leaves_qty order_qty in
  let leaves_qty := u32 (leaves_qty - fill_qty) in
  um_wr_order itr (set_qty (u32 (order_qty - fill_qty)));;
  o ← um_rd_order itr;
  um_send_response (mkMEClientResponse ClientResponseType_FILLED client_id ticker_id client_order_id
                   new_market_order_id side (o_price_ o) fill_qty leaves_qty);;
  um_send_response (mkMEClientResponse ClientResponseType_FILLED (o_client_id_ o) ticker_id
                   (o_client_order_id_ o) (o_market_order_id_ o) (o_side_ o) (o_price_ o)
                   fill_qty (o_qty_ o));;
  um_send_update (mkMEMarketUpdate MarketUpdateType_TRADE OrderId_INVALID ticker_id side (o_price_ o)
                 fill_qty Priority_INVALID);;
  (if o_qty_ o =? 0 then
     um_send_update (mkMEMarketUpdate MarketUpdateType_CANCEL (o_market_order_id_ o) ticker_id
                    (o_side_ o) (o_price_ o) order_qty Priority_INVALID);;
     um_removeOrder itr
   else
     um_send_update (mkMEMarketUpdate MarketUpdateType_MODIFY (o_market_order_id_ o) ticker_id
                    (o_side_ o) (o_price_ o) (o_qty_ o) (o_priority_ o)));;
  mret leaves_qty.

(** The two loops of um_checkForMatch, which differ in the side they walk and in the comparison
    that stops them ([price < ask] and [price > bid]). *)
Definition um_beyond_limit (side : Side) (price passive_price : Z) : bool :=
  if decide (side = Side_BUY) then price <? passive_price else passive_price <? price.

Fixpoint um_match_loop (fuel : nat) (client_id client_order_id ticker_id : Z) (side : Side)
    (price leaves_qty new_market_order_id : Z) : UM Z :=
  best ← um_gets (if decide (side = Side_BUY) then um_asks_by_price_ else um_bids_by_price_);
  if negb (leaves_qty =? 0) && bool_decide (best ≠ None) then
    match fuel with
    | O => throw Diverges
    | S fuel =>
        l ← um_rd_level best;
        let itr := first_me_order_ l in
        o ← um_rd_order itr;
        if um_beyond_limit side price (o_price_ o) then mret leaves_qty
        else
          leaves_qty ← um_match_order ticker_id client_id side client_order_id
                         new_market_order_id itr leaves_qty;
          um_match_loop fuel client_id client_order_id ticker_id side price leaves_qty
            new_market_order_id
    end
  else mret leaves_qty.

(** The parameter [new_market_order_id] has type Qty: the 64-bit order id is narrowed to
    32 bits at the call. *)
Definition um_checkForMatch (client_id client_order_id ticker_id : Z) (side : Side)
    (price qty new_market_order_id : Z) : UM Z :=
  let new_market_order_id := u32 new_market_order_id in
  fuel ← um_gets (λ b, pool_size (um_order_pool_ b));
  match side with
  | Side_BUY | Side_SELL =>
      um_match_loop fuel client_id client_order_id ticker_id side price qty new_market_order_id
  | _ => mret qty
  end.

Definition um_add (client_id client_order_id ticker_id : Z) (side : Side) (price qty : Z) : UM unit :=
  new_market_order_id ← um_generateNewMarketOrderId;
  um_send_response (mkMEClientResponse ClientResponseType_ACCEPTED client_id ticker_id client_order_id
                   new_market_order_id side price 0 qty);;
  leaves_qty ← um_checkForMatch client_id client_order_id ticker_id side price qty new_market_order_id;
  if negb (leaves_qty =? 0) then
    priority ← um_getNextPriority price;
    order ← um_alloc_order (mkMEOrder ticker_id client_id client_order_id new_market_order_id side
                           price leaves_qty priority None None);
    um_addOrder order;;
    um_send_update (mkMEMarketUpdate MarketUpdateType_ADD new_market_order_id ticker_id side price
                   leaves_qty priority)
  else mret tt.

Definition um_cancel (client_id order_id ticker_id : Z) : UM unit :=
  clients ← um_gets (λ b, Z.of_nat (size (um_cid_oid_to_order_ b)));
  exchange_order ← (if client_id <? clients then um_get_cid_oid client_id order_id else mret None);
  match exchange_order with
  | None =>
      um_send_response (mkMEClientResponse ClientResponseType_CANCEL_REJECTED client_id ticker_id
                       order_id OrderId_INVALID Side_INVALID Price_INVALID Qty_INVALID Qty_INVALID)
  | Some _ =>
      o ← um_rd_order exchange_order;
      um_removeOrder exchange_order;;
      um_send_update (mkMEMarketUpdate MarketUpdateType_CANCEL (o_market_order_id_ o) ticker_id
                     (o_side_ o) (o_price_ o) 0 (o_priority_ o));;
      um_send_response (mkMEClientResponse ClientResponseType_CANCELED client_id ticker_id order_id
                       (o_market_order_id_ o) (o_side_ o) (o_price_ o) Qty_INVALID (o_qty_ o))
  end.
End UnorderedMapMEOrderBook.
