(* ===== verification/UnorderedSim.v ===== *)
(** * The unordered book does what the book on arrays does

    [arrays] reads the unordered maps as arrays of pointers.  Wherever the methods on arrays do not
    fault the methods on unordered maps do the same; only cancel looks at the map itself, and its
    test of the client id is a different one. *)
From S2P Require Import Prelude Types MemPool EngineSink MEOrderBook UnorderedBook.
(** ** Reading the maps as arrays *)
Definition flat_cids (m : gmap Z (gmap Z ptr)) : gmap (Z * Z) nat :=
  omap id (map_uncurry (M1 := gmap Z) (M2 := gmap Z) (M12 := gmap (Z * Z)) m : gmap (Z * Z) ptr).

Definition arrays (u : UnorderedMapMEOrderBook) : MEOrderBook :=
  mkMEOrderBook (um_ticker_id_ u) (flat_cids (um_cid_oid_to_order_ u)) (um_orders_at_price_pool_ u)
    (um_bids_by_price_ u) (um_asks_by_price_ u) (omap id (um_price_orders_at_price_ u)) (um_order_pool_ u)
    (um_next_market_order_id_ u).

Lemma omap_id_insert `{Countable K} k (x : ptr) (m : gmap K ptr) :
  omap id (<[k := x]> m) = slot_set k x (omap id m).
Proof.
  destruct x as [i|]; cbn [slot_set].
  - by apply (omap_insert_Some id).
  - by apply (omap_insert_None id).
Qed.

Lemma lookup_omap_id `{Countable K} k (m : gmap K ptr) :
  omap id m !! k = match m !! k with None => None | Some x => x end.
Proof. rewrite lookup_omap. by destruct (m !! k). Qed.

Lemma lookup_flat_cids m c o : flat_cids m !! (c, o) = default None (client_orders c m !! o).
Proof.
  unfold flat_cids, client_orders. rewrite lookup_omap, lookup_map_uncurry.
  destruct (m !! c) as [mc|]; cbn; [by destruct (mc !! o)|by rewrite lookup_empty].
Qed.

Lemma flat_cids_insert m c o x :
  flat_cids (<[c := <[o := x]> (client_orders c m)]> m) = slot_set (c, o) x (flat_cids m).
Proof.
  apply map_eq. intros [c' o']. rewrite lookup_flat_cids.
  assert (slot_set (c, o) x (flat_cids m) !! (c', o')
    = if decide ((c, o) = (c', o')) then x else flat_cids m !! (c', o')) as ->.
  { destruct (decide ((c, o) = (c', o'))) as [<-|Hne]; destruct x as [i|]; cbn [slot_set];
      by rewrite ?lookup_insert_eq, ?lookup_delete_eq, ?lookup_insert_ne, ?lookup_delete_ne. }
  unfold client_orders. destruct (decide (c' = c)) as [->|Hc].
  - rewrite lookup_insert_eq. destruct (decide (o' = o)) as [->|Ho].
    + change (default None (<[o := x]> (default ∅ (m !! c)) !! o)
              = if decide ((c, o) = (c, o)) then x else flat_cids m !! (c, o)).
      by rewrite lookup_insert_eq, decide_True.
    + change (default None (<[o := x]> (default ∅ (m !! c)) !! o')
              = if decide ((c, o) = (c, o')) then x else flat_cids m !! (c, o')).
      rewrite lookup_insert_ne, decide_False by congruence. by rewrite lookup_flat_cids.
  - rewrite lookup_insert_ne, decide_False by congruence. by rewrite lookup_flat_cids.
Qed.

(** ** The simulation *)
Section sim.
Context `{Limits} {E : Type} `{EngineSink E}.

(** When [m'] on the arrays succeeds, [m] on the maps does the same. *)
Definition usim {A} (m : UM (E := E) A) (m' : B (E := E) A) : Prop :=
  ∀ u e, match m' (arrays u, e) with
         | Ok (a, (b', e')) => ∃ u', m (u, e) = Ok (a, (u', e')) ∧ arrays u' = b'
         | Err _ => True
         end.

Lemma usim_ret {A} (a : A) : usim (mret a) (mret a).
Proof. intros u e. by exists u. Qed.

Lemma usim_throw {A} err (m : UM A) : usim m (throw err).
Proof. by intros u e. Qed.

Lemma usim_bind {A A'} (m : UM A) m' (f : A → UM A') f' :
  usim m m' → (∀ a, usim (f a) (f' a)) → usim (m ≫= f) (m' ≫= f').
Proof.
  intros Hm Hf u e. specialize (Hm u e). unfold mbind, M_bind.
  destruct (m' (arrays u, e)) as [[a [b1 e1]]|]; [|done]. destruct Hm as (u1 & -> & <-). apply Hf.
Qed.

(** Primitives that read and write what the two books share. *)
Lemma usim_gets {A} (f : UnorderedMapMEOrderBook → A) (f' : MEOrderBook → A) :
  (∀ u, f' (arrays u) = f u) → usim (um_gets f) (book_gets f').
Proof. intros Hf u e. exists u. split; [|done]. unfold um_gets, gets. cbn. by rewrite <- Hf. Qed.

Lemma usim_modify (f : UnorderedMapMEOrderBook → UnorderedMapMEOrderBook) (f' : MEOrderBook → MEOrderBook) :
  (∀ u, f' (arrays u) = arrays (f u)) → usim (um_modify f) (book_modify f').
Proof. intros Hf u e. exists (f u). split; [done|]. by rewrite <- Hf. Qed.

Lemma usim_lift {A} (r : result A) : usim (lift r) (lift r).
Proof. intros u e. unfold lift. destruct r; [by exists u|done]. Qed.

Lemma usim_send_response r : usim (um_send_response r) (send_response r).
Proof. intros u e. by exists u. Qed.
Lemma usim_send_update x : usim (um_send_update x) (send_update x).
Proof. intros u e. by exists u. Qed.

Lemma usim_rd_order x : usim (um_rd_order x) (rd_order x).
Proof. apply usim_bind; [by apply usim_gets|intros p; apply usim_lift]. Qed.
Lemma usim_rd_level x : usim (um_rd_level x) (rd_level x).
Proof. apply usim_bind; [by apply usim_gets|intros p; apply usim_lift]. Qed.
Lemma usim_wr_order x f : usim (um_wr_order x f) (wr_order x f).
Proof.
  apply usim_bind; [by apply usim_gets|intros p]. apply usim_bind; [apply usim_lift|intros p'].
  by apply usim_modify.
Qed.
Lemma usim_wr_level x f : usim (um_wr_level x f) (wr_level x f).
Proof.
  apply usim_bind; [by apply usim_gets|intros p]. apply usim_bind; [apply usim_lift|intros p'].
  by apply usim_modify.
Qed.
Lemma usim_alloc_order o : usim (um_alloc_order o) (alloc_order o).
Proof.
  apply usim_bind; [by apply usim_gets|intros p]. apply usim_bind; [apply usim_lift|intros r].
  apply usim_bind; [by apply usim_modify|intros _; apply usim_ret].
Qed.
Lemma usim_alloc_level l : usim (um_alloc_level l) (alloc_level l).
Proof.
  apply usim_bind; [by apply usim_gets|intros p]. apply usim_bind; [apply usim_lift|intros r].
  apply usim_bind; [by apply usim_modify|intros _; apply usim_ret].
Qed.
Lemma usim_free_order x : usim (um_free_order x) (free_order x).
Proof.
  apply usim_bind; [by apply usim_gets|intros p]. apply usim_bind; [apply usim_lift|intros p'].
  by apply usim_modify.
Qed.
Lemma usim_free_level x : usim (um_free_level x) (free_level x).
Proof.
  apply usim_bind; [by apply usim_gets|intros p]. apply usim_bind; [apply usim_lift|intros p'].
  by apply usim_modify.
Qed.
Lemma usim_by_price s : usim (um_gets (um_by_price s)) (book_gets (by_price s)).
Proof. apply usim_gets. intros u. unfold by_price, um_by_price. by case_decide. Qed.
Lemma usim_opposite s :
  usim (um_gets (if decide (s = Side_BUY) then um_asks_by_price_ else um_bids_by_price_))
    (book_gets (if decide (s = Side_BUY) then asks_by_price_ else bids_by_price_)).
Proof. apply usim_gets. intros u. by case_decide. Qed.
Lemma usim_set_by_price s x : usim (um_modify (um_set_by_price s x)) (book_modify (set_by_price s x)).
Proof. apply usim_modify. intros u. unfold set_by_price, um_set_by_price. by case_decide. Qed.
Lemma usim_level_fuel :
  usim (um_gets (λ b, pool_size (um_orders_at_price_pool_ b))) (book_gets (λ b, pool_size (orders_at_price_pool_ b))).
Proof. by apply usim_gets. Qed.
Lemma usim_order_fuel :
  usim (um_gets (λ b, pool_size (um_order_pool_ b))) (book_gets (λ b, pool_size (order_pool_ b))).
Proof. by apply usim_gets. Qed.
Lemma usim_new_id : usim um_generateNewMarketOrderId generateNewMarketOrderId.
Proof.
  apply usim_bind; [by apply usim_gets|intros id]. apply usim_bind; [by apply usim_modify|intros _; apply usim_ret].
Qed.

(** The maps themselves. *)
Lemma usim_getOrdersAtPrice p : usim (um_getOrdersAtPrice p) (getOrdersAtPrice p).
Proof. apply usim_gets. intros u. apply lookup_omap_id. Qed.

Lemma usim_set_slot p x : usim (um_set_orders_at_price_slot p x) (set_orders_at_price_slot p x).
Proof.
  apply usim_modify. intros u. unfold arrays, set_price_orders_at_price, um_set_price_orders_at_price. cbn.
  by rewrite omap_id_insert.
Qed.

Lemma usim_set_cid_oid c o x : usim (um_set_cid_oid c o x) (set_cid_oid c o x).
Proof.
  unfold set_cid_oid. destruct (_ && _); [|apply usim_throw]. apply usim_modify. intros u.
  unfold arrays, set_cid_oid_to_order, um_set_cid_oid_to_order. cbn. by rewrite flat_cids_insert.
Qed.

Ltac usim_prim :=
  first
    [ apply usim_ret | apply usim_rd_order | apply usim_rd_level | apply usim_wr_order | apply usim_wr_level
    | apply usim_alloc_order | apply usim_alloc_level | apply usim_free_order | apply usim_free_level
    | apply usim_by_price | apply usim_opposite | apply usim_set_by_price | apply usim_level_fuel
    | apply usim_order_fuel | apply usim_new_id | apply usim_getOrdersAtPrice | apply usim_set_slot
    | apply usim_set_cid_oid | apply usim_send_response | apply usim_send_update | apply usim_throw ].

Ltac usim_step :=
  lazymatch goal with
  | |- usim (_ ≫= _) _ => apply usim_bind; [|intros ?]
  | |- usim (if ?c then _ else _) _ => destruct c
  | |- usim (match ?c with Some _ => _ | None => _ end) _ => destruct c
  | |- usim (match ?c with Side_INVALID => _ | Side_BUY => _ | Side_SELL => _ | Side_MAX => _ end) _ => destruct c
  | |- _ => usim_prim
  end.

Lemma usim_find_target fuel n best target c :
  usim (um_find_target fuel n best target c) (find_target fuel n best target c).
Proof.
  revert target c. induction fuel as [|fuel IH]; intros target c; cbn [um_find_target find_target];
    destruct (c && bool_decide (target ≠ best)); try usim_prim.
  usim_step; [usim_prim|]. change (um_goes_after n a) with (goes_after n a).
  destruct (goes_after n a); [apply IH|apply usim_ret].
Qed.

Lemma usim_position fuel n best : usim (um_position fuel n best) (position fuel n best).
Proof.
  unfold um_position, position. usim_step; [usim_prim|]. change (um_goes_after n a) with (goes_after n a).
  destruct (goes_after n a); [|apply usim_find_target].
  usim_step; [usim_prim|]. change (um_goes_after n a0) with (goes_after n a0). apply usim_find_target.
Qed.

Lemma usim_addOrdersAtPrice new : usim (um_addOrdersAtPrice new) (addOrdersAtPrice new).
Proof.
  unfold um_addOrdersAtPrice, addOrdersAtPrice, um_link_after, link_after, um_link_before, link_before.
  do 3 (usim_step; [usim_prim|]). usim_step; [|by repeat usim_step].
  usim_step; [usim_prim|]. usim_step; [apply usim_position|]. repeat usim_step.
Qed.

Lemma usim_removeOrdersAtPrice s p : usim (um_removeOrdersAtPrice s p) (removeOrdersAtPrice s p).
Proof. unfold um_removeOrdersAtPrice, removeOrdersAtPrice. repeat usim_step. Qed.

Lemma usim_removeOrder order : usim (um_removeOrder order) (removeOrder order).
Proof.
  unfold um_removeOrder, removeOrder. repeat first [apply usim_removeOrdersAtPrice | usim_step].
Qed.

Lemma usim_addOrder order : usim (um_addOrder order) (addOrder order).
Proof. unfold um_addOrder, addOrder. repeat first [apply usim_addOrdersAtPrice | usim_step]. Qed.

Lemma usim_getNextPriority p : usim (um_getNextPriority p) (getNextPriority p).
Proof. unfold um_getNextPriority, getNextPriority. repeat usim_step. Qed.

Lemma usim_match_order t c s co nid itr q :
  usim (um_match_order t c s co nid itr q) (match_order t c s co nid itr q).
Proof. unfold um_match_order, match_order. repeat first [apply usim_removeOrder | usim_step]. Qed.

Lemma usim_match_loop fuel c co t s p q nid :
  usim (um_match_loop fuel c co t s p q nid) (match_loop fuel c co t s p q nid).
Proof.
  revert q. induction fuel as [|fuel IH]; intros q; cbn [um_match_loop match_loop];
    (usim_step; [usim_prim|]); destruct (_ && _); try usim_prim.
  do 2 (usim_step; [usim_prim|]). change (um_beyond_limit s p) with (beyond_limit s p).
  destruct (beyond_limit s p _); [usim_prim|].
  usim_step; [apply usim_match_order|apply IH].
Qed.

Lemma usim_checkForMatch c co t s p q nid :
  usim (um_checkForMatch c co t s p q nid) (checkForMatch c co t s p q nid).
Proof.
  unfold um_checkForMatch, checkForMatch. usim_step; [usim_prim|].
  destruct s; first [apply usim_match_loop|usim_prim].
Qed.

Lemma usim_add c co t s p q : usim (um_add c co t s p q) (add c co t s p q).
Proof.
  unfold um_add, add. do 2 (usim_step; [usim_prim|]). usim_step; [apply usim_checkForMatch|].
  usim_step; [|usim_prim]. usim_step; [apply usim_getNextPriority|]. usim_step; [usim_prim|].
  usim_step; [apply usim_addOrder|usim_prim].
Qed.
End sim.
