(* ===== verification/UnorderedTheorems.v ===== *)
(** * The unordered book against the specification of order books *)
From S2P Require Import Prelude Types MemPool CircList EngineSink BookSpec BookSweep MEOrderBook.
From S2P Require Import BookRep BookPtr BookLevels BookFrame BookRemove BookMatch.
From S2P Require Import BookRefine BookTheorems BookCancel MatchingEngine UnorderedBook.
From S2P Require Import UnorderedSim.
Section theorems.
Context `{Limits} {E : Type} `{EngineSink E}.
Implicit Types (u : UnorderedMapMEOrderBook) (b : MEOrderBook) (e : E) (bk : Book) (r : MEClientRequest).

(** A request on the book. *)
Definition um_request r : UM (E := E) unit :=
  match req_type_ r with
  | ClientRequestType_NEW =>
      um_add (req_client_id_ r) (req_order_id_ r) (req_ticker_id_ r) (req_side_ r) (req_price_ r) (req_qty_ r)
  | ClientRequestType_CANCEL => um_cancel (req_client_id_ r) (req_order_id_ r) (req_ticker_id_ r)
  | _ => FATAL
  end.

Fixpoint um_requests (rs : list MEClientRequest) : UM (E := E) unit :=
  match rs with [] => mret tt | r :: rs => um_request r;; um_requests rs end.

(** The number of clients that the map has seen. *)
Definition clients_seen u : Z := Z.of_nat (size (um_cid_oid_to_order_ u)).

(** cancel finds the client's order if its id is less than the number of clients seen. *)
Definition reaches r u bk : Prop :=
  req_type_ r = ClientRequestType_CANCEL → req_client_id_ r < clients_seen u ∨
    find_order (req_client_id_ r) (req_order_id_ r) bk = None.

Fixpoint reaches_all (rs : list MEClientRequest) u e bk : Prop :=
  match rs with
  | [] => True
  | r :: rs => admissible r bk ∧ reaches r u bk ∧
      ∀ u' e', um_request r (u, e) = Ok (tt, (u', e')) → reaches_all rs u' e' (spec_request r bk).1
  end.

Fixpoint spec_requests (rs : list MEClientRequest) bk : Book * list event :=
  match rs with
  | [] => (bk, [])
  | r :: rs => let x := spec_request r bk in let y := spec_requests rs x.1 in (y.1, x.2 ++ y.2)
  end.

(** ** cancel after its lookup *)
Definition cancel_found (client_id order_id ticker_id : Z) (x : ptr) : B (E := E) unit :=
  match x with
  | None =>
      send_response (mkMEClientResponse ClientResponseType_CANCEL_REJECTED client_id ticker_id
                       order_id OrderId_INVALID Side_INVALID Price_INVALID Qty_INVALID Qty_INVALID)
  | Some _ =>
      o ← rd_order x;
      removeOrder x;;
      send_update (mkMEMarketUpdate MarketUpdateType_CANCEL (o_market_order_id_ o) ticker_id
                     (o_side_ o) (o_price_ o) 0 (o_priority_ o));;
      send_response (mkMEClientResponse ClientResponseType_CANCELED client_id ticker_id order_id
                       (o_market_order_id_ o) (o_side_ o) (o_price_ o) Qty_INVALID (o_qty_ o))
  end.

Definition um_cancel_found (client_id order_id ticker_id : Z) (x : ptr) : UM (E := E) unit :=
  match x with
  | None =>
      um_send_response (mkMEClientResponse ClientResponseType_CANCEL_REJECTED client_id ticker_id
                       order_id OrderId_INVALID Side_INVALID Price_INVALID Qty_INVALID Qty_INVALID)
  | Some _ =>
      o ← um_rd_order x;
      um_removeOrder x;;
      um_send_update (mkMEMarketUpdate MarketUpdateType_CANCEL (o_market_order_id_ o) ticker_id
                     (o_side_ o) (o_price_ o) 0 (o_priority_ o));;
      um_send_response (mkMEClientResponse ClientResponseType_CANCELED client_id ticker_id order_id
                       (o_market_order_id_ o) (o_side_ o) (o_price_ o) Qty_INVALID (o_qty_ o))
  end.

Lemma usim_cancel_found c o t x : usim (um_cancel_found c o t x) (cancel_found c o t x).
Proof.
  unfold um_cancel_found, cancel_found. destruct x; [|apply usim_send_response].
  apply usim_bind; [apply usim_rd_order|intros y]. apply usim_bind; [apply usim_removeOrder|intros _].
  apply usim_bind; [apply usim_send_update|intros _; apply usim_send_response].
Qed.

(** The table of a book that implements the specification. *)
Lemma cids_find b bk c o : implements b bk → cid_oid_to_order_ b !! (c, o) = None ↔ find_order c o bk = None.
Proof.
  intros (G & (om & lm & bst & pm & cm & Hv & Hr) & Hlv).
  assert (cid_oid_to_order_ b = cm) as -> by (unfold view in Hv; by destruct_and! Hv).
  pose proof Hr as (_ & _ & (_ & _ & _ & _ & _ & Hcm & Hb)). split.
  - intros Hn. unfold find_order. destruct (filter _ _) as [|y ys] eqn:Ef; [done|].
    assert (y ∈ filter (has_key c o) (book_orders bk)) as [[K1 K2] Hin]%list_elem_of_filter by (rewrite Ef; set_solver).
    unfold book_orders in Hin. rewrite Hlv in Hin. cbn [fst snd] in Hin.
    assert (∃ j, (j, y) ∈ gorders (G.1 ++ G.2)) as [j Hj].
    { rewrite gorders_app. apply elem_of_app in Hin as [Hin|Hin]; apply flat_gorders in Hin as [j Hj];
        exists j; set_solver. }
    assert (cm !! (c, o) = Some j); [|congruence]. apply Hcm. exists y. split; [done|congruence].
  - intros Hf. destruct (cm !! (c, o)) as [i|] eqn:Hi; [|done].
    destruct (rep_find _ _ _ _ _ _ _ _ _ Hr Hi)
      as (s & gs1 & lp & p & os1 & y & os2 & gs2 & Hs & HG & Hk & Hos & Hop & Hother & Hne).
    destruct (spec_delete bk G s gs1 lp p os1 i y os2 gs2 c o Hlv Hs HG Hk Hother Hne) as [E1 _]. congruence.
Qed.

Lemma cids_range b bk c o i : implements b bk → cid_oid_to_order_ b !! (c, o) = Some i → c < ME_MAX_NUM_CLIENTS.
Proof.
  intros (G & (om & lm & bst & pm & cm & Hv & Hr) & Hlv) Hi.
  assert (cid_oid_to_order_ b = cm) as Ecm by (unfold view in Hv; by destruct_and! Hv). rewrite Ecm in Hi.
  pose proof Hr as (_ & _ & (_ & _ & _ & _ & _ & Hcm & Hb)).
  apply Hcm in Hi as (y & Hin & [= -> _]). by destruct (Hb i y Hin) as [? _].
Qed.

Lemma cancel_lookup b bk e c o t :
  implements b bk → (c < ME_MAX_NUM_CLIENTS → o < ME_MAX_ORDER_IDS) →
  cancel c o t (b, e) = cancel_found c o t (cid_oid_to_order_ b !! (c, o)) (b, e).
Proof.
  intros Hb Ho. unfold cancel. destruct (c <? ME_MAX_NUM_CLIENTS) eqn:Ec.
  - apply Z.ltb_lt in Ec. rewrite (proj2 (Z.ltb_lt _ _) (Ho Ec)). done.
  - apply Z.ltb_ge in Ec. destruct (cid_oid_to_order_ b !! (c, o)) as [i|] eqn:Ei; [|done].
    pose proof (cids_range _ _ _ _ _ Hb Ei). lia.
Qed.

(** operator[] writes back what it reads. *)
Lemma um_get_cid_oid_spec u e c o :
  ∃ u', um_get_cid_oid (E := E) c o (u, e) = Ok (cid_oid_to_order_ (arrays u) !! (c, o), (u', e)) ∧ arrays u' = arrays u.
Proof.
  eexists. split.
  - unfold um_get_cid_oid, um_gets, um_set_cid_oid, um_modify, gets, modify, mbind, M_bind, mret, M_ret.
    cbn [compose fst snd]. cbn [arrays cid_oid_to_order_]. rewrite lookup_flat_cids. reflexivity.
  - unfold arrays, um_set_cid_oid_to_order. cbn. f_equal. rewrite flat_cids_insert.
    apply map_eq. intros k. rewrite <- (lookup_flat_cids (um_cid_oid_to_order_ u) c o).
    destruct (flat_cids (um_cid_oid_to_order_ u) !! (c, o)) as [i|] eqn:Ei; cbn [slot_set].
    + destruct (decide (k = (c, o))) as [->|Hk]; [by rewrite lookup_insert_eq|by rewrite lookup_insert_ne].
    + destruct (decide (k = (c, o))) as [->|Hk]; [by rewrite lookup_delete_eq|by rewrite lookup_delete_ne].
Qed.

Lemma um_cancel_lookup u bk e c o t :
  implements (arrays u) bk → c < clients_seen u ∨ find_order c o bk = None →
  ∃ u', arrays u' = arrays u ∧
    um_cancel c o t (u, e) = um_cancel_found c o t (cid_oid_to_order_ (arrays u) !! (c, o)) (u', e).
Proof.
  intros Hu Hc. unfold um_cancel, um_gets, gets, mbind at 1, M_bind at 1. cbn [compose fst].
  fold (clients_seen u). destruct (c <? clients_seen u) eqn:Ec.
  - destruct (um_get_cid_oid_spec u e c o) as (u' & Hg & Hu'). exists u'. split; [done|].
    unfold mbind at 1, M_bind at 1. rewrite Hg. done.
  - apply Z.ltb_ge in Ec. destruct Hc as [?|Hf]; [lia|]. exists u. split; [done|].
    apply (cids_find _ _ _ _ Hu) in Hf. by rewrite Hf.
Qed.

(** One request. *)
Lemma um_request_refines r u e bk :
  implements (arrays u) bk → admissible r bk → reaches r u bk →
  ∃ u', um_request r (u, e) = Ok (tt, (u', emit (spec_request r bk).2 e)) ∧
        implements (arrays u') (spec_request r bk).1.
Proof.
  intros Hu Ha Hr. unfold admissible, reaches, spec_request, um_request in *. destruct (req_type_ r); [done| |].
  - destruct Ha as (Hs & Hq & _ & Hc).
    pose proof (wp_add (arrays u) bk e _ _ (req_ticker_id_ r) _ _ _ Hu Hs Hq (λ _, Hc)) as Hwp.
    apply wp_Ok in Hwp as ([] & [b' e'] & Hadd & Himp & He). cbn [fst snd] in Himp, He. subst e'.
    pose proof (usim_add (E := E) (req_client_id_ r) (req_order_id_ r) (req_ticker_id_ r) (req_side_ r)
      (req_price_ r) (req_qty_ r) u e) as Hsim.
    rewrite Hadd in Hsim. destruct Hsim as (u' & Hu' & <-). by exists u'.
  - pose proof (wp_cancel (arrays u) bk e _ _ (req_ticker_id_ r) Hu Ha) as Hwp.
    apply wp_Ok in Hwp as ([] & [b' e'] & Hcan & Himp & He). cbn [fst snd] in Himp, He. subst e'.
    rewrite (cancel_lookup _ bk) in Hcan by done.
    destruct (um_cancel_lookup u bk e (req_client_id_ r) (req_order_id_ r) (req_ticker_id_ r) Hu (Hr eq_refl))
      as (u1 & Hu1 & ->).
    pose proof (usim_cancel_found (req_client_id_ r) (req_order_id_ r) (req_ticker_id_ r)
      (cid_oid_to_order_ (arrays u) !! (req_client_id_ r, req_order_id_ r)) u1 e) as Hsim.
    rewrite Hu1, Hcan in Hsim. destruct Hsim as (u' & Hu' & <-). by exists u'.
Qed.

(** C16: the book on unordered maps is an order book: it refines the same specification as the book on
    arrays.  It handles every sequence of admissible requests without a fault and sends exactly
    the messages of the specification, as long as a client that cancels a live order has an id
    below the number of clients that the map has seen, which is what its cancel tests. *)
Theorem unordered_book_refines rs u e bk :
  implements (arrays u) bk → reaches_all rs u e bk →
  ∃ u', um_requests rs (u, e) = Ok (tt, (u', emit (spec_requests rs bk).2 e)) ∧
        implements (arrays u') (spec_requests rs bk).1.
Proof.
  revert u e bk. induction rs as [|r rs IH]; intros u e bk Hu; cbn [reaches_all um_requests spec_requests].
  { intros _. by exists u. }
  intros (Ha & Hr & Hrest). destruct (um_request_refines r u e bk Hu Ha Hr) as (u1 & E1 & Hu1).
  destruct (IH u1 _ _ Hu1 (Hrest _ _ E1)) as (u2 & E2 & Hu2). exists u2. split; [|done].
  unfold mbind, M_bind. rewrite E1, E2. cbn [snd]. by rewrite emit_app.
Qed.

(** C38: cancel turns away the owner of a live order: when the client's id is not below the number of
    clients that the map has seen the cancel is rejected and the order stays, where the book on
    arrays cancels it. *)
Theorem unordered_cancel_rejects u e bk c o t x :
  implements (arrays u) bk → find_order c o bk = Some x → o < ME_MAX_ORDER_IDS → clients_seen u ≤ c →
  um_cancel c o t (u, e) = Ok (tt, (u, sendClientResponse
    (mkMEClientResponse ClientResponseType_CANCEL_REJECTED c t o OrderId_INVALID Side_INVALID Price_INVALID
       Qty_INVALID Qty_INVALID) e)) ∧
  ∃ b', cancel c o t (arrays u, e) = Ok (tt, (b', sendClientResponse
    (mkMEClientResponse ClientResponseType_CANCELED c t o (s_moid x) (s_side x) (s_price x) Qty_INVALID (s_qty x))
    (sendMarketUpdate (mkMEMarketUpdate MarketUpdateType_CANCEL (s_moid x) t (s_side x) (s_price x) 0 (s_prio x)) e))).
Proof.
  intros Hu Hf Ho Hc. split.
  - unfold um_cancel, um_gets, gets, mbind at 1, M_bind at 1. cbn [compose fst]. fold (clients_seen u).
    by rewrite (proj2 (Z.ltb_ge _ _) Hc).
  - pose proof (wp_cancel (arrays u) bk e c o t Hu (λ _, Ho)) as Hwp.
    apply wp_Ok in Hwp as ([] & [b' e'] & Hcan & _ & He). cbn [fst snd] in He. subst e'. exists b'.
    unfold spec_cancel in Hcan. by rewrite Hf in Hcan.
Qed.

(** A new book is empty. *)
Lemma um_new_implements t :
  0 < ME_MAX_PRICE_LEVELS → 0 < ME_MAX_ORDER_IDS → implements (arrays (UnorderedMapMEOrderBook_new t)) empty_book.
Proof. apply new_implements. Qed.
End theorems.
