(* ===== verification/BookPrint.v ===== *)
(** * Printing an order book

    toString of the three order books (me_order_book.cpp, unordered_map_me_order_book.cpp and
    market_order_book.cpp), which differ only in the types they read and in snprintf and sprintf.
    [BookReader] is what they read.  The loops follow the circular lists until they come back, and
    the validity check exits the process when the levels are not sorted. *)
From S2P Require Import Prelude Types MemPool EngineSink MEOrderBook MarketOrderBook MarketBookSim UnorderedBook.
Class BookReader (Bk : Type) := {
  br_ticker : Bk → Z;
  br_best : Side → Bk → ptr;                             (** asks_by_price_ and bids_by_price_ *)
  br_level : ptr → Bk → result MEOrdersAtPrice;          (** through a pointer to a level *)
  br_order : ptr → Bk → result MEOrder;                  (** through a pointer to an order *)
  br_level_string : ptr → Bk → result string;            (** itr->toString() *)
  br_buf : string → string;                              (** what a printf into the buffer leaves *)
  br_fuel : Bk → nat
}.

(** ** Formatting *)

Fixpoint spaces (n : nat) : string := match n with O => EmptyString | S n => " " +:+ spaces n end.
(** "%3s" and "%-3s". *)
Definition pad_left (n : nat) (s : string) : string := spaces (n - String.length s) +:+ s.
Definition pad_right (n : nat) (s : string) : string := s +:+ spaces (n - String.length s).

(** char buf[4096]: snprintf keeps 4095 characters, sprintf writes them all. *)
Definition snprintf (s : string) : string := String.substring 0 (Z.to_nat 4095) s.
Definition sprintf (s : string) : string := s.

Definition row_text (price prev next : Z) (qty num_orders : Z) : string :=
  " <px:" +:+ pad_left 3 (priceToString price) +:+ " p:" +:+ pad_left 3 (priceToString prev)
  +:+ " n:" +:+ pad_left 3 (priceToString next) +:+ "> " +:+ pad_right 3 (priceToString price)
  +:+ " @ " +:+ pad_right 5 (qtyToString qty) +:+ "(" +:+ pad_right 4 (pretty num_orders) +:+ ")".

Definition order_text (id qty prev next : Z) : string :=
  "[oid:" +:+ orderIdToString id +:+ " q:" +:+ qtyToString qty +:+ " p:" +:+ orderIdToString prev
  +:+ " n:" +:+ orderIdToString next +:+ "] ".

(** ** The loops *)

(** for (itr = first;; itr = next(itr)) { body; if (next(itr) == first) break; } *)
Fixpoint for_ring {A} (fuel : nat) (next : ptr → result ptr) (body : ptr → A → result A) (first itr : ptr) (acc : A) :
    result A :=
  match fuel with
  | O => Err Diverges
  | S fuel =>
      acc ← body itr acc;
      n ← next itr;
      if decide (n = first) then mret acc else for_ring fuel next body first n acc
  end.

Section toString.
Context {Bk : Type} `{BookReader Bk} (b : Bk).

Definition next_order (itr : ptr) : result ptr := o ← br_order itr b; mret (next_order_ o).

(** The first loop of the printer. *)
Definition count_order (itr : ptr) (acc : Z * Z) : result (Z * Z) :=
  o ← br_order itr b; mret (u32 (acc.1 + o_qty_ o), acc.2 + 1).

Definition id_or_invalid (x : ptr) : result Z :=
  match x with None => mret OrderId_INVALID | Some _ => o ← br_order x b; mret (o_market_order_id_ o) end.

(** The body of the second loop. *)
Definition print_order (detailed : bool) (itr : ptr) (ss : string) : result string :=
  if detailed then
    o ← br_order itr b;
    prev ← id_or_invalid (prev_order_ o);
    next ← id_or_invalid (next_order_ o);
    mret (ss +:+ br_buf (order_text (o_market_order_id_ o) (o_qty_ o) prev next))
  else mret ss.

(** The condition of the validity check. *)
Definition not_sorted (side : Side) (last_price price : Z) : bool :=
  (bool_decide (side = Side_SELL) && (price <=? last_price)) ||
  (bool_decide (side = Side_BUY) && (last_price <=? price)).

(** The lambda printer; the second result is last_price. *)
Definition printer (detailed : bool) (itr : ptr) (side : Side) (last_price : Z) (sanity_check : bool) (ss : string) :
    result (string * Z) :=
  l ← br_level itr b;
  c ← for_ring (br_fuel b) next_order count_order (first_me_order_ l) (first_me_order_ l) (0, 0);
  prev ← br_level (prev_entry_ l) b;
  next ← br_level (next_entry_ l) b;
  let ss := ss +:+ br_buf (row_text (l_price_ l) (l_price_ prev) (l_price_ next) c.1 c.2) in
  ss ← for_ring (br_fuel b) next_order (print_order detailed) (first_me_order_ l) (first_me_order_ l) ss;
  let ss := ss +:+ endl in
  if sanity_check then
    if not_sorted side last_price (l_price_ l) then s ← br_level_string itr b; Err FatalExit
    else mret (ss, l_price_ l)
  else mret (ss, last_price).

Fixpoint print_levels (fuel : nat) (name : string) (detailed : bool) (side : Side) (check : bool) (best itr : ptr)
    (count : Z) (last_price : Z) (ss : string) : result string :=
  match itr with
  | None => mret ss
  | Some _ =>
      match fuel with
      | O => Err Diverges
      | S fuel =>
          let ss := ss +:+ name +:+ pretty count +:+ " => " in
          l ← br_level itr b;
          let next := if decide (next_entry_ l = best) then None else next_entry_ l in
          x ← printer detailed itr side last_price check ss;
          print_levels fuel name detailed side check best next (count + 1) x.2 x.1
      end
  end.

Definition toString (detailed validity_check : bool) : result string :=
  let ss := "Ticker:" +:+ tickerIdToString (br_ticker b) +:+ endl in
  ss ← print_levels (br_fuel b) "ASKS L:" detailed Side_SELL validity_check (br_best Side_SELL b)
         (br_best Side_SELL b) 0 (- 2 ^ 63) ss;
  let ss := ss +:+ endl +:+ "                          X" +:+ endl +:+ endl in
  print_levels (br_fuel b) "BIDS L:" detailed Side_BUY validity_check (br_best Side_BUY b)
    (br_best Side_BUY b) 0 (2 ^ 63 - 1) ss.
End toString.

(** ** Objects (me_order.h, me_order.cpp, market_order.h, market_order.cpp) *)

(** A field of the object that a pointer leads to, if any. *)
Definition field_or {T} (x : ptr) (pool : MemPool T) (f : T → Z) (invalid : Z) : result Z :=
  match x with None => mret invalid | Some _ => o ← deref x pool; mret (f o) end.

Definition MEOrder_toString (pool : MemPool MEOrder) (o : MEOrder) : result string :=
  prev ← field_or (prev_order_ o) pool o_market_order_id_ OrderId_INVALID;
  next ← field_or (next_order_ o) pool o_market_order_id_ OrderId_INVALID;
  mret ("MEOrder" +:+ "[" +:+ "ticker:" +:+ tickerIdToString (o_ticker_id_ o) +:+ " "
    +:+ "cid:" +:+ clientIdToString (o_client_id_ o) +:+ " "
    +:+ "oid:" +:+ orderIdToString (o_client_order_id_ o) +:+ " "
    +:+ "moid:" +:+ orderIdToString (o_market_order_id_ o) +:+ " "
    +:+ "side:" +:+ sideToString (o_side_ o) +:+ " "
    +:+ "price:" +:+ priceToString (o_price_ o) +:+ " "
    +:+ "qty:" +:+ qtyToString (o_qty_ o) +:+ " "
    +:+ "prio:" +:+ priorityToString (o_priority_ o) +:+ " "
    +:+ "prev:" +:+ orderIdToString prev +:+ " "
    +:+ "next:" +:+ orderIdToString next +:+ "]").

Definition MEOrdersAtPrice_toString (orders : MemPool MEOrder) (pool : MemPool MEOrdersAtPrice) (l : MEOrdersAtPrice) :
    result string :=
  first ← match first_me_order_ l with
          | None => mret "null"
          | Some _ => o ← deref (first_me_order_ l) orders; MEOrder_toString orders o
          end;
  prev ← field_or (prev_entry_ l) pool l_price_ Price_INVALID;
  next ← field_or (next_entry_ l) pool l_price_ Price_INVALID;
  mret ("MEOrdersAtPrice[" +:+ "side:" +:+ sideToString (l_side_ l) +:+ " "
    +:+ "price:" +:+ priceToString (l_price_ l) +:+ " " +:+ "first_me_order:" +:+ first +:+ " "
    +:+ "prev:" +:+ priceToString prev +:+ " " +:+ "next:" +:+ priceToString next +:+ "]").

Definition MarketOrder_toString (pool : MemPool MarketOrder) (o : MarketOrder) : result string :=
  prev ← field_or (mo_prev_order_ o) pool mo_order_id_ OrderId_INVALID;
  next ← field_or (mo_next_order_ o) pool mo_order_id_ OrderId_INVALID;
  mret ("MarketOrder" +:+ "[" +:+ "oid:" +:+ orderIdToString (mo_order_id_ o) +:+ " "
    +:+ "side:" +:+ sideToString (mo_side_ o) +:+ " "
    +:+ "price:" +:+ priceToString (mo_price_ o) +:+ " "
    +:+ "qty:" +:+ qtyToString (mo_qty_ o) +:+ " "
    +:+ "prio:" +:+ priorityToString (mo_priority_ o) +:+ " "
    +:+ "prev:" +:+ orderIdToString prev +:+ " "
    +:+ "next:" +:+ orderIdToString next +:+ "]").

Definition MarketOrdersAtPrice_toString (orders : MemPool MarketOrder) (pool : MemPool MarketOrdersAtPrice)
    (l : MarketOrdersAtPrice) : result string :=
  first ← match first_mkt_order_ l with
          | None => mret "null"
          | Some _ => o ← deref (first_mkt_order_ l) orders; MarketOrder_toString orders o
          end;
  prev ← field_or (ml_prev_entry_ l) pool ml_price_ Price_INVALID;
  next ← field_or (ml_next_entry_ l) pool ml_price_ Price_INVALID;
  mret ("MarketOrdersAtPrice[" +:+ "side:" +:+ sideToString (ml_side_ l) +:+ " "
    +:+ "price:" +:+ priceToString (ml_price_ l) +:+ " " +:+ "first_mkt_order:" +:+ first +:+ " "
    +:+ "prev:" +:+ priceToString prev +:+ " " +:+ "next:" +:+ priceToString next +:+ "]").

(** ** The three books *)
#[export] Instance me_reader : BookReader MEOrderBook := {|
  br_ticker := ticker_id_;
  br_best side b := if decide (side = Side_BUY) then bids_by_price_ b else asks_by_price_ b;
  br_level x b := deref x (orders_at_price_pool_ b);
  br_order x b := deref x (order_pool_ b);
  br_level_string x b :=
    l ← deref x (orders_at_price_pool_ b);
    MEOrdersAtPrice_toString (order_pool_ b) (orders_at_price_pool_ b) l;
  br_buf := snprintf;
  br_fuel b := (pool_size (orders_at_price_pool_ b) + pool_size (order_pool_ b))%nat
|}.

#[export] Instance um_reader : BookReader UnorderedMapMEOrderBook := {|
  br_ticker := um_ticker_id_;
  br_best side b := if decide (side = Side_BUY) then um_bids_by_price_ b else um_asks_by_price_ b;
  br_level x b := deref x (um_orders_at_price_pool_ b);
  br_order x b := deref x (um_order_pool_ b);
  br_level_string x b :=
    l ← deref x (um_orders_at_price_pool_ b);
    MEOrdersAtPrice_toString (um_order_pool_ b) (um_orders_at_price_pool_ b) l;
  br_buf := sprintf;
  br_fuel b := (pool_size (um_orders_at_price_pool_ b) + pool_size (um_order_pool_ b))%nat
|}.

#[export] Instance mb_reader : BookReader MarketOrderBook := {|
  br_ticker := mb_ticker_id_;
  br_best side b := if decide (side = Side_BUY) then mb_bids_by_price_ b else mb_asks_by_price_ b;
  br_level x b := result_map as_MEOrdersAtPrice (deref x (mb_orders_at_price_pool_ b));
  br_order x b := result_map as_MEOrder (deref x (mb_order_pool_ b));
  br_level_string x b :=
    l ← deref x (mb_orders_at_price_pool_ b);
    MarketOrdersAtPrice_toString (mb_order_pool_ b) (mb_orders_at_price_pool_ b) l;
  br_buf := snprintf;
  br_fuel b := (pool_size (mb_orders_at_price_pool_ b) + pool_size (mb_order_pool_ b))%nat
|}.

(** The methods of the three classes. *)
Definition MEOrderBook_toString (b : MEOrderBook) (detailed validity_check : bool) : result string :=
  toString b detailed validity_check.
Definition um_toString (b : UnorderedMapMEOrderBook) (detailed validity_check : bool) : result string :=
  toString b detailed validity_check.
Definition mb_toString (b : MarketOrderBook) (detailed validity_check : bool) : result string :=
  toString b detailed validity_check.
