(* ===== verification/BookPrintSpec.v ===== *)
(** * What the printed book says

    The text of an abstract book, and the theorem that the three books print the text of the book
    that they implement: the loops over the circular lists end, no pointer is null, and the validity
    check does not exit. *)
From S2P Require Import Prelude Types MemPool CircList EngineSink BookSpec MEOrderBook BookRep BookPtr.
From S2P Require Import BookFrame BookAdd BookRefine BookTheorems MarketOrderBook MarketBookSim.
From S2P Require Import UnorderedBook UnorderedSim BookPrint.
(** ** Neighbours in a ring *)
Section ring.
Context {A : Type}.
Implicit Types (x y first prev : A) (l : list A).

(** The elements with the ones before and after; after the last comes [first]. *)
Fixpoint ring_from first prev l : list (A * A * A) :=
  match l with
  | [] => []
  | x :: r => (prev, x, match r with [] => first | y :: _ => y end) :: ring_from first x r
  end.

Definition ring l : list (A * A * A) :=
  match l, last l with x :: _, Some z => ring_from x z l | _, _ => [] end.

Lemma ring_from_length first prev l : length (ring_from first prev l) = length l.
Proof. revert prev. induction l as [|x l IH]; intros prev; cbn; [done|]. by rewrite IH. Qed.
End ring.

Definition map3 {A B} (f : A → B) (t : A * A * A) : B * B * B := (f t.1.1, f t.1.2, f t.2).

Lemma ring_from_fmap {A B} (f : A → B) first prev l :
  ring_from (f first) (f prev) (f <$> l) = map3 f <$> ring_from first prev l.
Proof.
  revert prev. induction l as [|x l IH]; intros prev; [done|]. cbn. rewrite <- IH. by destruct l.
Qed.

Lemma ring_fmap {A B} (f : A → B) l : ring (f <$> l) = map3 f <$> ring l.
Proof.
  unfold ring. destruct l as [|x l]; [done|]. pose proof (fmap_last f (x :: l)) as E.
  change (f <$> x :: l) with (f x :: (f <$> l)) in E |- *. cbv iota. rewrite E.
  destruct (last (x :: l)) as [z|]; [|done]. cbn [fmap option_fmap option_map].
  by rewrite <- (ring_from_fmap f x z (x :: l)).
Qed.

(** The links of a circular list lead to the neighbours. *)
Section links.
Context {A : Type} (nxt prv : nat → option nat).
Implicit Types (l : list (nat * A)).

Definition linked3 (t : (nat * A) * (nat * A) * (nat * A)) : Prop :=
  prv t.1.2.1 = Some t.1.1.1 ∧ nxt t.1.2.1 = Some t.2.1.

Lemma ring_from_linked (first prev x : nat * A) l :
  prv x.1 = Some prev.1 → seg nxt prv x.1 l.*1 first.1 → Forall linked3 (ring_from first prev (x :: l)).
Proof.
  revert prev x. induction l as [|y l IH]; intros prev x Hp Hs; cbn [ring_from].
  - constructor; [|constructor]. by destruct Hs.
  - destruct Hs as [[Hn Hp'] Hs]. constructor; [done|]. by apply IH.
Qed.

Lemma ring_linked l : circ nxt prv l.*1 → Forall linked3 (ring l).
Proof.
  unfold ring. destruct l as [|x l]; [constructor|]. intros Hc.
  destruct (last (x :: l)) as [z|] eqn:E; [|by destruct l].
  apply ring_from_linked; [|exact Hc]. cbn [fmap list_fmap] in Hc. pose proof (circ_prev _ _ [] x.1 l.*1 Hc) as Hp.
  rewrite app_nil_r in Hp. rewrite Hp. change (x.1 :: l.*1) with ((x :: l).*1). by rewrite fmap_last, E.
Qed.
End links.

Lemma ring_from_elem {A} (first prev : A) l t :
  t ∈ ring_from first prev l → (t.1.1 = prev ∨ t.1.1 ∈ l) ∧ t.1.2 ∈ l ∧ (t.2 = first ∨ t.2 ∈ l).
Proof.
  revert prev. induction l as [|x l IH]; intros prev; cbn; [by intros ?%not_elem_of_nil|].
  intros [->|Ht]%elem_of_cons.
  - cbn. destruct l; set_solver.
  - destruct (IH x Ht) as ([->|?] & ? & [?|?]); set_solver.
Qed.

Lemma ring_elem {A} (l : list A) t : t ∈ ring l → t.1.1 ∈ l ∧ t.1.2 ∈ l ∧ t.2 ∈ l.
Proof.
  unfold ring. destruct l as [|x l]; [by intros ?%not_elem_of_nil|].
  destruct (last (x :: l)) as [z|] eqn:E; [|by intros ?%not_elem_of_nil].
  apply last_Some_elem_of in E. intros ([->|?] & ? & [->|?])%ring_from_elem; set_solver.
Qed.

(** ** The text *)
Section text.
Context (buf : string → string) (detailed : bool).

Definition order_line (t : Order * Order * Order) : string :=
  buf (order_text (s_moid t.1.2) (s_qty t.1.2) (s_moid t.1.1) (s_moid t.2)).

Definition level_line (t : Level * Level * Level) : string :=
  let os := t.1.2.2 in
  buf (row_text t.1.2.1 t.1.1.1 t.2.1 (foldl (λ q o, u32 (q + s_qty o)) 0 os) (Z.of_nat (length os)))
  +:+ (if detailed then cat (order_line <$> ring os) else EmptyString) +:+ endl.

Fixpoint lines_from (name : string) (count : Z) (ts : list (Level * Level * Level)) : string :=
  match ts with
  | [] => EmptyString
  | t :: ts => name +:+ pretty count +:+ " => " +:+ level_line t +:+ lines_from name (count + 1) ts
  end.

Definition book_text (ticker : Z) (bk : Book) : string :=
  "Ticker:" +:+ tickerIdToString ticker +:+ endl
  +:+ lines_from "ASKS L:" 0 (ring (levels bk).2)
  +:+ endl +:+ "                          X" +:+ endl +:+ endl
  +:+ lines_from "BIDS L:" 0 (ring (levels bk).1).
End text.

(** ** The loops *)
Fixpoint foldM {A B} (f : B → A → result A) (l : list B) (acc : A) : result A :=
  match l with [] => mret acc | x :: l => acc ← f x acc; foldM f l acc end.

Lemma foldM_fmap {A B C} (f : B → A → result A) (g : C → B) l acc :
  foldM f (g <$> l) acc = foldM (λ x, f (g x)) l acc.
Proof.
  revert acc. induction l as [|x l IH]; intros acc; [done|]. cbn. destruct (f (g x) acc); [|done]. apply IH.
Qed.

Lemma foldM_cat {B} (f : B → string → result string) (g : B → string) l ss :
  (∀ t ss, t ∈ l → f t ss = Ok (ss +:+ g t)) → foldM f l ss = Ok (ss +:+ cat (g <$> l)).
Proof.
  revert ss. induction l as [|t l IH]; intros ss Hf; cbn; [by rewrite append_nil|].
  rewrite Hf by set_solver. cbn. rewrite IH by (intros ? ? ?; apply Hf; set_solver). by rewrite append_assoc.
Qed.

Lemma for_ring_seg {A} nxt prv (next : ptr → result ptr) (body : ptr → A → result A) first x l acc fuel :
  seg nxt prv x l first → (∀ i, i ∈ x :: l → next (Some i) = Ok (nxt i)) → first ∉ l →
  (length (x :: l) ≤ fuel)%nat →
  for_ring fuel next body (Some first) (Some x) acc = foldM (λ i, body (Some i)) (x :: l) acc.
Proof.
  revert x acc fuel. induction l as [|y l IH]; intros x acc [|fuel] Hs Hn Hf Hl; cbn in Hl; try lia; cbn [for_ring foldM];
    destruct (body (Some x) acc) as [acc'|]; try done; cbn [mbind result_bind]; rewrite Hn by set_solver.
  - destruct Hs as [-> _]. cbn [mbind result_bind]. by rewrite decide_True.
  - destruct Hs as [[-> _] Hs]. cbn [mbind result_bind]. rewrite decide_False by set_solver.
    apply IH; [done|intros i Hi; apply Hn; set_solver|set_solver|cbn; lia].
Qed.

Lemma ring_from_middle {A} (first prev : A) l : (λ t, t.1.2) <$> ring_from first prev l = l.
Proof. revert prev. induction l as [|x l IH]; intros prev; [done|]. cbn. by rewrite IH. Qed.

Lemma ring_middle {A} (l : list A) : (λ t, t.1.2) <$> ring l = l.
Proof.
  unfold ring. destruct l as [|x l]; [done|]. destruct (last (x :: l)) as [z|] eqn:E; [|by apply last_None in E].
  apply ring_from_middle.
Qed.

Section printed.
Context `{Limits} {Bk : Type} `{BookReader Bk}.
Implicit Types (b : Bk) (a : MEOrderBook) (g : GLevel) (gs : list GLevel) (s : Side)
  (om : gmap nat MEOrder) (lm : gmap nat MEOrdersAtPrice).

(** The book reads like a matching engine's book. *)
Record same_reading b a : Prop := {
  sr_ticker : br_ticker b = ticker_id_ a;
  sr_best : ∀ s, br_best s b = if decide (s = Side_BUY) then bids_by_price_ a else asks_by_price_ a;
  sr_level : ∀ x, br_level x b = deref x (orders_at_price_pool_ a);
  sr_order : ∀ x, br_order x b = deref x (order_pool_ a);
  sr_fuel : br_fuel b = (pool_size (orders_at_price_pool_ a) + pool_size (order_pool_ a))%nat
}.

Section side.
Context b a om lm (bst : ptr * ptr) (pm : gmap Z nat) (cm : gmap (Z * Z) nat) (nid : Z) s gs.
Hypothesis Hread : same_reading b a.
Hypothesis Hv : view a om lm bst pm cm nid.
Hypothesis Hs : trading_side s.
Hypothesis Hside : side_rep om lm s (sel s bst) gs.
Hypothesis Hfuel : (length (gorders gs) + length gs ≤ br_fuel b)%nat.
Hypothesis Hnd : NoDup gs.*1 ∧ NoDup (gorders gs).*1.

Lemma read_order g i o :
  g ∈ gs → (i, o) ∈ g.2.2 →
  ∃ x, br_order (Some i) b = Ok x ∧ o_market_order_id_ x = s_moid o ∧ o_qty_ x = s_qty o ∧
    MEOrderBook.next_order_ x = onxt om i ∧ prev_order_ x = oprv om i.
Proof.
  intros Hg Ho. destruct Hside as (_ & _ & Hf & _). rewrite Forall_forall in Hf.
  destruct (Hf g Hg) as (_ & _ & Hfo & _). rewrite Forall_forall in Hfo. destruct (Hfo _ Ho) as (Hx & _).
  cbn [fst snd] in Hx. unfold onxt, oprv. destruct (om !! i) as [x|] eqn:Ex; [|done]. cbn in Hx. injection Hx as <-.
  exists x. rewrite (sr_order _ _ Hread). destruct Hv as (<- & _). by rewrite (deref_heap _ _ _ Ex).
Qed.

Lemma read_level g :
  g ∈ gs → ∃ l, br_level (Some g.1) b = Ok l ∧ l_price_ l = g.2.1 ∧ first_me_order_ l = head g.2.2.*1 ∧
    next_entry_ l = lnxt lm g.1 ∧ prev_entry_ l = lprv lm g.1.
Proof.
  intros Hg. destruct Hside as (_ & _ & Hf & _). rewrite Forall_forall in Hf.
  destruct (Hf g Hg) as (_ & Hx & _). unfold lnxt, lprv. destruct (lm !! g.1) as [l|] eqn:Ex; [|done].
  cbn in Hx. unfold level_data in Hx. injection Hx as _ Hp Hh. exists l. rewrite (sr_level _ _ Hread).
  destruct Hv as (_ & _ & _ & <- & _). by rewrite (deref_heap _ _ _ Ex).
Qed.

(** A loop over the orders of a level. *)
Lemma level_loop {A} (body : ptr → A → result A) g acc :
  g ∈ gs →
  for_ring (br_fuel b) (BookPrint.next_order b) body (head g.2.2.*1) (head g.2.2.*1) acc
  = foldM (λ i, body (Some i)) g.2.2.*1 acc.
Proof.
  intros Hg. pose proof Hside as (_ & _ & Hf & _). rewrite Forall_forall in Hf.
  destruct (Hf g Hg) as (Hne & _ & _ & Hc). destruct Hnd as [_ Hnd2].
  assert (NoDup g.2.2.*1 ∧ (length g.2.2 ≤ length (gorders gs))%nat) as [Hndg Hlen].
  { apply list_elem_of_split in Hg as (gs1 & gs2 & ->). revert Hnd2. unfold gorders. rewrite bind_app, bind_cons.
    rewrite !fmap_app, !length_app. intros (_ & _ & Hnd2)%NoDup_app. apply NoDup_app in Hnd2 as [? _]. split; [done|lia]. }
  destruct g.2.2 as [|[i o] gos] eqn:Egos; [done|]. cbn [fmap list_fmap fst head] in *.
  apply (for_ring_seg (onxt om) (oprv om)); [exact Hc| |by apply NoDup_cons in Hndg as [? _]|].
  - intros j Hj. change (i :: gos.*1) with (((i, o) :: gos).*1) in Hj.
    apply list_elem_of_fmap in Hj as ([j' o'] & -> & Hj). rewrite <- Egos in Hj.
    destruct (read_order g j' o' Hg Hj) as (x & Hx & _ & _ & Hnx & _).
    unfold BookPrint.next_order. cbn [fst]. rewrite Hx. cbn [mbind result_bind]. by rewrite Hnx.
  - cbn [length] in *. rewrite length_fmap. lia.
Qed.

Lemma count_loop g :
  g ∈ gs →
  foldM (λ i, count_order b (Some i)) g.2.2.*1 (0, 0)
  = Ok (foldl (λ q o, u32 (q + s_qty o)) 0 g.2.2.*2, Z.of_nat (length g.2.2.*2)).
Proof.
  intros Hg. assert (∀ l q n, l ⊆ g.2.2 → foldM (λ i, count_order b (Some i)) l.*1 (q, n)
    = Ok (foldl (λ q o, u32 (q + s_qty o)) q l.*2, n + Z.of_nat (length l.*2))) as Hgen; [|by apply Hgen].
  intros l. induction l as [|[i o] l IH]; intros q n Hl; cbn [fmap list_fmap foldM foldl length fst snd].
  { rewrite Z.add_0_r. done. }
  assert (count_order b (Some i) (q, n) = Ok (u32 (q + s_qty o), n + 1)) as ->.
  { destruct (read_order g i o Hg) as (x & Hx & _ & Hq & _); [set_solver|].
    unfold count_order. rewrite Hx. cbn [mbind result_bind fst snd]. by rewrite Hq. }
  cbn [mbind result_bind]. rewrite IH by set_solver. f_equal. f_equal. lia.
Qed.

(** The rows of the orders. *)
Lemma order_row g t ss :
  g ∈ gs → t ∈ ring g.2.2 →
  print_order b true (Some t.1.2.1) ss = Ok (ss +:+ order_line br_buf (map3 snd t)).
Proof.
  intros Hg Ht. destruct t as [[[ip op] [i o]] [jn on]].
  pose proof Hside as (_ & _ & Hf & _). rewrite Forall_forall in Hf. destruct (Hf g Hg) as (_ & _ & _ & Hc).
  pose proof (ring_linked (onxt om) (oprv om) g.2.2 Hc) as Hl. rewrite Forall_forall in Hl.
  destruct (Hl _ Ht) as [Hp Hn]. cbn [fst snd] in Hp, Hn. apply ring_elem in Ht as (Hp' & Ho & Hn'). cbn [fst snd] in *.
  destruct (read_order g i o Hg Ho) as (x & Hx & Hid & Hq & Hnx & Hpx).
  destruct (read_order g ip op Hg Hp') as (xp & Hxp & Hidp & _).
  destruct (read_order g jn on Hg Hn') as (xn & Hxn & Hidn & _).
  unfold print_order. rewrite Hx. cbn [mbind result_bind]. rewrite Hpx, Hnx, Hp, Hn. unfold id_or_invalid.
  rewrite Hxp, Hxn. cbn [mbind result_bind mret result_ret]. by rewrite Hid, Hq, Hidp, Hidn.
Qed.

Lemma order_rows detailed g ss :
  g ∈ gs →
  foldM (λ i, print_order b detailed (Some i)) g.2.2.*1 ss
  = Ok (ss +:+ if detailed then cat (order_line br_buf <$> ring g.2.2.*2) else EmptyString).
Proof.
  intros Hg. destruct detailed.
  - rewrite <- (ring_middle g.2.2) at 1. rewrite !foldM_fmap, (ring_fmap snd), <- list_fmap_compose.
    apply foldM_cat. intros t ss' Ht. by apply (order_row g).
  - rewrite append_nil. induction g.2.2.*1 as [|i l IH]; [done|]. cbn. apply IH.
Qed.

(** One level. *)
Lemma printer_line detailed check last t ss :
  t ∈ ring gs → (check = true → not_sorted s last t.1.2.2.1 = false) →
  printer b detailed (Some t.1.2.1) s last check ss
  = Ok (ss +:+ level_line br_buf detailed (map3 abs_level t), if check then t.1.2.2.1 else last).
Proof.
  intros Ht Hchk. pose proof Hside as (_ & Hc & _).
  pose proof (ring_linked (lnxt lm) (lprv lm) gs Hc) as Hl. rewrite Forall_forall in Hl.
  destruct (Hl _ Ht) as [Hp Hn]. apply ring_elem in Ht as (Hp' & Hg & Hn').
  destruct (read_level _ Hg) as (l & Hx & Hpr & Hfi & Hnx & Hpx).
  destruct (read_level _ Hp') as (lp & Hxp & Hprp & _). destruct (read_level _ Hn') as (ln & Hxn & Hprn & _).
  unfold printer. rewrite Hx. cbn [mbind result_bind]. rewrite Hfi, !level_loop by done. rewrite count_loop by done.
  cbn [mbind result_bind fst snd]. rewrite Hpx, Hnx, Hp, Hn, Hxp, Hxn. cbn [mbind result_bind].
  rewrite level_loop by done. rewrite order_rows by done. cbn [mbind result_bind]. rewrite Hpr, Hprp, Hprn.
  unfold level_line, map3, abs_level. cbn [fst snd]. rewrite !append_assoc.
  destruct check; [|done]. by rewrite Hchk.
Qed.

Lemma not_sorted_before last p : not_sorted s last p = negb (before s last p).
Proof.
  unfold not_sorted, before. destruct Hs as [->| ->]; repeat case_bool_decide; repeat case_decide; try done; cbn; lia.
Qed.

(** The levels of the side, from [x] on. *)
Lemma print_levels_ring name detailed check first prev x l count last ss fuel :
  Forall (λ t, t ∈ ring gs) (ring_from first prev (x :: l)) → first.1 ∉ l.*1 → (length (x :: l) ≤ fuel)%nat →
  before s last x.2.1 = true → sorted_levels s (x :: l) →
  print_levels b fuel name detailed s check (Some first.1) (Some x.1) count last ss
  = Ok (ss +:+ lines_from br_buf detailed name count (map3 abs_level <$> ring_from first prev (x :: l))).
Proof.
  revert prev x count last ss fuel. induction l as [|y l IH]; intros prev x count last ss [|fuel] Hall Hnin Hlen Hlast Hsort;
    cbn [length] in Hlen; try lia; cbn [print_levels ring_from fmap list_fmap lines_from].
  all: apply Forall_cons in Hall as [Ht Hall]; pose proof Hside as (_ & Hc & _).
  all: pose proof (ring_linked (lnxt lm) (lprv lm) gs Hc) as Hl; rewrite Forall_forall in Hl; destruct (Hl _ Ht) as [_ Hn].
  all: pose proof (ring_elem _ _ Ht) as (_ & Hx & _); destruct (read_level _ Hx) as (lv & Hlv & _ & _ & Hnx & _).
  all: cbn [fst snd] in Hn, Hlv, Hnx; rewrite Hlv; cbn [mbind result_bind]; rewrite Hnx, Hn.
  all: assert (check = true → not_sorted s last x.2.1 = false) as Hchk by (intros _; by rewrite not_sorted_before, Hlast).
  all: match type of Ht with ?t ∈ _ => pose proof (λ ss, printer_line detailed check last t ss Ht Hchk) as Hpr end;
    cbn [fst snd] in Hpr; rewrite Hpr; cbn [mbind result_bind fst snd].
  - rewrite decide_True by done. destruct fuel; cbn [print_levels mret result_ret]; by rewrite !append_assoc, append_nil.
  - rewrite decide_False by (intros [= E]; apply Hnin; rewrite <- E; by left).
    apply StronglySorted_inv in Hsort as [Hsort Hb]. apply Forall_cons in Hb as [Hb _].
    rewrite (IH x y); [by rewrite !append_assoc|exact Hall|set_solver|cbn [length]; lia| |done].
    destruct check; [done|]. by eapply before_trans.
Qed.
End side.

(** Both sides. *)
Lemma print_side b a bk s name detailed check lastp ss fuel :
  same_reading b a → implements a bk → trading_side s → (br_fuel b ≤ fuel)%nat →
  (∀ p, p ∈ (sel s (levels bk)).*1 → before s lastp p = true) →
  print_levels b fuel name detailed s check (br_best s b) (br_best s b) 0 lastp ss
  = Ok (ss +:+ lines_from br_buf detailed name 0 (ring (sel s (levels bk)))).
Proof.
  intros Hread (G & Hr & Hlv) Hs Hf Hlast. pose proof (rep_wf _ _ _ s Hs Hr) as (_ & Hsort & Hol).
  destruct Hr as (om & lm & bst & pm & cm & Hv & Hrep).
  pose proof (rep_side _ _ _ _ _ _ s Hs Hrep) as Hside.
  pose proof (rep_global _ _ _ _ _ _ s Hs Hrep) as Hg. destruct (rep_sizes _ _ _ _ _ Hg) as [Hsz _].
  destruct Hg as (Hnd1 & Hnd2 & _). rewrite fmap_app in Hnd1. rewrite gorders_app, fmap_app in Hnd2.
  apply NoDup_app in Hnd1 as (Hnd1 & _). apply NoDup_app in Hnd2 as (Hnd2 & _).
  assert (length (sel s G) ≤ pool_size (orders_at_price_pool_ a))%nat as Hll.
  { pose proof Hv as (_ & _ & _ & Hlm & (blk & Hb & Hfree) & _). rewrite length_app, <- Hlm in Hsz.
    pose proof (heap_size_free (orders_at_price_pool_ a) _ (ex_intro _ blk (conj Hb Hfree))). lia. }
  assert (br_best s b = sel s bst) as Hbest.
  { rewrite (sr_best _ _ Hread). pose proof Hv as (_ & _ & _ & _ & _ & _ & <- & _). unfold sel. cbn. by case_decide. }
  assert (sel s (levels bk) = abs_levels (sel s G)) as Hsel by (rewrite Hlv; apply sel_abs).
  rewrite Hbest, Hsel in *. unfold abs_levels in *. rewrite ring_fmap. set (gs := sel s G) in *. clearbody gs.
  pose proof Hside as (Hh & _). rewrite Hh.
  destruct gs as [|x l]; [cbn; rewrite append_nil; by destruct fuel|]. cbn [fmap list_fmap head].
  assert (∃ z, ring (x :: l) = ring_from x z (x :: l)) as [z Hring].
  { unfold ring. destruct (last (x :: l)) as [z|] eqn:Ez; [by exists z|by apply last_None in Ez]. }
  pose proof (sr_fuel _ _ Hread) as Hfu. rewrite Hring.
  apply (print_levels_ring b a om lm bst pm cm (next_id bk) s (x :: l)); try done.
  - lia.
  - by rewrite Hring, Forall_forall.
  - by apply NoDup_cons in Hnd1 as [? _].
  - lia.
  - apply Hlast. by left.
Qed.

Lemma toString_prints_book b a bk detailed validity_check :
  same_reading b a → implements a bk → (∀ p, p ∈ prices bk → - 2 ^ 63 < p < 2 ^ 63 - 1) →
  toString b detailed validity_check = Ok (book_text br_buf detailed (ticker_id_ a) bk).
Proof.
  intros Hread Himp Hp. unfold toString.
  rewrite (print_side b a bk Side_SELL) by (first [done|by right|
    intros p Hin; unfold before; cbn; apply Z.ltb_lt, Hp, elem_of_app; by right]).
  cbn [mbind result_bind].
  rewrite (print_side b a bk Side_BUY) by (first [done|by left|
    intros p Hin; unfold before; cbn; apply Z.ltb_lt, Hp, elem_of_app; by left]).
  unfold book_text. rewrite (sr_ticker _ _ Hread), !append_assoc. done.
Qed.
End printed.

(** ** The three books *)
Lemma me_reads (b : MEOrderBook) : same_reading b b.
Proof. by constructor. Qed.

Lemma um_reads (u : UnorderedMapMEOrderBook) : same_reading u (arrays u).
Proof. by constructor. Qed.

Lemma mb_reads (b : MarketOrderBook) : same_reading b (matching b).
Proof.
  constructor; try done; cbn [matching orders_at_price_pool_ order_pool_ br_level br_order mb_reader]; intros.
  - by rewrite deref_map.
  - by rewrite deref_map.
  - by rewrite !pool_size_map.
Qed.

(** The prices are between the extremes of their type. *)
Definition inner_prices (bk : Book) : Prop := ∀ p, p ∈ prices bk → - 2 ^ 63 < p < 2 ^ 63 - 1.

(** C17: printing an order book terminates and says what is in it.  Each of the three books that
    implements an abstract book [bk], whose prices are between the extremes of their type, prints the
    text of [bk], every level and order with its neighbours, without following a null pointer, and
    with the validity check on does not exit. *)
Theorem books_print `{Limits} (b : MEOrderBook) (u : UnorderedMapMEOrderBook) (m : MarketOrderBook) bk bk_u bk_m
    (detailed validity_check : bool) :
  implements b bk → inner_prices bk → implements (arrays u) bk_u → inner_prices bk_u →
  implements (matching m) bk_m → inner_prices bk_m →
  MEOrderBook_toString b detailed validity_check = Ok (book_text snprintf detailed (ticker_id_ b) bk) ∧
  um_toString u detailed validity_check = Ok (book_text sprintf detailed (um_ticker_id_ u) bk_u) ∧
  mb_toString m detailed validity_check = Ok (book_text snprintf detailed (mb_ticker_id_ m) bk_m).
Proof.
  intros Hb Hp Hu Hpu Hm Hpm. split_and!.
  - pose proof (toString_prints_book b b bk detailed validity_check (me_reads b) Hb Hp) as E.
    cbn [br_buf me_reader] in E. exact E.
  - pose proof (toString_prints_book u (arrays u) bk_u detailed validity_check (um_reads u) Hu Hpu) as E.
    cbn [br_buf um_reader arrays ticker_id_] in E. exact E.
  - pose proof (toString_prints_book m (matching m) bk_m detailed validity_check (mb_reads m) Hm Hpm) as E.
    cbn [br_buf mb_reader matching ticker_id_] in E. exact E.
Qed.
