(* ===== verification/StrategyPrint.v ===== *)
(** * The printing of positions and configurations

    The methods toString of trading/strategy/position_keeper.h and risk_manager.h and of the configuration
    records of common/types.h.  How a stream prints a double is an argument, and so is the best bid
    and offer that a position points to. *)
From S2P Require Import Prelude Types BookSpec MarketOrderBook Double PositionKeeper RiskManager.

Section print.
Context (print_double : double → string) (bbo_at : nat → BBO).
Implicit Types (p : PositionInfo) (k : PositionKeeper) (cfg : RiskCfg).

(** ** Configurations (types.h) *)
Definition RiskCfg_toString cfg : string :=
  "RiskCfg{" +:+ "max-order-size:" +:+ qtyToString (max_order_size_ cfg)
  +:+ " " +:+ "max-position:" +:+ qtyToString (max_position_ cfg)
  +:+ " " +:+ "max-loss:" +:+ print_double (max_loss_ cfg) +:+ "}".

Definition TradeEngineCfg_toString (cfg : TradeEngineCfg) : string :=
  "TradeEngineCfg{" +:+ "clip:" +:+ qtyToString (clip_ cfg)
  +:+ " " +:+ "thresh:" +:+ print_double (threshold_ cfg)
  +:+ " " +:+ "risk:" +:+ RiskCfg_toString (risk_cfg_ cfg) +:+ "}".

(** ** Positions *)

(** The average price of a side: of the array open_vwap_, by at, and of the quantity. *)
Definition average_price (side : Side) p : result double :=
  if position_ p =? 0 then mret dzero
  else
    match open_vwap_ p !! side_index side with
    | None => Err OutOfRange
    | Some v => n ← std_abs (position_ p); mret (ddiv v (of_int n))
    end.

Definition PositionInfo_toString p : result string :=
  buy ← average_price Side_BUY p;
  sell ← average_price Side_SELL p;
  mret ("Position{" +:+ "pos:" +:+ pretty (position_ p)
    +:+ " u-pnl:" +:+ print_double (unreal_pnl_ p)
    +:+ " r-pnl:" +:+ print_double (real_pnl_ p)
    +:+ " t-pnl:" +:+ print_double (total_pnl_ p)
    +:+ " vol:" +:+ qtyToString (volume_ p)
    +:+ " vwaps:[" +:+ print_double buy
    +:+ "X" +:+ print_double sell
    +:+ "] "
    +:+ match pi_bbo_ p with Some book => BBO_toString (bbo_at book) | None => EmptyString end +:+ "}").

(** The loop over the tickers, from [i]: the lines, and the two totals. *)
Fixpoint keeper_lines (i : Z) k (total_pnl : double) (total_vol : Z) : result (string * double * Z) :=
  match k with
  | [] => mret (EmptyString, total_pnl, total_vol)
  | p :: k =>
      s ← PositionInfo_toString p;
      x ← keeper_lines (i + 1) k (dadd total_pnl (total_pnl_ p)) (u32 (total_vol + volume_ p));
      mret ("TickerId:" +:+ tickerIdToString i +:+ " " +:+ s +:+ endl +:+ x.1.1, x.1.2, x.2)
  end.

Definition PositionKeeper_toString k : result string :=
  x ← keeper_lines 0 k dzero 0;
  mret (x.1.1 +:+ "Total PnL:" +:+ print_double x.1.2 +:+ " Vol:" +:+ pretty x.2 +:+ endl).

(** RiskInfo, whose pointer leads to the position of its ticker. *)
Definition RiskInfo_toString p cfg : result string :=
  s ← PositionInfo_toString p;
  mret ("RiskInfo" +:+ "[" +:+ "pos:" +:+ s +:+ " " +:+ RiskCfg_toString cfg +:+ "]").

(** ** What is printed *)

(** Positions with an absolute value, and an array of the size that its type gives it. *)
Definition printable p : Prop := - 2 ^ 31 < position_ p < 2 ^ 31 ∧ length (open_vwap_ p) = 4%nat.

Definition average side p : double :=
  if position_ p =? 0 then dzero
  else ddiv (default dzero (open_vwap_ p !! side_index side)) (of_int (Z.abs (position_ p))).

Definition position_text p : string :=
  "Position{pos:" +:+ pretty (position_ p) +:+ " u-pnl:" +:+ print_double (unreal_pnl_ p)
  +:+ " r-pnl:" +:+ print_double (real_pnl_ p) +:+ " t-pnl:" +:+ print_double (total_pnl_ p)
  +:+ " vol:" +:+ qtyToString (volume_ p) +:+ " vwaps:[" +:+ print_double (average Side_BUY p)
  +:+ "X" +:+ print_double (average Side_SELL p) +:+ "] "
  +:+ match pi_bbo_ p with Some book => BBO_toString (bbo_at book) | None => EmptyString end +:+ "}".

Definition ticker_line (i : nat) p : string :=
  "TickerId:" +:+ tickerIdToString (Z.of_nat i) +:+ " " +:+ position_text p +:+ endl.

Lemma average_price_ok side p :
  printable p → trading_side side → average_price side p = Ok (average side p).
Proof.
  intros [Hp Hl] Hs. unfold average_price, average. destruct (position_ p =? 0); [done|].
  destruct (lookup_lt_is_Some_2 (open_vwap_ p) (side_index side)) as [v ->].
  { rewrite Hl. destruct Hs as [->| ->]; by apply Nat.ltb_lt. }
  unfold std_abs. by rewrite int32_ok by lia.
Qed.

Lemma PositionInfo_text p : printable p → PositionInfo_toString p = Ok (position_text p).
Proof.
  intros Hp. unfold PositionInfo_toString. 
  rewrite (average_price_ok Side_BUY); [|done|by left]. rewrite (average_price_ok Side_SELL); [|done|by right]. done.
Qed.

Lemma keeper_lines_text i k pnl vol :
  Forall printable k → is_u32 vol →
  keeper_lines (Z.of_nat i) k pnl vol
  = Ok (cat (imap (λ j, ticker_line (i + j)) k), foldl (λ t p, dadd t (total_pnl_ p)) pnl k,
        u32 (vol + foldr (λ p n, volume_ p + n) 0 k)).
Proof.
  intros Hk. revert i pnl vol. induction Hk as [|p k Hp Hk IH]; intros i pnl vol Hvol; cbn [keeper_lines imap cat foldl foldr].
  { by rewrite Z.add_0_r, u32_small. }
  rewrite PositionInfo_text by done. cbn [mbind result_bind]. replace (Z.of_nat i + 1) with (Z.of_nat (S i)) by lia.
  rewrite IH by apply u32_range. cbn [mbind result_bind mret result_ret fst snd]. unfold u32. rewrite Z.add_mod_idemp_l by done.
  rewrite Z.add_assoc. f_equal. f_equal. f_equal. rewrite Nat.add_0_r.
  assert (∀ s, ticker_line i p +:+ s
    = "TickerId:" +:+ tickerIdToString (Z.of_nat i) +:+ " " +:+ position_text p +:+ endl +:+ s) as ->.
  { intros s. unfold ticker_line. by rewrite !append_assoc. }
  do 5 f_equal. unfold compose. f_equal. apply imap_ext. intros j q _. by rewrite Nat.add_succ_comm.
Qed.

(** The keeper prints a line per ticker and the totals: the profits added from the first ticker on, and the
    volumes at the width of 32 bits. *)
Theorem PositionKeeper_prints k :
  Forall printable k →
  PositionKeeper_toString k
  = Ok (cat (imap ticker_line k) +:+ "Total PnL:" +:+ print_double (foldl (λ t p, dadd t (total_pnl_ p)) dzero k)
          +:+ " Vol:" +:+ pretty (u32 (foldr (λ p n, volume_ p + n) 0 k)) +:+ endl).
Proof. intros Hk. unfold PositionKeeper_toString. rewrite (keeper_lines_text 0) by done. done. Qed.

(** The one position whose absolute value does not fit cannot be printed. *)
Lemma smallest_position_faults p :
  position_ p = - 2 ^ 31 → length (open_vwap_ p) = 4%nat → PositionInfo_toString p = Err SignedOverflow.
Proof.
  intros Hp Hl. unfold PositionInfo_toString, average_price. rewrite Hp.
  destruct (open_vwap_ p) as [|v0 [|v1 [|v2 l]]]; done.
Qed.
End print.
