(* ===== verification/Logger.v ===== *)
(** * The two loggers (common/logging.h and common/opt_logging.h)

    The thread that logs writes elements into a queue; the logger's own thread prints them into the
    file.  The methods log of the two classes are the same text over different elements: [log_with]
    is that text.  A C string is its characters before the terminating zero.  The file is what was
    written to it; how a stream prints a float or a double is an argument. *)
From S2P Require Import Prelude LFQueue Double.
From Stdlib Require Import Ascii.

(** The value that is logged, by the overload of pushValue that takes it. *)
Inductive log_value :=
  | val_char (c : ascii)
  | val_int (z : Z)
  | val_long (z : Z)
  | val_long_long (z : Z)
  | val_unsigned (z : Z)
  | val_unsigned_long (z : Z)
  | val_unsigned_long_long (z : Z)
  | val_float (d : double)
  | val_double (d : double)
  | val_cstr (s : string)
  | val_string (s : string).

(** c_str: the characters of a std::string up to the first zero. *)
Fixpoint c_str (s : string) : string :=
  match s with
  | EmptyString => EmptyString
  | String c s => if decide (c = "000"%char) then EmptyString else String c (c_str s)
  end.

(** strncpy into a zeroed buffer of n + 1 characters. *)
Fixpoint strncpy (n : nat) (s : string) : string :=
  match n, s with
  | S n, String c s => String c (strncpy n s)
  | _, _ => EmptyString
  end.

Definition percent : ascii := "%"%char.

Section loggers.
Context {Elem : Type} (CHAR : ascii → Elem) (pushValue : log_value → LFQueue Elem → LFQueue Elem).

(** log: a percent sign is replaced by the next argument, two are one that is printed. *)
Fixpoint log_with (s : string) (args : list log_value) (q : LFQueue Elem) : result (LFQueue Elem) :=
  match s with
  | EmptyString => match args with [] => Ok q | _ => Err FatalExit end
  | String c s' =>
      if decide (c = percent) then
        match s' with
        | String c2 s'' =>
            if decide (c2 = percent) then log_with s'' args (push (CHAR c2) q)
            else match args with [] => Err FatalExit | v :: args => log_with s' args (pushValue v q) end
        | EmptyString => match args with [] => Err FatalExit | v :: args => log_with s' args (pushValue v q) end
        end
      else log_with s' args (push (CHAR c) q)
  end.

(** A round of flushQueue; the size of the queue is enough fuel. *)
Fixpoint flush_with (print : Elem → string) (fuel : nat) (q : LFQueue Elem) (file : string) :
    result (LFQueue Elem * string) :=
  match pop q, fuel with
  | Err e, _ => Err e
  | Ok None, _ => Ok (q, file)
  | Ok (Some _), O => Err Diverges
  | Ok (Some (e, q)), S fuel => flush_with print fuel q (file +:+ print e)
  end.
End loggers.

Section printing.
Context (print_float print_double : double → string).

(** ** Logger *)
Inductive LogElement :=
  | CHAR (c : ascii)
  | INTEGER (i : Z)
  | LONG_INTEGER (l : Z)
  | LONG_LONG_INTEGER (ll : Z)
  | UNSIGNED_INTEGER (u : Z)
  | UNSIGNED_LONG_INTEGER (ul : Z)
  | UNSIGNED_LONG_LONG_INTEGER (ull : Z)
  | FLOAT (f : double)
  | DOUBLE (d : double).

Definition one_char (c : ascii) : string := String c EmptyString.

(** The insertion into the file. *)
Definition print_element (e : LogElement) : string :=
  match e with
  | CHAR c => one_char c
  | INTEGER z | LONG_INTEGER z | LONG_LONG_INTEGER z | UNSIGNED_INTEGER z | UNSIGNED_LONG_INTEGER z
  | UNSIGNED_LONG_LONG_INTEGER z => pretty z
  | FLOAT d => print_float d
  | DOUBLE d => print_double d
  end.

Fixpoint push_chars (s : string) (q : LFQueue LogElement) : LFQueue LogElement :=
  match s with EmptyString => q | String c s => push_chars s (push (CHAR c) q) end.

Definition pushValue (v : log_value) (q : LFQueue LogElement) : LFQueue LogElement :=
  match v with
  | val_char c => push (CHAR c) q
  | val_int z => push (INTEGER z) q
  | val_long z => push (LONG_INTEGER z) q
  | val_long_long z => push (LONG_LONG_INTEGER z) q
  | val_unsigned z => push (UNSIGNED_INTEGER z) q
  | val_unsigned_long z => push (UNSIGNED_LONG_INTEGER z) q
  | val_unsigned_long_long z => push (UNSIGNED_LONG_LONG_INTEGER z) q
  | val_float d => push (FLOAT d) q
  | val_double d => push (DOUBLE d) q
  | val_cstr s => push_chars s q
  | val_string s => push_chars (c_str s) q
  end.

Record Logger := mkLogger { lg_file_ : string; lg_queue_ : LFQueue LogElement; running_ : bool }.

Definition LOG_QUEUE_SIZE : nat := 8 * 1024 * 1024.

(** [opened] and [thread_ok] say whether the file could be opened and the thread created. *)
Definition Logger_new (queue_size : nat) (opened thread_ok : bool) : result Logger :=
  if opened && thread_ok then Ok (mkLogger EmptyString (LFQueue_new queue_size (CHAR "000"%char)) true) else Err AssertFailed.

Definition log (s : string) (args : list log_value) (g : Logger) : result Logger :=
  q ← log_with CHAR pushValue s args (lg_queue_ g);
  mret (mkLogger (lg_file_ g) q (running_ g)).

Definition flushQueue (g : Logger) : result Logger :=
  if running_ g then
    x ← flush_with print_element (q_size (lg_queue_ g)) (lg_queue_ g) (lg_file_ g);
    mret (mkLogger x.2 x.1 (running_ g))
  else Ok g.

(** One round of the destructor's waiting loop: None while it sleeps. *)
Definition Logger_delete (g : Logger) : option Logger :=
  if (q_size (lg_queue_ g) =? 0)%nat then Some (mkLogger (lg_file_ g) (lg_queue_ g) false) else None.

(** ** OptLogger: a string is one element of at most 255 characters *)
Inductive OptLogElement :=
  | OPT_CHAR (c : ascii)
  | OPT_INTEGER (i : Z)
  | OPT_LONG_INTEGER (l : Z)
  | OPT_LONG_LONG_INTEGER (ll : Z)
  | OPT_UNSIGNED_INTEGER (u : Z)
  | OPT_UNSIGNED_LONG_INTEGER (ul : Z)
  | OPT_UNSIGNED_LONG_LONG_INTEGER (ull : Z)
  | OPT_FLOAT (f : double)
  | OPT_DOUBLE (d : double)
  | OPT_STRING (s : string).

Definition opt_print_element (e : OptLogElement) : string :=
  match e with
  | OPT_CHAR c => one_char c
  | OPT_INTEGER z | OPT_LONG_INTEGER z | OPT_LONG_LONG_INTEGER z | OPT_UNSIGNED_INTEGER z
  | OPT_UNSIGNED_LONG_INTEGER z | OPT_UNSIGNED_LONG_LONG_INTEGER z => pretty z
  | OPT_FLOAT d => print_float d
  | OPT_DOUBLE d => print_double d
  | OPT_STRING s => s
  end.

Definition opt_buffer_chars : nat := 255.

Definition opt_pushValue (v : log_value) (q : LFQueue OptLogElement) : LFQueue OptLogElement :=
  match v with
  | val_char c => push (OPT_CHAR c) q
  | val_int z => push (OPT_INTEGER z) q
  | val_long z => push (OPT_LONG_INTEGER z) q
  | val_long_long z => push (OPT_LONG_LONG_INTEGER z) q
  | val_unsigned z => push (OPT_UNSIGNED_INTEGER z) q
  | val_unsigned_long z => push (OPT_UNSIGNED_LONG_INTEGER z) q
  | val_unsigned_long_long z => push (OPT_UNSIGNED_LONG_LONG_INTEGER z) q
  | val_float d => push (OPT_FLOAT d) q
  | val_double d => push (OPT_DOUBLE d) q
  | val_cstr s => push (OPT_STRING (strncpy opt_buffer_chars s)) q
  | val_string s => push (OPT_STRING (strncpy opt_buffer_chars (c_str s))) q
  end.

Record OptLogger := mkOptLogger { ol_file_ : string; ol_queue_ : LFQueue OptLogElement; ol_running_ : bool }.

Definition OptLogger_new (queue_size : nat) (opened thread_ok : bool) : result OptLogger :=
  if opened && thread_ok then Ok (mkOptLogger EmptyString (LFQueue_new queue_size (OPT_CHAR "000"%char)) true)
  else Err AssertFailed.

Definition opt_log (s : string) (args : list log_value) (g : OptLogger) : result OptLogger :=
  q ← log_with OPT_CHAR opt_pushValue s args (ol_queue_ g);
  mret (mkOptLogger (ol_file_ g) q (ol_running_ g)).

Definition opt_flushQueue (g : OptLogger) : result OptLogger :=
  if ol_running_ g then
    x ← flush_with opt_print_element (q_size (ol_queue_ g)) (ol_queue_ g) (ol_file_ g);
    mret (mkOptLogger x.2 x.1 (ol_running_ g))
  else Ok g.

Definition OptLogger_delete (g : OptLogger) : option OptLogger :=
  if (q_size (ol_queue_ g) =? 0)%nat then Some (mkOptLogger (ol_file_ g) (ol_queue_ g) false) else None.
End printing.
