(* ===== verification/LoggerSpec.v ===== *)
(** * What the loggers write

    The reference formatting of a string with its arguments, and that logging and flushing writes
    it. *)
From S2P Require Import Prelude LFQueue Double Logger.
From Stdlib Require Import Ascii.

(** ** The reference *)
Inductive piece := Lit (c : ascii) | Hole.

Fixpoint parse (s : string) : list piece :=
  match s with
  | EmptyString => []
  | String c s' =>
      if decide (c = percent) then
        match s' with
        | String c2 s'' => if decide (c2 = percent) then Lit percent :: parse s'' else Hole :: parse s'
        | EmptyString => [Hole]
        end
      else Lit c :: parse s'
  end.

Definition is_hole (x : piece) : bool := match x with Hole => true | Lit _ => false end.
Definition holes (ps : list piece) : nat := length (filter (λ x, is_hole x = true) ps).

(** The pieces with the arguments in the holes, when there are as many. *)
Fixpoint fill_with {A} (lit : ascii → list A) (value : log_value → list A) (ps : list piece) (args : list log_value) :
    option (list A) :=
  match ps, args with
  | [], [] => Some []
  | Lit c :: ps, args => app (lit c) <$> fill_with lit value ps args
  | Hole :: ps, v :: args => app (value v) <$> fill_with lit value ps args
  | _, _ => None
  end.


Section text.
Context (print_float print_double : double → string).

(** The text of a value. *)
Definition show_value (v : log_value) : string :=
  match v with
  | val_char c => one_char c
  | val_int z | val_long z | val_long_long z | val_unsigned z | val_unsigned_long z | val_unsigned_long_long z =>
      pretty z
  | val_float d => print_float d
  | val_double d => print_double d
  | val_cstr s => s
  | val_string s => c_str s
  end.

Definition format (s : string) (args : list log_value) : option string :=
  cat <$> fill_with (λ c, [one_char c]) (λ v, [show_value v]) (parse s) args.
End text.

(** ** Strings *)
Fixpoint chars (s : string) : list ascii :=
  match s with EmptyString => [] | String c s => c :: chars s end.

Lemma cat_chars s : cat (one_char <$> chars s) = s.
Proof. induction s as [|c s IH]; [done|]. cbn. rewrite IH. done. Qed.

Lemma strncpy_all n s : (String.length s ≤ n)%nat → strncpy n s = s.
Proof. revert n. induction s as [|c s IH]; intros [|n] Hn; cbn in *; try done; [lia|]. by rewrite IH by lia. Qed.

(** ** Filling the holes *)
Lemma fill_with_holes {A} (lit : ascii → list A) value ps args :
  fill_with lit value ps args = None ↔ holes ps ≠ length args.
Proof.
  revert args. induction ps as [|[c|] ps IH]; intros args; cbn [fill_with].
  - by destruct args.
  - change (holes (Lit c :: ps)) with (holes ps). rewrite <- IH. by destruct (fill_with _ _ ps args).
  - change (holes (Hole :: ps)) with (S (holes ps)). destruct args as [|v args]; [done|]. cbn [length].
    rewrite Nat.succ_inj_wd_neg, <- IH. by destruct (fill_with _ _ ps args).
Qed.

(** Two fillings of which one prints as the other. *)
Lemma fill_with_prints {A} (print : A → string) (lit : ascii → list A) value text ps args :
  (∀ c, cat (print <$> lit c) = one_char c) → Forall (λ v, cat (print <$> value v) = text v) args →
  (λ es, cat (print <$> es)) <$> fill_with lit value ps args
  = cat <$> fill_with (λ c, [one_char c]) (λ v, [text v]) ps args.
Proof.
  intros Hlit. revert args. induction ps as [|[c|] ps IH]; intros args Hargs; cbn [fill_with].
  - by destruct args.
  - specialize (IH args Hargs). destruct (fill_with lit value ps args) as [es|], (fill_with _ _ ps args) as [ts|];
      cbn in *; try done. injection IH as IH. by rewrite fmap_app, cat_app, Hlit, IH.
  - destruct args as [|v args]; [done|]. apply Forall_cons in Hargs as [Hv Hargs].
    specialize (IH args Hargs). destruct (fill_with lit value ps args) as [es|], (fill_with _ _ ps args) as [ts|];
      cbn in *; try done. injection IH as IH. by rewrite fmap_app, cat_app, Hv, IH.
Qed.

(** ** The common code of the loggers *)
Section loggers.
Context {Elem : Type} (char_elem : ascii → Elem) (push_value : log_value → LFQueue Elem → LFQueue Elem)
  (elems : log_value → list Elem) (print : Elem → string).
Hypothesis Hpush : ∀ v q, push_value v q = push_all (elems v) q.

Definition entries (s : string) (args : list log_value) : option (list Elem) :=
  fill_with (λ c, [char_elem c]) elems (parse s) args.

Lemma push_entries_app (l1 l2 : list Elem) q : push_all (l1 ++ l2) q = push_all l2 (push_all l1 q).
Proof. revert q. induction l1 as [|x l1 IH]; intros q; cbn; [done|]. apply IH. Qed.

Lemma log_with_spec s args q :
  log_with char_elem push_value s args q
  = match entries s args with Some es => Ok (push_all es q) | None => Err FatalExit end.
Proof.
  unfold entries. remember (String.length s) as n eqn:Hn. assert (String.length s ≤ n)%nat as Hle by lia. clear Hn.
  revert s args q Hle. induction n as [|n IH]; intros s args q Hle.
  { destruct s; [|cbn in Hle; lia]. by destruct args. }
  assert (∀ s' v args' q', (String.length s' ≤ n)%nat →
    match v :: args' with [] => Err FatalExit | v :: a => log_with char_elem push_value s' a (push_value v q') end
    = match fill_with (λ c, [char_elem c]) elems (Hole :: parse s') (v :: args') with
      | Some es => Ok (push_all es q') | None => Err FatalExit end) as Hhole.
  { intros s' v args' q' Hl. cbn [fill_with]. rewrite IH by done.
    destruct (fill_with _ _ _ _) as [es|]; [|done]. cbn [fmap option_fmap option_map].
    by rewrite push_entries_app, Hpush. }
  assert (∀ s' args' c q', (String.length s' ≤ n)%nat →
    log_with char_elem push_value s' args' (push (char_elem c) q')
    = match fill_with (λ c, [char_elem c]) elems (Lit c :: parse s') args' with
      | Some es => Ok (push_all es q') | None => Err FatalExit end) as Hlit.
  { intros s' args' c q' Hl. cbn [fill_with]. rewrite IH by done.
    by destruct (fill_with _ _ _ _) as [es|]. }
  destruct s as [|c s]; [by destruct args|]. cbn [String.length] in Hle. cbn [log_with parse].
  case_decide as Hc; [|apply Hlit; lia].
  destruct s as [|c2 s].
  - destruct args as [|v args]; [done|]. apply (Hhole EmptyString). cbn. lia.
  - cbn [String.length] in Hle. case_decide as Hc2; [rewrite Hc2; apply Hlit; lia|].
    destruct args as [|v args]; [done|]. apply (Hhole (String c2 s)). cbn. lia.
Qed.

Lemma flush_with_spec q l file :
  holds q l → ∃ q', flush_with print (q_size q) q file = Ok (q', file +:+ cat (print <$> l)) ∧ holds q' [].
Proof.
  intros Hq. rewrite (holds_size _ _ Hq). revert q file Hq. induction l as [|x l IH]; intros q file Hq.
  - cbn [length flush_with]. rewrite (holds_pop_nil _ Hq). exists q. cbn. by rewrite append_nil.
  - destruct (holds_pop_cons _ _ _ Hq) as (q1 & Hpop & Hq1 & _). cbn [length flush_with]. rewrite Hpop.
    destruct (IH q1 (file +:+ print x) Hq1) as (q2 & -> & Hq2). exists q2. split; [|done].
    cbn. by rewrite append_assoc.
Qed.

(** Logging, then flushing. *)
Lemma log_flush_spec s args q l es file :
  holds q l → entries s args = Some es → (length l + length es ≤ capacity q)%nat →
  ∃ q1 q2, log_with char_elem push_value s args q = Ok q1 ∧
    flush_with print (q_size q1) q1 file = Ok (q2, file +:+ cat (print <$> l) +:+ cat (print <$> es)) ∧ holds q2 [].
Proof.
  intros Hq He Hroom. rewrite log_with_spec, He.
  assert (holds (push_all es q) (l ++ es)) as Hq1 by (by apply holds_push_all).
  destruct (flush_with_spec _ _ file Hq1) as (q2 & Hf & Hq2). exists (push_all es q), q2.
  split_and!; [done| |done]. by rewrite Hf, fmap_app, cat_app.
Qed.
End loggers.

(** ** The two loggers *)
Section theorems.
Context (print_float print_double : double → string).
Implicit Types (g : Logger) (o : OptLogger).

Definition value_elems (v : log_value) : list LogElement :=
  match v with
  | val_char c => [CHAR c]
  | val_int z => [INTEGER z]
  | val_long z => [LONG_INTEGER z]
  | val_long_long z => [LONG_LONG_INTEGER z]
  | val_unsigned z => [UNSIGNED_INTEGER z]
  | val_unsigned_long z => [UNSIGNED_LONG_INTEGER z]
  | val_unsigned_long_long z => [UNSIGNED_LONG_LONG_INTEGER z]
  | val_float d => [FLOAT d]
  | val_double d => [DOUBLE d]
  | val_cstr s => CHAR <$> chars s
  | val_string s => CHAR <$> chars (c_str s)
  end.

Lemma push_chars_all s q : push_chars s q = push_all (CHAR <$> chars s) q.
Proof. revert q. induction s as [|c s IH]; intros q; cbn; [done|]. apply IH. Qed.

Lemma pushValue_all v q : pushValue v q = push_all (value_elems v) q.
Proof. destruct v; try done; apply push_chars_all. Qed.

Lemma print_chars s : cat (print_element print_float print_double <$> (CHAR <$> chars s)) = s.
Proof. rewrite <- list_fmap_compose. apply cat_chars. Qed.

Lemma value_elems_text v :
  cat (print_element print_float print_double <$> value_elems v) = show_value print_float print_double v.
Proof. destruct v; try (cbn; apply append_nil); apply print_chars. Qed.

Definition opt_value_elems (v : log_value) : list OptLogElement :=
  match v with
  | val_char c => [OPT_CHAR c]
  | val_int z => [OPT_INTEGER z]
  | val_long z => [OPT_LONG_INTEGER z]
  | val_long_long z => [OPT_LONG_LONG_INTEGER z]
  | val_unsigned z => [OPT_UNSIGNED_INTEGER z]
  | val_unsigned_long z => [OPT_UNSIGNED_LONG_INTEGER z]
  | val_unsigned_long_long z => [OPT_UNSIGNED_LONG_LONG_INTEGER z]
  | val_float d => [OPT_FLOAT d]
  | val_double d => [OPT_DOUBLE d]
  | val_cstr s => [OPT_STRING (strncpy opt_buffer_chars s)]
  | val_string s => [OPT_STRING (strncpy opt_buffer_chars (c_str s))]
  end.

Lemma opt_pushValue_all v q : opt_pushValue v q = push_all (opt_value_elems v) q.
Proof. by destruct v. Qed.

(** The strings that fit the buffer of an element. *)
Definition fits (v : log_value) : Prop :=
  match v with
  | val_cstr s => (String.length s ≤ opt_buffer_chars)%nat
  | val_string s => (String.length (c_str s) ≤ opt_buffer_chars)%nat
  | _ => True
  end.

Lemma opt_value_elems_text v :
  fits v → cat (opt_print_element print_float print_double <$> opt_value_elems v) = show_value print_float print_double v.
Proof.
  destruct v; intros Hf; try (cbn; apply append_nil);
    cbn [opt_value_elems fmap list_fmap opt_print_element cat show_value fits] in *; by rewrite append_nil, strncpy_all.
Qed.

Definition log_entries (s : string) (args : list log_value) : nat :=
  match entries CHAR value_elems s args with Some es => length es | None => 0 end.
Definition opt_log_entries (s : string) (args : list log_value) : nat :=
  match entries OPT_CHAR opt_value_elems s args with Some es => length es | None => 0 end.

Lemma format_entries s args text :
  format print_float print_double s args = Some text →
  ∃ es, entries CHAR value_elems s args = Some es ∧ cat (print_element print_float print_double <$> es) = text.
Proof.
  unfold format, entries. intros Hf.
  pose proof (fill_with_prints (print_element print_float print_double) (λ c, [CHAR c]) value_elems
    (show_value print_float print_double) (parse s) args (λ c, eq_refl)) as Hp.
  rewrite Hf in Hp. destruct (fill_with (λ c, [CHAR c]) value_elems (parse s) args) as [es|]; cbn in Hp.
  - exists es. split; [done|]. specialize (Hp (proj2 (Forall_forall _ _) (λ v _, value_elems_text v))). congruence.
  - by specialize (Hp (proj2 (Forall_forall _ _) (λ v _, value_elems_text v))).
Qed.

Lemma opt_format_entries s args text :
  format print_float print_double s args = Some text → Forall fits args →
  ∃ es, entries OPT_CHAR opt_value_elems s args = Some es ∧ cat (opt_print_element print_float print_double <$> es) = text.
Proof.
  unfold format, entries. intros Hf Hfits.
  pose proof (fill_with_prints (opt_print_element print_float print_double) (λ c, [OPT_CHAR c]) opt_value_elems
    (show_value print_float print_double) (parse s) args (λ c, eq_refl)) as Hp.
  rewrite Hf in Hp. assert (Forall (λ v, cat (opt_print_element print_float print_double <$> opt_value_elems v)
    = show_value print_float print_double v) args) as Hall
    by (eapply Forall_impl; [exact Hfits|]; intros v; apply opt_value_elems_text).
  specialize (Hp Hall).
  destruct (fill_with (λ c, [OPT_CHAR c]) opt_value_elems (parse s) args) as [es|]; cbn in Hp; [|done]. exists es. split; [done|congruence].
Qed.

(** C35: what is logged is what the format string says.  With room in the queue, logging a string whose
    percent signs match the arguments succeeds, and the next flush appends to the file what was
    pending and then the text of the string with its arguments, and empties the queue. *)
Theorem log_writes g s args l text :
  running_ g = true → holds (lg_queue_ g) l → format print_float print_double s args = Some text →
  (length l + log_entries s args ≤ capacity (lg_queue_ g))%nat →
  ∃ g1 g2, log s args g = Ok g1 ∧ flushQueue print_float print_double g1 = Ok g2 ∧
    lg_file_ g2 = lg_file_ g +:+ cat (print_element print_float print_double <$> l) +:+ text ∧ holds (lg_queue_ g2) [].
Proof.
  intros Hrun Hq Hf Hroom. destruct (format_entries _ _ _ Hf) as (es & He & <-). unfold log_entries in Hroom.
  rewrite He in Hroom.
  destruct (log_flush_spec CHAR pushValue value_elems (print_element print_float print_double) pushValue_all
    s args (lg_queue_ g) l es (lg_file_ g) Hq He Hroom) as (q1 & q2 & E1 & E2 & Hq2).
  exists (mkLogger (lg_file_ g) q1 (running_ g)), (mkLogger (lg_file_ g +:+
    cat (print_element print_float print_double <$> l) +:+ cat (print_element print_float print_double <$> es)) q2 true).
  unfold log, flushQueue. rewrite E1. cbn [mbind result_bind mret result_ret running_ lg_queue_ lg_file_].
  rewrite Hrun, E2. by split_and!.
Qed.

(** A percent sign without an argument and an argument without a percent sign end the process:
    exactly then. *)
Theorem log_fatal g s args :
  log s args g = Err FatalExit ↔ holes (parse s) ≠ length args.
Proof.
  unfold log. rewrite (log_with_spec CHAR pushValue value_elems pushValue_all).
  rewrite <- (fill_with_holes (λ c, [CHAR c]) value_elems). unfold entries.
  by destruct (fill_with _ _ _ _).
Qed.

(** C36: the optimised logger writes the same text as the other one, as long as no string argument
    is longer than its buffer. *)
Theorem loggers_agree g o s args text :
  running_ g = true → ol_running_ o = true → holds (lg_queue_ g) [] → holds (ol_queue_ o) [] →
  format print_float print_double s args = Some text → Forall fits args →
  (log_entries s args ≤ capacity (lg_queue_ g))%nat → (opt_log_entries s args ≤ capacity (ol_queue_ o))%nat →
  ∃ g' o', (log s args g ≫= flushQueue print_float print_double) = Ok g' ∧
    (opt_log s args o ≫= opt_flushQueue print_float print_double) = Ok o' ∧
    lg_file_ g' = lg_file_ g +:+ text ∧ ol_file_ o' = ol_file_ o +:+ text.
Proof.
  intros Hg Ho Hqg Hqo Hf Hfits Hrg Hro.
  destruct (format_entries _ _ _ Hf) as (es & He & Ht). destruct (opt_format_entries _ _ _ Hf Hfits) as (os & He' & Ht').
  unfold log_entries in Hrg. unfold opt_log_entries in Hro. rewrite He in Hrg. rewrite He' in Hro.
  destruct (log_flush_spec CHAR pushValue value_elems (print_element print_float print_double) pushValue_all
    s args (lg_queue_ g) [] es (lg_file_ g) Hqg He Hrg) as (q1 & q2 & E1 & E2 & _).
  destruct (log_flush_spec OPT_CHAR opt_pushValue opt_value_elems (opt_print_element print_float print_double)
    opt_pushValue_all s args (ol_queue_ o) [] os (ol_file_ o) Hqo He' Hro) as (p1 & p2 & F1 & F2 & _).
  exists (mkLogger (lg_file_ g +:+ text) q2 true), (mkOptLogger (ol_file_ o +:+ text) p2 true).
  unfold log, opt_log, flushQueue, opt_flushQueue. rewrite E1, F1.
  cbn [mbind result_bind mret result_ret running_ lg_queue_ lg_file_ ol_running_ ol_queue_ ol_file_].
  rewrite Hg, Ho, E2, F2. cbn in *. by rewrite Ht, Ht'.
Qed.
End theorems.
