(* ===== verification/LatencyRecorder.v ===== *)
(** * Clocks and latency recording (common/tsc_clock.h, common/time_utils.h, common/latency_recorder.h)

    What the instructions and system calls that read the counters and clocks return is an argument.  The recorders keep what they measured in
    a buffer that is allocated once and say why they threw a sample away.  The last part is the
    round-trip time that the order gateway measures when it is built with LLT_ORDER_RTT_BENCHMARK, and the
    time from a market update to the first request that it causes, which the trade engine measures
    when it is built with LLT_BENCHMARK_MODE. *)
From Stdlib Require Import Ascii.
From S2P Require Import Prelude Types LFQueue Double Wire Socket RecvFrames TcpServer OrderServer OrderGateway.
From S2P Require Import BookSpec MarketOrderBook PositionKeeper RiskManager OrderManager FeatureEngine Algorithms TradeEngine OrderTraffic.
(** ** Time stamps (tsc_clock.h) *)
Record TSCStamp := mkTSCStamp { ticks_ : Z; aux_ : Z }.

(** readTSC on x86: [lo], [hi] and [aux] are what rdtscp leaves in eax, edx and ecx. *)
Definition readTSC (lo hi aux : Z) : TSCStamp := mkTSCStamp (Z.lor (u64 (Z.shiftl hi 32)) lo) aux.
Definition rdtsc (lo hi aux : Z) : Z := ticks_ (readTSC lo hi aux).

(** monotonicRawNanos on Linux: the timespec that clock_gettime fills. *)
Definition monotonicRawNanos (tv_sec tv_nsec : Z) : Z := u64 (u64 (u64 tv_sec * 1000000000) + u64 tv_nsec).

Definition tscTicksToNanos (ticks : Z) (tsc_hz : double) : double :=
  if dltb dzero tsc_hz then ddiv (dmul (of_int ticks) (of_int 1000000000)) tsc_hz else dzero.

#[local] Instance dle_dec (x y : double) : Decision (dgeb y x = true) := decide (dgeb y x = true).

(** One round of the calibration: the two pairs of readings. *)
Definition tsc_estimate (r : Z * TSCStamp * TSCStamp * Z) : option double :=
  let '(wall_start, tsc_start, tsc_end, wall_end) := r in
  let elapsed_ns := u64 (wall_end - wall_start) in
  if (aux_ tsc_start =? aux_ tsc_end) && negb (elapsed_ns =? 0) && (ticks_ tsc_start <? ticks_ tsc_end)
  then Some (ddiv (dmul (of_int (u64 (ticks_ tsc_end - ticks_ tsc_start))) (of_int 1000000000)) (of_int elapsed_ns))
  else None.

Definition calibrateTSCHz (rounds : list (Z * TSCStamp * TSCStamp * Z)) : double :=
  let estimates := merge_sort (λ x y, dgeb y x = true) (omap tsc_estimate rounds) in
  match estimates !! (length estimates `div` 2)%nat with Some x => x | None => dzero end.

(** The cost of an empty measurement: the median of the valid ones. *)
Definition empty_pair (r : TSCStamp * TSCStamp) : option Z :=
  if (aux_ r.1 =? aux_ r.2) && (ticks_ r.1 <=? ticks_ r.2) then Some (ticks_ r.2 - ticks_ r.1) else None.

Definition measureTSCOverhead (pairs : list (TSCStamp * TSCStamp)) : Z :=
  let values := merge_sort Z.le (omap empty_pair pairs) in
  match values !! (length values `div` 2)%nat with Some x => x | None => 0 end.

(** The time in the logs (time_utils.h): eight characters of what ctime wrote, a point, and the
    nanoseconds on nine digits, in a buffer of 24 bytes. *)
Fixpoint zeros (n : nat) : string := match n with O => EmptyString | S n => String "0"%char (zeros n) end.
Definition print_09lld (z : Z) : string :=
  let digits := pretty (Z.to_N (Z.abs z)) in
  if z <? 0 then "-" +:+ zeros (8 - String.length digits) +:+ digits else zeros (9 - String.length digits) +:+ digits.
Definition getCurrentTimeStr (ctime : string) (nanos : Z) : string :=
  String.substring 0 23 (String.substring 11 8 ctime +:+ "." +:+ print_09lld (Z.rem nanos 1000000000)).

(** ** LatencyRecorder *)
Record LatencyRecorder := mkLatencyRecorder {
  samples_ : list Z;
  lr_size_ : nat;
  migration_count_ : Z;
  invalid_count_ : Z;
  dropped_count_ : Z
}.

Definition LatencyRecorder_new (capacity : nat) : LatencyRecorder :=
  mkLatencyRecorder (replicate capacity 0) 0 0 0 0.

Definition record (start end_ : TSCStamp) (r : LatencyRecorder) : bool * LatencyRecorder :=
  if negb (aux_ start =? aux_ end_) then
    (false, mkLatencyRecorder (samples_ r) (lr_size_ r) (u64 (migration_count_ r + 1)) (invalid_count_ r) (dropped_count_ r))
  else if ticks_ end_ <? ticks_ start then
    (false, mkLatencyRecorder (samples_ r) (lr_size_ r) (migration_count_ r) (u64 (invalid_count_ r + 1)) (dropped_count_ r))
  else if (lr_size_ r =? length (samples_ r))%nat then
    (false, mkLatencyRecorder (samples_ r) (lr_size_ r) (migration_count_ r) (invalid_count_ r) (u64 (dropped_count_ r + 1)))
  else
    (true, mkLatencyRecorder (<[lr_size_ r := ticks_ end_ - ticks_ start]> (samples_ r)) (S (lr_size_ r))
             (migration_count_ r) (invalid_count_ r) (dropped_count_ r)).

(** stopAndRecord: [now] is what readTSC returns. *)
Definition stopAndRecord (start now : TSCStamp) (r : LatencyRecorder) : bool * LatencyRecorder := record start now r.

Definition lr_reset (r : LatencyRecorder) : LatencyRecorder := mkLatencyRecorder (samples_ r) 0 0 0 0.

(** The row of a sample in the file: index, raw and corrected ticks, both in nanoseconds. *)
Definition csv_row (overhead_ticks : Z) (tsc_hz : double) (i : nat) (raw : Z) : nat * Z * Z * double * double :=
  let corrected := if overhead_ticks <? raw then raw - overhead_ticks else 0 in
  (i, raw, corrected, tscTicksToNanos raw tsc_hz, tscTicksToNanos corrected tsc_hz).

Definition writeCSV (overhead_ticks : Z) (tsc_hz : double) (r : LatencyRecorder) : list (nat * Z * Z * double * double) :=
  imap (csv_row overhead_ticks tsc_hz) (take (lr_size_ r) (samples_ r)).

(** ** NanosecondLatencyRecorder *)
Record NanosecondLatencyRecorder := mkNanosecondLatencyRecorder {
  ns_samples_ : list Z;
  ns_size_ : nat;
  ns_invalid_count_ : Z;
  ns_dropped_count_ : Z
}.

Definition NanosecondLatencyRecorder_new (capacity : nat) : NanosecondLatencyRecorder :=
  mkNanosecondLatencyRecorder (replicate capacity 0) 0 0 0.

Definition ns_record (start_ns end_ns : Z) (r : NanosecondLatencyRecorder) : bool * NanosecondLatencyRecorder :=
  if end_ns <? start_ns then
    (false, mkNanosecondLatencyRecorder (ns_samples_ r) (ns_size_ r) (u64 (ns_invalid_count_ r + 1)) (ns_dropped_count_ r))
  else if (ns_size_ r =? length (ns_samples_ r))%nat then
    (false, mkNanosecondLatencyRecorder (ns_samples_ r) (ns_size_ r) (ns_invalid_count_ r) (u64 (ns_dropped_count_ r + 1)))
  else
    (true, mkNanosecondLatencyRecorder (<[ns_size_ r := end_ns - start_ns]> (ns_samples_ r)) (S (ns_size_ r))
             (ns_invalid_count_ r) (ns_dropped_count_ r)).

Definition ns_reset (r : NanosecondLatencyRecorder) : NanosecondLatencyRecorder :=
  mkNanosecondLatencyRecorder (ns_samples_ r) 0 0 0.

Definition ns_csv_row (overhead_ns : Z) (i : nat) (raw : Z) : nat * Z * Z :=
  (i, raw, if overhead_ns <? raw then raw - overhead_ns else 0).

Definition ns_writeCSV (overhead_ns : Z) (r : NanosecondLatencyRecorder) : list (nat * Z * Z) :=
  imap (ns_csv_row overhead_ns) (take (ns_size_ r) (ns_samples_ r)).

(** ** The readings *)
(** Readings are ordered as the 64-bit counter is. *)
Lemma readTSC_ticks lo hi aux : is_u32 lo → is_u32 hi → ticks_ (readTSC lo hi aux) = hi * 2 ^ 32 + lo.
Proof.
  unfold is_u32. intros Hlo Hhi. cbn [ticks_ readTSC].
  rewrite Z.shiftl_mul_pow2, u64_small by (unfold is_u64; lia).
  rewrite <- Z.add_lor_land. enough (Z.land (hi * 2 ^ 32) lo = 0) as -> by lia.
  apply Z.bits_inj'. intros n Hn. rewrite Z.land_spec, Z.bits_0. destruct (decide (n < 32)).
  - by rewrite Z.mul_pow2_bits_low.
  - rewrite (Z.bits_above_log2 lo n), andb_false_r; [done|lia|].
    destruct (decide (lo = 0)) as [->|]; [cbn; lia|]. apply Z.log2_lt_pow2; [lia|].
    apply (Z.lt_le_trans _ (2 ^ 32)); [lia|]. apply Z.pow_le_mono_r; lia.
Qed.

Lemma monotonicRawNanos_exact tv_sec tv_nsec :
  0 ≤ tv_sec < 2 ^ 34 → 0 ≤ tv_nsec < 10 ^ 9 → monotonicRawNanos tv_sec tv_nsec = tv_sec * 10 ^ 9 + tv_nsec.
Proof. 
  intros. unfold monotonicRawNanos. rewrite (u64_small tv_sec), (u64_small tv_nsec) by (unfold is_u64; lia).
  rewrite (u64_small (tv_sec * _)) by (unfold is_u64; lia). apply u64_small. unfold is_u64. lia.
Qed.

(** The decimal digits of a number, the last [k] of them. *)
Fixpoint digits (k : nat) (z : N) : string :=
  match k with O => EmptyString | S k => digits k (z `div` 10) +:+ String (pretty_N_char (z `mod` 10)) EmptyString end.

Lemma string_cons_app a (s t : string) : String a s +:+ t = String a (s +:+ t).
Proof. done. Qed.

Lemma zeros_snoc k : zeros k +:+ "0" = String "0"%char (zeros k).
Proof. induction k as [|k IH]; [done|]. cbn [zeros]. by rewrite string_cons_app, IH. Qed.

Lemma digits_0 k : digits k 0 = zeros k.
Proof.
  induction k as [|k IH]; [done|]. cbn [digits]. change (0 `div` 10)%N with 0%N. rewrite IH. apply zeros_snoc.
Qed.

Lemma string_app_assoc (a b c : string) : (a +:+ b) +:+ c = a +:+ (b +:+ c).
Proof. induction a as [|x a IH]; [done|]. by rewrite !string_cons_app, IH. Qed.

Lemma string_length_app (a b : string) : String.length (a +:+ b) = (String.length a + String.length b)%nat.
Proof. induction a as [|x a IH]; [done|]. rewrite string_cons_app. cbn [String.length]. by rewrite IH. Qed.

Lemma length_digits k z : String.length (digits k z) = k.
Proof.
  revert z. induction k as [|k IH]; intros z; [done|]. cbn [digits]. rewrite string_length_app, IH. cbn. lia.
Qed.

Lemma pretty_go_digits k z s :
  (z < 10 ^ N.of_nat k)%N →
  zeros (k + String.length s - String.length (pretty_N_go z s)) +:+ pretty_N_go z s = digits k z +:+ s.
Proof.
  revert z s. induction k as [|k IH]; intros z s Hz.
  all: destruct (decide (z = 0)%N) as [->|Hz0]; [rewrite pretty_N_go_0, digits_0; do 2 f_equal; lia|].
  { change (10 ^ N.of_nat 0)%N with 1%N in Hz. lia. }
  rewrite pretty_N_go_step by lia. cbn [digits]. rewrite string_app_assoc.
  rewrite string_cons_app. change (EmptyString +:+ s) with s. rewrite <- IH.
  - f_equal. f_equal. cbn [String.length]. lia.
  - apply N.Div0.div_lt_upper_bound. rewrite Nat2N.inj_succ, N.pow_succ_r' in Hz. lia.
Qed.

Lemma string_app_nil_r (s : string) : s +:+ EmptyString = s.
Proof. induction s as [|x s IH]; [done|]. by rewrite string_cons_app, IH. Qed.

Lemma print_09lld_digits z : 0 ≤ z < 10 ^ 9 → print_09lld z = digits 9 (Z.to_N z).
Proof.
  intros Hz. unfold print_09lld. rewrite (proj2 (Z.ltb_ge _ _)), Z.abs_eq by lia.
  unfold pretty, pretty_N. case_decide as H0; [by rewrite H0|].
  assert (Z.to_N z < 10 ^ N.of_nat 9)%N as Hn by lia. apply (pretty_go_digits _ _ EmptyString) in Hn.
  by rewrite string_app_nil_r in Hn.
Qed.

Lemma substring_length i n (s : string) : (String.length (String.substring i n s) ≤ n)%nat.
Proof.
  revert i n. induction s as [|x s IH]; intros [|i] n; destruct n as [|n]; cbn; try lia.
  - specialize (IH 0%nat n). lia.
  - apply (IH i 0%nat).
  - apply (IH i (S n)).
Qed.

Lemma substring_all n (s : string) : (String.length s ≤ n)%nat → String.substring 0 n s = s.
Proof.
  revert n. induction s as [|x s IH]; intros [|n] Hn; [done..|cbn in Hn; lia|]. cbn. f_equal. apply IH. cbn in Hn. lia.
Qed.

(** The time in the logs is the time of day and all nine digits of the nanoseconds; nothing is cut off. *)
Theorem getCurrentTimeStr_prints ctime nanos :
  0 ≤ nanos →
  getCurrentTimeStr ctime nanos = String.substring 11 8 ctime +:+ "." +:+ digits 9 (Z.to_N (nanos `mod` 10 ^ 9)).
Proof.
  intros Hn. unfold getCurrentTimeStr. rewrite Z.rem_mod_nonneg by lia.
  change 1000000000 with (10 ^ 9). rewrite print_09lld_digits by (apply Z.mod_pos_bound; lia).
  apply substring_all. rewrite !string_length_app, length_digits. cbn [String.length].
  pose proof (substring_length 11 8 ctime). lia.
Qed.

(** ** What a recorder keeps *)
Section theorems.
Implicit Types (r : LatencyRecorder) (ps : list (TSCStamp * TSCStamp)).

Fixpoint records ps r : LatencyRecorder :=
  match ps with [] => r | p :: ps => records ps (record p.1 p.2 r).2 end.

(** The valid latencies, in order. *)
Definition latencies ps : list Z := omap empty_pair ps.
Definition migrated ps : list (TSCStamp * TSCStamp) := filter (λ p, aux_ p.1 ≠ aux_ p.2) ps.

Definition recorder_wf r : Prop := (lr_size_ r ≤ length (samples_ r))%nat.
Definition kept r : list Z := take (lr_size_ r) (samples_ r).

(** Everything that was offered to the recorder. *)
Definition offered r : Z := Z.of_nat (lr_size_ r) + migration_count_ r + invalid_count_ r + dropped_count_ r.

Lemma record_kept s e r :
  recorder_wf r →
  kept (record s e r).2 = take (length (samples_ r)) (kept r ++ latencies [(s, e)]) ∧
  recorder_wf (record s e r).2 ∧ length (samples_ (record s e r).2) = length (samples_ r) ∧
  (0 ≤ migration_count_ r → 0 ≤ invalid_count_ r → 0 ≤ dropped_count_ r → offered r < 2 ^ 64 - 1 →
     offered (record s e r).2 = offered r + 1 ∧ 0 ≤ migration_count_ (record s e r).2 ∧
     0 ≤ invalid_count_ (record s e r).2 ∧ 0 ≤ dropped_count_ (record s e r).2).
Proof.
  intros Hwf. unfold recorder_wf in *. unfold kept.
  assert (length (take (lr_size_ r) (samples_ r)) = lr_size_ r) as Hlen by (rewrite length_take; lia).
  assert (∀ x, 0 ≤ x → x < 2 ^ 64 - 1 → u64 (x + 1) = x + 1) as Hu by (intros; apply u64_small; unfold is_u64; lia).
  assert (take (length (samples_ r)) (take (lr_size_ r) (samples_ r) ++ []) = take (lr_size_ r) (samples_ r)) as Hnil.
  { rewrite app_nil_r. apply take_ge. lia. }
  assert (take (lr_size_ r) (samples_ r) = take (length (samples_ r)) (take (lr_size_ r) (samples_ r) ++ []) ∧
    (lr_size_ r ≤ length (samples_ r))%nat ∧ length (samples_ r) = length (samples_ r)) as Hsame by done.
  unfold latencies. cbn [omap list_omap]. unfold empty_pair. cbn [fst snd].
  unfold record, offered. destruct (aux_ s =? aux_ e) eqn:Ea; cbn [negb andb].
  2: { cbn [snd samples_ lr_size_ migration_count_ invalid_count_ dropped_count_].
       split_and!; [by rewrite Hnil|done|done|]. intros. rewrite Hu by lia. lia. }
  rewrite Z.leb_antisym. destruct (ticks_ e <? ticks_ s) eqn:Et; cbn [negb].
  { cbn [snd samples_ lr_size_ migration_count_ invalid_count_ dropped_count_].
    split_and!; [by rewrite Hnil|done|done|]. intros. rewrite Hu by lia. lia. }
  destruct (Nat.eqb_spec (lr_size_ r) (length (samples_ r))) as [Es|Es];
    cbn [snd samples_ lr_size_ migration_count_ invalid_count_ dropped_count_].
  - split_and!; [|done|done|].
    + rewrite take_app_le by lia. symmetry. apply take_ge. lia.
    + intros. rewrite Hu by lia. lia.
  - rewrite length_insert. split_and!; [|lia|done|lia].
    rewrite (take_S_r _ _ (ticks_ e - ticks_ s)) by (apply list_lookup_insert_eq; lia).
    rewrite take_insert_ge by done. symmetry. apply take_ge. rewrite length_app. cbn. lia.
Qed.

(** The recorder keeps the first latencies that are valid, in the order in which they were
    measured and up to its capacity, and accounts for every other sample in one of its counters. *)
Theorem recorder_keeps ps cap :
  Z.of_nat (length ps) < 2 ^ 64 →
  kept (records ps (LatencyRecorder_new cap)) = take cap (latencies ps) ∧
  offered (records ps (LatencyRecorder_new cap)) = Z.of_nat (length ps).
Proof.
  intros Hlen.
  assert (∀ ps r, recorder_wf r → 0 ≤ migration_count_ r → 0 ≤ invalid_count_ r → 0 ≤ dropped_count_ r →
    offered r + Z.of_nat (length ps) < 2 ^ 64 →
    kept (records ps r) = take (length (samples_ r)) (kept r ++ latencies ps) ∧
    offered (records ps r) = offered r + Z.of_nat (length ps)) as Hgen.
  { clear. induction ps as [|[s e] ps IH]; intros r Hwf H1 H2 H3 Hlt; cbn [records length].
    - split; [|lia]. unfold latencies. cbn. rewrite app_nil_r. symmetry. apply take_ge. unfold kept, recorder_wf in *.
      rewrite length_take. lia.
    - cbn [length] in Hlt. destruct (record_kept s e r Hwf) as (Hk & Hwf' & Hl & Hc).
      destruct (Hc H1 H2 H3) as (Ho & H1' & H2' & H3'); [lia|].
      destruct (IH (record s e r).2 Hwf' H1' H2' H3') as [Hk2 Ho2]; [lia|]. cbn [fst snd]. split; [|lia].
      rewrite Hk2, Hl, Hk. change (latencies ((s, e) :: ps)) with (omap empty_pair ([(s, e)] ++ ps)).
      rewrite omap_app. change (omap empty_pair [(s, e)]) with (latencies [(s, e)]).
      change (omap empty_pair ps) with (latencies ps). rewrite app_assoc.
      generalize (kept r ++ latencies [(s, e)]) as l, (latencies ps) as l', (length (samples_ r)) as n. clear.
      intros l l' n. destruct (decide (length l ≤ n)%nat) as [Hle|Hle].
      + by rewrite (take_ge l) by done.
      + rewrite !(take_app_le _ _ n) by (rewrite ?length_take; lia). by rewrite take_take, Nat.min_id. }
  destruct (Hgen ps (LatencyRecorder_new cap)) as [Hk Ho]; try done.
  - unfold recorder_wf. cbn. lia.
  - rewrite Hk, Ho. unfold LatencyRecorder_new, kept, offered. cbn. by rewrite length_replicate.
Qed.
End theorems.

(** ** The round-trip time in the order gateway (order_gateway.h, order_gateway.cpp) *)
Record GatewayRtt := mkGatewayRtt {
  rtt_order_id_ : Z;
  rtt_expected_type_ : ClientResponseType;
  rtt_recorder_ : option LatencyRecorder;    (** what the pointer leads to *)
  rtt_start_ : TSCStamp;
  rtt_armed_ : bool;
  rtt_started_ : bool;
  rtt_completed_ : bool;
  rtt_protocol_errors_ : Z
}.

Definition GatewayRtt_new : GatewayRtt :=
  mkGatewayRtt OrderId_INVALID ClientResponseType_INVALID None (mkTSCStamp 0 0) false false false 0.

Definition armRTT (order_id : Z) (expected_type : ClientResponseType) (recorder : option LatencyRecorder) (x : GatewayRtt) :
    bool * GatewayRtt :=
  match recorder with
  | None => (false, x)
  | Some _ =>
      if rtt_armed_ x then (false, x)
      else (true, mkGatewayRtt order_id expected_type recorder (rtt_start_ x) true false false (rtt_protocol_errors_ x))
  end.

Definition observeKernelSend (start : TSCStamp) (x : GatewayRtt) : GatewayRtt :=
  if rtt_armed_ x && negb (rtt_started_ x) then
    mkGatewayRtt (rtt_order_id_ x) (rtt_expected_type_ x) (rtt_recorder_ x) start true true (rtt_completed_ x) (rtt_protocol_errors_ x)
  else x.

(** The part of recvCallback between the checks and the queue; [now] is what readTSC returns. *)
Definition rtt_response (now : TSCStamp) (r : MEClientResponse) (x : GatewayRtt) : result GatewayRtt :=
  if rtt_armed_ x && (rsp_client_order_id_ r =? rtt_order_id_ x) then
    if rtt_started_ x && bool_decide (rsp_type_ r = rtt_expected_type_ x) then
      match rtt_recorder_ x with
      | None => Err NullDeref
      | Some recorder =>
          Ok (mkGatewayRtt (rtt_order_id_ x) (rtt_expected_type_ x) (Some (record (rtt_start_ x) now recorder).2) (rtt_start_ x)
                false (rtt_started_ x) true (rtt_protocol_errors_ x))
      end
    else
      Ok (mkGatewayRtt (rtt_order_id_ x) (rtt_expected_type_ x) (rtt_recorder_ x) (rtt_start_ x) (rtt_armed_ x) (rtt_started_ x)
            (rtt_completed_ x) (u64 (rtt_protocol_errors_ x + 1)))
  else Ok x.

Definition recv_response_rtt (rx_time : Z) (now : TSCStamp) (response : OMClientResponse) (st : OrderGateway * GatewayRtt) :
    result (OrderGateway * GatewayRtt) :=
  let g := st.1 in
  if decide (rsp_client_id_ (me_client_response_ response) ≠ og_client_id_ g) then Ok st
  else if decide (omrsp_seq_num_ response ≠ next_exp_seq_num_ g) then Ok st
  else
    x ← rtt_response now (me_client_response_ response) st.2;
    mret (mkOrderGateway (og_client_id_ g) (og_outgoing_requests_ g)
            (push (me_client_response_ response) (og_incoming_responses_ g)) (og_run_ g)
            (next_outgoing_seq_num_ g) (u64 (next_exp_seq_num_ g + 1)), x).

Section rtt.
Implicit Types (x : GatewayRtt) (r : MEClientResponse) (s e : TSCStamp).

(** A pointer that is used has been set. *)
Definition rtt_wf x : Prop := rtt_armed_ x = true → is_Some (rtt_recorder_ x).

(** What happens to the measurement: a call of armRTT, a send, a response that has passed the checks. *)
Inductive rtt_event := RArm (order_id : Z) (t : ClientResponseType) (recorder : option LatencyRecorder) | RSend s | RResponse r e.

Definition rtt_step (ev : rtt_event) x : result GatewayRtt :=
  match ev with
  | RArm i t recorder => Ok (armRTT i t recorder x).2
  | RSend s => Ok (observeKernelSend s x)
  | RResponse r e => rtt_response e r x
  end.
Fixpoint rtt_steps (evs : list rtt_event) x : result GatewayRtt :=
  match evs with [] => Ok x | ev :: evs => x ← rtt_step ev x; rtt_steps evs x end.

Lemma rtt_steps_app evs1 evs2 x : rtt_steps (evs1 ++ evs2) x = (x ← rtt_steps evs1 x; rtt_steps evs2 x).
Proof.
  revert x. induction evs1 as [|ev evs1 IH]; intros x; cbn [app rtt_steps]; [done|].
  unfold mbind, result_bind. destruct (rtt_step ev x); [apply IH|done].
Qed.

Lemma rtt_step_wf ev x : rtt_wf x → ∃ x', rtt_step ev x = Ok x' ∧ rtt_wf x'.
Proof.
  unfold rtt_wf. intros Hwf. destruct ev as [i t [recorder|]|s|r e]; cbn [rtt_step armRTT].
  - destruct (rtt_armed_ x) eqn:Ha; eexists; (split; [done|]); cbn; [by rewrite Ha|done].
  - by exists x.
  - unfold observeKernelSend. destruct (rtt_armed_ x && negb (rtt_started_ x)) eqn:Ha; eexists; (split; [done|]); [|done].
    apply andb_true_iff in Ha as [Ha _]. cbn. by rewrite Ha in Hwf.
  - unfold rtt_response. destruct (rtt_armed_ x) eqn:Ha; cbn [andb]; [|exists x; by rewrite Ha].
    destruct (Hwf eq_refl) as [recorder Hr]. destruct (_ =? _); [|exists x; by rewrite Ha, Hr].
    destruct (_ && _); [rewrite Hr; by eexists|]. eexists. split; [done|]. cbn. by rewrite Hr.
Qed.

(** The measurement does not change what the gateway does, and does not fault. *)
Theorem rtt_transparent rx_time now response g x :
  rtt_wf x → ∃ x', rtt_wf x' ∧
    recv_response_rtt rx_time now response (g, x) = (g' ← recv_response rx_time response g; mret (g', x')).
Proof.
  intros Hwf. unfold recv_response_rtt, recv_response. cbn [fst snd]. case_decide; [by exists x|]. case_decide; [by exists x|].
  destruct (rtt_step_wf (RResponse (me_client_response_ response) now) x Hwf) as (x' & E & Hwf').
  exists x'. split; [done|]. cbn [rtt_step] in E. by rewrite E.
Qed.

(** The responses to the order that is measured. *)
Definition own i (ev : rtt_event) : Prop := match ev with RResponse r _ => rsp_client_order_id_ r = i | _ => False end.
#[local] Instance own_dec i ev : Decision (own i ev).
Proof. destruct ev; cbn; apply _. Defined.
Definition quiet (ev : rtt_event) : Prop := match ev with RArm _ _ _ | RSend _ => False | RResponse _ _ => True end.
Definition not_expected i t (ev : rtt_event) : Prop :=
  match ev with
  | RArm _ _ _ => False
  | RSend _ => True
  | RResponse r _ => ¬ (rsp_client_order_id_ r = i ∧ rsp_type_ r = t)
  end.
Definition not_arm (ev : rtt_event) : Prop := match ev with RArm _ _ _ => False | _ => True end.

Definition with_errors (n : nat) x : GatewayRtt :=
  mkGatewayRtt (rtt_order_id_ x) (rtt_expected_type_ x) (rtt_recorder_ x) (rtt_start_ x) (rtt_armed_ x) (rtt_started_ x)
    (rtt_completed_ x) (u64 (rtt_protocol_errors_ x + Z.of_nat n)).

Lemma with_errors_0 x : is_u64 (rtt_protocol_errors_ x) → with_errors 0 x = x.
Proof. intros Hx. unfold with_errors. rewrite Z.add_0_r, u64_small by done. by destruct x. Qed.
Lemma with_errors_S n x : with_errors n (with_errors 1 x) = with_errors (S n) x.
Proof.
  unfold with_errors. cbn. f_equal. unfold u64. rewrite Z.add_mod_idemp_l by done. f_equal. lia.
Qed.

Lemma rtt_error e r x :
  rtt_armed_ x = true → rsp_client_order_id_ r = rtt_order_id_ x →
  (rtt_started_ x = true → rsp_type_ r ≠ rtt_expected_type_ x) →
  rtt_response e r x = Ok (with_errors 1 x).
Proof.
  intros Ha Hi Ht. unfold rtt_response. rewrite Ha, Hi, Z.eqb_refl. cbn [andb].
  assert (rtt_started_ x && bool_decide (rsp_type_ r = rtt_expected_type_ x) = false) as ->.
  { destruct (rtt_started_ x); [|done]. apply bool_decide_eq_false_2. by apply Ht. }
  unfold with_errors. by rewrite Ha.
Qed.

(** Until it completes, an armed measurement counts the responses of the order that it does not wait for. *)
Lemma rtt_waits evs x :
  rtt_armed_ x = true → is_u64 (rtt_protocol_errors_ x) →
  Forall (λ ev, if rtt_started_ x then not_expected (rtt_order_id_ x) (rtt_expected_type_ x) ev else quiet ev) evs →
  rtt_steps evs x = Ok (with_errors (length (filter (own (rtt_order_id_ x)) evs)) x).
Proof.
  intros Ha. revert x Ha. induction evs as [|ev evs IH]; intros x Ha He Hevs; cbn [rtt_steps].
  { by rewrite with_errors_0. }
  apply Forall_cons in Hevs as [Hev Hevs].
  destruct ev as [i t recorder|s|r e]; [by destruct (rtt_started_ x)| |]; cbn [rtt_step].
  - destruct (rtt_started_ x) eqn:Hs; [|done]. unfold observeKernelSend. rewrite Hs, andb_false_r. cbn [mbind result_bind].
    rewrite filter_cons_False by tauto. apply IH; [done|done|by rewrite Hs].
  - destruct (decide (own (rtt_order_id_ x) (RResponse r e))) as [Hi|Hi].
    + rewrite rtt_error; [|done..|]. 2:{ intros Hs Ht. rewrite Hs in Hev. by apply Hev. }
      rewrite filter_cons_True by done.
      cbn [length mbind result_bind]. rewrite <- (with_errors_S (length _)). apply (IH (with_errors 1 x)); [done|apply u64_range|done].
    + rewrite filter_cons_False by done. cbn [own] in Hi. unfold rtt_response. rewrite (proj2 (Z.eqb_neq _ _) Hi), andb_false_r.
      by apply IH.
Qed.

Lemma rtt_disarmed evs x : rtt_armed_ x = false → Forall not_arm evs → rtt_steps evs x = Ok x.
Proof.
  intros Ha. induction 1 as [|ev evs Hev Hevs IH]; [done|]. cbn [rtt_steps].
  assert (rtt_step ev x = Ok x) as ->; [|exact IH].
  destruct ev; [done|..]; cbn [rtt_step]; unfold observeKernelSend, rtt_response; by rewrite Ha.
Qed.

(** One sample per arming: from the first send after it to the first response of the expected type to
    the order after that, whatever else is received; the other responses to the order are counted as
    errors, and nothing is measured until the gateway is armed again. *)
Theorem rtt_one_sample x i t recorder pre s mid r e post :
  rtt_armed_ x = false → is_u64 (rtt_protocol_errors_ x) →
  Forall quiet pre → Forall (not_expected i t) mid → rsp_client_order_id_ r = i → rsp_type_ r = t → Forall not_arm post →
  rtt_steps (RArm i t (Some recorder) :: pre ++ RSend s :: mid ++ RResponse r e :: post) x
  = Ok (mkGatewayRtt i t (Some (record s e recorder).2) s false true true
          (u64 (rtt_protocol_errors_ x + Z.of_nat (length (filter (own i) (pre ++ mid)))))).
Proof.
  intros Ha He Hpre Hmid Hi Ht Hpost. cbn [rtt_steps rtt_step armRTT]. rewrite Ha. cbn [snd mbind result_bind].
  set (x0 := mkGatewayRtt _ _ _ _ _ _ _ _). rewrite rtt_steps_app, (rtt_waits pre x0) by done. cbn [mbind result_bind rtt_steps].
  cbn [rtt_step observeKernelSend with_errors x0 rtt_armed_ rtt_started_ andb negb rtt_order_id_ rtt_expected_type_ rtt_recorder_
    rtt_completed_ rtt_protocol_errors_].
  unfold observeKernelSend. cbn [rtt_armed_ rtt_started_ andb negb rtt_order_id_ rtt_expected_type_ rtt_recorder_ rtt_completed_
    rtt_protocol_errors_ mbind result_bind].
  set (x1 := mkGatewayRtt _ _ _ _ _ _ _ _).
  rewrite rtt_steps_app, (rtt_waits mid x1); [|done|apply u64_range|done]. cbn [mbind result_bind rtt_steps rtt_step].
  unfold rtt_response. cbn [with_errors x1 rtt_armed_ rtt_started_ andb rtt_order_id_ rtt_expected_type_ rtt_recorder_ rtt_start_
    rtt_completed_ rtt_protocol_errors_].
  rewrite Hi, Z.eqb_refl, Ht, bool_decide_eq_true_2 by done. cbn [mbind result_bind].
  rewrite rtt_disarmed by done. f_equal. f_equal. unfold u64. rewrite Z.add_mod_idemp_l by done. f_equal.
  rewrite filter_app, length_app. lia.
Qed.
End rtt.

(** ** What hears the requests besides the queue

    A second sink next to the first: the order manager's code does with both what it does with one. *)
#[local] Instance both {T U} `{RequestSink T, RequestSink U} : RequestSink (T * U) :=
  λ req st, (sendClientRequest req st.1, sendClientRequest req st.2).

Section listening.
Context {T U : Type} `{HT : RequestSink T, HU : RequestSink U} (client_id : Z) (risk : Z → Side → Z → result RiskCheckResult).

(** The code [g] with both sinks does what the code [f] does with the first, and the second hears the
    same requests. *)
Definition follows {A} (f : OM (T := T) A) (g : OM (T := T * U) A) : Prop :=
  ∀ m q x, match f (m, q) with
           | Ok (a, st) => ∃ reqs, st.2 = sends reqs q ∧ g (m, (q, x)) = Ok (a, (st.1, (st.2, sends reqs x)))
           | Err e => g (m, (q, x)) = Err e
           end.

Lemma follows_ret {A} (a : A) : follows (mret a) (mret a).
Proof. intros m q x. by exists []. Qed.

Lemma follows_throw {A} e : follows (throw (A := A) e) (throw e).
Proof. done. Qed.

Lemma follows_lift {A} (r : result A) : follows (lift r) (lift r).
Proof. intros m q x. unfold lift. destruct r as [a|e]; [by exists []|done]. Qed.

Lemma follows_bind {A B} (f : OM (T := T) A) g (k : A → OM (T := T) B) k' :
  follows f g → (∀ a, follows (k a) (k' a)) → follows (mbind k f) (mbind k' g).
Proof.
  intros Hf Hk m q x. unfold mbind, M_bind. specialize (Hf m q x). destruct (f (m, q)) as [[a [m1 q1]]|e]; [|by rewrite Hf].
  destruct Hf as (reqs1 & E1 & ->). cbn [fst snd] in *. subst q1. specialize (Hk a m1 (sends reqs1 q) (sends reqs1 x)).
  destruct (k a (m1, _)) as [[b [m2 q2]]|e]; [|done]. destruct Hk as (reqs2 & E2 & ->). cbn [fst snd] in *. subst q2.
  exists (reqs1 ++ reqs2). unfold sends. by rewrite !foldl_app.
Qed.

Lemma follows_gets {A} (f : OrderManager → A) : follows (gets (λ st, f st.1)) (gets (λ st, f st.1)).
Proof. intros m q x. by exists []. Qed.

Lemma follows_modify (f : OrderManager → OrderManager) :
  follows (modify (λ st, (f st.1, st.2))) (modify (λ st, (f st.1, st.2))).
Proof. intros m q x. by exists []. Qed.

Lemma follows_send (req : OrderManager → MEClientRequest) :
  follows (modify (λ st, (st.1, sendClientRequest (req st.1) st.2))) (modify (λ st, (st.1, sendClientRequest (req st.1) st.2))).
Proof. intros m q x. by exists [req m]. Qed.

Lemma follows_om_at t s : follows (om_at t s) (om_at t s).
Proof.
  unfold om_at. apply follows_bind; [apply (follows_gets id)|]. intros m. destruct (om_lookup _ m); [apply follows_ret|apply follows_throw].
Qed.
Lemma follows_om_read a : follows (om_read a) (om_read a).
Proof.
  unfold om_read. apply follows_bind; [apply (follows_gets id)|]. intros m. destruct (om_lookup a m); [apply follows_ret|apply follows_throw].
Qed.
Lemma follows_om_write a o : follows (om_write a o) (om_write a o).
Proof. apply (follows_modify (om_store a o)). Qed.

#[local] Hint Resolve follows_ret follows_throw follows_lift follows_bind follows_om_at follows_om_read follows_om_write : core.

Lemma follows_newOrder a t price s qty : follows (newOrder client_id a t price s qty) (newOrder client_id a t price s qty).
Proof.
  unfold newOrder. apply follows_bind; [apply (follows_gets next_order_id_)|]. intros i.
  apply follows_bind; [apply (follows_send (λ _, _))|]. intros []. apply follows_bind; [auto|]. intros [].
  apply (follows_modify (λ m, mkOrderManager (ticker_side_order_ m) (u64 (next_order_id_ m + 1)))).
Qed.

Lemma follows_cancelOrder a : follows (cancelOrder client_id a) (cancelOrder client_id a).
Proof.
  unfold cancelOrder. apply follows_bind; [auto|]. intros o. apply follows_bind; [apply (follows_send (λ _, _))|]. auto.
Qed.

Lemma follows_moveOrder a t price s qty :
  follows (moveOrder client_id risk a t price s qty) (moveOrder client_id risk a t price s qty).
Proof.
  unfold moveOrder. apply follows_bind; [auto|]. intros o.
  destruct (om_order_state_ o); try apply follows_ret; destruct (negb _); try apply follows_ret.
  - apply follows_bind; [auto|]. intros x. case_decide; [apply follows_newOrder|auto].
  - apply follows_cancelOrder.
  - apply follows_bind; [auto|]. intros x. case_decide; [apply follows_newOrder|auto].
Qed.

Lemma follows_moveOrders t bid ask clip :
  follows (moveOrders client_id risk t bid ask clip) (moveOrders client_id risk t bid ask clip).
Proof.
  unfold moveOrders. do 3 (apply follows_bind; [auto using follows_moveOrder|intros ?]). apply follows_moveOrder.
Qed.

Lemma follows_cfg t cfgs : follows (cfg_at t cfgs) (cfg_at t cfgs).
Proof. unfold cfg_at. destruct (cfgs !! _); auto. Qed.

Lemma follows_maker cfgs fe t bbo :
  follows (mm_onOrderBookUpdate client_id risk cfgs fe t bbo) (mm_onOrderBookUpdate client_id risk cfgs fe t bbo).
Proof.
  unfold mm_onOrderBookUpdate. cbv zeta. destruct (_ && _); [|auto].
  do 3 (apply follows_bind; [auto using follows_cfg|intros ?]). apply follows_moveOrders.
Qed.

Lemma follows_taker cfgs fe u bbo :
  follows (lt_onTradeUpdate client_id risk cfgs fe u bbo) (lt_onTradeUpdate client_id risk cfgs fe u bbo).
Proof.
  unfold lt_onTradeUpdate. cbv zeta. destruct (_ && _); [|auto]. apply follows_bind; [apply follows_cfg|]. intros c.
  destruct (dgeb _ _); [|auto]. case_decide; apply follows_moveOrders.
Qed.
End listening.

(** ** The time from a market update to the first request (trade_engine.h, trade_engine.cpp) *)
Record TickToTrade := mkTickToTrade {
  ttt_recorder_ : option LatencyRecorder;    (** what the pointer leads to *)
  ttt_start_ : TSCStamp;
  ttt_measurement_active_ : bool;
  ttt_endpoint_reached_ : bool
}.

Definition TickToTrade_new : TickToTrade := mkTickToTrade None (mkTSCStamp 0 0) false false.

Section tick_to_trade.
Context `{Limits}.
(** What readTSC returns when a request has been committed. *)
Context (end_ : TSCStamp).

(** The end of sendClientRequest.  The pointer is set whenever a measurement is active. *)
Definition ttt_sent (x : TickToTrade) : TickToTrade :=
  if ttt_measurement_active_ x then
    mkTickToTrade ((λ recorder, (record (ttt_start_ x) end_ recorder).2) <$> ttt_recorder_ x) (ttt_start_ x) false true
  else x.
#[local] Instance ttt_requests : RequestSink TickToTrade := λ _, ttt_sent.

(** A method of the engine with its measurement. *)
Definition TTE (A : Type) : Type := M (TradeEngine * TickToTrade) A.

Definition on_engine {A} (f : TE A) : TTE A :=
  λ st, match f st.1 with Ok (a, e) => Ok (a, (e, st.2)) | Err e => Err e end.

Definition ttt_algo
    (f : Z → (Z → Side → Z → result RiskCheckResult) → OM (T := LFQueue MEClientRequest * TickToTrade) unit) : TTE unit :=
  st ← gets id;
  let e := st.1 in
  y ← lift (f (te_client_id_ e) (checkPreTradeRisk (risk_manager_ e) (position_keeper_ e))
              (order_manager_ e, (outgoing_ogw_requests_ e, st.2)));
  modify (λ st, (te_set_orders (y.2.1, y.2.2.1) st.1, y.2.2.2)).

Definition ttt_onOrderBookUpdate (ticker_id price : Z) (side : Side) (book : nat) (bbo : BBO) : TTE unit :=
  e ← gets fst;
  pk ← lift (pk_updateBBO ticker_id book bbo (position_keeper_ e));
  on_engine (modify (te_set_positions pk));;
  fe ← lift (fe_onOrderBookUpdate bbo (feature_engine_ e));
  on_engine (modify (te_set_features fe));;
  match te_algo_ e with
  | AlgoType_MAKER =>
      ttt_algo (λ client_id risk, mm_onOrderBookUpdate client_id risk (te_ticker_cfg_ e) fe ticker_id bbo)
  | AlgoType_TAKER => ttt_algo (λ _ _, lt_onOrderBookUpdate ticker_id price side)
  | _ => mret tt
  end.

Definition ttt_onTradeUpdate (u : MEMarketUpdate) (bbo : BBO) : TTE unit :=
  e ← gets fst;
  let fe := fe_onTradeUpdate u bbo (feature_engine_ e) in
  on_engine (modify (te_set_features fe));;
  match te_algo_ e with
  | AlgoType_MAKER => ttt_algo (λ _ _, mm_onTradeUpdate u)
  | AlgoType_TAKER => ttt_algo (λ client_id risk, lt_onTradeUpdate client_id risk (te_ticker_cfg_ e) fe u bbo)
  | _ => mret tt
  end.

Definition ttt_notify (u : MEMarketUpdate) (n : notification) (book : nat) (b : MarketOrderBook) : TTE unit :=
  match n with
  | TradeUpdate => ttt_onTradeUpdate u (bbo_ b)
  | BookUpdate ticker_id price side => ttt_onOrderBookUpdate ticker_id price side book (bbo_ b)
  end.

Definition ttt_processMarketUpdate (now : Z) (u : MEMarketUpdate) : TTE unit :=
  e ← gets fst;
  let i := Z.to_nat (upd_ticker_id_ u) in
  match te_ticker_order_book_ e !! i with
  | None => throw AssertFailed
  | Some b =>
      y ← lift (onMarketUpdate u b);
      on_engine (modify (te_set_books (<[i := y.2]> (te_ticker_order_book_ e))));;
      ttt_notify u y.1 i y.2;;
      on_engine (modify (te_set_time now))
  end.

(** [start] is what readTSC returns before the update is processed.  With the result comes what the
    caller's recorder holds then. *)
Definition processMarketUpdateForBenchmark (now : Z) (start : TSCStamp) (u : MEMarketUpdate) (recorder : LatencyRecorder)
    (st : TradeEngine * TickToTrade) : result (bool * LatencyRecorder * (TradeEngine * TickToTrade)) :=
  y ← ttt_processMarketUpdate now u (st.1, mkTickToTrade (Some recorder) start true false);
  let x := y.2.2 in
  mret (ttt_endpoint_reached_ x, default recorder (ttt_recorder_ x),
        (y.2.1, mkTickToTrade None (ttt_start_ x) false (ttt_endpoint_reached_ x))).

(** *** What the measurement does *)
Definition measures {A} (f : TE A) (g : TTE A) : Prop :=
  ∀ e x, match f e with
         | Ok (a, e') => ∃ reqs, outgoing_ogw_requests_ e' = push_all reqs (outgoing_ogw_requests_ e) ∧ g (e, x) = Ok (a, (e', sends reqs x))
         | Err err => g (e, x) = Err err
         end.

Lemma measures_bind {A B} (f : TE A) g (k : A → TE B) k' :
  measures f g → (∀ a, measures (k a) (k' a)) → measures (mbind k f) (mbind k' g).
Proof.
  intros Hf Hk e x. unfold mbind, M_bind. specialize (Hf e x). destruct (f e) as [[a e1]|err]; [|by rewrite Hf].
  destruct Hf as (reqs1 & E1 & ->). specialize (Hk a e1 (sends reqs1 x)).
  destruct (k a e1) as [[b e2]|err]; [|done]. destruct Hk as (reqs2 & E2 & ->).
  exists (reqs1 ++ reqs2). rewrite E2, E1. split; [by rewrite push_all_app|]. unfold sends. by rewrite foldl_app.
Qed.

Lemma measures_ret {A} (a : A) : measures (mret a) (mret a).
Proof. intros e x. by exists []. Qed.

Lemma measures_throw {A} err : measures (throw (A := A) err) (throw err).
Proof. done. Qed.

Lemma measures_lift {A} (r : result A) : measures (lift r) (lift r).
Proof. intros e x. unfold lift. destruct r; [by exists []|done]. Qed.

Lemma measures_get {B} (k : TradeEngine → TE B) k' : (∀ e, measures (k e) (k' e)) → measures (e ← gets id; k e) (e ← gets fst; k' e).
Proof. intros Hk. apply measures_bind; [|exact Hk]. intros e x. by exists []. Qed.

Lemma measures_set h : (∀ e, outgoing_ogw_requests_ (h e) = outgoing_ogw_requests_ e) → measures (modify h) (on_engine (modify h)).
Proof. intros Hh e x. exists []. split; [apply Hh|done]. Qed.

Lemma measures_algo f g : (∀ client_id risk, follows (f client_id risk) (g client_id risk)) → measures (algo f) (ttt_algo g).
Proof.
  intros Hf e x. unfold algo, ttt_algo, mbind, M_bind, gets, id. cbn [fst snd]. unfold lift.
  specialize (Hf (te_client_id_ e) (checkPreTradeRisk (risk_manager_ e) (position_keeper_ e)) (order_manager_ e) (outgoing_ogw_requests_ e) x).
  destruct (f _ _ (_, _)) as [[a [m q]]|err]; [|by rewrite Hf]. destruct Hf as (reqs & E & ->). cbn [fst snd] in *.
  exists reqs. split; [|done]. cbn. by rewrite E, sends_push_all.
Qed.

Lemma measures_notify u n i b : measures (notify u n i b) (ttt_notify u n i b).
Proof.
  unfold notify, ttt_notify, te_onTradeUpdate, ttt_onTradeUpdate, te_onOrderBookUpdate, ttt_onOrderBookUpdate. destruct n as [|t p s].
  - apply measures_get. intros e. cbv zeta. apply measures_bind; [by apply measures_set|]. intros [].
    destruct (te_algo_ e); try apply measures_ret; apply measures_algo; intros; [apply follows_ret|apply follows_taker].
  - apply measures_get. intros e. apply measures_bind; [apply measures_lift|]. intros pk.
    apply measures_bind; [by apply measures_set|]. intros []. apply measures_bind; [apply measures_lift|]. intros fe.
    apply measures_bind; [by apply measures_set|]. intros [].
    destruct (te_algo_ e); try apply measures_ret; apply measures_algo; intros; [apply follows_maker|apply follows_ret].
Qed.

Lemma measures_update now u : measures (processMarketUpdate now u) (ttt_processMarketUpdate now u).
Proof.
  unfold processMarketUpdate, ttt_processMarketUpdate. apply measures_get. intros e. cbv zeta.
  destruct (te_ticker_order_book_ e !! _) as [b|]; [|apply measures_throw].
  apply measures_bind; [apply measures_lift|]. intros y. apply measures_bind; [by apply measures_set|]. intros [].
  apply measures_bind; [apply measures_notify|]. intros []. by apply measures_set.
Qed.

(** Only the first request ends a measurement. *)
Lemma sends_inactive reqs x : ttt_measurement_active_ x = false → sends reqs x = x.
Proof.
  intros Hx. induction reqs as [|req reqs IH]; [done|]. unfold sends. cbn [foldl].
  assert (sendClientRequest req x = x) as ->; [|exact IH]. unfold sendClientRequest, ttt_requests, ttt_sent. by rewrite Hx.
Qed.

(** The measurement takes one sample, from before the update to the first request that it caused, when
    the update caused one, and says whether it did; the engine does what it does without. *)
Theorem tick_to_trade_exact now start u recorder e x :
  match processMarketUpdate now u e with
  | Ok (_, e') => ∃ reqs, outgoing_ogw_requests_ e' = push_all reqs (outgoing_ogw_requests_ e) ∧
      let caused := match reqs with [] => false | _ => true end in
      processMarketUpdateForBenchmark now start u recorder (e, x) =
      Ok (caused, if caused then (record start end_ recorder).2 else recorder, (e', mkTickToTrade None start false caused))
  | Err err => processMarketUpdateForBenchmark now start u recorder (e, x) = Err err
  end.
Proof.
  unfold processMarketUpdateForBenchmark. cbn [fst].
  pose proof (measures_update now u e (mkTickToTrade (Some recorder) start true false)) as Hm.
  destruct (processMarketUpdate now u e) as [[[] e']|err]; [|by rewrite Hm].
  destruct Hm as (reqs & E & ->). exists reqs. split; [exact E|]. destruct reqs as [|req reqs]; [done|].
  change (sends (req :: reqs) ?y) with (sends reqs (ttt_sent y)). by rewrite sends_inactive.
Qed.
End tick_to_trade.
