(* ===== verification/Examples.v ===== *)
(** * Concrete runs

    A small configuration on which the theorems are instantiated: their hypotheses hold on it. *)
From S2P Require Import Prelude Types MemPool LFQueue QueueThreads EngineSink BookSpec MEOrderBook BookRep.
From S2P Require Import BookMatch BookRefine BookTheorems BookCancel BookInv BookReplay.
From S2P Require Import BookGuarantees MatchingEngine.
#[local] Instance tiny_limits : Limits := {|
  ME_MAX_TICKERS := 2;
  ME_MAX_CLIENT_UPDATES := 16;
  ME_MAX_MARKET_UPDATES := 16;
  ME_MAX_NUM_CLIENTS := 4;
  ME_MAX_ORDER_IDS := 8;
  ME_MAX_PRICE_LEVELS := 8
|}.

(** ** A book with one resting ask: client 1, order 1, 10 at 100 *)
Definition tiny_new : MEOrderBook := MEOrderBook_new ∅ 0.

Definition tiny_run : result (unit * (MEOrderBook * list event)) :=
  add 1 1 0 Side_SELL 100 10 (tiny_new, []).

Definition tiny_book : MEOrderBook :=
  match tiny_run with Ok (_, (b, _)) => b | Err _ => tiny_new end.

Definition tiny_spec : Book := (spec_add 1 1 0 Side_SELL 100 10 empty_book).1.

Ltac decide_rest :=
  unfold can_rest, room; split_and!;
  [ let o := fresh "o" in let Ho := fresh "Ho" in
    intros o Ho; vm_compute in Ho; repeat (apply elem_of_cons in Ho as [->|Ho]);
    [..|by apply not_elem_of_nil in Ho]; unfold has_key; cbn; lia
  | let q := fresh "q" in let Hq := fresh "Hq" in
    intros q Hq; vm_compute in Hq; repeat (apply elem_of_cons in Hq as [->|Hq]);
    [..|by apply not_elem_of_nil in Hq]; vm_compute; done
  | apply Nat.ltb_lt; reflexivity | apply Nat.ltb_lt; reflexivity | vm_compute; done | vm_compute; done ].

Lemma tiny_implements : implements tiny_book tiny_spec.
Proof.
  assert (can_rest 1 1 100 empty_book) as Hc by decide_rest.
  assert (is_u32 10) as Hq by (unfold is_u32; lia).
  pose proof (wp_add tiny_new empty_book ([] : list event) 1 1 0 Side_SELL 100 10
    (new_implements 0 eq_refl eq_refl) (or_intror eq_refl) Hq (λ _, Hc)) as Hwp.
  unfold tiny_book, tiny_run. unfold wp in Hwp. 
  destruct (add 1 1 0 Side_SELL 100 10 (tiny_new, [])) as [[[] [b e]]|f]; [|done]. apply Hwp.
Qed.

Lemma tiny_wf : wf_book tiny_spec.
Proof.
  apply (wf_spec_add empty_book); [apply wf_empty_book|by right|unfold is_u32; lia| |done].
  intros o Ho. vm_compute in Ho. by apply not_elem_of_nil in Ho.
Qed.

Lemma tiny_rest : can_rest 2 1 100 tiny_spec.
Proof. decide_rest. Qed.

(** ** The engine with three requests: an ask, a bid that trades with it, a cancel of the rest *)
Definition tiny_requests : list MEClientRequest :=
  [ mkMEClientRequest ClientRequestType_NEW 1 0 1 Side_SELL 100 10;
    mkMEClientRequest ClientRequestType_NEW 2 0 1 Side_BUY 100 4;
    mkMEClientRequest ClientRequestType_CANCEL 1 0 1 Side_INVALID 0 0 ].

Definition tiny_engine : MatchingEngine :=
  me_set_run true (MatchingEngine_new (λ _, ∅)
    (push_all tiny_requests (LFQueue_new 8 MEClientRequest_default))
    (LFQueue_new 16 MEClientResponse_default) (LFQueue_new 16 MEMarketUpdate_default)).

Definition tiny_books : list Book := [empty_book; empty_book].

Lemma tiny_engine_ok :
  engine_ok tiny_engine tiny_books tiny_requests [] [] (spec_steps tiny_requests tiny_books).2.
Proof.
  split_and!.
  - repeat constructor; by apply new_implements.
  - change tiny_requests with ([] ++ tiny_requests).
    apply holds_push_all; [apply holds_new; lia|apply Nat.leb_le; reflexivity].
  - split_and!; [apply holds_new; lia|apply holds_new; lia|apply Nat.leb_le; reflexivity..].
Qed.

Lemma tiny_books_wf : Forall wf_book tiny_books.
Proof. constructor; [apply wf_empty_book|constructor; [apply wf_empty_book|constructor]]. Qed.

Lemma tiny_admissible : admissible_steps tiny_requests tiny_books.
Proof.
  split; [eexists; split; [reflexivity|]|split; [eexists; split; [reflexivity|]|
    split; [eexists; split; [reflexivity|]|exact I]]].
  - split; [by right|]. split; [unfold is_u32; cbn; lia|]. split; [done|]. cbn. decide_rest.
  - split; [by left|]. split; [unfold is_u32; cbn; lia|]. split; [done|]. decide_rest.
  - intros _. reflexivity.
Qed.

Lemma engine_run_refines_witness :
  ∃ m', run 3 tiny_engine = Ok (tt, m') ∧
    Forall2 implements (ticker_order_book_ m') (spec_steps tiny_requests tiny_books).1 ∧
    holds (incoming_requests_ m') [] ∧
    holds (outgoing_ogw_responses_ (outgoing_ m')) ([] ++ responses (spec_steps tiny_requests tiny_books).2) ∧
    holds (outgoing_md_updates_ (outgoing_ m')) ([] ++ updates (spec_steps tiny_requests tiny_books).2).
Proof.
  apply (engine_run_refines tiny_requests tiny_engine tiny_books [] []);
    [apply tiny_engine_ok|reflexivity|apply tiny_admissible].
Defined.

Lemma engine_run_wf_witness :
  ∃ m' bks', run 3 tiny_engine = Ok (tt, m') ∧
    Forall2 implements (ticker_order_book_ m') bks' ∧ Forall wf_book bks'.
Proof.
  apply (engine_run_wf tiny_requests tiny_engine tiny_books [] []);
    [apply tiny_engine_ok|reflexivity|apply tiny_admissible|apply tiny_books_wf].
Defined.

Lemma engine_market_data_witness :
  ∃ m' us' b' bk', run 3 tiny_engine = Ok (tt, m') ∧
    holds (outgoing_md_updates_ (outgoing_ m')) ([] ++ us') ∧
    ticker_order_book_ m' !! 0%nat = Some b' ∧ implements b' bk' ∧
    replay_updates (filter (λ u, upd_ticker_id_ u = Z.of_nat 0) us') (book_map empty_book) = book_map bk'.
Proof.
  apply (engine_market_data tiny_requests tiny_engine tiny_books [] [] 0 empty_book);
    [apply tiny_engine_ok|reflexivity|apply tiny_admissible|apply tiny_books_wf
    |repeat constructor; done|reflexivity].
Defined.

(** *** A cancel of an order id beyond the array, between two orders *)
Definition fatal_cancel : MEClientRequest := mkMEClientRequest ClientRequestType_CANCEL 2 0 8 Side_INVALID 0 0.
Definition fatal_requests : list MEClientRequest := take 1 tiny_requests ++ fatal_cancel :: drop 1 tiny_requests.
Definition fatal_engine : MatchingEngine :=
  me_set_requests (push_all fatal_requests (LFQueue_new 8 MEClientRequest_default)) tiny_engine.

Lemma cancel_out_of_range_witness :
  (∃ m', run 1 fatal_engine = Ok (tt, m') ∧
     Forall2 implements (ticker_order_book_ m') (spec_steps (take 1 tiny_requests) tiny_books).1 ∧
     holds (incoming_requests_ m') (fatal_cancel :: drop 1 tiny_requests)) ∧
  ((∀ n, (1 < n)%nat → run n fatal_engine = Err OutOfRange) ↔
   req_client_id_ fatal_cancel < ME_MAX_NUM_CLIENTS ∧ ME_MAX_ORDER_IDS ≤ req_order_id_ fatal_cancel).
Proof.
  destruct tiny_engine_ok as (Hbs & _ & Ho1 & Ho2 & _).
  apply (cancel_out_of_range (take 1 tiny_requests) fatal_cancel (drop 1 tiny_requests) fatal_engine tiny_books [] []);
    [|reflexivity|split; [apply tiny_admissible|exact I]|reflexivity|by eexists].
  split; [exact Hbs|]. split.
  - change (take 1 tiny_requests ++ _) with ([] ++ fatal_requests).
    apply holds_push_all; [apply holds_new; lia|apply Nat.leb_le; reflexivity].
  - split_and!; [exact Ho1|exact Ho2|apply Nat.leb_le; reflexivity..].
Defined.

(** The id of the example is beyond the array, the client is not. *)
Example fatal_cancel_fatal : run 2 fatal_engine = Err OutOfRange.
Proof. by vm_compute. Qed.

(** *** A book whose memory was not zero when it was allocated *)

(** The constructor does not clear cid_oid_to_order_: the cancel of an order that was never sent
    follows what the memory held, here a pointer outside the pool, instead of being rejected. *)
Definition dirty_engine (memory : nat → gmap (Z * Z) nat) : MatchingEngine :=
  me_set_run true (MatchingEngine_new memory
    (push_all [mkMEClientRequest ClientRequestType_CANCEL 1 0 1 Side_INVALID 0 0] (LFQueue_new 8 MEClientRequest_default))
    (LFQueue_new 16 MEClientResponse_default) (LFQueue_new 16 MEMarketUpdate_default)).

Example unknown_cancel_faults :
  run 1 (dirty_engine (λ _, {[ (1, 1) := 77%nat ]})) = Err WildDeref ∧
  match run 1 (dirty_engine (λ _, ∅)) with
  | Ok (_, m) => (rsp_type_ <$> contents (outgoing_ogw_responses_ (outgoing_ m))) = [ClientResponseType_CANCEL_REJECTED]
  | Err _ => False
  end.
Proof. split; by vm_compute. Qed.

(** ** The methods of the book on the book with one ask *)
Lemma u32_4 : is_u32 4.
Proof. unfold is_u32. lia. Qed.

Lemma add_refines_witness :
  let x := spec_add 2 1 0 Side_BUY 100 4 tiny_spec in
  ∃ b', add (E := list event) 2 1 0 Side_BUY 100 4 (tiny_book, []) = Ok (tt, (b', emit x.2 [])) ∧
        implements b' x.1.
Proof.
  apply (add_refines tiny_book tiny_spec [] 2 1 0 Side_BUY 100 4);
    [apply tiny_implements|by left|apply u32_4|intros _; apply tiny_rest].
Defined.

Lemma cancel_refines_witness :
  let x := spec_cancel 1 1 0 tiny_spec in
  ∃ b', cancel (E := list event) 1 1 0 (tiny_book, []) = Ok (tt, (b', emit x.2 [])) ∧
        implements b' x.1.
Proof. apply (cancel_refines tiny_book tiny_spec [] 1 1 0); [apply tiny_implements|done]. Defined.

Lemma checkForMatch_price_time_witness :
  let x := match_flat (mkAggressor 2 1 0 Side_BUY 100 (u32 2)) 4 (flat (sel Side_SELL (levels tiny_spec))) in
  ∃ b' passive, checkForMatch (E := list event) 2 1 0 Side_BUY 100 4 2 (tiny_book, [])
      = Ok (x.1.2, (b', emit x.1.1 [])) ∧
    implements b' (mkBook (upd Side_SELL passive (levels tiny_spec)) (next_id tiny_spec)) ∧ flat passive = x.2.
Proof.
  apply (checkForMatch_price_time tiny_book tiny_spec [] 2 1 0 Side_BUY 100 4 2);
    [apply tiny_implements|apply tiny_wf|by left|apply u32_4].
Defined.

Lemma add_conserves_quantity_witness :
  ∃ b' bk' evs, add (E := list event) 2 1 0 Side_BUY 100 4 (tiny_book, []) = Ok (tt, (b', evs)) ∧
    implements b' bk' ∧
    total (book_orders tiny_spec) + 4 = total (book_orders bk') + 2 * traded evs ∧
    filled evs = 2 * traded evs.
Proof.
  apply (add_conserves_quantity tiny_book tiny_spec 2 1 0 Side_BUY 100 4);
    [apply tiny_implements|apply tiny_wf|by left|apply u32_4|apply tiny_rest].
Defined.

Lemma add_uncrossed_witness :
  ∃ b' e' bk', add (E := list event) 2 1 0 Side_BUY 100 4 (tiny_book, []) = Ok (tt, (b', e')) ∧
    implements b' bk' ∧ wf_book bk'.
Proof.
  apply (add_uncrossed tiny_book tiny_spec [] 2 1 0 Side_BUY 100 4);
    [apply tiny_implements|apply tiny_wf|by left|apply u32_4|apply tiny_rest|reflexivity].
Defined.

Lemma cancel_removes_one_witness :
  ∃ b' bk' evs, cancel (E := list event) 1 1 0 (tiny_book, []) = Ok (tt, (b', evs)) ∧
    implements b' bk' ∧
    book_orders bk' = filter (λ o, ¬ has_key 1 1 o) (book_orders tiny_spec) ∧
    (fresh 1 1 tiny_spec ↔
      evs = [Response (mkMEClientResponse ClientResponseType_CANCEL_REJECTED 1 0 1
               OrderId_INVALID Side_INVALID Price_INVALID Qty_INVALID Qty_INVALID)]).
Proof. apply (cancel_removes_one tiny_book tiny_spec 1 1 0); [apply tiny_implements|done]. Defined.

(** ** Two prices that share a slot *)

(** Prices that are equal modulo the number of price levels share a slot, and the second one
    joins the level of the first: with an ask for 10 at 105 and then one at 97 (8 levels), a
    bid for 10 at 97 finds the best ask at 105 and does not trade with the ask at 97, which is
    published as resting at 97. *)
Theorem slot_collision_misplaces :
  match (add 1 1 0 Side_SELL 105 10;; add 1 2 0 Side_SELL 97 10;; add 2 1 0 Side_BUY 97 10)
          (tiny_new, []) with
  | Ok (_, (_, evs)) =>
      traded evs = 0 ∧
      Update (mkMEMarketUpdate MarketUpdateType_ADD 2 0 Side_SELL 97 10 2) ∈ evs ∧
      Update (mkMEMarketUpdate MarketUpdateType_ADD 3 0 Side_BUY 97 10 3) ∈ evs
  | Err _ => False
  end.
Proof. vm_compute. split_and!; [done|..]; repeat (apply elem_of_cons; (by left) || right). Qed.

(** ** Pools and queues *)
Lemma lfqueue_fifo_witness :
  holds (push_all [1; 2] (LFQueue_new 4 0)) ([] ++ [1; 2]) ∧
  ∃ q', pop (push_all [1; 2] (LFQueue_new 4 0)) = Ok (Some (1, q')) ∧ holds q' [2].
Proof.
  apply (lfqueue_fifo (LFQueue_new 4 0) [] [1; 2]);
    [apply holds_new; lia|apply Nat.leb_le; reflexivity].
Defined.

(** The consumer has the slot of the first element in hand while the producer assigns the second. *)
Definition interleaved_schedule : list (option Z) :=
  [Some 7; Some 0] ++ [None] ++ replicate 4 (Some 7) ++ replicate 3 None ++ [Some 8; Some 0].

Lemma two_threads_fifo_witness :
  ∃ S, sh_producer S = P_writing 8 1 ∧ sh_consumer S = C_reading 0 ∧ ¬ race S ∧ ∃ S', consumer_step S = Ok S'.
Proof.
  pose (S := default (threads_start 2 0) (run_schedule interleaved_schedule (threads_start 2 0))).
  exists S. split; [reflexivity|]. split; [reflexivity|].
  destruct (two_threads_fifo 2 0 S) as (_ & Hr & HS & _); [lia| |split; [exact Hr|exact HS]].
  apply (run_schedule_steps interleaved_schedule). reflexivity.
Defined.

Lemma lfqueue_overflow_witness :
  ∃ q', pop (push 9 (push_all [1; 2] (LFQueue_new 2 0))) = Ok (Some (9, q')).
Proof.
  apply (lfqueue_overflow (push_all [1; 2] (LFQueue_new 2 0)) 1 9 [2]); [|reflexivity].
  apply (holds_push_all (LFQueue_new 2 0) [] [1; 2]);
    [apply holds_new; lia|apply Nat.leb_le; reflexivity].
Defined.

Definition pool3 : MemPool Z := MemPool_new 3 0.
Definition pool3_full : MemPool Z :=
  match allocate 5 pool3 with
  | Ok (_, p) => match allocate 6 p with Ok (_, p) => p | Err _ => pool3 end
  | Err _ => pool3
  end.

Lemma pool3_wf : pool_wf pool3.
Proof. apply MemPool_new_wf. lia. Qed.

Lemma pool3_full_wf : pool_wf pool3_full.
Proof. by exists (mkBlock 0 true). Qed.

Lemma allocate_spec_witness :
  ∃ p', allocate 7 pool3 = Ok (0%nat, p') ∧ heap pool3 !! 0%nat = None ∧
        heap p' = <[0%nat := 7]> (heap pool3) ∧ pool_wf p' ∧ pool_size p' = pool_size pool3.
Proof.
  apply (allocate_spec pool3 7); [apply pool3_wf|apply Nat.ltb_lt; reflexivity].
Defined.

Lemma allocate_last_block_witness :
  allocate 7 pool3_full = Err AssertFailed ↔ S (size (heap pool3_full)) = pool_size pool3_full.
Proof. apply (allocate_last_block pool3_full 7), pool3_full_wf. Defined.

Lemma deallocate_spec_witness :
  match Some 1%nat ≫= (λ i, heap pool3_full !! i) with
  | Some _ => ∃ i p', Some 1%nat = Some i ∧ deallocate (Some 1%nat) pool3_full = Ok p' ∧
      heap p' = delete i (heap pool3_full) ∧ pool_wf p' ∧ pool_size p' = pool_size pool3_full
  | None => deallocate (Some 1%nat) pool3_full = Err AssertFailed
  end.
Proof. apply (deallocate_spec pool3_full (Some 1%nat)), pool3_full_wf. Defined.

Lemma opt_allocate_last_block_spins_witness : opt_allocate true 100 7 pool3_full = Err Diverges.
Proof.
  apply (opt_allocate_last_block_spins pool3_full 7 100); [apply pool3_full_wf|reflexivity].
Defined.

Lemma process_faults_witness :
  processClientRequest MEClientRequest_default tiny_engine = Err WildDeref.
Proof.
  apply (process_faults tiny_engine MEClientRequest_default), Nat.leb_le. reflexivity.
Defined.
