(* ===== verification/ExamplesSession.v ===== *)
(** * Concrete runs of the TCP path: sockets, the order server and the order gateway

    Small buffers and a session of one client, on which the hypotheses of the theorems hold. *)
From S2P Require Import Prelude Types LFQueue Wire Socket TcpServer RecvFrames OrderServer.
From S2P Require Import OrderGateway SocketUtils.
#[local] Instance tiny_buffers : BufferSizes := {| TCPBufferSize := 200; McastBufferSize := 200 |}.

(** std::sort by a stable merge sort. *)
#[local] Instance recv_le_dec a b : Decision (recv_le a b).
Proof. unfold recv_le. apply _. Defined.
#[local] Instance recv_le_total : Total recv_le.
Proof. intros a b. unfold recv_le. lia. Qed.
#[local] Instance recv_le_trans : Transitive recv_le.
Proof. intros a b c. unfold recv_le. lia. Qed.
#[local] Instance tiny_sort : StdSort := merge_sort recv_le.
#[local] Instance tiny_sort_spec : StdSortSpec tiny_sort.
Proof.
  split; intros l.
  - apply merge_sort_Permutation.
  - apply (StronglySorted_merge_sort recv_le).
Qed.

Ltac solve_range :=
  cbn [numbered]; rewrite ?Forall_cons, ?Forall_nil; split_and?; try exact I;
  cbn; unfold is_u32, is_u64, in_i64P; split_and?; vm_compute; done.
Ltac solve_le := apply Nat.leb_le; reflexivity.

Definition req1 : MEClientRequest := mkMEClientRequest ClientRequestType_NEW 1 0 1 Side_BUY 100 5.
Definition req2 : MEClientRequest := mkMEClientRequest ClientRequestType_CANCEL 1 0 1 Side_BUY 100 5.
Definition rsp1 : MEClientResponse :=
  mkMEClientResponse ClientResponseType_ACCEPTED 1 0 1 1 Side_BUY 100 0 5.
Definition rsp2 : MEClientResponse :=
  mkMEClientResponse ClientResponseType_ACCEPTED 2 0 1 2 Side_SELL 101 0 5.

Lemma chunks_reassemble_witness :
  receive [] [take 17 (stream [req1; req2]); []; drop 17 (stream [req1; req2])] = ([req1; req2], []).
Proof. apply (chunks_reassemble [req1; req2]); [solve_range|reflexivity]. Defined.

(** ** The server with one open connection, of client 1 *)
Definition tiny_socket : TCPSocket := mkTCPSocket 5 false [] 0 [].

Definition tiny_server : OrderServer :=
  mkOrderServer (push_all [rsp1; rsp1] (LFQueue_new 8 MEClientResponse_default)) true
    [1; 1; 1] [1; 1; 1] [None; Some 0%nat; None]
    (mkFIFOSequencer (LFQueue_new 8 MEClientRequest_default) []).

Definition pending_two : FIFOSequencer :=
  mkFIFOSequencer (LFQueue_new 8 MEClientRequest_default) [mkRecvTime 3 req1; mkRecvTime 7 req2].

Lemma new_requests_hold : holds (LFQueue_new 8 MEClientRequest_default) [].
Proof. apply holds_new. lia. Qed.

Lemma sequence_publishes_witness :
  ∃ l, l ≡ₚ pending_client_requests_ pending_two ∧ StronglySorted recv_le l ∧
    holds (fifo_incoming_requests_ (sequenceAndPublish pending_two)) ([] ++ (request_ <$> l)) ∧
    pending_client_requests_ (sequenceAndPublish pending_two) = [].
Proof. apply (sequence_publishes pending_two []); [apply new_requests_hold|solve_le]. Defined.

(** The later request was read first. *)
Lemma sequence_receive_order_witness :
  let f := mkFIFOSequencer (LFQueue_new 8 MEClientRequest_default) [] in
  ∃ f1 f1' l, add_requests [mkRecvTime 7 req2; mkRecvTime 3 req1] f = Ok f1 ∧
    add_requests [mkRecvTime 3 req1; mkRecvTime 7 req2] f = Ok f1' ∧
    l ≡ₚ [mkRecvTime 7 req2; mkRecvTime 3 req1] ∧ StronglySorted (λ a b, recv_time_ a < recv_time_ b) l ∧
    holds (fifo_incoming_requests_ (sequenceAndPublish f1)) ([] ++ (request_ <$> l)) ∧
    pending_client_requests_ (sequenceAndPublish f1) = [] ∧ sequenceAndPublish f1' = sequenceAndPublish f1.
Proof.
  intros f. apply (sequence_receive_order _ _ f []); [apply new_requests_hold|done|solve_le|solve_le| |apply Permutation_swap].
  apply (bool_decide_unpack _). by vm_compute.
Defined.

Lemma recv_request_exactly_witness :
  ∃ o', recv_request 0 3 (mkOMClientRequest 1 req1) tiny_server = Ok o' ∧
    if decide (valid_request 0 (mkOMClientRequest 1 req1) tiny_server) then
      pending_client_requests_ (fifo_sequencer_ o') = [] ++ [mkRecvTime 3 req1] ∧
      cid_next_exp_seq_num_ o' = <[1%nat := 2]> [1; 1; 1] ∧ cid_tcp_socket_ o' !! 1%nat = Some (Some 0%nat)
    else fifo_sequencer_ o' = fifo_sequencer_ tiny_server ∧ cid_next_exp_seq_num_ o' = [1; 1; 1].
Proof.
  apply (recv_request_exactly 0 3 (mkOMClientRequest 1 req1) tiny_server);
    [done|solve_le|solve_le].
Defined.

Definition tiny_sockets : gmap nat TCPSocket := {[0%nat := tiny_socket]}.

Lemma tiny_responses_ok : responses_ok tiny_server tiny_sockets [rsp1; rsp1].
Proof.
  split_and!.
  - repeat constructor; exists 0%nat; (split; [done|]); unfold tiny_sockets; rewrite lookup_singleton_eq; by eexists.
  - done.
  - intros p s Hs _. unfold tiny_sockets in Hs. apply lookup_singleton_Some in Hs as [<- <-]. split_and!; [|done|solve_le].
    split; solve_le.
Qed.

Lemma responses_sent_witness :
  ∃ socks' o', send_responses 2 tiny_sockets tiny_server = Ok (socks', o') ∧
    holds (outgoing_responses_ o') [] ∧
    ∀ p s, tiny_sockets !! p = Some s → ∃ s', socks' !! p = Some s' ∧
      pending s' = pending s ++ stream (outgoing_on tiny_server [rsp1; rsp1] p).
Proof.
  apply (responses_sent [rsp1; rsp1] tiny_sockets tiny_server); [|apply tiny_responses_ok].
  apply (holds_push_all (LFQueue_new 8 MEClientResponse_default) [] [rsp1; rsp1]);
    [apply holds_new; lia|solve_le].
Defined.

(** ** The gateway of client 1 *)
Definition tiny_gateway : OrderGateway :=
  mkOrderGateway 1 (push_all [req1; req2] (LFQueue_new 8 MEClientRequest_default))
    (LFQueue_new 8 MEClientResponse_default) true 1 1.

Lemma tiny_socket_wf : tcp_wf tiny_socket.
Proof. split; solve_le. Qed.

Lemma requests_sent_witness :
  ∃ s' g', send_requests 2 tiny_socket tiny_gateway = Ok (s', g') ∧
    holds (og_outgoing_requests_ g') [] ∧
    pending s' = [] ++ stream (numbered mkOMClientRequest 1 [req1; req2]).
Proof.
  apply (requests_sent [req1; req2] tiny_socket tiny_gateway); [|apply tiny_socket_wf|done|solve_le].
  apply (holds_push_all (LFQueue_new 8 MEClientRequest_default) [] [req1; req2]);
    [apply new_requests_hold|solve_le].
Defined.

(** The stream cut in the middle of the first message. *)
Definition cut {A} `{Wire A} (ms : list A) : list (list Z * Z) :=
  [(take 20 (stream ms), 3); (drop 20 (stream ms), 4)].

Lemma requests_delivered_witness :
  ∃ o' r, recv_loop (os_recvCallback 0) (recv_chunk <$> cut (numbered mkOMClientRequest 1 [req1; req2]))
      tiny_socket tiny_server false = Ok (tiny_socket, o', r) ∧
    request_ <$> pending_client_requests_ (fifo_sequencer_ o') = [] ++ [req1; req2].
Proof.
  apply (requests_delivered 0 1 1 [req1; req2] (cut (numbered mkOMClientRequest 1 [req1; req2]))
           tiny_socket tiny_server);
    [solve_range|reflexivity|done|done| |solve_le|by repeat constructor|by right|done|solve_le].
  repeat constructor; solve_le.
Defined.

Definition mine : list OMClientResponse :=
  filter (λ m, rsp_client (me_client_response_ m) = 1%nat) (number_responses [1; 1; 1] [rsp1; rsp2; rsp1]).

Lemma responses_delivered_witness :
  ∃ g' r, recv_loop og_recvCallback (recv_chunk <$> cut mine) tiny_socket tiny_gateway false
      = Ok (tiny_socket, g', r) ∧
    holds (og_incoming_responses_ g') [rsp1; rsp1].
Proof.
  apply (responses_delivered [1; 1; 1] [rsp1; rsp2; rsp1] 1 (cut mine) tiny_socket tiny_gateway []).
  - change (Forall in_range (numbered mkOMClientResponse 1 [rsp1; rsp1])). solve_range.
  - reflexivity.
  - done.
  - done.
  - repeat constructor; solve_le.
  - solve_le.
  - done.
  - done.
  - repeat constructor; cbn; lia.
  - apply holds_new. lia.
  - solve_le.
Defined.

(** ** Sockets *)
(** A callback that leaves the socket alone. *)
Definition no_callback (s : TCPSocket) (_ : Z) (st : unit) : result (TCPSocket * unit) := Ok (s, st).

Definition tiny_ops : list tcp_op :=
  [OpSend [1; 2; 3]; OpPoll [] [SendEINTR; Sent 2; SendEAGAIN]; OpSend [4]].

Lemma tcp_lossless_witness :
  [1; 2] ++ [3; 4] = pending tiny_socket ++ (tiny_ops ≫= op_data).
Proof.
  apply (tcp_lossless no_callback tiny_ops tiny_socket tt (mkTCPSocket 5 false [1; 2; 3; 4] 2 []) tt [1; 2]);
    [by intros s t st s' st' [= <- <-]|apply tiny_socket_wf|reflexivity|done].
Defined.

Lemma tcp_send_capacity_witness :
  tcp_send (replicate 201 0) tiny_socket = Err AssertFailed
  ↔ (TCPBufferSize < length (pending tiny_socket) + length (replicate 201 0%Z))%nat.
Proof. apply (tcp_send_capacity (replicate 201 0) tiny_socket); [apply tiny_socket_wf|done]. Defined.

Definition tiny_tcp_server : TCPServer := mkTCPServer 3 tiny_socket tiny_sockets [Some 0%nat] [].
(** A new connection, and an error on the listener. *)
Definition tiny_events : list epoll_event := [mkEvent None true false false; mkEvent None false false true].
Definition tiny_polled : TCPServer :=
  mkTCPServer 3 tiny_socket (<[1%nat := mkTCPSocket 9 false [] 0 []]> tiny_sockets) [Some 0%nat; None; Some 1%nat] [].

Lemma tiny_server_wf : server_wf tiny_tcp_server.
Proof.
  split; cbn.
  - apply NoDup_singleton.
  - constructor.
  - intros p. unfold tiny_sockets. rewrite list_elem_of_singleton, lookup_singleton_is_Some. naive_solver.
  - by intros p Hp%not_elem_of_nil.
Qed.


(** ** A listening socket on an interface, and one that connects *)
#[local] Instance linux_constants : SystemConstants := {|
  O_NONBLOCK := 2048; EINPROGRESS := 115; AF_INET := 2; SOCK_STREAM := 1; SOCK_DGRAM := 2; IPPROTO_TCP := 6;
  IPPROTO_UDP := 17; AI_PASSIVE := 1; AI_NUMERICHOST := 4; AI_NUMERICSERV := 1024; INADDR_ANY := 0; CPU_SETSIZE := 1024
|}.

(** Descriptors from 3 on; connections are always in progress. *)
Definition tiny_answer (tr : trace) (c : syscall) : answer :=
  match c with
  | sys_socket _ _ _ => mkAnswer (3 + Z.of_nat (length (List.filter (λ x, match x.1 with sys_socket _ _ _ => true | _ => false end) tr))) 0
  | sys_fcntl_getfl _ => mkAnswer 2 0
  | sys_connect _ _ => mkAnswer (-1) 115
  | _ => mkAnswer 0 0
  end.

#[local] Instance tiny_kernel : Kernel := {|
  kernel := tiny_answer;
  addresses _ := [mkAddrinfo 2 1 6 (mkSockaddr 2130706433 12345)];
  interfaces _ := [mkIfaddr "lo" None; mkIfaddr "lo" (Some 2); mkIfaddr "eth0" (Some 2)];
  host_name _ := "127.0.0.1";
  inet_addr _ := 0
|}.

Definition listener_cfg : SocketCfg := mkSocketCfg EmptyString "lo" 12345 false true true.

Lemma tiny_kernel_accepts tr c : accepted c (kernel tr c) = true.
Proof.
  destruct c as [| | | | | | |fd [| | |]| | |]; try done. cbn. apply negb_true_iff, Z.eqb_neq. lia.
Qed.


(** The calls, in order. *)
Example listener_calls :
  fst <$> match createSocket listener_cfg [] with Ok (_, tr) => tr | Err _ => [] end
  = [sys_getifaddrs; sys_getnameinfo (mkIfaddr "lo" (Some 2)); sys_freeifaddrs;
     sys_getaddrinfo "127.0.0.1" "12345" (mkHints 1029 2 1 6); sys_socket 2 1 6; sys_fcntl_getfl 3; sys_fcntl_setfl 3 2050;
     sys_setsockopt 3 TCP_NODELAY; sys_setsockopt 3 SO_REUSEADDR; sys_bind 3 (mkSockaddr 2130706433 12345);
     sys_listen 3 1024; sys_setsockopt 3 SO_TIMESTAMP].
Proof. by vm_compute. Qed.

Example gateway_connects :
  match TCPSocket_connect "127.0.0.1" "lo" 12345 false (TCPSocket_new, []) with
  | Ok (fd, (s, _)) => fd = 3 ∧ socket_fd_ s = 3 ∧ closed_ s = false
  | Err _ => False
  end.
Proof. by vm_compute. Qed.

Example text_of_listener :
  SocketCfg_toString listener_cfg = "SocketCfg[ip: iface:lo port:12345 is_udp:0 is_listening:1 needs_SO_timestamp:1]".
Proof. by vm_compute. Qed.
