(* ===== verification/ExamplesMarket.v ===== *)
(** * Concrete runs of the market data path

    Two tickers and a handful of orders: the publisher, the snapshot synthesizer and the consumer,
    and the trading side's order book. *)
From S2P Require Import Prelude Types MemPool LFQueue EngineSink BookSpec MEOrderBook BookRep.
From S2P Require Import BookInv BookReplay BookRefine BookTheorems Wire Socket RecvFrames.
From S2P Require Import MarketStream SnapshotSynthesizer MarketDataPublisher.
From S2P Require Import MarketDataConsumer MarketOrderBook MarketBookSim MarketBookSpec.
From S2P Require Import MarketBookTheorems BookGuarantees MatchingEngine Examples.
#[local] Existing Instance tiny_limits.
#[local] Instance tiny_buffers : BufferSizes := {| TCPBufferSize := 200; McastBufferSize := 500 |}.

Ltac solve_le := apply Nat.leb_le; reflexivity.

(** ** The updates of a short session of ticker 0 *)
Definition add1 : MEMarketUpdate := mkMEMarketUpdate MarketUpdateType_ADD 1 0 Side_SELL 100 10 1.
Definition modify1 : MEMarketUpdate := mkMEMarketUpdate MarketUpdateType_MODIFY 1 0 Side_SELL 100 6 1.
Definition add2 : MEMarketUpdate := mkMEMarketUpdate MarketUpdateType_ADD 2 0 Side_BUY 99 3 1.
Definition cancel1 : MEMarketUpdate := mkMEMarketUpdate MarketUpdateType_CANCEL 1 0 Side_SELL 100 0 1.

Definition session : list MEMarketUpdate := [add1; modify1; add2; cancel1].

(** No orders shown for either ticker. *)
Definition no_orders : view := [∅; ∅].

(** ** The publisher *)
Definition tiny_publisher : MarketDataPublisher :=
  mkMarketDataPublisher 1 (push_all session (LFQueue_new 8 MEMarketUpdate_default))
    (LFQueue_new 8 MDPMarketUpdate_default) true (mkMcastSocket 4 [] []).

Lemma session_holds : holds (push_all session (LFQueue_new 8 MEMarketUpdate_default)) session.
Proof.
  apply (holds_push_all (LFQueue_new 8 MEMarketUpdate_default) [] session); [apply holds_new; lia|solve_le].
Qed.

Lemma publisher_forwards_witness :
  let ms := numbered mkMDPMarketUpdate 1 session in
  ∃ p' out, mdp_run_round tiny_publisher = Ok (p', out) ∧ concat out = stream ms ∧ (length out ≤ 1)%nat ∧
    holds (mdp_outgoing_md_updates_ p') [] ∧ holds (snapshot_md_updates_ p') ([] ++ ms) ∧
    next_inc_seq_num_ p' = advance 1 session ∧ mc_outbound_data_ (incremental_socket_ p') = [].
Proof.
  apply (publisher_forwards tiny_publisher session []);
    [done|apply session_holds|apply holds_new; lia|solve_le|done|solve_le].
Defined.

(** ** The snapshot synthesizer *)
Definition tiny_ss : SnapshotSynthesizer :=
  mkSnapshotSynthesizer false (mcast_init 5 McastSocket_new) (replicate 2 (replicate 8 None)) 0 0
    (MemPool_new 8 MEMarketUpdate_default).

Lemma tiny_ss_rep : snap_rep tiny_ss no_orders.
Proof. destruct (snap_rep_new 5 tiny_ss) as [? _]; [solve_le|reflexivity|done]. Qed.

Definition session_queue : LFQueue MDPMarketUpdate :=
  push_all (numbered mkMDPMarketUpdate 1 session) (LFQueue_new 8 MDPMarketUpdate_default).

Ltac solve_snap_ok :=
  split; [done|]; eexists; (split; [reflexivity|]);
  first [ split_and!; [reflexivity|done|done|solve_le]
        | eexists; split; reflexivity ].

Lemma session_ok : snap_oks 8 session no_orders.
Proof. split; [solve_snap_ok|]. split; [solve_snap_ok|]. split; [solve_snap_ok|]. split; [solve_snap_ok|done]. Qed.

Lemma snapshot_tracks_stream_witness :
  ∃ q' ss', ss_drain 4 session_queue tiny_ss = Ok (q', ss') ∧ holds q' [] ∧
    snap_rep ss' (apply_mds session no_orders).
Proof.
  apply (snapshot_tracks_stream session session_queue tiny_ss no_orders);
    [|apply tiny_ss_rep|apply session_ok].
  apply (holds_push_all (LFQueue_new 8 MDPMarketUpdate_default) [] (numbered mkMDPMarketUpdate 1 session));
    [apply holds_new; lia|solve_le].
Defined.

(** The synthesizer after the first update. *)
Definition tiny_ss1 : SnapshotSynthesizer :=
  match addToSnapshot (mkMDPMarketUpdate (u64 (last_inc_seq_num_ tiny_ss + 1)) add1) tiny_ss with Ok ss => ss | Err _ => tiny_ss end.

Lemma tiny_ss1_rep : snap_rep tiny_ss1 (apply_md add1 no_orders).
Proof.
  destruct (addToSnapshot_spec tiny_ss no_orders add1 tiny_ss_rep) as (ss & Ha & Hr & _);
    [by destruct session_ok as [? _]|].
  unfold tiny_ss1. by rewrite Ha.
Qed.

Lemma tiny_ss1_idle : mc_outbound_data_ (snapshot_socket_ tiny_ss1) = [].
Proof. vm_compute. reflexivity. Qed.

Lemma snapshot_published_witness :
  let us := snapshot_cycle (Z.to_nat ME_MAX_ORDER_IDS) (last_inc_seq_num_ tiny_ss1) (apply_md add1 no_orders) in
  ∃ ss' out, publishSnapshot tiny_ss1 = Ok (ss', out) ∧ snap_rep ss' (apply_md add1 no_orders) ∧
    concat out = stream (numbered mkMDPMarketUpdate 0 us) ∧
    apply_mds us [∅; {[3 := mkShown Side_BUY 1 1 1]}] = apply_md add1 no_orders.
Proof.
  apply (snapshot_published tiny_ss1 (apply_md add1 no_orders) [∅; {[3 := mkShown Side_BUY 1 1 1]}]);
    [apply tiny_ss1_rep|apply tiny_ss1_idle|solve_le|reflexivity].
Defined.

(** ** The consumer *)
Definition tiny_consumer : MarketDataConsumer :=
  mkMarketDataConsumer 1 (LFQueue_new 16 MEMarketUpdate_default) true (mkMcastSocket 7 [] [])
    (mkMcastSocket (-1) [] []) false [] [] [(9, true)].

Lemma consumer_in_sequence_witness :
  ∃ c', on_messages false (numbered mkMDPMarketUpdate 1 session) tiny_consumer = Ok c' ∧
    in_recovery_ c' = false ∧ holds (incoming_md_updates_ c') session.
Proof.
  apply (consumer_in_sequence session tiny_consumer []); [done|apply holds_new; lia|solve_le].
Defined.

Lemma session_stream : stream_ok session.
Proof. split; [repeat constructor|done]. Qed.

(** The ids of these views are 1 and 2. *)
Lemma session_cycle k : (k ≤ 1)%nat → cycle_ok session 8 no_orders k.
Proof.
  intros Hk. assert (k = 0 ∨ k = 1)%nat as Hk01 by lia.
  assert (∀ i, is_Some ((∅ : gmap Z Shown) !! i) → 0 ≤ i < Z.of_nat 8) as Hempty
    by (intros i [x Hx]; by rewrite lookup_empty in Hx).
  split_and!; [cbn; lia| |by destruct Hk01 as [->| ->]].
  destruct Hk01 as [->| ->].
  - change (Forall (λ m : gmap Z Shown, ∀ i, is_Some (m !! i) → 0 ≤ i < Z.of_nat 8) no_orders).
    unfold no_orders. by rewrite !Forall_cons.
  - change (Forall (λ m : gmap Z Shown, ∀ i, is_Some (m !! i) → 0 ≤ i < Z.of_nat 8)
              [<[1 := shown_of add1]> ∅; ∅]).
    rewrite !Forall_cons. split_and!; [|done|done].
    intros i [x Hx]. apply lookup_insert_Some in Hx as [[<- _]|[_ Hx]]; [lia|by rewrite lookup_empty in Hx].
Qed.

(** The first update is lost; the snapshot cycle that shows it follows the second one. *)
Definition cycle1 : list MEMarketUpdate := cycle_of session 8 no_orders 1.
Definition lossy : list (bool * MDPMarketUpdate) :=
  (false, mkMDPMarketUpdate 2 modify1) :: (pair true <$> numbered mkMDPMarketUpdate 0 cycle1).
Definition recovered : MarketDataConsumer :=
  match deliver lossy tiny_consumer with Ok c => c | Err _ => tiny_consumer end.

(** The next message of the cycle arrives. *)
Ltac next_snapshot :=
  split;
  [ exists 1%nat; split;
    [ apply session_cycle; lia
    | split; [ split; [done|reflexivity]
             | intros _; right; repeat (apply Forall_cons; split; [split; [done|reflexivity]|]);
               apply Forall_nil; exact I ] ]
  | intros ? Heq; vm_compute in Heq; injection Heq as <- ].

Lemma lossy_may : may_deliver session 8 no_orders lossy tiny_consumer.
Proof.
  let l := eval vm_compute in lossy in change lossy with l.
  split; [split; [done|reflexivity]|intros ? Heq; vm_compute in Heq; injection Heq as <-].
  do 5 next_snapshot. exact I.
Qed.

Lemma tiny_inv : mdc_inv session 8 no_orders tiny_consumer no_orders.
Proof.
  split; [done|by apply Forall_nil|done|]. intros _. exists 0%nat. split_and!; [lia|done|done].
Qed.

Lemma consumer_consistent_witness :
  ∃ evs k, incoming_md_updates_ recovered = push_all evs (incoming_md_updates_ tiny_consumer) ∧
    next_exp_inc_seq_num_ recovered = Z.of_nat k + 1 ∧
    apply_mds evs no_orders = apply_mds (take k session) no_orders.
Proof.
  apply (consumer_consistent session 8 no_orders lossy tiny_consumer no_orders recovered);
    [apply session_stream|apply session_cycle; lia|apply tiny_inv|apply lossy_may|vm_compute; reflexivity
    |vm_compute; reflexivity].
Defined.

(** All later updates are queued, and the cycle but for its last message. *)
Definition recovering : MarketDataConsumer :=
  match deliver ((pair false <$> numbered mkMDPMarketUpdate 2 (drop 1 session)) ++
                 (pair true <$> numbered mkMDPMarketUpdate 0 (take (length cycle1 - 1) cycle1))) tiny_consumer with
  | Ok c => c
  | Err _ => tiny_consumer
  end.

Lemma recovering_queues :
  in_recovery_ recovering = true ∧ snapshot_queued_msgs_ recovering = enum 0 (take (length cycle1 - 1) cycle1) ∧
  incremental_queued_msgs_ recovering = enum (Z.of_nat 1 + 1) (drop 1 session).
Proof. vm_compute. done. Qed.

Lemma recovery_completes_witness :
  let cyc := cycle_of session 8 no_orders 1 in
  ∃ c', on_message true (mkMDPMarketUpdate (Z.of_nat (length cyc) - 1)
             (mark_update MarketUpdateType_SNAPSHOT_END (Z.of_nat 1))) recovering = Ok c' ∧
    in_recovery_ c' = false ∧ next_exp_inc_seq_num_ c' = Z.of_nat (length session) + 1 ∧
    ∃ evs, incoming_md_updates_ c' = push_all evs (incoming_md_updates_ recovering) ∧
      ∀ w, length w = length no_orders → apply_mds evs w = apply_mds session no_orders.
Proof.
  apply (recovery_completes session 8 no_orders recovering 1 1);
    [apply session_stream|apply session_cycle; lia|done|apply recovering_queues..].
Defined.

(** ** The trading side's book *)
Definition tiny_market_book : MarketOrderBook := MarketOrderBook_new 0.

Lemma add1_ok : md_ok add1 empty_market_book.
Proof.
  split; [by right|]. split; [unfold is_u32; cbn; lia|]. split; [by apply not_elem_of_nil|]. decide_rest.
Qed.

Lemma market_book_follows_witness :
  ∃ b', onMarketUpdate add1 tiny_market_book = Ok (BookUpdate 0 100 Side_SELL, b') ∧
    implements (matching b') (spec_md add1 empty_market_book) ∧
    bbo_ b' = quote (spec_md add1 empty_market_book) ∧
    market_book (spec_md add1 empty_market_book) ∧
    book_map (spec_md add1 empty_market_book) = apply_update add1 (book_map empty_market_book).
Proof.
  destruct (market_new_implements 0) as (Himp & Hbbo & Hmk); [reflexivity..|].
  apply (market_book_follows tiny_market_book empty_market_book add1 Himp Hbbo Hmk add1_ok). reflexivity.
Defined.

Lemma books_share_code_witness :
  addOrder (Some 0%nat) (matching tiny_market_book, tt)
    = result_map (λ x, (x.1, (matching x.2, tt))) (mb_addOrder (Some 0%nat) tiny_market_book) ∧
  removeOrder (Some 0%nat) (matching tiny_market_book, tt)
    = result_map (λ x, (x.1, (matching x.2, tt))) (mb_removeOrder (Some 0%nat) tiny_market_book).
Proof. apply (books_share_code (Some 0%nat) tiny_market_book). reflexivity. Defined.

(** ** What CLEAR leaves behind *)

(** The orders and levels go, the table of levels by price keeps pointing to the freed level: the
    next order at that price is linked into it, and its side of the book stays empty. *)
Definition clear0 : MEMarketUpdate := clear_update 0.
Definition add1_again : MEMarketUpdate := mkMEMarketUpdate MarketUpdateType_ADD 3 0 Side_SELL 100 7 1.

(** A CLEAR does not reset the table of levels by price, nor the best bid and offer: after an
    ask at 100, a CLEAR and another ask at 100 the book has no ask level, although the order is
    live. *)
Theorem clear_leaves_levels :
  match (onMarketUpdate add1;; onMarketUpdate clear0) tiny_market_book with
  | Ok (_, b) =>
      mb_asks_by_price_ b = None ∧ is_Some (mb_price_orders_at_price_ b !! mb_priceToIndex 100) ∧
      bbo_ b = mkBBO Price_INVALID 100 Qty_INVALID 10 ∧
      match onMarketUpdate add1_again b with
      | Ok (_, b) => mb_asks_by_price_ b = None ∧ is_Some (oid_to_order_ b !! 3)
      | Err _ => False
      end
  | Err _ => False
  end.
Proof. vm_compute. split_and!; try done; by eexists. Qed.
