(* ===== verification/ExamplesTrading.v ===== *)
(** * Concrete runs of the trading engine and of the unordered order book *)
From S2P Require Import Prelude Types MemPool LFQueue EngineSink BookSpec MEOrderBook BookRep.
From S2P Require Import BookInv BookReplay BookRefine BookTheorems BookGuarantees MatchingEngine.
From S2P Require Import MarketOrderBook MarketBookSim MarketBookSpec MarketBookTheorems Double.
From S2P Require Import PositionKeeper RiskManager OrderManager FeatureEngine Algorithms.
From S2P Require Import TradeEngine OrderSafety TradingSafety TradingLoop UnorderedBook.
From S2P Require Import UnorderedSim UnorderedTheorems Examples.
#[local] Existing Instance tiny_limits.

(** ** Positions *)
Definition flat_position : PositionInfo := PositionInfo_new (replicate 4 dzero).

Definition fill (side : Side) (price exec leaves : Z) : MEClientResponse :=
  mkMEClientResponse ClientResponseType_FILLED 1 0 1 7 side price exec leaves.

Definition day : list MEClientResponse := [fill Side_BUY 100 10 0; fill Side_SELL 102 4 6; fill Side_SELL 103 6 0].

Definition day_end : PositionInfo := match addFills day flat_position with Ok p => p | Err _ => flat_position end.

Lemma position_is_sum_witness :
  position_ day_end = i32 (0 + total_value day) ∧ volume_ day_end = u32 (0 + total_exec day) ∧
  (day ≠ [] → total_pnl_ day_end = dadd (unreal_pnl_ day_end) (real_pnl_ day_end) ∧
     (position_ day_end = 0 → unreal_pnl_ day_end = dzero ∧
        ∀ s x, trading_side s → open_vwap_ day_end !! side_index s = Some x → x = dzero)).
Proof.
  apply (position_is_sum day flat_position day_end); [vm_compute; reflexivity|cbn; lia|unfold is_u32; cbn; lia].
Defined.

Definition long_position : PositionInfo :=
  mkPositionInfo 100000 dzero dzero dzero (replicate 4 dzero) 100000 None.

Lemma addFill_overflow_witness : addFill (fill Side_SELL 100 1 0) long_position = Err SignedOverflow.
Proof. apply addFill_overflow; try reflexivity; cbn; lia. Defined.

(** ** Risk *)
Definition tiny_cfg : TradeEngineCfg := mkTradeEngineCfg 5 dhalf (mkRiskCfg 10 10 (of_int (-100))).

Lemma tiny_limits_ok : limits_ok (risk_cfg_ tiny_cfg).
Proof. unfold limits_ok, cfg_ok. cbn. lia. Qed.

Lemma risk_check_exact_witness :
  checkPreTradeRisk [risk_cfg_ tiny_cfg] [flat_position] 0 Side_BUY 11 = Ok RiskCheckResult_ORDER_TOO_LARGE ∧
  checkPreTradeRisk [risk_cfg_ tiny_cfg] [flat_position] 0 Side_BUY 5 = Ok RiskCheckResult_ALLOWED.
Proof.
  split.
  - apply (risk_check_exact [risk_cfg_ tiny_cfg] [flat_position] 0 (risk_cfg_ tiny_cfg) flat_position Side_BUY 11);
      [reflexivity|reflexivity|apply tiny_limits_ok|cbn; lia|lia|by left].
  - apply (risk_check_exact [risk_cfg_ tiny_cfg] [flat_position] 0 (risk_cfg_ tiny_cfg) flat_position Side_BUY 5);
      [reflexivity|reflexivity|apply tiny_limits_ok|cbn; lia|lia|by left].
Defined.

(** ** The market maker *)
Definition tiny_bbo : BBO := mkBBO 99 101 3 5.
Definition cautious_cfg : TradeEngineCfg := mkTradeEngineCfg 5 (of_int 1) (mkRiskCfg 10 10 (of_int (-100))).

(** The fair price of the book: 99.75. *)
Definition tiny_features : FeatureEngine :=
  match fe_onOrderBookUpdate tiny_bbo FeatureEngine_new with Ok fe => fe | Err _ => FeatureEngine_new end.

(** It is less than a tick above the best bid and more than a tick below the best offer. *)
Lemma maker_quotes_witness :
  let risk := checkPreTradeRisk [risk_cfg_ cautious_cfg] [flat_position] in
  let q := LFQueue_new 8 MEClientRequest_default in
  ∃ m', mm_onOrderBookUpdate 1 risk [cautious_cfg] tiny_features 0 tiny_bbo (OrderManager_new, q) =
    Ok (tt, (m', push (mkMEClientRequest ClientRequestType_NEW 1 0 2 Side_SELL 101 5)
                   (push (mkMEClientRequest ClientRequestType_NEW 1 0 1 Side_BUY 98 5) q))) ∧
    om_lookup (0%nat, side_index Side_BUY) m' = Some (mkOMOrder 0 1 Side_BUY 98 5 OMOrderState_PENDING_NEW) ∧
    om_lookup (0%nat, side_index Side_SELL) m' = Some (mkOMOrder 0 2 Side_SELL 101 5 OMOrderState_PENDING_NEW).
Proof.
  intros risk q. destruct (maker_quotes 1 risk [cautious_cfg] tiny_features 0 tiny_bbo cautious_cfg 399 2 1 0 OrderManager_new q)
    as (_ & _ & Hsent); [reflexivity|reflexivity|by vm_compute|by vm_compute|lia|lia|cbn; lia..|].
  apply Hsent; [by eexists; split; [reflexivity|left]..|by vm_compute|by vm_compute].
Defined.

(** ** The engine: a market maker that quotes, is accepted and trades *)
Definition maker : TradeEngine :=
  TradeEngine_new 1 AlgoType_MAKER [tiny_cfg; tiny_cfg] (LFQueue_new 8 MEClientRequest_default)
    (LFQueue_new 8 MEClientResponse_default) (LFQueue_new 8 MEMarketUpdate_default) (λ _, replicate 4 dzero).

Definition bid_update : MEMarketUpdate := mkMEMarketUpdate MarketUpdateType_ADD 1 0 Side_BUY 99 3 1.
Definition ask_update : MEMarketUpdate := mkMEMarketUpdate MarketUpdateType_ADD 2 0 Side_SELL 101 4 1.
Definition trade_update : MEMarketUpdate := mkMEMarketUpdate MarketUpdateType_TRADE 0 0 Side_SELL 99 2 0.
Definition accepted : MEClientResponse :=
  mkMEClientResponse ClientResponseType_ACCEPTED 1 0 1 7 Side_BUY 99 0 5.

Definition maker_events : list te_event :=
  [Update 10 bid_update; Update 20 ask_update; Answer accepted; Answer (fill Side_BUY 99 2 3); Update 30 trade_update].

Definition after (ev : te_event) (e : TradeEngine) : TradeEngine :=
  match te_handle ev e with Ok (_, e') => e' | Err _ => e end.

Lemma session_ok_cons ev evs e bks :
  event_ok ev e bks → session_ok evs (after ev e) (books_after ev bks) → session_ok (ev :: evs) e bks.
Proof. intros He Hr. split; [done|]. intros e' E. unfold after in Hr. by rewrite E in Hr. Qed.

Lemma configured_tiny : configured [tiny_cfg; tiny_cfg] (λ _, replicate 4 dzero).
Proof.
  split_and!; [reflexivity| |done]. rewrite !Forall_cons. split_and!; [|cbn; lia| |cbn; lia|by constructor];
    apply tiny_limits_ok.
Qed.

Ltac solve_quote :=
  unfold quote_small, is_u32; split_and!;
  first [ by vm_compute | by (intros _; vm_compute) | let Hne := fresh in intros Hne; by destruct Hne ].

Lemma quotes_ok bks e :
  bks = empty_books → event_ok (Update 10 bid_update) e bks ∧
  event_ok (Update 20 ask_update) e (books_after (Update 10 bid_update) bks).
Proof.
  intros ->. split.
  - eexists. split; [reflexivity|]. split; [|solve_quote].
    split_and!; [by left|unfold is_u32; cbn; lia|by intros Hin%not_elem_of_nil|decide_rest].
  - eexists. split; [reflexivity|]. split; [|solve_quote].
    split_and!; [by right|unfold is_u32; cbn; lia| |decide_rest].
    intros [?|Hin%not_elem_of_nil]%elem_of_cons; done.
Qed.

Lemma maker_session : session_ok maker_events maker empty_books.
Proof.
  destruct (quotes_ok _ maker eq_refl) as [H1 _].
  destruct (quotes_ok _ (after (Update 10 bid_update) maker) eq_refl) as [_ H2].
  apply session_ok_cons; [exact H1|]. apply session_ok_cons; [exact H2|].
  apply session_ok_cons; [eexists; split; [vm_compute; reflexivity|by split; [left|]]|].
  apply session_ok_cons.
  { eexists; split; [vm_compute; reflexivity|]. cbn. split_and!; [by left|by left|lia..]. }
  apply session_ok_cons; [|done]. eexists. split; [reflexivity|]. split; [done|solve_quote].
Qed.

Lemma position_limits_kept_witness :
  ∃ e', te_handles maker_events maker = Ok (tt, e') ∧ exposures_kept e'.
Proof.
  apply (position_limits_kept 1 AlgoType_MAKER [tiny_cfg; tiny_cfg] (LFQueue_new 8 MEClientRequest_default)
    (LFQueue_new 8 MEClientResponse_default) (LFQueue_new 8 MEMarketUpdate_default) (λ _, replicate 4 dzero)
    maker_events); [by left|apply configured_tiny|done|done|done|apply maker_session].
Defined.

(** The run is not idle: it quoted on both sides and bought. *)
Example maker_trades :
  match te_handles maker_events maker with
  | Ok (_, e') => q_size (outgoing_ogw_requests_ e') = 2%nat ∧ (position_ <$> position_keeper_ e') = [2; 0]
  | Err _ => False
  end.
Proof. by vm_compute. Qed.

(** ** A round of the loop *)
Definition rejected : MEClientResponse :=
  mkMEClientResponse ClientResponseType_CANCEL_REJECTED 1 0 9 OrderId_INVALID Side_INVALID Price_INVALID Qty_INVALID
    Qty_INVALID.

Definition maker_ready : TradeEngine :=
  te_set_run true (te_set_responses (push_all [rejected] (LFQueue_new 8 MEClientResponse_default))
    (te_set_updates (push_all [bid_update; ask_update] (LFQueue_new 8 MEMarketUpdate_default)) maker)).

Definition ready_events : list te_event := [Answer rejected; Update 1 bid_update; Update 0 ask_update].

Lemma maker_ready_safe : engine_safe maker_ready empty_books.
Proof.
  apply safe_set_run, safe_set_responses, safe_set_updates.
  apply new_engine_safe; [by left|apply configured_tiny|done|done].
Qed.

Lemma ready_session : session_ok ready_events maker_ready empty_books.
Proof.
  apply session_ok_cons; [eexists; split; [vm_compute; reflexivity|done]|].
  destruct (quotes_ok _ (after (Answer rejected) maker_ready) eq_refl) as [H1 _].
  destruct (quotes_ok _ (after (Update 1 bid_update) (after (Answer rejected) maker_ready)) eq_refl) as [_ H2].
  apply session_ok_cons; [exact H1|]. by apply session_ok_cons; [exact H2|].
Qed.

Lemma engine_round_witness :
  ∃ e' e2, te_run_round Z.of_nat Z.of_nat maker_ready = Ok (tt, e') ∧ te_handles ready_events maker_ready = Ok (tt, e2) ∧
    same_core e2 e' ∧ engine_safe e' (books_end ready_events empty_books) ∧ exposures_kept e' ∧
    holds (incoming_ogw_responses_ e') [] ∧ holds (incoming_md_updates_ e') [].
Proof.
  apply (engine_round Z.of_nat Z.of_nat maker_ready empty_books [rejected] [bid_update; ask_update]);
    [apply maker_ready_safe|done|done| | |apply ready_session].
  - apply (holds_push_all (LFQueue_new 8 MEClientResponse_default) [] [rejected]);
      [apply holds_new; lia|apply Nat.leb_le; reflexivity].
  - apply (holds_push_all (LFQueue_new 8 MEMarketUpdate_default) [] [bid_update; ask_update]);
      [apply holds_new; lia|apply Nat.leb_le; reflexivity].
Defined.

(** ** The unordered book *)
Definition um_new : UnorderedMapMEOrderBook := UnorderedMapMEOrderBook_new 0.

(** Client 0 rests an ask, client 1 takes some of it, client 0 cancels the rest. *)
Definition um_session : list MEClientRequest :=
  [ mkMEClientRequest ClientRequestType_NEW 0 0 1 Side_SELL 100 10;
    mkMEClientRequest ClientRequestType_NEW 1 0 1 Side_BUY 100 4;
    mkMEClientRequest ClientRequestType_CANCEL 0 0 1 Side_INVALID 0 0 ].

Definition um_after (r : MEClientRequest) (x : UnorderedMapMEOrderBook * list event) :
    UnorderedMapMEOrderBook * list event :=
  match um_request r x with Ok (_, x') => x' | Err _ => x end.

Lemma reaches_all_cons r rs x bk :
  admissible r bk → reaches r x.1 bk →
  reaches_all rs (um_after r x).1 (um_after r x).2 (spec_request r bk).1 → reaches_all (r :: rs) x.1 x.2 bk.
Proof.
  intros Ha Hr Hn. split_and!; [done|done|]. intros u' e' E. unfold um_after in Hn. destruct x. cbn [fst snd] in *.
  by rewrite E in Hn.
Qed.

Lemma um_session_reaches : reaches_all um_session um_new ([] : list event) empty_book.
Proof.
  apply (reaches_all_cons _ _ (um_new, [])); [split_and!; [by right|unfold is_u32; cbn; lia|done|decide_rest]|done|].
  apply reaches_all_cons; [split_and!; [by left|unfold is_u32; cbn; lia|done|decide_rest]|done|].
  apply reaches_all_cons; [done|intros _; left; vm_compute; reflexivity|done].
Qed.

Lemma unordered_book_refines_witness :
  ∃ u', um_requests um_session (um_new, []) = Ok (tt, (u', emit (spec_requests um_session empty_book).2 [])) ∧
        implements (arrays u') (spec_requests um_session empty_book).1.
Proof.
  apply (unordered_book_refines um_session um_new [] empty_book);
    [by apply um_new_implements|apply um_session_reaches].
Defined.

(** A client with id 1 alone in the book. *)
Definition um_lonely : UnorderedMapMEOrderBook :=
  match um_add (E := list event) 1 1 0 Side_SELL 100 10 (um_new, []) with Ok (_, (u, _)) => u | Err _ => um_new end.

Lemma um_lonely_implements : implements (arrays um_lonely) tiny_spec.
Proof.
  destruct (um_request_refines (mkMEClientRequest ClientRequestType_NEW 1 0 1 Side_SELL 100 10) um_new
    ([] : list event) empty_book) as (u' & Hu & Himp).
  - by apply um_new_implements.
  - split_and!; [by right|unfold is_u32; cbn; lia|done|decide_rest].
  - done.
  - unfold um_lonely. unfold um_request in Hu. cbn [req_type_ req_client_id_ req_order_id_ req_ticker_id_ req_side_
      req_price_ req_qty_] in Hu. rewrite Hu. exact Himp.
Qed.

Definition lonely_order : Order := mkOrder 0 1 1 1 Side_SELL 100 10 1.

Lemma unordered_cancel_rejects_witness :
  um_cancel 1 1 0 (um_lonely, []) = Ok (tt, (um_lonely, sendClientResponse
    (mkMEClientResponse ClientResponseType_CANCEL_REJECTED 1 0 1 OrderId_INVALID Side_INVALID Price_INVALID
       Qty_INVALID Qty_INVALID) [])) ∧
  ∃ b', cancel 1 1 0 (arrays um_lonely, []) = Ok (tt, (b', sendClientResponse
    (mkMEClientResponse ClientResponseType_CANCELED 1 0 1 1 Side_SELL 100 Qty_INVALID 10)
    (sendMarketUpdate (mkMEMarketUpdate MarketUpdateType_CANCEL 1 0 Side_SELL 100 0 1) []))).
Proof.
  apply (unordered_cancel_rejects um_lonely [] tiny_spec 1 1 0 lonely_order);
    [apply um_lonely_implements|vm_compute; reflexivity|done|by vm_compute].
Defined.
