(* ===== verification/ExamplesMirror.v ===== *)
(** * The trading side next to its exchange, on small configurations

    The market data of an engine's run, and a run of the closed loop in which the client knows the
    market only from the exchange. *)
From S2P Require Import Prelude Types MemPool LFQueue EngineSink BookSpec MEOrderBook BookRep BookInv.
From S2P Require Import BookReplay BookRefine BookTheorems MatchingEngine ClientRequests ClientLink.
From S2P Require Import MarketOrderBook MarketBookSim MarketBookSpec MarketBookTheorems MarketMirror TradingMirror.
From S2P Require Import Double PositionKeeper RiskManager OrderManager FeatureEngine Algorithms TradeEngine OrderSafety.
From S2P Require Import TradingSafety TradingLoop OrderTraffic ClosedLoop ClosedMarket Wire BookTypes Socket RecvFrames MarketStream SnapshotSynthesizer MarketDataPublisher.
From S2P Require Import MarketDataConsumer MarketPipeline OrderServer OrderGateway OrderPath Examples ExamplesSession ExamplesTrading.
#[local] Existing Instances tiny_limits tiny_sort tiny_sort_spec.

(** ** The engine's run *)
Lemma trading_book_mirrors_witness :
  ∃ m' us' be bk', run 3 tiny_engine = Ok (tt, m') ∧
    holds (outgoing_md_updates_ (outgoing_ m')) ([] ++ us') ∧
    ticker_order_book_ m' !! 0%nat = Some be ∧ implements be bk' ∧ wf_book bk' ∧
    (next_id bk' ≤ ME_MAX_ORDER_IDS →
     ∃ b', onMarketUpdates (of_book 0 us') (MarketOrderBook_new 0) = Ok (tt, b') ∧
       implements (matching b') (mirror bk') ∧ bbo_ b' = quote bk').
Proof.
  destruct (market_new_implements 0) as (Himp & Hbbo & _); [reflexivity..|].
  apply (trading_book_mirrors tiny_requests tiny_engine tiny_books [] [] 0 empty_book (MarketOrderBook_new 0));
    [apply tiny_engine_ok|reflexivity|apply tiny_admissible|apply tiny_books_wf|repeat constructor; done
    |reflexivity|reflexivity|exact Himp|exact Hbbo].
Defined.

Lemma engine_typed_witness :
  ∃ m' rs' us' bks', run 3 tiny_engine = Ok (tt, m') ∧ Forall2 implements (ticker_order_book_ m') bks' ∧
    Forall book_typed bks' ∧
    holds (outgoing_ogw_responses_ (outgoing_ m')) ([] ++ rs') ∧ holds (outgoing_md_updates_ (outgoing_ m')) ([] ++ us') ∧
    Forall in_range rs' ∧ Forall in_range us' ∧
    (∀ chunks, concat chunks = stream rs' → receive [] chunks = (rs', [])) ∧
    (∀ chunks, concat chunks = stream us' → receive [] chunks = (us', [])).
Proof.
  apply (engine_typed tiny_requests tiny_engine tiny_books [] []);
    [apply tiny_engine_ok|reflexivity|apply tiny_admissible| |repeat constructor; done].
  repeat constructor; done.
Defined.

(** ** A round of all threads: the ask, the bid and the cancel of the engine's run go through to a market maker *)
#[local] Instance small_buffers : BufferSizes := {| TCPBufferSize := 400; McastBufferSize := 500 |}.

Definition tiny_pipeline : Pipeline :=
  mkPipeline (me_set_requests (LFQueue_new 8 MEClientRequest_default) tiny_engine)
    (mkMarketDataPublisher 1 (LFQueue_new 16 MEMarketUpdate_default) (LFQueue_new 16 MDPMarketUpdate_default) true
       (mkMcastSocket 5 [] []))
    (mkMarketDataConsumer 1 (LFQueue_new 16 MEMarketUpdate_default) true (mkMcastSocket 7 [] []) (mkMcastSocket (-1) [] [])
       false [] [] [])
    (te_set_run true (TradeEngine_new 1 AlgoType_MAKER [tiny_cfg; tiny_cfg] (LFQueue_new 8 MEClientRequest_default)
       (LFQueue_new 8 MEClientResponse_default) (LFQueue_new 8 MEMarketUpdate_default) (λ _, replicate 4 dzero))).

Lemma tiny_pipeline_in_step : in_step tiny_pipeline tiny_books [].
Proof.
  assert (engine_safe (pl_trader tiny_pipeline) (mirror <$> tiny_books)) as Hs.
  { apply safe_set_run. change (mirror <$> tiny_books) with empty_books.
    apply (new_engine_safe 1 AlgoType_MAKER); [by left|apply configured_tiny|done|done]. }
  assert (∀ A (d : A) n, (0 < n)%nat → holds (LFQueue_new n d) []) as Hq by (intros; by apply holds_new).
  constructor; cbn [tiny_pipeline pl_engine pl_publisher pl_consumer pl_trader].
  - split; [apply tiny_engine_ok|]. split; [apply Hq; lia|]. split; [apply Hq; lia|]. split; [apply Hq; lia|]. cbn. lia.
  - done.
  - split; [apply tiny_books_wf|]. split; [repeat constructor; done|].
    repeat constructor; intros p Hp; by apply not_elem_of_nil in Hp.
  - constructor; [done|done|done|exists []; apply Hq; lia|by constructor].
  - split; [exact Hs|]. split; apply Hq; lia.
Qed.

Lemma tiny_round_input : round_input tiny_requests tiny_books.
Proof.
  split; [apply tiny_admissible|]. split; [repeat constructor; done|]. split; [repeat constructor; done|].
  repeat constructor; by vm_compute.
Qed.

Lemma market_data_round_witness :
  ∃ P', pipeline_round tiny_requests 7 (λ _, 8) (λ _, 9) tiny_pipeline = Ok P' ∧
    next_inc_seq_num_ (pl_publisher P') = 5 ∧ exposures_kept (pl_trader P') ∧
    Forall2 (λ b bk, implements (matching b) (mirror bk) ∧ bbo_ b = quote bk) (te_ticker_order_book_ (pl_trader P'))
      (spec_steps tiny_requests tiny_books).1.
Proof.
  destruct (market_data_round tiny_requests 7 (λ _, 8) (λ _, 9) tiny_pipeline tiny_books [])
    as (P' & Hr & _ & Hn & He & Hb);
    [apply tiny_pipeline_in_step|apply tiny_round_input|repeat split; apply Nat.leb_le; reflexivity|done|].
  exists P'. split; [exact Hr|]. split; [rewrite Hn; reflexivity|]. split; [exact He|exact Hb].
Defined.

(** ** The way of an order: an ask, a bid that trades with it and a cancel of the rest, byte by byte *)
Definition bytewise : network := imap (λ i b, ([b], Z.of_nat i)).

Lemma bytewise_ok A `{Wire A} : (wire_size (A := A) < 400)%nat → network_ok A bytewise.
Proof.
  intros Hsz bs. unfold bytewise. split.
  - generalize Z.of_nat as f. induction bs as [|b bs IH]; intros f; [done|]. cbn. f_equal. apply IH.
  - apply Forall_forall. intros x (i & b & -> & _)%elem_of_lookup_imap. split; cbn; lia.
Qed.

Definition path_requests : list MEClientRequest :=
  [ mkMEClientRequest ClientRequestType_NEW 1 0 1 Side_SELL 100 10;
    mkMEClientRequest ClientRequestType_NEW 1 0 2 Side_BUY 100 4;
    mkMEClientRequest ClientRequestType_CANCEL 1 0 1 Side_INVALID 0 0 ].

Definition tiny_path : OrderPath :=
  mkOrderPath (mkOrderGateway 1 (push_all path_requests (LFQueue_new 8 MEClientRequest_default))
                 (LFQueue_new 8 MEClientResponse_default) true 1 1)
    tiny_socket
    (mkOrderServer (LFQueue_new 16 MEClientResponse_default) true [1; 1; 1] [1; 1; 1] [None; None; None]
       (mkFIFOSequencer (LFQueue_new 8 MEClientRequest_default) []))
    {[0%nat := tiny_socket]} tiny_engine.

Lemma path_sequenced :
  sequenced (bytewise (stream (numbered mkOMClientRequest (next_outgoing_seq_num_ (op_gateway tiny_path)) path_requests))) path_requests
  = path_requests.
Proof. by vm_compute. Qed.

Lemma path_admissible : admissible_steps path_requests tiny_books.
Proof.
  split; [eexists; split; [reflexivity|]|split; [eexists; split; [reflexivity|]|
    split; [eexists; split; [reflexivity|]|exact I]]].
  - split; [by right|]. split; [unfold is_u32; cbn; lia|]. split; [done|]. cbn. decide_rest.
  - split; [by left|]. split; [unfold is_u32; cbn; lia|]. split; [done|]. decide_rest.
  - intros _. reflexivity.
Qed.

Lemma tiny_path_ok : path_ok 1 0 tiny_books [] path_requests [] [] tiny_path.
Proof.
  assert (∀ A (d : A) n, (0 < n)%nat → holds (LFQueue_new n d) []) as Hq by (intros; by apply holds_new).
  constructor; cbn [tiny_path op_gateway op_link op_server op_sockets op_engine].
  - done.
  - by constructor.
  - apply (holds_push_all _ []); [apply Hq; lia|apply Nat.leb_le; reflexivity].
  - apply Hq. lia.
  - exists tiny_socket. split; [done|by constructor].
  - split; [by left|]. by intros [|[|[|d]]].
  - done.
  - done.
  - done.
  - done.
  - apply Hq. lia.
  - apply Hq. lia.
  - split; [apply tiny_engine_ok|repeat constructor; done].
  - done.
  - apply Hq. lia.
Qed.

Lemma path_room_ok : path_room 1 0 [] path_requests [] [] (spec_steps path_requests tiny_books) tiny_path.
Proof.
  unfold path_room. cbv zeta. split_and!; [by vm_compute; lia|apply Nat.leb_le; reflexivity..|].
  split_and!.
  - apply (Forall_impl (λ r, rsp_client r = 1%nat)); [apply (bool_decide_unpack _); by vm_compute|]. intros r ->. by exists 0%nat.
  - done.
  - cbn [tiny_path op_sockets]. intros p s [<- <-]%lookup_singleton_Some _. split_and!; [by vm_compute; lia|done|apply Nat.leb_le; by vm_compute].
Qed.

Lemma order_path_witness :
  path_requests ≡ₚ path_requests ∧
  ∃ P', order_round 0 bytewise bytewise tiny_path = Ok P' ∧
    path_ok 1 0 (spec_steps path_requests tiny_books).1 [] [] (sent_to 1 (spec_steps path_requests tiny_books).2)
      (updates (spec_steps path_requests tiny_books).2) P'.
Proof.
  pose proof (order_path 1 0 bytewise bytewise tiny_books [] path_requests [] [] tiny_path tiny_path_ok
    (bytewise_ok OMClientRequest ltac:(apply Nat.ltb_lt; reflexivity)) (bytewise_ok OMClientResponse ltac:(apply Nat.ltb_lt; reflexivity))
    ltac:(apply Nat.leb_le; reflexivity) ltac:(apply Nat.leb_le; reflexivity)) as Hp.
  cbv zeta in Hp. rewrite path_sequenced in Hp. apply Hp; [by repeat constructor|repeat constructor; done|constructor|apply path_admissible|apply path_room_ok].
Defined.

(** Two are accepted, both sides of the trade are filled, and the rest is canceled. *)
Example path_answers :
  rsp_type_ <$> sent_to 1 (spec_steps path_requests tiny_books).2
  = [ClientResponseType_ACCEPTED; ClientResponseType_ACCEPTED; ClientResponseType_FILLED; ClientResponseType_FILLED;
     ClientResponseType_CANCELED].
Proof. by vm_compute. Qed.

(** ** Steps of the closed loop as functions *)
Inductive move := MUpdate (now : Z) | MAnswer | MGateway | MExchange | MOthers (req : MEClientRequest).

Definition fresh_b (client coid : Z) (bk : Book) : bool :=
  forallb (λ o, negb ((s_client o =? client) && (s_coid o =? coid))) (book_orders bk).
Definition side_b (s : Side) : bool := bool_decide (s = Side_BUY) || bool_decide (s = Side_SELL).
Definition new_b (req : MEClientRequest) (bk : Book) : bool :=
  side_b (req_side_ req) && (0 <=? req_qty_ req) && (req_qty_ req <? 2 ^ 32) && (Z.abs (req_price_ req) <? 2 ^ 30)
  && (next_id bk <? ME_MAX_ORDER_IDS)
  && forallb (λ q, negb (priceToIndex q =? priceToIndex (req_price_ req)) || (q =? req_price_ req)) (prices bk)
  && (S (length (book_orders bk)) <? Z.to_nat ME_MAX_ORDER_IDS)%nat
  && (S (length (prices bk)) <? Z.to_nat ME_MAX_PRICE_LEVELS)%nat.

Definition request_b (req : MEClientRequest) (bks : list Book) : bool :=
  match bks !! Z.to_nat (req_ticker_id_ req) with
  | Some bk => negb (bool_decide (req_type_ req = ClientRequestType_NEW)) || new_b req bk
  | None => false
  end.
Definition others_b (c : Z) (req : MEClientRequest) (bks : list Book) : bool :=
  match bks !! Z.to_nat (req_ticker_id_ req) with
  | Some bk => (0 <=? req_ticker_id_ req) && negb (req_client_id_ req =? c) && bool_decide (req_type_ req = ClientRequestType_NEW)
               && new_b req bk && fresh_b (req_client_id_ req) (req_order_id_ req) bk
  | None => false
  end.

Lemma side_b_ok s : side_b s = true → trading_side s.
Proof. intros [?%bool_decide_eq_true_1|?%bool_decide_eq_true_1]%orb_prop; [by left|by right]. Qed.

Lemma new_b_ok req bk : new_b req bk = true →
  trading_side (req_side_ req) ∧ is_u32 (req_qty_ req) ∧ Z.abs (req_price_ req) < 2 ^ 30 ∧ next_id bk < ME_MAX_ORDER_IDS ∧
  slot_free (req_price_ req) bk ∧ room bk.
Proof.
  unfold new_b. rewrite !andb_true_iff, !Z.ltb_lt, !Nat.ltb_lt, Z.leb_le, forallb_forall.
  intros (((((((Hs & Hq0) & Hq1) & Hp) & Hn) & Hf) & Ho) & Hpr). split_and!; try done; [by apply side_b_ok|].
  intros q Hq Hi. specialize (Hf q). rewrite <- list_elem_of_In in Hf. specialize (Hf Hq).
  apply orb_prop in Hf as [Hf|Hf%Z.eqb_eq]; [|done]. apply negb_true_iff, Z.eqb_neq in Hf. done.
Qed.

Lemma request_b_ok req bks : request_b req bks = true → market_request req bks.
Proof.
  unfold request_b. destruct (bks !! _) as [bk|] eqn:Hbk; [|done]. intros Hb. split.
  - intros E. rewrite E in Hb. cbn in Hb. by apply new_b_ok in Hb as (_ & _ & ? & _).
  - exists bk. split; [done|]. split; [done|]. intros E. rewrite E in Hb. cbn in Hb.
    apply new_b_ok in Hb as (? & ? & _ & ? & ? & ?). done.
Qed.

Lemma others_b_ok c req bks : others_b c req bks = true → other_request c req bks ∧ market_request req bks.
Proof.
  unfold others_b. destruct (bks !! _) as [bk|] eqn:Hbk; [|done].
  rewrite !andb_true_iff, Z.leb_le, negb_true_iff, Z.eqb_neq, bool_decide_eq_true. intros ((((Ht & Hc) & Hty) & Hb) & Hf).
  split; [|apply request_b_ok; unfold request_b; rewrite Hbk, Hty; exact Hb].
  apply new_b_ok in Hb as (Hs & Hq & Hp & Hn & _). exists bk. split_and!; [done|done|done|]. rewrite Hty.
  split_and!; [done|done|lia| |cbn in Hn; lia]. intros o Ho [Hk1 Hk2]. unfold fresh_b in Hf. rewrite forallb_forall in Hf.
  apply list_elem_of_In in Ho. specialize (Hf o Ho). rewrite Hk1, Hk2, !Z.eqb_refl in Hf. done.
Qed.

Definition make_move (mv : move) (V : MarketWorld) : option MarketWorld :=
  let W := mw_world V in
  match mv with
  | MUpdate now =>
      match mw_updates V with
      | u :: us =>
          if next_order_id_ (order_manager_ (w_engine W)) + 2 <? 2 ^ 64 then
            match te_handle (Update now u) (w_engine W) with
            | Ok (_, e') => Some (mkMarketWorld (mkWorld e' (books_after (Update now u) (w_market W)) (w_requests W)
                (w_answers W) (w_exchange W)) us)
            | Err _ => None
            end
          else None
      | [] => None
      end
  | MAnswer =>
      match w_answers W with
      | r :: rs =>
          match te_handle (Answer r) (w_engine W) with
          | Ok (_, e') => Some (mkMarketWorld (mkWorld e' (w_market W) (w_requests W) rs (w_exchange W)) (mw_updates V))
          | Err _ => None
          end
      | [] => None
      end
  | MGateway =>
      match pop (outgoing_ogw_requests_ (w_engine W)) with
      | Ok (Some (req, q)) =>
          Some (mkMarketWorld (mkWorld (te_set_orders (order_manager_ (w_engine W), q) (w_engine W)) (w_market W)
            (w_requests W ++ [req]) (w_answers W) (w_exchange W)) (mw_updates V))
      | _ => None
      end
  | MExchange =>
      match w_requests W with
      | req :: reqs =>
          if request_b req (w_exchange W) &&
             match w_exchange W !! Z.to_nat (req_ticker_id_ req) with Some bk => next_id bk <? 2 ^ 64 - 1 | None => false end
          then let y := spec_step req (w_exchange W) in
            Some (mkMarketWorld (mkWorld (w_engine W) (w_market W) reqs (w_answers W ++ sent_to 1 y.2) y.1)
                    (mw_updates V ++ updates y.2))
          else None
      | [] => None
      end
  | MOthers req =>
      if others_b 1 req (w_exchange W) then
        let y := spec_step req (w_exchange W) in
        Some (mkMarketWorld (mkWorld (w_engine W) (w_market W) (w_requests W) (w_answers W ++ sent_to 1 y.2) y.1)
                (mw_updates V ++ updates y.2))
      else None
  end.

Lemma make_move_step mv V V' : make_move mv V = Some V' → market_step 1 V V'.
Proof.
  unfold make_move. destruct mv as [now| | | |req].
  - destruct (mw_updates V) as [|u us] eqn:E; [done|]. destruct (_ <? _) eqn:Hn; [|done].
    destruct (te_handle (Update now u) (w_engine (mw_world V))) as [[[] e']|] eqn:Hh; [|done]. intros [= <-].
    apply (market_update 1 V now u us); [done| |done].
    by apply Z.ltb_lt in Hn.
  - destruct (w_answers (mw_world V)) as [|r rs] eqn:E; [done|]. destruct (te_handle (Answer r) (w_engine (mw_world V))) as [[[] e']|] eqn:Hh; [|done].
    intros [= <-]. by eapply market_answer.
  - destruct (pop _) as [[[req q]|]|] eqn:E; [|done..]. intros [= <-]. by apply market_gateway.
  - destruct (w_requests (mw_world V)) as [|req reqs] eqn:E; [done|]. destruct (request_b _ _) eqn:Hr; [|done].
    destruct (_ !! _) as [bk|] eqn:Hbk; [|done]. destruct (_ <? _) eqn:Hn; [|done]. intros [= <-]. apply Z.ltb_lt in Hn.
    apply (market_exchange 1 V req); [done|by exists bk|by apply request_b_ok].
  - destruct (others_b _ _ _) eqn:Ho; [|done]. intros [= <-]. apply others_b_ok in Ho as [? ?]. by apply (market_others 1 V req).
Qed.

Fixpoint make_moves (mvs : list move) (V : MarketWorld) : option MarketWorld :=
  match mvs with [] => Some V | mv :: mvs => V ← make_move mv V; make_moves mvs V end.

Lemma make_moves_steps mvs V V' : make_moves mvs V = Some V' → rtc (market_step 1) V V'.
Proof.
  revert V. induction mvs as [|mv mvs IH]; intros V; cbn; [by intros [= ->]|].
  destruct (make_move mv V) as [V1|] eqn:E; [|done]. cbn. intros Hm. eapply rtc_l; [by eapply make_move_step|by apply IH].
Qed.

(** ** The run *)
Definition market_begin : MarketWorld :=
  market_start 1 AlgoType_MAKER [tiny_cfg; tiny_cfg] (LFQueue_new 8 MEClientRequest_default)
    (LFQueue_new 8 MEClientResponse_default) (LFQueue_new 8 MEMarketUpdate_default) (λ _, replicate 4 dzero).

Definition new_of (client id price : Z) (s : Side) (qty : Z) : MEClientRequest :=
  mkMEClientRequest ClientRequestType_NEW client 0 id s price qty.

(** A bid and an ask of another participant, the maker's quotes, and a sale that goes through both
    bids. *)
Definition market_moves : list move :=
  [MOthers (new_of 2 1 99 Side_BUY 3); MOthers (new_of 2 2 101 Side_SELL 4); MUpdate 10; MUpdate 20;
   MGateway; MGateway; MExchange; MExchange; MOthers (new_of 3 1 98 Side_SELL 5); MAnswer; MAnswer; MAnswer]
  ++ (MUpdate <$> [30; 40; 50; 60; 70; 80]).

Definition market_end : MarketWorld := default market_begin (make_moves market_moves market_begin).

Lemma market_run : rtc (market_step 1) market_begin market_end.
Proof. apply (make_moves_steps market_moves). by vm_compute. Qed.

Lemma closed_loop_exchange_witness :
  ∃ b bk, exposures_kept (w_engine (mw_world market_end)) ∧
    te_ticker_order_book_ (w_engine (mw_world market_end)) !! 0%nat = Some b ∧
    w_exchange (mw_world market_end) !! 0%nat = Some bk ∧ length (book_orders bk) = 3%nat ∧
    implements (matching b) (mirror bk) ∧ bbo_ b = mkBBO 99 101 3 9.
Proof.
  destruct (closed_loop_exchange 1 AlgoType_MAKER [tiny_cfg; tiny_cfg] (LFQueue_new 8 MEClientRequest_default)
    (LFQueue_new 8 MEClientResponse_default) (LFQueue_new 8 MEMarketUpdate_default) (λ _, replicate 4 dzero) market_end)
    as (F1 & _ & _ & _ & F5);
    [by left|apply configured_tiny|done|done|done|apply holds_new; lia|cbn; lia|apply market_run|].
  destruct (te_ticker_order_book_ (w_engine (mw_world market_end)) !! 0%nat) as [b|] eqn:Hb; [|by vm_compute in Hb].
  destruct (w_exchange (mw_world market_end) !! 0%nat) as [bk|] eqn:Hbk; [|by vm_compute in Hbk].
  destruct (F5 0%nat b bk Hb Hbk) as [Himp Hbbo]; [by vm_compute|].
  exists b, bk. split_and!; [exact F1|done|done| |exact Himp|]; vm_compute in Hbk; injection Hbk as <-; [done|].
  rewrite Hbbo. by vm_compute.
Defined.

(** The maker bought two, and its orders are the ones that the exchange still has. *)
Example market_end_state :
  position_ <$> position_keeper_ (w_engine (mw_world market_end)) = [2; 0] ∧
  (om_qty_ <$> om_lookup (0%nat, side_index Side_BUY) (order_manager_ (w_engine (mw_world market_end)))) = Some 3.
Proof. by vm_compute. Qed.
