(* ===== verification/ExamplesLoop.v ===== *)
(** * A run of the closed loop

    A market maker and a small exchange: the maker quotes on both sides, its bid is accepted, another
    participant sells to it, and the maker learns of both.  Then a run of the random trader. *)
From S2P Require Import Prelude Types MemPool LFQueue EngineSink BookSpec MEOrderBook BookRep BookInv.
From S2P Require Import BookReplay BookRefine BookTheorems MatchingEngine ClientRequests ClientLink.
From S2P Require Import MarketOrderBook MarketBookSim MarketBookSpec MarketBookTheorems Double PositionKeeper.
From S2P Require Import RiskManager OrderManager FeatureEngine Algorithms TradeEngine OrderSafety.
From S2P Require Import TradingSafety TradingLoop OrderTraffic ClosedLoop Examples.
From S2P Require Import Wire Socket BookTypes RecvFrames OrderServer OrderGateway MarketStream SnapshotSynthesizer MarketDataPublisher.
From S2P Require Import MarketDataConsumer MarketMirror TradingMirror ClosedMarket MarketPipeline OrderPath System LateJoin MainPrograms LatencyRecorder ExamplesSession ExamplesMirror ExamplesTrading.
#[local] Existing Instance tiny_limits.

(** ** Steps as functions *)
Definition update_world (now : Z) (u : MEMarketUpdate) (W : World) : World :=
  mkWorld (after (Update now u) (w_engine W)) (books_after (Update now u) (w_market W)) (w_requests W) (w_answers W)
    (w_exchange W).

Definition answer_world (W : World) : World :=
  match w_answers W with
  | [] => W
  | r :: rs => mkWorld (after (Answer r) (w_engine W)) (w_market W) (w_requests W) rs (w_exchange W)
  end.

Definition gateway_world (W : World) : World :=
  match pop (outgoing_ogw_requests_ (w_engine W)) with
  | Ok (Some (req, q)) =>
      mkWorld (te_set_orders (order_manager_ (w_engine W), q) (w_engine W)) (w_market W) (w_requests W ++ [req])
        (w_answers W) (w_exchange W)
  | _ => W
  end.

Definition others_world (req : MEClientRequest) (W : World) : World :=
  let y := spec_step req (w_exchange W) in
  mkWorld (w_engine W) (w_market W) (w_requests W) (w_answers W ++ sent_to 1 y.2) y.1.

Definition exchange_world (W : World) : World :=
  match w_requests W with
  | [] => W
  | req :: reqs =>
      let y := spec_step req (w_exchange W) in
      mkWorld (w_engine W) (w_market W) reqs (w_answers W ++ sent_to 1 y.2) y.1
  end.

Definition handles (ev : te_event) (W : World) : bool :=
  match te_handle ev (w_engine W) with Ok _ => true | Err _ => false end.

Lemma handles_after ev W : handles ev W = true → te_handle ev (w_engine W) = Ok (tt, after ev (w_engine W)).
Proof. unfold handles, after. destruct (te_handle ev (w_engine W)) as [[[] e']|]; done. Qed.

Lemma update_world_step W now u :
  0 ≤ upd_ticker_id_ u → TradingSafety.event_ok (Update now u) (w_engine W) (w_market W) → ids_left (w_engine W) →
  handles (Update now u) W = true → loop_step 1 W (update_world now u W).
Proof. intros Ht He Hi Hh. apply step_update; try done. by apply handles_after. Qed.

Lemma answer_world_step W :
  (match w_answers W with r :: _ => handles (Answer r) W | [] => false end) = true → loop_step 1 W (answer_world W).
Proof.
  unfold answer_world. destruct (w_answers W) as [|r rs] eqn:E; [done|]. intros Hh.
  eapply step_answer; [exact E|]. by apply handles_after.
Qed.

Lemma gateway_world_step W :
  (match pop (outgoing_ogw_requests_ (w_engine W)) with Ok (Some _) => true | _ => false end) = true →
  loop_step 1 W (gateway_world W).
Proof.
  unfold gateway_world. destruct (pop _) as [[[req q]|]|] eqn:E; [|done..]. intros _. by apply step_gateway.
Qed.

Lemma exchange_world_step W :
  (match w_requests W with
   | req :: _ => match w_exchange W !! Z.to_nat (req_ticker_id_ req) with
                 | Some bk => next_id bk <? 2 ^ 64 - 1 | None => false end
   | [] => false end) = true →
  loop_step 1 W (exchange_world W).
Proof.
  unfold exchange_world. destruct (w_requests W) as [|req reqs] eqn:E; [done|].
  destruct (w_exchange W !! _) as [bk|] eqn:Eb; [|done]. intros Hn%Z.ltb_lt.
  apply step_exchange; [done|]. by exists bk.
Qed.

Lemma others_world_step W req : other_request 1 req (w_exchange W) → loop_step 1 W (others_world req W).
Proof. apply step_others. Qed.

(** ** The run *)
Definition loop_begin : World :=
  loop_start 1 AlgoType_MAKER [tiny_cfg; tiny_cfg] (LFQueue_new 8 MEClientRequest_default)
    (LFQueue_new 8 MEClientResponse_default) (LFQueue_new 8 MEMarketUpdate_default) (λ _, replicate 4 dzero).

(** Another participant sells two at the maker's bid. *)
Definition seller : MEClientRequest := mkMEClientRequest ClientRequestType_NEW 2 0 1 Side_SELL 98 2.

Definition loop_quoted : World := update_world 20 ask_update (update_world 10 bid_update loop_begin).
Definition loop_rested : World := exchange_world (gateway_world (gateway_world loop_quoted)).
Definition loop_traded : World := others_world seller loop_rested.
Definition loop_end : World := answer_world (answer_world loop_traded).

Lemma seller_ok : other_request 1 seller (w_exchange loop_rested).
Proof.
  destruct (w_exchange loop_rested !! 0%nat) as [bk|] eqn:E; [|by vm_compute in E].
  exists bk. split; [done|]. split; [exact E|]. split; [done|]. vm_compute in E. injection E as <-.
  cbn [seller req_type_ req_side_ req_qty_ req_price_ req_client_id_ req_order_id_]. split_and!.
  - by right.
  - unfold is_u32. lia.
  - lia.
  - intros o Ho [Hk _]. assert (Forall (λ o, s_client o = 1) [o]) as Hf.
    { apply list_elem_of_lookup in Ho as [i Hi]. vm_compute in Hi. destruct i as [|[|i]]; [|done|done].
      injection Hi as <-. by constructor. }
    apply Forall_cons in Hf as [Hf _]. congruence.
  - by vm_compute.
Qed.

Lemma loop_run : rtc (loop_step 1) loop_begin loop_end.
Proof.
  eapply rtc_l.
  { apply (update_world_step loop_begin 10 bid_update); [done|by apply quotes_ok|by vm_compute|by vm_compute]. }
  eapply rtc_l.
  { apply (update_world_step _ 20 ask_update); [done|by apply quotes_ok|by vm_compute|by vm_compute]. }
  eapply rtc_l; [apply gateway_world_step; by vm_compute|].
  eapply rtc_l; [apply gateway_world_step; by vm_compute|].
  eapply rtc_l; [apply exchange_world_step; by vm_compute|].
  apply (rtc_l _ loop_rested loop_traded); [apply others_world_step, seller_ok|].
  apply (rtc_l _ loop_traded (answer_world loop_traded)); [apply answer_world_step; by vm_compute|].
  apply (rtc_l _ (answer_world loop_traded) loop_end); [apply answer_world_step; by vm_compute|]. apply rtc_refl.
Qed.

Lemma closed_loop_limits_witness :
  exposures_kept (w_engine loop_end) ∧
  (∀ r rs, w_answers loop_end = r :: rs → conforms (order_manager_ (w_engine loop_end)) r ∧
     ∃ e', te_handle (Answer r) (w_engine loop_end) = Ok (tt, e')) ∧
  (∀ now u, TradingSafety.event_ok (Update now u) (w_engine loop_end) (w_market loop_end) →
     ∃ e', te_handle (Update now u) (w_engine loop_end) = Ok (tt, e')) ∧
  ∃ qs, holds (outgoing_ogw_requests_ (w_engine loop_end)) qs ∧ (length (w_requests loop_end) + length qs ≤ 4 * Z.to_nat ME_MAX_TICKERS)%nat.
Proof.
  apply (closed_loop_limits 1 AlgoType_MAKER [tiny_cfg; tiny_cfg] (LFQueue_new 8 MEClientRequest_default)
    (LFQueue_new 8 MEClientResponse_default) (LFQueue_new 8 MEMarketUpdate_default) (λ _, replicate 4 dzero) loop_end);
    [by left|apply configured_tiny|done|done|done|by apply holds_new; lia|cbn; lia|apply loop_run].
Defined.

(** The maker bought two, has three left to buy, and its other quote is on its way. *)
Example loop_end_state :
  position_ <$> position_keeper_ (w_engine loop_end) = [2; 0] ∧
  (om_qty_ <$> om_lookup (0%nat, side_index Side_BUY) (order_manager_ (w_engine loop_end))) = Some 3 ∧
  length (w_requests loop_end) = 1%nat.
Proof. by vm_compute. Qed.

(** The update that completes the book makes the maker quote, which ends a measurement; the one before does not. *)
Example tick_to_trade_sample :
  let measured u e := processMarketUpdateForBenchmark (mkTSCStamp 130 1) 20 (mkTSCStamp 100 1) u (LatencyRecorder_new 4) (e, TickToTrade_new) in
  match measured bid_update (w_engine loop_begin), measured ask_update (w_engine (update_world 10 bid_update loop_begin)) with
  | Ok (reached1, r1, _), Ok (reached2, r2, (e, x)) =>
      reached1 = false ∧ kept r1 = [] ∧ reached2 = true ∧ kept r2 = [30] ∧ ttt_measurement_active_ x = false ∧
      q_size (outgoing_ogw_requests_ e) = 2%nat
  | _, _ => False
  end.
Proof. by vm_compute. Qed.

(** ** The random trader, with the sizes of types.h *)
#[local] Instance types_limits : Limits := {|
  ME_MAX_TICKERS := 8;
  ME_MAX_CLIENT_UPDATES := 262144;
  ME_MAX_MARKET_UPDATES := 262144;
  ME_MAX_NUM_CLIENTS := 256;
  ME_MAX_ORDER_IDS := 1048576;
  ME_MAX_PRICE_LEVELS := 256
|}.

#[local] Instance request_list : RequestSink (list MEClientRequest) := λ r l, l ++ [r].

Definition counting_rand (k : nat) : Z := 7 * Z.of_nat k.

Lemma random_trader_sends_witness :
  ∃ st vec cancels, random_trader counting_rand 5 (λ _, 0) ([] : list MEClientRequest) = Ok st ∧
    random_session 5 (5 * 1000) vec cancels ∧ rt_out st = sends (interleaved vec cancels) [] ∧
    Z.of_nat (length vec) ≤ 10000 ∧ Forall (λ r, 0 ≤ req_order_id_ r < ME_MAX_ORDER_IDS) vec.
Proof.
  apply (random_trader_sends counting_rand 5); [done|cbn; lia|cbn; lia|cbn; lia].
Defined.

(** Two rounds, the second of which finds the engine silent for a minute. *)
Example random_trader_stops :
  match random_trader counting_rand 5 (λ i, if (i =? 1)%nat then 60 else 0) ([] : list MEClientRequest) with
  | Ok st => (λ r, (req_type_ r, req_order_id_ r)) <$> rt_out st =
      [(ClientRequestType_NEW, 5000); (ClientRequestType_CANCEL, 5000);
       (ClientRequestType_NEW, 5001); (ClientRequestType_CANCEL, 5001)]
  | Err _ => False
  end.
Proof. by vm_compute. Qed.

(** ** The whole program: an exchange of two tickers and a market maker *)
Section system.
#[local] Existing Instances tiny_limits tiny_sort tiny_sort_spec.
#[local] Instance system_buffers : BufferSizes := {| TCPBufferSize := 400; McastBufferSize := 500 |}.

(** *** Checks of the conditions of a round *)
Definition admissible_b (req : MEClientRequest) (bk : Book) : bool :=
  match req_type_ req with
  | ClientRequestType_NEW => new_b req bk && fresh_b (req_client_id_ req) (req_order_id_ req) bk
                             && (req_client_id_ req <? ME_MAX_NUM_CLIENTS) && (req_order_id_ req <? ME_MAX_ORDER_IDS)
  | ClientRequestType_CANCEL => negb (req_client_id_ req <? ME_MAX_NUM_CLIENTS) || (req_order_id_ req <? ME_MAX_ORDER_IDS)
  | ClientRequestType_INVALID => false
  end.
Definition u_b (w z : Z) : bool := (0 <=? z) && (z <? 2 ^ w).
Definition range_b (req : MEClientRequest) : bool :=
  u_b 32 (req_client_id_ req) && u_b 32 (req_ticker_id_ req) && u_b 64 (req_order_id_ req) && u_b 32 (req_qty_ req)
  && (Z.abs (req_price_ req) <? 2 ^ 30).
Fixpoint requests_b (reqs : list MEClientRequest) (bks : list Book) : bool :=
  match reqs with
  | [] => forallb (λ bk, next_id bk <=? ME_MAX_ORDER_IDS) bks
  | req :: reqs =>
      match bks !! Z.to_nat (req_ticker_id_ req) with
      | Some bk => admissible_b req bk && range_b req && requests_b reqs (spec_step req bks).1
      | None => false
      end
  end.

Fixpoint fits_b (reqs : list MEClientRequest) (bks : list Book) : bool :=
  match reqs with
  | [] => true
  | req :: reqs =>
      match bks !! Z.to_nat (req_ticker_id_ req) with
      | Some bk => (req_order_id_ req <? ME_MAX_ORDER_IDS) && (bool_decide (req_type_ req ≠ ClientRequestType_NEW) ||
          (new_b req bk && (next_id bk <? ME_MAX_ORDER_IDS)))
      | None => false
      end && fits_b reqs (spec_step req bks).1
  end.
Definition own_b (reqs : list MEClientRequest) (bks : list Book) : bool :=
  forallb range_b reqs && fits_b reqs bks.

Lemma fresh_b_ok client coid bk : fresh_b client coid bk = true → BookSpec.fresh client coid bk.
Proof.
  unfold fresh_b. rewrite forallb_forall. intros Hf o Ho [Hk1 Hk2]. apply list_elem_of_In in Ho. specialize (Hf o Ho).
  by rewrite Hk1, Hk2, !Z.eqb_refl in Hf.
Qed.

Lemma admissible_b_ok req bk : admissible_b req bk = true → admissible req bk.
Proof.
  unfold admissible_b, admissible. destruct (req_type_ req); [done| |].
  - rewrite !andb_true_iff, !Z.ltb_lt. intros (((Hn & Hf) & Hc) & Ho). apply new_b_ok in Hn as (Hs & Hq & _ & Hn & Hsl & Hr).
    split_and!; [done|done|cbn in Hn; lia|]. split_and!; try done. by apply fresh_b_ok.
  - rewrite orb_true_iff, negb_true_iff, Z.ltb_ge, Z.ltb_lt. intros [?|?] ?; lia.
Qed.

Lemma u_b_ok w z : u_b w z = true → 0 ≤ z < 2 ^ w.
Proof. unfold u_b. rewrite andb_true_iff, Z.leb_le, Z.ltb_lt. done. Qed.

Lemma range_b_ok req : range_b req = true → in_range req ∧ small_request req.
Proof.
  unfold range_b. rewrite !andb_true_iff, Z.ltb_lt. intros ((((R1 & R2) & R3) & R4) & R5). apply u_b_ok in R1, R2, R3, R4.
  split; [|by intros _]. split_and!; try done. unfold in_i64P. lia.
Qed.

Lemma requests_b_ok reqs bks : requests_b reqs bks = true → round_input reqs bks.
Proof.
  revert bks. induction reqs as [|req reqs IH]; intros bks; cbn [requests_b].
  { rewrite forallb_forall. intros Hf. split_and!; [done|constructor|constructor|]. apply Forall_forall. intros bk Hbk.
    apply Z.leb_le, Hf. by apply list_elem_of_In. }
  destruct (bks !! _) as [bk|] eqn:Hbk; [|done]. rewrite !andb_true_iff. intros ((Ha & Hr) & Hrest).
  destruct (IH _ Hrest) as (H1 & H2 & H3 & H4). apply range_b_ok in Hr as [R1 R2].
  split_and!; [|by constructor|by constructor|done]. split; [|done]. exists bk. split; [done|by apply admissible_b_ok].
Qed.

Lemma fits_b_ok reqs bks : fits_b reqs bks = true → fits reqs bks.
Proof.
  revert bks. induction reqs as [|req reqs IH]; intros bks; [done|]. cbn [fits_b fits]. rewrite andb_true_iff. intros [Hb Hr].
  split; [|by apply IH]. intros bk Hbk. rewrite Hbk, andb_true_iff, Z.ltb_lt in Hb. destruct Hb as [Hid Hnew]. split; [done|].
  intros E. rewrite bool_decide_false in Hnew by naive_solver. cbn [orb] in Hnew.
  rewrite andb_true_iff, Z.ltb_lt in Hnew. destruct Hnew as [Hnew Hn]. by apply new_b_ok in Hnew as (_ & _ & _ & _ & ? & ?).
Qed.

Lemma own_b_ok reqs bks : own_b reqs bks = true → Forall in_range reqs ∧ Forall small_request reqs ∧ fits reqs bks.
Proof.
  unfold own_b. rewrite andb_true_iff, forallb_forall. intros [Hr Hf].
  split_and!; [..|by apply fits_b_ok]; apply Forall_forall; intros q Hq%list_elem_of_In; by apply range_b_ok, Hr.
Qed.

Fixpoint sorted_b (l : list Z) : bool := match l with [] => true | x :: l => forallb (Z.ltb x) l && sorted_b l end.
Lemma sorted_b_ok l : sorted_b l = true → StronglySorted Z.lt l.
Proof.
  induction l as [|x l IH]; [constructor|]. cbn [sorted_b]. rewrite andb_true_iff, forallb_forall. intros [Hx Hl].
  constructor; [by apply IH|]. apply Forall_forall. intros y Hy. apply Z.ltb_lt, Hx. by apply list_elem_of_In.
Qed.

Definition ready_b (s : TCPSocket) (ms : list OMClientResponse) : bool :=
  (next_send_index_ s <=? length (outbound_data_ s))%nat && (length (outbound_data_ s) <=? TCPBufferSize)%nat && negb (closed_ s)
  && (length (pending s) + length (stream ms) <=? TCPBufferSize)%nat.
Definition responses_b (o : OrderServer) (socks : gmap nat TCPSocket) (rs : list MEClientResponse) : bool :=
  forallb (λ r, match cid_tcp_socket_ o !! rsp_client r with
                | Some (Some p) => match socks !! p with Some _ => true | None => false end | _ => false end) rs
  && (length (cid_next_outgoing_seq_num_ o) =? length (cid_tcp_socket_ o))%nat
  && forallb (λ x, ready_b x.2 (outgoing_on o rs x.1)) (map_to_list socks).

Lemma responses_b_ok o socks rs : responses_b o socks rs = true → responses_ok o socks rs.
Proof.
  unfold responses_b. rewrite !andb_true_iff, !forallb_forall, Nat.eqb_eq. intros ((H1 & H2) & H3). split_and!; [|done|].
  - apply Forall_forall. intros r Hr. apply list_elem_of_In, H1 in Hr.
    destruct (cid_tcp_socket_ o !! rsp_client r) as [[p|]|]; [|done..]. exists p. split; [done|]. by destruct (socks !! p).
  - intros p s Hs _. apply elem_of_map_to_list, list_elem_of_In, H3 in Hs. unfold ready_b in Hs. cbn [fst snd] in Hs.
    rewrite !andb_true_iff, negb_true_iff, !Nat.leb_le in Hs. destruct Hs as (((? & ?) & ?) & ?). by split_and!.
Qed.

(** *** The environment *)
Definition other_socket : nat := 7.
Definition system_env (reqs : list MEClientRequest) : Environment :=
  mkEnvironment reqs {[other_socket := tiny_socket]} [None; None; Some other_socket; None] bytewise bytewise
    (70000000000, 8) 7 (λ _, 8) (λ _, 9).

Definition system_round_b (c p : nat) (reqs : list MEClientRequest) (S : System) (bks : list Book) : bool :=
  let v := system_env reqs in
  let P := enter v c p S in
  let x := spec_steps (all_requests v S) bks in
  let own := own_requests S in
  forallb (λ q, negb (req_client_id_ q =? Z.of_nat c)) reqs && requests_b reqs bks && own_b own (spec_steps reqs bks).1
  && sorted_b (arrival_times (B := OMClientRequest)
       (bytewise (stream (numbered mkOMClientRequest (next_outgoing_seq_num_ (op_gateway (sy_path S))) own))))
  && (length (cid_tcp_socket_ (op_server (sy_path S))) =? 4)%nat && negb (p =? other_socket)%nat
  && (length reqs + length own <=? capacity (fifo_incoming_requests_ (fifo_sequencer_ (op_server (sy_path S)))))%nat
  && (length reqs + length own <=? capacity (fifo_incoming_requests_ (fifo_sequencer_ (op_server P))))%nat
  && (length own <=? ME_MAX_PENDING_REQUESTS)%nat && (length own * wire_size (A := OMClientRequest) <=? TCPBufferSize)%nat
  && (length (responses x.2) <=? capacity (outgoing_responses_ (op_server P)))%nat
  && (length (updates x.2) <=? capacity (outgoing_md_updates_ (outgoing_ (op_engine P))))%nat
  && (length (sent_to (Z.of_nat c) x.2) <=? capacity (og_incoming_responses_ (op_gateway P)))%nat
  && responses_b (owner_after p c own (op_server P)) (op_sockets P) (responses x.2)
  && (length (updates x.2) <=? 11)%nat
  && (q_size (snapshot_md_updates_ (sy_publisher S)) + length (updates x.2) <=? capacity (snapshot_md_updates_ (sy_publisher S)))%nat
  && (live_count (view_of bks) + adds (updates x.2) <? Z.to_nat ME_MAX_ORDER_IDS)%nat
  && (length (updates x.2) <=? capacity (TradeEngine.incoming_md_updates_ (sy_trader S)))%nat
  && (next_order_id_ (order_manager_ (sy_trader S)) + 2 * Z.of_nat (length (updates x.2)) <? 2 ^ 64).

Lemma system_round_b_ok c p reqs S bks : system_round_b c p reqs S bks = true → round_ok c p (system_env reqs) S bks.
Proof.
  unfold system_round_b. cbv zeta. rewrite !andb_true_iff, forallb_forall, !Nat.leb_le, Nat.ltb_lt, Nat.eqb_eq, negb_true_iff, Nat.eqb_neq, Z.ltb_lt.
  intros ((((((((((((((((((B1 & B2) & B2') & B3) & B4) & B5) & B6) & B7) & B8) & B9) & B10) & B11) & B12) & B13) & B14) & B17) & B18) & B15) & B16).
  constructor; cbn [system_env env_requests env_out env_back env_owners].
  - apply Forall_forall. intros q Hq. apply list_elem_of_In, B1, negb_true_iff, Z.eqb_neq in Hq. done.
  - by apply requests_b_ok.
  - by apply own_b_ok.
  - apply bytewise_ok. apply Nat.ltb_lt. reflexivity.
  - apply bytewise_ok. apply Nat.ltb_lt. reflexivity.
  - by apply sorted_b_ok.
  - split; [done|]. intros [|[|[|[|d]]]]; cbn; try done. intros [= E]. by symmetry in E.
  - lia.
  - unfold path_room. cbv zeta. cbn [length Nat.add]. split_and!; try done. by apply responses_b_ok.
  - exact B18.
  - unfold market_room. cbn [McastBufferSize system_buffers]. split_and!; [exact B17|done|lia].
  - done.
Qed.

Fixpoint system_rounds_b (c p : nat) (rounds : list (list MEClientRequest)) (S : System) (bks : list Book) : bool :=
  match rounds with
  | [] => true
  | reqs :: rounds =>
      system_round_b c p reqs S bks &&
      match system_round c p (system_env reqs) S with
      | Ok S' => system_rounds_b c p rounds S' (spec_steps (all_requests (system_env reqs) S) bks).1
      | Err _ => false
      end
  end.

Lemma system_rounds_b_ok c p rounds S bks :
  system_rounds_b c p rounds S bks = true → rounds_ok c p (system_env <$> rounds) S bks.
Proof.
  revert S bks. induction rounds as [|reqs rounds IH]; intros S bks; [done|]. cbn [system_rounds_b fmap list_fmap rounds_ok].
  intros [Hr Hrest]%andb_true_iff. split; [by apply system_round_b_ok|]. intros S' E. rewrite E in Hrest. by apply IH.
Qed.
(** *** Two programs and three rounds *)
Definition tiny_atoi (s : string) : Z :=
  if decide (s = "1") then 1 else if decide (s = "5") then 5 else if decide (s = "10") then 10 else 0.
Definition tiny_atof (s : string) : double :=
  if decide (s = "0.5") then dhalf else if decide (s = "-100") then of_int (-100) else dzero.

Definition exchange_kernel : ExchangeKernel := mkExchangeKernel (λ _, ∅) true 3 4 true true 5 6 true true.
Definition participant_kernel : ParticipantKernel :=
  mkParticipantKernel true 3 true 4 true [] true 1 (λ _, replicate 4 dzero).

Definition tiny_argv : list string :=
  ["1"; "MAKER"; "5"; "0.5"; "10"; "10"; "-100"; "5"; "0.5"; "10"; "10"; "-100"].

Definition tiny_exchange : result Exchange := exchange_main exchange_kernel.
Definition tiny_participant : result Participant := trading_start tiny_atoi tiny_atof tiny_argv participant_kernel.

(** Another client quotes on both sides of the first ticker, the maker's quotes follow, and then the other
    client sells through both bids. *)
Definition rounds : list (list MEClientRequest) :=
  [[new_of 2 1 99 Side_BUY 3; new_of 2 2 101 Side_SELL 4]; []; [new_of 2 3 98 Side_SELL 5]; []].

Definition on_programs {T} (d : T) (f : Exchange → Participant → T) : T :=
  match tiny_exchange, tiny_participant with Ok X, Ok A => f X A | _, _ => d end.
Definition on_system {T} (d : T) (f : System → T) : T :=
  on_programs d (λ X A, match connected 9 X A with Ok Y => f Y | Err _ => d end).

Definition system_end : option System :=
  on_system None (λ Y, match system_rounds 1 first_connection (system_env <$> rounds) Y with Ok Y' => Some Y' | Err _ => None end).

Lemma tiny_limits_fit : limits_fit.
Proof. constructor; cbn; lia. Qed.

Lemma programs_run_witness :
  on_programs False (λ X A, ∃ Y, connected 9 X A = Ok Y ∧
    ∃ Y', system_rounds 1 first_connection (system_env <$> rounds) Y = Ok Y' ∧
      let bks := (spec_steps (handled 1 first_connection (system_env <$> rounds) Y) no_orders).1 in
      Forall wf_book bks ∧ Forall2 implements (ticker_order_book_ (op_engine (sy_path Y'))) bks ∧
      snap_rep (sy_synthesizer Y') (view_of bks) ∧
      Forall2 (λ b bk, implements (matching b) (mirror bk) ∧ bbo_ b = quote bk) (te_ticker_order_book_ (sy_trader Y')) bks ∧
      exposures_kept (sy_trader Y')).
Proof.
  assert (on_system false (λ Y, system_rounds_b 1 first_connection rounds Y no_orders) = true) as Hr by (by vm_compute).
  assert (on_programs false (λ _ A, te_client_id_ (pa_trader A) =? 1) = true) as Hc by (by vm_compute).
  assert (on_programs None (λ _ A, Some (te_algo_ (pa_trader A), te_ticker_cfg_ (pa_trader A)))
    = Some (AlgoType_MAKER, [tiny_cfg; tiny_cfg])) as Ht by (by vm_compute).
  unfold on_system, on_programs in *. destruct tiny_exchange as [X|] eqn:HX; [|done].
  destruct tiny_participant as [A|] eqn:HA; [|done]. apply Z.eqb_eq in Hc. injection Ht as Halgo Hcfg.
  destruct (programs_run tiny_atoi tiny_atof exchange_kernel tiny_argv participant_kernel 9 X A (system_env <$> rounds))
    as (Y & HY & Hrun); [done|exact HX|exact HA| |apply tiny_limits_fit|constructor; cbn; lia|lia|].
  { split_and!; [by left; rewrite Halgo|rewrite Hc; cbn; lia| |by intros i].
    rewrite Hcfg. repeat constructor; apply tiny_limits_ok. }
  rewrite HY in Hr. rewrite Hc in Hrun. exists Y. split; [exact HY|]. apply Hrun. by apply system_rounds_b_ok.
Defined.

(** After the four rounds the maker has bought two of its five, which its books show. *)
Example programs_end :
  match system_end with
  | Some Y => position_ <$> position_keeper_ (sy_trader Y) = [2; 0] ∧
      bbo_ <$> te_ticker_order_book_ (sy_trader Y) !! 0%nat = Some (mkBBO 99 101 3 9)
  | None => False
  end.
Proof. by vm_compute. Qed.

(** *** A participant that joins when three orders rest, one of which trades before its recovery ends *)
Definition before_snapshot : list MEClientRequest :=
  [new_of 2 1 99 Side_BUY 3; new_of 2 2 101 Side_SELL 4; new_of 3 1 101 Side_SELL 6].
Definition after_snapshot : list MEClientRequest := [new_of 3 2 101 Side_BUY 5].

Definition snapshot_books : list Book := (spec_steps before_snapshot opened).1.
Definition all_updates : list MEMarketUpdate :=
  updates (spec_steps before_snapshot opened).2 ++ updates (spec_steps after_snapshot snapshot_books).2.
Definition the_cycle : list MEMarketUpdate := snapshot_cycle 8 3 (view_of snapshot_books).

(** The second update shows that the first is missing; the streams come interleaved, and the last two updates
    come after the SNAPSHOT_END. *)
Definition sent_before : nat := (length all_updates - 2)%nat.
Definition arrivals : list (bool * MDPMarketUpdate) :=
  let incs := pair false <$> numbered mkMDPMarketUpdate 2 (drop 1 (take sent_before all_updates)) in
  let snaps := pair true <$> numbered mkMDPMarketUpdate 0 the_cycle in
  take 1 incs ++ take 3 snaps ++ drop 1 incs ++ drop 3 snaps.
Definition later_arrivals : list (bool * MDPMarketUpdate) :=
  pair false <$> numbered mkMDPMarketUpdate (Z.of_nat sent_before + 1) (drop sent_before all_updates).

Definition joining_consumer : MarketDataConsumer :=
  match MarketDataConsumer_new (LFQueue_new 16 MEMarketUpdate_default) 7 true [(8, true); (8, true)] with
  | Ok c => mdc_set_run true c
  | Err _ => mkMarketDataConsumer 1 (LFQueue_new 16 MEMarketUpdate_default) false McastSocket_new McastSocket_new false [] [] []
  end.
Definition joining_trader : TradeEngine :=
  te_set_run true (TradeEngine_new 1 AlgoType_MAKER [tiny_cfg; tiny_cfg] (LFQueue_new 8 MEClientRequest_default)
    (LFQueue_new 8 MEClientResponse_default) (LFQueue_new 16 MEMarketUpdate_default) (λ _, replicate 4 dzero)).

Lemma joining_newcomer : newcomer joining_consumer joining_trader.
Proof.
  constructor; [by constructor|done|by exists 8, [(8, true)]| |done|split; by apply holds_new; lia].
  apply safe_set_run, new_engine_safe; [by left|apply configured_tiny|done|done].
Qed.

Lemma late_join_witness :
  ∃ c' e', join_round (arrivals ++ later_arrivals) (λ _, 8) (λ _, 9) joining_consumer joining_trader = Ok (c', e') ∧ consumer_ready (Z.of_nat (length all_updates) + 1) c' ∧
    engine_safe e' (mirror <$> (spec_steps after_snapshot snapshot_books).1) ∧ exposures_kept e' ∧ te_run_ e' = true ∧
    holds (incoming_ogw_responses_ e') [] ∧ holds (TradeEngine.incoming_md_updates_ e') [] ∧
    Forall2 (λ b bk, implements (matching b) (mirror bk) ∧ bbo_ b = quote bk) (te_ticker_order_book_ e')
      (spec_steps after_snapshot snapshot_books).1.
Proof.
  apply (late_join before_snapshot after_snapshot 1 sent_before arrivals (λ _, 8) (λ _, 9) joining_consumer joining_trader);
    [done|by apply requests_b_ok; vm_compute|by apply requests_b_ok; vm_compute| |apply joining_newcomer|split; apply Nat.leb_le; by vm_compute|split; apply Nat.leb_le; by vm_compute
    |by vm_compute|by vm_compute|by vm_compute|by vm_compute|by vm_compute|apply Nat.leb_le; by vm_compute].
  apply (Forall_impl (λ bk, (S (length (book_orders bk)) <? 8)%nat && (S (length (prices bk)) <? 8)%nat = true)).
  - repeat constructor; by vm_compute.
  - intros bk [H1%Nat.ltb_lt H2%Nat.ltb_lt]%andb_true_iff. by split.
Defined.

(** It sees the bid of three, and what is left of the orders at the offer: the queue is the exchange's. *)
Example late_join_end :
  match join_round (arrivals ++ later_arrivals) (λ _, 8) (λ _, 9) joining_consumer joining_trader with
  | Ok (_, e) => bbo_ <$> te_ticker_order_book_ e !! 0%nat = Some (mkBBO 99 101 3 5)
  | Err _ => False
  end.
Proof. by vm_compute. Qed.

(** When the third update, which the snapshot shows, comes after the SNAPSHOT_END, the consumer starts to recover again. *)
Definition stale_arrivals : list (bool * MDPMarketUpdate) :=
  let incs := pair false <$> numbered mkMDPMarketUpdate 2 (drop 1 (take 3 all_updates)) in
  take 1 incs ++ (pair true <$> numbered mkMDPMarketUpdate 0 the_cycle) ++ drop 1 incs.

Definition recovering (r : result MarketDataConsumer) : option bool :=
  match r with Ok c => Some (in_recovery_ c) | Err _ => None end.
Example stale_update_restarts :
  recovering (deliver (take (length stale_arrivals - 1) stale_arrivals) joining_consumer) = Some false ∧
  recovering (deliver stale_arrivals joining_consumer) = Some true.
Proof. split; by vm_compute. Qed.
End system.
