(* ===== verification/ExamplesPrint.v ===== *)
(** * Witnesses for the printing of the books and for the loggers. *)
From S2P Require Import Prelude Types MemPool LFQueue EngineSink BookSpec MEOrderBook BookRep BookRefine.
From S2P Require Import BookTheorems MatchingEngine MarketOrderBook MarketBookSim MarketBookSpec.
From S2P Require Import MarketBookTheorems Double UnorderedBook UnorderedSim UnorderedTheorems BookPrint.
From S2P Require Import BookPrintSpec Logger LoggerSpec LatencyRecorder Examples.
From Stdlib Require Import Ascii.

(** * Printed books *)

#[local] Existing Instance tiny_limits.

(** Two orders that rest at one price. *)
Definition shared_book : MEOrderBook :=
  match add (E := list event) 2 1 0 Side_SELL 100 5 (tiny_book, []) with Ok (_, (b, _)) => b | Err _ => tiny_book end.
Definition shared_spec : Book := (spec_add 2 1 0 Side_SELL 100 5 tiny_spec).1.

Lemma shared_implements : implements shared_book shared_spec.
Proof.
  assert (is_u32 5) as Hq by (unfold is_u32; lia).
  pose proof (wp_add tiny_book tiny_spec ([] : list event) 2 1 0 Side_SELL 100 5
    tiny_implements (or_intror eq_refl) Hq (λ _, tiny_rest)) as Hwp.
  unfold shared_book. unfold wp in Hwp.
  destruct (add 2 1 0 Side_SELL 100 5 (tiny_book, [])) as [[[] [b e]]|f]; [|done]. apply Hwp.
Qed.

Lemma shared_prices : inner_prices shared_spec.
Proof. intros p Hp. vm_compute in Hp. apply list_elem_of_singleton in Hp as ->. lia. Qed.

Lemma empty_prices bk : levels bk = ([], []) → inner_prices bk.
Proof. intros Hl p Hp. unfold prices in Hp. rewrite Hl in Hp. by apply not_elem_of_nil in Hp. Qed.

Definition unordered_new : UnorderedMapMEOrderBook := UnorderedMapMEOrderBook_new 0.
Definition market_new : MarketOrderBook := MarketOrderBook_new 0.

Lemma books_print_witness :
  MEOrderBook_toString shared_book true true = Ok (book_text snprintf true (ticker_id_ shared_book) shared_spec) ∧
  um_toString unordered_new true true = Ok (book_text sprintf true 0 empty_book) ∧
  mb_toString market_new true true = Ok (book_text snprintf true 0 empty_market_book).
Proof.
  apply (books_print shared_book unordered_new market_new shared_spec empty_book empty_market_book true true);
    [apply shared_implements|apply shared_prices|by apply um_new_implements|by apply empty_prices
    |by apply (market_new_implements 0)|by apply empty_prices].
Defined.

(** Its row: price, neighbours, the total of two orders; then the orders with their neighbours. *)
Example shared_line :
  level_line snprintf true ((100, []), (100, flat (levels shared_spec).2), (100, [])) =
  " <px:100 p:100 n:100> 100 @ 15   (2   )[oid:1 q:10 p:2 n:2] [oid:2 q:5 p:1 n:1] " +:+ endl.
Proof. by vm_compute. Qed.

(** A bid at the largest price, which is the invalid price, does not pass the validity check of
    toString, and the process exits. *)
Definition extreme_book : MEOrderBook :=
  match add (E := list event) 1 1 0 Side_BUY Price_INVALID 10 (tiny_new, []) with
  | Ok (_, (b, _)) => b | Err _ => tiny_new end.

Theorem extreme_price_exits : MEOrderBook_toString extreme_book false true = Err FatalExit.
Proof. by vm_compute. Qed.

(** * Concrete runs of the loggers and of the latency recorder *)

(** Printing of a double, for the runs: its class. *)
Definition print_class (d : double) : string := if deqb d d then "number" else "nan".

Definition tiny_logger : Logger := mkLogger "start:" (LFQueue_new 32 (CHAR "000"%char)) true.
Definition tiny_opt_logger : OptLogger := mkOptLogger "start:" (LFQueue_new 32 (OPT_CHAR "000"%char)) true.

Definition line : string := "100%% of %: %".
Definition line_args : list log_value := [val_cstr "orders"; val_unsigned 42].

Lemma tiny_logger_empty : holds (lg_queue_ tiny_logger) [].
Proof. apply holds_new. lia. Qed.
Lemma tiny_opt_logger_empty : holds (ol_queue_ tiny_opt_logger) [].
Proof. apply holds_new. lia. Qed.

Lemma log_writes_witness :
  ∃ g1 g2, log line line_args tiny_logger = Ok g1 ∧ flushQueue print_class print_class g1 = Ok g2 ∧
    lg_file_ g2 = lg_file_ tiny_logger +:+ cat (print_element print_class print_class <$> []) +:+ "100% of orders: 42" ∧
    holds (lg_queue_ g2) [].
Proof.
  apply (log_writes print_class print_class tiny_logger line line_args [] "100% of orders: 42");
    [reflexivity|apply tiny_logger_empty|vm_compute; reflexivity|apply Nat.leb_le; vm_compute; reflexivity].
Defined.

Lemma loggers_agree_witness :
  ∃ g' o', (log line line_args tiny_logger ≫= flushQueue print_class print_class) = Ok g' ∧
    (opt_log line line_args tiny_opt_logger ≫= opt_flushQueue print_class print_class) = Ok o' ∧
    lg_file_ g' = lg_file_ tiny_logger +:+ "100% of orders: 42" ∧
    ol_file_ o' = ol_file_ tiny_opt_logger +:+ "100% of orders: 42".
Proof.
  apply (loggers_agree print_class print_class tiny_logger tiny_opt_logger line line_args "100% of orders: 42");
    [reflexivity|reflexivity|apply tiny_logger_empty|apply tiny_opt_logger_empty|vm_compute; reflexivity| | |].
  - unfold line_args. rewrite !Forall_cons. split_and!; [apply Nat.leb_le; vm_compute; reflexivity|done|by constructor].
  - apply Nat.leb_le. vm_compute. reflexivity.
  - apply Nat.leb_le. vm_compute. reflexivity.
Defined.

Definition stamps : list (TSCStamp * TSCStamp) :=
  [(mkTSCStamp 10 0, mkTSCStamp 25 0); (mkTSCStamp 30 0, mkTSCStamp 40 1); (mkTSCStamp 50 1, mkTSCStamp 57 1);
   (mkTSCStamp 60 1, mkTSCStamp 70 1)].

Lemma recorder_keeps_witness :
  kept (records stamps (LatencyRecorder_new 2)) = [15; 7] ∧ offered (records stamps (LatencyRecorder_new 2)) = 4.
Proof. apply (recorder_keeps stamps 2). done. Defined.
